(* ===== verification/_CoqProject ===== *)
-Q . S2P
Prelude.v
Time.v
Json.v
Fencing.v
LedgerState.v
LedgerOperations.v
LedgerEffects.v
LedgerServices.v
LedgerEvents.v
LedgerLeases.v
LedgerCheckpoints.v
LedgerStatus.v
LedgerSafety.v
LedgerHistory.v
LedgerPrimary.v
LedgerAdmission.v
LedgerEvolution.v
LedgerIngest.v
LedgerMutex.v
LedgerHead.v
Lifecycle.v
Uuid.v
Provider.v
Manifest.v
Registry.v
Publisher.v
Coordinator.v
CoordinatorSafety.v
CoordinatorLifecycle.v
CoordinatorEffects.v
Tunnel.v
TunnelState.v
TunnelSafety.v
TunnelCalls.v
TunnelFencing.v
TunnelIssue.v
OAuthStore.v
OAuth.v
OAuthSafety.v
OAuthFlow.v
OAuthClients.v
OAuthValidator.v
UploadLedger.v
UploadSafety.v
UploadRuns.v
ManifestPayload.v
UploadIncarnation.v
UploadService.v
UploadServiceSafety.v
UploadServiceScenario.v
UploadServiceRuns.v
ConnectorContracts.v
ConnectorSpool.v
ConnectorSpoolSafety.v
ConnectorDurability.v
ConnectorDurabilitySafety.v
ConnectorIntake.v
ConnectorIntakeSafety.v
RateLimiter.v
Admission.v
AdmissionSafety.v
