(* ===== verification/Prelude.v ===== *)
(** * my-data-hub: verification of the control plane

    my-data-hub keeps one canonical PostgreSQL database on rented, short-lived
    compute.  A small always-on control plane admits one master at a time, has a
    provider start it, hears its events, resolves it as the only writable
    primary, and saves its state as checkpoints that are verified before they
    become the one the next master boots from.  All paths below are under
    src/src/my_data_hub/.

    ** The parts and where they are modelled

    - Prelude (this file): exceptions, outcomes and the state-and-exception
      monad [M S A] every method is written in, the text operations of Python
      the code uses, and the shared lemmas and tactics.
    - Time, Json, Uuid: what the code uses of [datetime], [json] and [uuid]:
      the timestamp texts the ledger stores and compares, canonical JSON and its
      reader, the secret filter [_safe_json], UUID texts.
    - The control ledger, control_plane/ledger/store.py ([ControlLedger]) on the
      tables of control_plane/ledger/sql: LedgerState has the tables as lists of
      rows and the SQL statements, with constraints and transactions;
      LedgerOperations, LedgerEffects, LedgerServices, LedgerEvents,
      LedgerLeases, LedgerCheckpoints and LedgerStatus have one definition per
      method.  LedgerSafety makes executions of them ([ledger_call],
      [ledger_run]: any sequence of calls, each returning or raising).
      LedgerHistory, LedgerPrimary, LedgerAdmission, LedgerEvolution,
      LedgerIngest, LedgerMutex and LedgerHead prove what holds in every
      execution.
    - Fencing: master_runtime/fencing.py, the epoch fence and the lease watchdog
      inside the master.
    - Lifecycle: orchestrator/master/state_machine.py.
    - Provider: orchestrator/master/evidence.py, provider.py and fake_kaggle.py;
      the provider port is a type class and the double an instance of it.
    - Coordinator: orchestrator/master/coordinator.py, every method of
      [MasterCoordinator] over the ledger, any provider and any tunnel
      authority.  CoordinatorSafety makes executions of it
      ([coordinator_call], [coordinator_run]) and walks every statement once,
      for any relation that the ledger's calls respect; CoordinatorLifecycle and
      CoordinatorEffects instantiate that walk.
    - The tunnel broker, tunnel_broker.py ([TunnelBroker]): Tunnel has the lease
      and the durable state with their JSON form, and every method as a program
      over the broker's directory (state.json, the two principals files, the
      revocation list) in which each access to the operating system may fail or
      kill the process.  TunnelState proves that well-formed states read back,
      TunnelSafety what a session may write, TunnelCalls lifts that to whole
      calls, TunnelFencing and TunnelIssue prove what sshd can admit and what a
      certificate is.
    - OAuth, oauth_server and mcp/oauth.py: OAuthStore has the contract of the
      grant store, the memory store and the store on the control ledger, and
      proves that the second refines the first; OAuth is the authorization
      server ([AuthorizationService]) over any grant store and any client
      authority; OAuthSafety makes executions of it ([oauth_call], [oauth_run])
      and walks every statement once for any property of the store; OAuthFlow
      follows a code from its issue to its exchange; OAuthClients is the
      authority on the ledger's table of clients; OAuthValidator is the bearer
      check of the resource server and joins the two ends.
    - Uploads: UploadLedger has the tables of the brokered checkpoint uploads
      beside the ledger's and every method of [CheckpointUploadLedger]
      (control_plane/checkpoint_upload_ledger.py); UploadSafety the state
      machines of claims and publications and an invariant that each method
      keeps; UploadRuns the executions ([upload_action], [upload_run]).
      UploadIncarnation has the ledger's methods for a checkpoint Dataset that
      has vanished.  UploadService is [BrokeredCheckpointUploadService]
      (checkpoints/brokered_upload.py) over any provider adapter and any
      verifier; UploadServiceSafety walks every statement of it once,
      UploadServiceRuns makes executions ([service_request_call],
      [service_run]) and proves what holds in all of them, and
      UploadServiceScenario has one master's requests that they are tried on.
    - Manifest, Registry, Publisher: checkpoints/manifest.py, registry.py and
      publisher.py; the publisher is proved against the laws of the registry
      contract, which both registries satisfy.  ManifestPayload is
      [CheckpointManifest.from_payload].
    - Connectors, connectors/: ConnectorContracts has the receipts with their
      validators.  ConnectorSpool is the producer's side (spool.py): the files of
      [DurableConnectorSpool], where each access may fail or kill the process,
      and [ConnectorDeliveryService] over any transport.  ConnectorIntake is
      [ConnectorIntakeService] and the repository's [accept] (service.py,
      repository.py, postgres.py) on the tables of sql/migrations/0010.
      ConnectorDurability is durability.py over the table
      integration.connector_durability (0018), for any checkpoint coordinator.
      ConnectorSpoolSafety, ConnectorIntakeSafety and ConnectorDurabilitySafety
      have the executions of each ([spool_run], [intake_run],
      [connector_run]) and what holds in all of them.
    - The admission boundary of the MCP server, mcp/admission.py: RateLimiter is
      [SlidingWindowRateLimiter], Admission the parsers of Host and Origin and
      [HTTPAdmissionSecurity] over any application and any authenticator, the
      bearer check of OAuthValidator being one.  AdmissionSafety has the
      executions ([gateway_run]) and what holds in all of them.

    The coordinator calls the ledger and the provider; the durable registry
    calls the ledger; the publisher calls a registry; the ledger checks the
    coordinator's callers (tokens, epochs) itself.  The coordinator reaches the
    tunnel broker through its tunnel authority, from another process.  The
    authorization server and the bearer check share the ledger's table of
    clients; the tokens go from one to the other.  An envelope goes from the
    spool over the transport to intake; its receipt opens the row that the
    durability service advances, and the receipt of that row lets the spool
    remove the envelope.  The admission boundary asks the bearer check who the
    caller is before a request reaches the MCP application.

    ** State, errors, time and integers

    A method is a function from its arguments and the state to an outcome
    ([Ret] or [Exc]) and the new state; [atomically] is a transaction that rolls
    back on an exception, while the in-memory objects keep what they changed
    before raising.  Python integers are unbounded and are [Z]; times are
    microseconds since the epoch.  A call of the ledger gets the reading of the
    clock as an argument, the coordinator reads [clock 0], [clock 1], ... in
    turn.  A Python dict is an association list where its order or text matters
    and a [gmap] otherwise.

    ** What the theorems show

    - One writable primary: at most one service of a kind resolves and it has
      the newest epoch; epochs never decrease; a superseded service never
      resolves again; the fence never lets an older epoch write.
    - One live master: whatever the coordinator is asked for, and whatever the
      rest of the program asks of the ledger in between ([other_caller]), at most
      one master operation is not terminal; admission has the stated conditions
      and results and is idempotent.
    - Checkpoints: HEAD always names a verified candidate; promotion is a
      compare-and-swap; settled candidates stay settled; a failed publication
      leaves HEAD alone and a successful one passed every gate in order; both
      registries keep the contract; a manifest's self-hash binds its content.
    - Effects: an effect is claimed at most once, an applied one is final, and
      under the coordinator no idempotency key has two effects at the provider,
      however often calls fail and are repeated.
    - Events: what is recorded is authentic, a replay is a duplicate that changes
      nothing, an older epoch is fenced.
    - The coordinator: its executions are executions of the ledger, by calls at
      successive readings of the clock that keep to the state machine and leave no
      terminal state, so what asks this of the ledger's callers holds under it;
      every row it adds to the log of operations is a transition of the state
      machine, but for the late failure of a stopped master; an event stops a
      master only over a durable verified HEAD.
    - The tunnel: whatever fails or dies, state.json can be read again; once a
      newer lease was activated, or the lease deactivated, sshd admits neither
      the older principals nor, on the masters' and the workers' account, their
      certificates in any continuation; a failed call has written nothing or
      leaves the tunnel closed (or, without a lease, no wider than it was); certificates are short, within the lease,
      and recorded before they are handed out; a worker's request is idempotent.
    - OAuth: a code is exchanged once at most; a refresh credential presented
      twice ends its family; a family has one usable credential, and each
      rotation narrows its scopes and expiry; a disabled client gets nothing and
      is not enabled again by the server; an authorized client is served, and
      its token is accepted by its resource within its lifetime and nowhere
      else; a bearer token that is accepted passed every check.
    - Uploads: a blob is started at the provider once at most; a publication is
      finalized, verified and promoted only with every file uploaded, moves
      along its state machine, and stays promoted or quarantined; its
      verification is reopened at most 8 times; sealed grants are erased; a call
      that raises changes nothing or records a conflict.  The service only runs
      the ledger's methods, so this holds under it; it asks the provider at most
      once to start a blob and to create a checkpoint's Dataset version; a grant
      goes to the live runtime of the current epoch, as of the readings of the
      clock in the call, for a file of the manifest
      the ledger has.
    - Connectors: once a producer's envelope is enqueued, its exact bytes stay
      pending, unless a DURABLE_COMPLETE receipt for it is on disk or they went
      to quarantine; intake accepts an idempotency key once, answers repetitions
      with the first receipt and keeps what differs; a batch is DURABLE_COMPLETE
      only on the coordinator's word about exactly its checkpoint, and stays so.
    - The admission boundary: what reaches the application was bounded, for an
      allowed Host and Origin, from a caller the authenticator knew; a caller
      gets no more requests in than the limit in any window, as long as there
      are no more callers than the limiter has room for, and its table never
      grows beyond that room; what the client gets
      is bounded, has the security headers, and never the text of an error of
      the application.
    - Histories: replaying the logs gives the tables; a call that raises changes
      no table.
    - Texts: canonical JSON, timestamps and checkpoint manifests read back;
      what passes the secret filter has no secret-bearing key.
    - Where the code falls short, on concrete executions: the order of timestamp
      texts is not the order of instants within a second, so a lease can be held
      twice and an ended service still resolve; a stopped master can be
      overwritten as failed; a checkpoint that replaces a vanished Dataset is
      never promoted once its verification was interrupted; an envelope in a
      producer's quarantine is overwritten by the next of its identity.

    ** Parameters, bounds and fuel

    SHA-256, the S256 transformation, the JWT encoding and signature check,
    the random source, the resolver of client metadata, UUID version 5,
    pydantic's validation, [datetime.fromisoformat], AES-GCM, [urlsplit],
    [parse_qsl], [ipaddress], the IDNA encoding, the deadlines of the admission
    boundary (which await is cut), the parser of connector envelopes, the delay of retries (floating point), the
    transport, the provider, the upload adapter, the tunnel authority, the
    restore verifier, the file reads of the publisher, ssh-keygen and the
    failures of the operating system are parameters.  What is assumed of them
    is a hypothesis or a class: an injective hash for the manifest,
    [HonestProvider] for effects; for the tunnel that [fromisoformat] inverts
    [isoformat], that a digest is 64 hexadecimal characters and that
    ssh-keygen writes certificates; for OAuth that the random values of an
    execution do not repeat and their digests do not collide, that a digest
    has 64 characters, that credentials are bounded ASCII texts, and that the
    metadata of a client names it; for connectors that a validated envelope
    keeps the bytes it was parsed from, that UUIDs have 128 bits, and that a
    receipt reads back from its JSON. Structural recursion on a fuel appears
    in the JSON reader (the length of the text is enough: the round trip
    proves it) and in the removal of repeated fragments of a text (again its
    length).  [reconcile_loop] runs the three passes the source has.

    ** Not modelled

    Calls are atomic: two processes interleave between method calls, not
    inside one, because the ledger's methods are single transactions and the
    fence's take a lock; the coordinator's methods, which are not atomic, are
    sequential here; the broker's methods hold its file lock.  Replacing a
    file is atomic. The service awaits its store between two statements of a
    request; requests to the authorization server are sequential here, and so
    are those to the upload service and the admission boundary. The HTTP
    applications, the Notebook's
    side of the uploads, the uploads of acceptance runs, the owner's login,
    MCP behind its admission boundary, the Kaggle client, the notebook boot,
    PostgreSQL itself, archives on disk, the connectors' HTTP and canonical
    normalisation, workloads and operator scripts are I/O around third-party
    code and are left out, as are the ledger's methods on the tables of
    provider uploads, embeddings, acceptance runs and blogger migration apart
    from the import receipt.  Two methods that fence a master by hand or for an
    acceptance run, and one that retires a failed version, also write modelled
    tables and are not among the calls of [ledger_run]; the first two only move
    an operation to FENCED.  Sending an answer over ASGI does not fail, and
    json.loads does not run out of stack.  The calls of the durability service
    for one batch come one after the other. *)

From Stdlib Require Import DecimalString.
From Stdlib Require Export ZArith Lia Ascii.
From stdpp Require Export base option list strings gmap numbers.

(** ** Exceptions

    The classes of exception the modelled code raises or catches.  The class
    matters where the source catches one class and not another
    ([suppress(ValueError)], [except sqlite3.IntegrityError], ...). *)
Inductive exn_class : Set :=
| ValueError | KeyError | TypeError | AttributeError | AssertionError | RuntimeError
| FencingError | ManifestError | PublishError | InvalidMasterTransition
| IdempotencyConflict | MasterAdmissionRejected | StaleRuntimeEvent
| EventRejected | LeaseRejected | IntegrityError | SimulatedProcessCrash
| ProviderError | TunnelBrokerError | OSError | ProcessKilled
| OAuthProtocolError | ClientMetadataError | TokenValidationError
| BrokeredCheckpointError | BrokeredCheckpointQuarantined | CheckpointRuntimeError | MasterProviderUnavailable
(** pydantic's, a subclass of [ValueError] *)
| ValidationError
| LookupError | ConnectorContractError | ConnectorCapabilityBlocked | ConnectorDurabilityConflict | SpoolConflict | SpoolIntegrityError
| PermissionError | ConnectorAuthorizationError.

#[global] Instance exn_class_eq_dec : EqDecision exn_class.
Proof. solve_decision. Defined.

(** An exception value: its class and its message. *)
Record exn : Set := Exn { exn_cls : exn_class; exn_msg : string }.

#[global] Instance exn_eq_dec : EqDecision exn.
Proof. solve_decision. Defined.

(** [isinstance(e, ValueError)]: these are declared as subclasses of
    [ValueError]. *)
Definition is_value_error (e : exn) : bool :=
  match exn_cls e with
  | ValueError | InvalidMasterTransition | OAuthProtocolError | ClientMetadataError | ValidationError
  | ConnectorContractError => true
  | _ => false
  end.

(** [type(exc).__name__] *)
Definition class_name (e : exn) : string :=
  match exn_cls e with
  | ValueError => "ValueError" | KeyError => "KeyError" | TypeError => "TypeError" | AttributeError => "AttributeError"
  | AssertionError => "AssertionError" | RuntimeError => "RuntimeError" | FencingError => "FencingError"
  | ManifestError => "ManifestError" | PublishError => "PublishError" | InvalidMasterTransition => "InvalidMasterTransition"
  | IdempotencyConflict => "IdempotencyConflict" | MasterAdmissionRejected => "MasterAdmissionRejected"
  | StaleRuntimeEvent => "StaleRuntimeEvent" | EventRejected => "EventRejected" | LeaseRejected => "LeaseRejected"
  | IntegrityError => "IntegrityError" | SimulatedProcessCrash => "SimulatedProcessCrash" | ProviderError => "ProviderError"
  | TunnelBrokerError => "TunnelBrokerError" | OSError => "OSError" | ProcessKilled => "ProcessKilled"
  | OAuthProtocolError => "OAuthProtocolError" | ClientMetadataError => "ClientMetadataError"
  | TokenValidationError => "TokenValidationError" | BrokeredCheckpointError => "BrokeredCheckpointError"
  | BrokeredCheckpointQuarantined => "BrokeredCheckpointQuarantined" | CheckpointRuntimeError => "CheckpointRuntimeError"
  | MasterProviderUnavailable => "MasterProviderUnavailable" | ValidationError => "ValidationError"
  | LookupError => "LookupError" | ConnectorContractError => "ConnectorContractError"
  | ConnectorCapabilityBlocked => "ConnectorCapabilityBlocked" | ConnectorDurabilityConflict => "ConnectorDurabilityConflict"
  | SpoolConflict => "SpoolConflict" | SpoolIntegrityError => "SpoolIntegrityError"
  | PermissionError => "PermissionError" | ConnectorAuthorizationError => "ConnectorAuthorizationError"
  end.

(** ** Results and stateful computations

    A Python call returns a value or raises.  A method of an object with
    mutable state also changes that state, and the changes made before a
    [raise] stay unless the code undoes them: the state is returned on both
    paths. *)
Inductive outcome (A : Type) : Type :=
| Ret (a : A)
| Exc (e : exn).
Arguments Ret {A} a.
Arguments Exc {A} e.

#[global] Instance outcome_ret : MRet outcome := λ A a, Ret a.
#[global] Instance outcome_bind : MBind outcome := λ A B k m,
  match m with Ret a => k a | Exc e => Exc e end.

Definition M (S A : Type) : Type := S → outcome A * S.

#[global] Instance M_ret {S} : MRet (M S) := λ A a s, (Ret a, s).
#[global] Instance M_bind {S} : MBind (M S) := λ A B k m s,
  match m s with
  | (Ret a, s') => k a s'
  | (Exc e, s') => (Exc e, s')
  end.

Section combinators.
Context {S : Type}.

Definition raise {A} (c : exn_class) (msg : string) : M S A :=
  λ s, (Exc (Exn c msg), s).
Definition get : M S S := λ s, (Ret s, s).
Definition gets {A} (f : S → A) : M S A := λ s, (Ret (f s), s).
Definition put (s' : S) : M S unit := λ _, (Ret tt, s').
Definition modify (f : S → S) : M S unit := λ s, (Ret tt, f s).
Definition lift {A} (o : outcome A) : M S A := λ s, (o, s).

(** [if cond: raise C(msg)] *)
Definition raise_if (b : bool) (c : exn_class) (msg : string) : M S unit :=
  if b then raise c msg else mret tt.

(** [assert x is not None] followed by uses of [x]. *)
Definition assert_some {A} (o : option A) : M S A :=
  match o with Some a => mret a | None => raise AssertionError "" end.

(** A database transaction: an exception rolls every change back. *)
Definition atomically {A} (m : M S A) : M S A := λ s,
  match m s with
  | (Ret a, s') => (Ret a, s')
  | (Exc e, _) => (Exc e, s)
  end.

(** [try: m except Exception as e: h(e)] *)
Definition try_except {A} (m : M S A) (h : exn → M S A) : M S A := λ s,
  match m s with
  | (Ret a, s') => (Ret a, s')
  | (Exc e, s') => h e s'
  end.

(** [raise] of the exception in hand. *)
Definition reraise {A} (e : exn) : M S A := λ s, (Exc e, s).

End combinators.

(** Raising in code that keeps no state. *)
Definition throw {A} (c : exn_class) (msg : string) : outcome A := Exc (Exn c msg).
Definition throw_if (b : bool) (c : exn_class) (msg : string) : outcome unit :=
  if b then throw c msg else Ret tt.

(** ** Notations: Python's [==] and [!=] on values with decidable equality. *)
Declare Scope py_scope.
Delimit Scope py_scope with py.
Notation "x == y" := (bool_decide (x = y)) (at level 70, no associativity) : py_scope.
Notation "x != y" := (negb (bool_decide (x = y))) (at level 70, no associativity) : py_scope.
Open Scope py_scope.
Open Scope string_scope.
Open Scope Z_scope.

(** ** Strings

    A Python [str] is a [string] whose characters are its code points. *)
Definition slen (s : string) : Z := Z.of_nat (String.length s).

(** [str(n)] of an [int]. *)
Definition str_int (n : Z) : string := NilZero.string_of_int (Z.to_int n).

(** [not s or len(s) > n] *)
Definition blank_or_longer (s : string) (n : Z) : bool := (s == "") || (n <? slen s).

(** [s.startswith(p)] and [s.removeprefix(p)]. *)
Definition startswith (p s : string) : bool := String.prefix p s.
Definition removeprefix (p s : string) : string :=
  if startswith p s then String.substring (String.length p) (String.length s - String.length p) s else s.

(** Drop a given first character. *)
Definition read_char (c : Ascii.ascii) (s : string) : option string :=
  match s with
  | String c' s' => if c == c' then Some s' else None
  | EmptyString => None
  end.

Fixpoint string_forallb (f : Ascii.ascii → bool) (s : string) : bool :=
  match s with
  | EmptyString => true
  | String c s' => f c && string_forallb f s'
  end.

Definition in_char_range (lo hi : Ascii.ascii) (c : Ascii.ascii) : bool :=
  (Ascii.nat_of_ascii lo <=? Ascii.nat_of_ascii c)%nat &&
  (Ascii.nat_of_ascii c <=? Ascii.nat_of_ascii hi)%nat.

(** A character of [0123456789abcdef]. *)
Definition is_lower_hex (c : Ascii.ascii) : bool :=
  in_char_range "0"%char "9"%char c || in_char_range "a"%char "f"%char c.

(** [re.fullmatch(r"[a-f0-9]{64}", s)] *)
Definition is_sha256 (s : string) : bool :=
  (slen s =? 64) && string_forallb is_lower_hex s.

(** [x in {a, b, ...}] *)
Definition mem {A} `{EqDecision A} (x : A) (l : list A) : bool := existsb (λ y, x == y) l.
Arguments mem : simpl never.

(** Rows in the order of [ORDER BY le], and [sorted(l, key=...)]. *)
Fixpoint insert_sorted {R} (le : R → R → bool) (r : R) (l : list R) : list R :=
  match l with
  | [] => [r]
  | x :: l' => if le r x then r :: l else x :: insert_sorted le r l'
  end.

Definition order_by {R} (le : R → R → bool) (l : list R) : list R := foldr (insert_sorted le) [] l.

(** ** Automation *)

Create HintDb py.
Create Rewrite HintDb py.
#[export] Hint Rewrite orb_true_iff orb_false_iff andb_true_iff andb_false_iff
  negb_true_iff negb_false_iff @bool_decide_eq_true @bool_decide_eq_false
  Z.leb_le Z.leb_gt Z.ltb_lt Z.ltb_ge Z.eqb_eq Z.eqb_neq : py.

(** Turn boolean tests in the context into propositions. *)
Ltac b2p := autorewrite with py in *.

(** [lia] with division and remainder by constants. *)
Ltac dlia := Z.to_euclidean_division_equations; lia.

(** Unfold the monad's operations and compute. *)
Ltac py_cbn :=
  unfold mbind, M_bind, mret, M_ret, outcome_bind, outcome_ret, raise, get, gets, put,
    modify, lift, raise_if, assert_some, atomically, try_except, throw, throw_if in *;
  cbn [fst snd] in *.

(** Run the computation in the context to each of its exits. *)
Ltac py_cases :=
  repeat (py_cbn; simplify_eq/=; try (case_match; simplify_eq/=)).

(** ** Generic lemmas *)

Section preservation.
Context {S : Type} (I : S → Prop).

(** A computation that keeps the invariant [I], whether it returns or raises. *)
Definition preserves {A} (m : M S A) : Prop := ∀ s, I s → I (m s).2.

Lemma preserves_ret {A} (a : A) : preserves (mret a).
Proof. by intros s Hs. Qed.

Lemma preserves_raise {A} c msg : preserves (raise (A:=A) c msg).
Proof. by intros s Hs. Qed.

Lemma preserves_raise_if b c msg : preserves (raise_if b c msg).
Proof. intros s Hs. by destruct b. Qed.

Lemma preserves_gets {A} (f : S → A) : preserves (gets f).
Proof. by intros s Hs. Qed.

Lemma preserves_lift {A} (o : outcome A) : preserves (lift o).
Proof. by intros s Hs. Qed.

Lemma preserves_bind {A B} (m : M S A) (k : A → M S B) :
  preserves m → (∀ a, preserves (k a)) → preserves (mbind k m).
Proof.
  intros Hm Hk s Hs. specialize (Hm s Hs). unfold mbind, M_bind.
  destruct (m s) as [[a|e] s']; [by apply Hk|done].
Qed.

Lemma preserves_atomically {A} (m : M S A) : preserves m → preserves (atomically m).
Proof.
  intros Hm s Hs. specialize (Hm s Hs). unfold atomically.
  by destruct (m s) as [[a|e] s'].
Qed.

End preservation.

#[export] Hint Resolve preserves_ret preserves_raise preserves_raise_if preserves_gets
  preserves_lift preserves_bind preserves_atomically : py.

(** A transaction that raises leaves the database as it was. *)
Lemma atomically_exc {S A} (m : M S A) s e s' :
  atomically m s = (Exc e, s') → s' = s.
Proof. unfold atomically. destruct (m s) as [[a|e'] s'']; naive_solver. Qed.

(** A transaction returns exactly when its body does, with the body's state. *)
Lemma atomically_ret {S A} (m : M S A) s a s' :
  atomically m s = (Ret a, s') ↔ m s = (Ret a, s').
Proof. unfold atomically. destruct (m s) as [[a'|e'] s'']; naive_solver. Qed.

Lemma bind_ret_inv {S A B} (m : M S A) (k : A → M S B) s b s' :
  (mbind k m) s = (Ret b, s') → ∃ a s1, m s = (Ret a, s1) ∧ k a s1 = (Ret b, s').
Proof. unfold mbind, M_bind. destruct (m s) as [[a|e] s1]; naive_solver. Qed.

(** ** Inverting a computation that returned *)

Section inversion.
Context {S : Type}.

Lemma atomically_inv {A} (m : M S A) s a s' : atomically m s = (Ret a, s') → m s = (Ret a, s').
Proof. apply atomically_ret. Qed.

Lemma mret_inv {A} (a b : A) (s s' : S) : (mret a : M S A) s = (Ret b, s') → a = b ∧ s' = s.
Proof. by intros [= -> ->]. Qed.

Lemma gets_inv {A} (f : S → A) s a s' : gets f s = (Ret a, s') → a = f s ∧ s' = s.
Proof. by intros [= <- <-]. Qed.

Lemma get_inv (s a s' : S) : get s = (Ret a, s') → a = s ∧ s' = s.
Proof. by intros [= <- <-]. Qed.

Lemma raise_inv {A} c msg (s s' : S) (a : A) : raise c msg s = (Ret a, s') → False.
Proof. done. Qed.

Lemma obind_inv {A B} (m : outcome A) (k : A → outcome B) b : (mbind k m) = Ret b → ∃ a, m = Ret a ∧ k a = Ret b.
Proof. destruct m as [a|e]; [|done]. by exists a. Qed.

Lemma throw_if_inv b c msg u : throw_if b c msg = Ret u → b = false.
Proof. by destruct b. Qed.

Lemma lift_inv {A} (o : outcome A) (s s' : S) a : lift o s = (Ret a, s') → o = Ret a ∧ s' = s.
Proof. by intros [= -> ->]. Qed.

Lemma raise_if_inv b c msg (s s' : S) u : raise_if b c msg s = (Ret u, s') → b = false ∧ s' = s.
Proof. destruct b; [done|]. by intros [= _ <-]. Qed.

Lemma assert_some_inv {A} (o : option A) (s s' : S) a : assert_some o s = (Ret a, s') → o = Some a ∧ s' = s.
Proof. destruct o; [|done]. by intros [= -> <-]. Qed.

End inversion.

(** Run [H : m s = (Ret a, s')] backwards: one hypothesis per statement that
    has to succeed for [m] to return.  The later files extend [stmt_inv] with
    their own statements. *)
Ltac monad_inv H :=
  lazymatch type of H with
  | atomically _ _ = (Ret _, _) => apply atomically_inv in H
  | mbind _ _ _ = (Ret _, _) =>
      let a := fresh "a" in let s := fresh "s" in let H1 := fresh "Hrun" in
      apply bind_ret_inv in H as (a & s & H1 & H); move H1 at bottom
  | mret _ _ = (Ret _, _) =>
      first [ solve [apply mret_inv in H as [H _]; discriminate H]
            | apply mret_inv in H as [<- ->]
            | apply mret_inv in H as [H ->]; simplify_eq ]
  | gets _ _ = (Ret _, _) => apply gets_inv in H as [-> ->]
  | get _ = (Ret _, _) => apply get_inv in H as [-> ->]
  | raise _ _ _ = (Ret _, _) => destruct (raise_inv _ _ _ _ _ H)
  | lift _ _ = (Ret _, _) => apply lift_inv in H as [H ->]
  | raise_if _ _ _ _ = (Ret _, _) => apply raise_if_inv in H as [H ->]
  | assert_some _ _ = (Ret _, _) => apply assert_some_inv in H as [H ->]
  | (match ?x with _ => _ end) _ = (Ret _, _) => destruct x eqn:?
  | (match ?x with _ => _ end) _ _ = (Ret _, _) => destruct x eqn:?; cbv beta in H
  end.

Lemma mem_true {A} `{EqDecision A} (x : A) l : mem x l = true ↔ x ∈ l.
Proof.
  unfold mem. rewrite existsb_exists. setoid_rewrite bool_decide_eq_true.
  rewrite list_elem_of_In. naive_solver.
Qed.

Lemma mem_false {A} `{EqDecision A} (x : A) l : mem x l = false ↔ x ∉ l.
Proof. rewrite <-mem_true. by destruct (mem x l). Qed.

Lemma string_app_cons (x : Ascii.ascii) (a b : string) :
  String x a +:+ b = String x (a +:+ b).
Proof. done. Qed.

Lemma string_app_nil_l (a : string) : "" +:+ a = a.
Proof. done. Qed.

Lemma string_length_app (a b : string) :
  String.length (a +:+ b) = (String.length a + String.length b)%nat.
Proof. induction a as [|c a IH]; [done|]. rewrite string_app_cons. simpl. by rewrite IH. Qed.

Lemma string_app_assoc (a b c : string) : (a +:+ b) +:+ c = a +:+ (b +:+ c).
Proof. induction a as [|x a IH]; [done|]. by rewrite !string_app_cons, IH. Qed.

Lemma string_app_nil_r (a : string) : a +:+ "" = a.
Proof. induction a as [|x a IH]; [done|]. by rewrite string_app_cons, IH. Qed.

Lemma string_forallb_app f a b : string_forallb f (a +:+ b) = string_forallb f a && string_forallb f b.
Proof. induction a as [|c a IH]; [done|]. rewrite string_app_cons. cbn. by rewrite IH, andb_assoc. Qed.

Lemma read_char_cons c s : read_char c (String c s) = Some s.
Proof. unfold read_char. by rewrite bool_decide_eq_true_2. Qed.

Lemma insert_sorted_perm {R} (le : R → R → bool) r l : insert_sorted le r l ≡ₚ r :: l.
Proof. induction l as [|x l IH]; [done|]. cbn. case_match; [done|]. rewrite IH. by constructor. Qed.

Lemma order_by_perm {R} (le : R → R → bool) l : order_by le l ≡ₚ l.
Proof. induction l as [|x l IH]; [done|]. cbn. by rewrite insert_sorted_perm, IH. Qed.

(** ** Running a computation under a relation between states *)

Section runs.
Context {S : Type} (R : S → S → Prop).

Definition runs {A} (m : M S A) (s : S) : Prop := R s (m s).2.

Lemma runs_bind {A B} (m : M S A) (k : A → M S B) s : (∀ a b c, R a b → R b c → R a c) →
  runs m s → (∀ a s1, m s = (Ret a, s1) → runs (k a) s1) → runs (mbind k m) s.
Proof.
  intros Ht Hm Hk. unfold runs, mbind, M_bind in *. destruct (m s) as [[a|e] s1] eqn:E; [|done]. cbn in Hm. eapply Ht; [done|]. by apply Hk.
Qed.
End runs.

(** [s.startswith(p)]: the text is the prefix and the rest. *)
Lemma substring_all s : String.substring 0 (String.length s) s = s.
Proof. induction s as [|c s IH]; [done|]. cbn. by rewrite IH. Qed.

Lemma startswith_split p s : startswith p s = true → s = p +:+ removeprefix p s.
Proof.
  unfold removeprefix, startswith. intros E. rewrite E. revert s E. induction p as [|c p IH]; intros s E.
  - rewrite string_app_nil_l. cbn [String.length]. by rewrite Nat.sub_0_r, substring_all.
  - destruct s as [|d s]; [done|]. cbn in E. destruct (Ascii.ascii_dec c d) as [->|]; [|done]. rewrite string_app_cons. f_equal. cbn. by apply IH.
Qed.
