(* ===== verification/Time.v ===== *)
(** * Time: aware datetimes, their ISO text, and the order of that text

    Models [require_utc] (master_runtime/contracts.py), and [_format_time] and
    [_parse_time] (control_plane/ledger/store.py).  The ledger stores every
    timestamp as the text [_format_time] produces and compares such texts in
    SQL with [<] and [>]; the last section says which order of instants that
    comparison decides. *)

From S2P Require Import Prelude.

(** A Python [datetime]: the wall-clock reading in microseconds since
    0001-01-01T00:00:00, and the offset from UTC in microseconds, [None] for a
    naive value. *)
Record datetime := Datetime { wall : Z; utcoffset : option Z }.

#[global] Instance datetime_eq_dec : EqDecision datetime.
Proof. solve_decision. Defined.

(** An instant: microseconds since 0001-01-01T00:00:00 UTC. *)
Definition utc (t : Z) : datetime := Datetime t (Some 0).

(** [require_utc]: a naive datetime is rejected, an aware one is normalised. *)
Definition require_utc (value : datetime) (field : string) : outcome Z :=
  match utcoffset value with
  | None => throw ValueError (field +:+ " must be timezone-aware")
  | Some off => Ret (wall value - off)
  end.

(** ** Civil dates, as [datetime._ord2ymd] and [datetime._ymd2ord] compute them *)

Definition is_leap (year : Z) : bool :=
  (year mod 4 =? 0) && (negb (year mod 100 =? 0) || (year mod 400 =? 0)).

Definition days_before_year (year : Z) : Z :=
  let y := year - 1 in y * 365 + y / 4 - y / 100 + y / 400.

Definition days_before_month (leap : bool) (month : Z) : Z :=
  nth (Z.to_nat month) [0; 0; 31; 59; 90; 120; 151; 181; 212; 243; 273; 304; 334] 0
  + (if (2 <? month) && leap then 1 else 0).

Definition days_in_month (leap : bool) (month : Z) : Z :=
  if (month =? 2) && leap then 29
  else nth (Z.to_nat month) [0; 31; 28; 31; 30; 31; 30; 31; 31; 30; 31; 30; 31] 0.

(** Year, and zero-based day of that year, of the day [n] days after 0001-01-01. *)
Definition year_doy (n : Z) : Z * Z :=
  let n400 := n / 146097 in let n := n mod 146097 in
  let n100 := n / 36524 in let n := n mod 36524 in
  let n4 := n / 1461 in let n := n mod 1461 in
  let n1 := n / 365 in let n := n mod 365 in
  let year := n400 * 400 + 1 + n100 * 100 + n4 * 4 + n1 in
  if (n1 =? 4) || (n100 =? 4) then (year - 1, 365) else (year, n).

(** Month and day of the zero-based day [doy] of a year. *)
Definition month_day (leap : bool) (doy : Z) : Z * Z :=
  let month := Z.shiftr (doy + 50) 5 in
  let month := if doy <? days_before_month leap month then month - 1 else month in
  (month, doy - days_before_month leap month + 1).

Definition civil_of_days (n : Z) : Z * Z * Z :=
  let '(y, doy) := year_doy n in
  let '(m, d) := month_day (is_leap y) doy in
  (y, m, d).

(** Days from 0001-01-01 to a date. *)
Definition days_of_civil (y m d : Z) : Z :=
  days_before_year y + days_before_month (is_leap y) m + d - 1.

(** ** Text *)

Definition digit (n : Z) : Ascii.ascii := Ascii.ascii_of_nat (48 + Z.to_nat (n mod 10)).

(** [n] in decimal, zero-padded to [w] digits ([%04d], [%02d], [%06d]). *)
Fixpoint digits (w : nat) (n : Z) : string :=
  match w with
  | O => ""
  | S w' => digits w' (n / 10) +:+ String (digit n) ""
  end.

Definition MICRO : Z := 1000000.
Definition DAY : Z := 86400.

(** [isoformat] up to the seconds. *)
Definition iso_seconds (sec : Z) : string :=
  let '(y, m, d) := civil_of_days (sec / DAY) in
  let sod := sec mod DAY in
  digits 4 y +:+ "-" +:+ digits 2 m +:+ "-" +:+ digits 2 d +:+ "T"
  +:+ digits 2 (sod / 3600) +:+ ":" +:+ digits 2 (sod / 60 mod 60) +:+ ":" +:+ digits 2 (sod mod 60).

(** [isoformat] leaves the fraction out when it is zero. *)
Definition iso_fraction (us : Z) : string :=
  if us =? 0 then "" else "." +:+ digits 6 us.

(** The text of an instant: [isoformat()] with its ["+00:00"] written ["Z"]. *)
Definition time_text (t : Z) : string :=
  iso_seconds (t / MICRO) +:+ iso_fraction (t mod MICRO) +:+ "Z".

(** [_format_time] *)
Definition format_time (value : datetime) : outcome string :=
  match utcoffset value with
  | None => throw ValueError "control-ledger timestamps must be timezone-aware"
  | Some off => Ret (time_text (wall value - off))
  end.

(** The instant whose text [_format_time] returns. *)
Definition stamp (value : datetime) : outcome Z :=
  match utcoffset value with
  | None => throw ValueError "control-ledger timestamps must be timezone-aware"
  | Some off => Ret (wall value - off)
  end.

(** [value.isoformat()] of an instant in UTC. *)
Definition isoformat (t : Z) : string := iso_seconds (t / MICRO) +:+ iso_fraction (t mod MICRO) +:+ "+00:00".

(** ** Parsing *)

(** [value.replace("Z", "+00:00")] *)
Fixpoint replace_z (s : string) : string :=
  match s with
  | EmptyString => ""
  | String c s' => if c == "Z"%char then "+00:00" +:+ replace_z s' else String c (replace_z s')
  end.

Definition digit_value (c : Ascii.ascii) : option Z :=
  if in_char_range "0"%char "9"%char c
  then Some (Z.of_nat (Ascii.nat_of_ascii c) - 48) else None.

(** Read exactly [w] digits. *)
Fixpoint read_digits (w : nat) (acc : Z) (s : string) : option (Z * string) :=
  match w with
  | O => Some (acc, s)
  | S w' => match s with
            | String c s' => v ← digit_value c; read_digits w' (10 * acc + v) s'
            | EmptyString => None
            end
  end.

(** [_parse_time] on the texts [_format_time] writes:
    [YYYY-MM-DDTHH:MM:SS[.ffffff]Z]. *)
Definition parse_time (s : string) : option Z :=
  '(y, s) ← read_digits 4 0 s; s ← read_char "-" s;
  '(m, s) ← read_digits 2 0 s; s ← read_char "-" s;
  '(d, s) ← read_digits 2 0 s; s ← read_char "T" s;
  '(hh, s) ← read_digits 2 0 s; s ← read_char ":" s;
  '(mi, s) ← read_digits 2 0 s; s ← read_char ":" s;
  '(ss, s) ← read_digits 2 0 s;
  '(us, s) ← (match read_char "." s with
              | Some s' => read_digits 6 0 s'
              | None => Some (0, s)
              end);
  s ← read_char "Z" s;
  if s == "" then
    Some ((days_of_civil y m d * DAY + hh * 3600 + mi * 60 + ss) * MICRO + us)
  else None.

(** SQL's [a < b] on two timestamp columns: both are texts. *)
Definition text_ltb (a b : Z) : bool := String.ltb (time_text a) (time_text b).

(** Instants a [datetime] can hold: 0001-01-01 up to the end of 9999. *)
Definition valid_instant (t : Z) : Prop := 0 ≤ t < 3652059 * DAY * MICRO.

(** The order the texts induce: an instant with a zero fraction sorts after
    the other instants of its second. *)
Definition text_rank (t : Z) : Z := if t mod MICRO =? 0 then t + MICRO else t.

(** ** Lexicographic comparison of texts *)

Lemma compare_app a b x y :
  String.length a = String.length b →
  String.compare (a +:+ x) (b +:+ y)
  = match String.compare a b with Eq => String.compare x y | c => c end.
Proof.
  revert b. induction a as [|c a IH]; intros [|c' b] Hl; simplify_eq/=; [done|].
  rewrite (IH b) by lia. by destruct (Ascii.compare c c').
Qed.

Lemma compare_cons_same c x y : String.compare (String c x) (String c y) = String.compare x y.
Proof. cbn. unfold Ascii.compare. by rewrite N.compare_refl. Qed.

Lemma length_digits w n : String.length (digits w n) = w.
Proof.
  revert n. induction w as [|w IH]; intros n; [done|]. cbn [digits].
  rewrite string_length_app, IH. cbn. lia.
Qed.

(** Comparing [a*k + r] is comparing [a] first and [r] second. *)
Lemma compare_pair k a1 r1 a2 r2 :
  0 ≤ r1 < k → 0 ≤ r2 < k →
  (a1 * k + r1 ?= a2 * k + r2) = match a1 ?= a2 with Eq => r1 ?= r2 | c => c end.
Proof.
  intros H1 H2. destruct (Z.compare_spec a1 a2) as [->|H|H].
  - destruct (Z.compare_spec r1 r2); [apply Z.compare_eq_iff|apply Z.compare_lt_iff|apply Z.compare_gt_iff]; lia.
  - apply Z.compare_lt_iff. nia.
  - apply Z.compare_gt_iff. nia.
Qed.

Lemma compare_digit a b :
  String.compare (String (digit a) "") (String (digit b) "") = (a mod 10 ?= b mod 10).
Proof.
  cbn. unfold Ascii.compare, digit.
  assert (Ha := Z.mod_pos_bound a 10 ltac:(lia)). assert (Hb := Z.mod_pos_bound b 10 ltac:(lia)).
  set (x := a mod 10) in *. set (y := b mod 10) in *.
  assert (∀ z, 0 ≤ z < 10 → Ascii.N_of_ascii (Ascii.ascii_of_nat (48 + Z.to_nat z)) = Z.to_N (48 + z)) as Hc.
  { intros z Hz. unfold Ascii.ascii_of_nat. rewrite Ascii.N_ascii_embedding; lia. }
  rewrite !Hc, Z2N.inj_compare by lia.
  destruct (Z.compare_spec x y); destruct (Z.compare_spec (48 + x) (48 + y)); lia || done.
Qed.

(** Zero-padded decimals of one width compare as the numbers. *)
Lemma compare_digits w a b :
  0 ≤ a < 10 ^ Z.of_nat w → 0 ≤ b < 10 ^ Z.of_nat w →
  String.compare (digits w a) (digits w b) = (a ?= b).
Proof.
  revert a b. induction w as [|w IH]; intros a b Ha Hb.
  - cbn in *. assert (a = b) as -> by lia. by rewrite Z.compare_refl.
  - rewrite Nat2Z.inj_succ, Z.pow_succ_r in Ha, Hb by lia.
    cbn [digits]. rewrite compare_app by (by rewrite !length_digits).
    rewrite IH, compare_digit by (split; [apply Z.div_pos|apply Z.div_lt_upper_bound]; lia).
    rewrite <-(compare_pair 10) by (apply Z.mod_pos_bound; lia).
    f_equal; rewrite Z.mul_comm; symmetry; apply Z.div_mod; lia.
Qed.

(** ** The calendar *)

Definition date_key (ymd : Z * Z * Z) : Z := let '(y, m, d) := ymd in (y * 100 + m) * 100 + d.

Lemma date_key_eq y m d : date_key (y, m, d) = (y * 100 + m) * 100 + d.
Proof. done. Qed.

(** One pass over the days of a common and of a leap year: every date is in
    range, converts back to its day, and follows the date of the day before. *)
Definition doy_ok (leap : bool) (doy : Z) : bool :=
  let '(m, d) := month_day leap doy in
  (1 <=? m) && (m <=? 12) && (1 <=? d) && (d <=? 31)
  && (days_before_month leap m + d - 1 =? doy)
  && ((doy =? 0) || (let '(m0, d0) := month_day leap (doy - 1) in m0 * 100 + d0 <? m * 100 + d)).

Fixpoint all_days (leap : bool) (n : nat) (doy : Z) : bool :=
  match n with O => true | S n' => doy_ok leap doy && all_days leap n' (doy + 1) end.

Lemma all_days_spec leap n doy z :
  all_days leap n doy = true → doy ≤ z < doy + Z.of_nat n → doy_ok leap z = true.
Proof.
  revert doy. induction n as [|n IH]; intros doy; [lia|].
  cbn [all_days]. intros [H1 H2]%andb_true_iff Hz.
  destruct (decide (z = doy)) as [->|]; [done|]. apply (IH (doy + 1)); [done|lia].
Qed.

Definition year_length (leap : bool) : Z := if leap then 366 else 365.

Lemma doy_ok_all leap doy : 0 ≤ doy < year_length leap → doy_ok leap doy = true.
Proof.
  intros H. destruct leap.
  - apply (all_days_spec true 366 0); [vm_compute; reflexivity|cbn in *; lia].
  - apply (all_days_spec false 365 0); [vm_compute; reflexivity|cbn in *; lia].
Qed.

Lemma month_day_range leap doy m d :
  0 ≤ doy < year_length leap → month_day leap doy = (m, d) →
  1 ≤ m ≤ 12 ∧ 1 ≤ d ≤ 31 ∧ days_before_month leap m + d - 1 = doy.
Proof.
  intros H%doy_ok_all E. unfold doy_ok in H. rewrite E in H. b2p. naive_solver lia.
Qed.

Lemma month_day_lt leap a b :
  0 ≤ a < b → b < year_length leap →
  (month_day leap a).1 * 100 + (month_day leap a).2 < (month_day leap b).1 * 100 + (month_day leap b).2.
Proof.
  intros [Ha Hab]. replace b with (a + 1 + (b - a - 1)) by lia.
  assert (0 ≤ b - a - 1) as Hp by lia. revert Hp. generalize (b - a - 1). clear b Hab.
  assert (∀ x, 0 ≤ x → x + 1 < year_length leap →
    (month_day leap x).1 * 100 + (month_day leap x).2
    < (month_day leap (x + 1)).1 * 100 + (month_day leap (x + 1)).2) as Hs.
  { intros x Hx Hy. assert (doy_ok leap (x + 1) = true) as H by (apply doy_ok_all; lia).
    unfold doy_ok in H. replace (x + 1 - 1) with x in H by lia.
    destruct (month_day leap x), (month_day leap (x + 1)). b2p. cbn in *. lia. }
  apply (natlike_ind (λ k, a + 1 + k < _ → _)).
  - rewrite Z.add_0_r. intros. by apply Hs.
  - intros k Hk IH Hlt. etransitivity; [apply IH; lia|].
    replace (a + 1 + Z.succ k) with (a + 1 + k + 1) by lia. apply Hs; lia.
Qed.

Lemma days_before_year_succ y :
  days_before_year (y + 1) = days_before_year y + year_length (is_leap y).
Proof.
  unfold days_before_year, year_length, is_leap. replace (y + 1 - 1) with y by lia.
  case_match eqn:E; b2p; dlia.
Qed.

(** [year_doy] splits a day number at the start of its year. *)
Lemma year_doy_spec n y doy :
  year_doy n = (y, doy) → days_before_year y + doy = n ∧ 0 ≤ doy < year_length (is_leap y).
Proof.
  unfold year_doy. intros E.
  set (a := n / 146097) in *. set (r := n mod 146097) in *.
  assert (Hn : n = 146097 * a + r) by (apply Z.div_mod; lia).
  assert (Hr := Z.mod_pos_bound n 146097 ltac:(lia)). fold r in Hr. clearbody a r.
  unfold days_before_year, year_length, is_leap.
  case_match eqn:Ec; simplify_eq; b2p; case_match eqn:El; b2p; dlia.
Qed.

Lemma days_before_year_mono a b : a ≤ b → days_before_year a ≤ days_before_year b.
Proof. unfold days_before_year. dlia. Qed.

Lemma civil_in_range n y m d :
  civil_of_days n = (y, m, d) → 1 ≤ m ≤ 12 ∧ 1 ≤ d ≤ 31.
Proof.
  unfold civil_of_days. destruct (year_doy n) as [y0 doy] eqn:E.
  apply year_doy_spec in E as [_ Hr]. destruct (month_day _ _) as [m0 d0] eqn:Em.
  apply month_day_range in Em; [|done]. intros. simplify_eq. naive_solver.
Qed.

Lemma days_of_civil_of_days n :
  let '(y, m, d) := civil_of_days n in days_of_civil y m d = n.
Proof.
  unfold civil_of_days. destruct (year_doy n) as [y0 doy] eqn:E.
  apply year_doy_spec in E as [E Hr]. destruct (month_day _ _) as [m0 d0] eqn:Em.
  apply month_day_range in Em; [|done]. unfold days_of_civil. lia.
Qed.

Lemma date_key_lt a b : a < b → date_key (civil_of_days a) < date_key (civil_of_days b).
Proof.
  intros H. assert (Ra := civil_in_range a). assert (Rb := civil_in_range b). unfold civil_of_days in *.
  destruct (year_doy a) as [ya da] eqn:Ea, (year_doy b) as [yb db] eqn:Eb.
  apply year_doy_spec in Ea as [Ea La], Eb as [Eb Lb].
  assert (ya ≤ yb) as Hy.
  { destruct (decide (ya ≤ yb)); [done|].
    assert (Hm := days_before_year_mono (yb + 1) ya ltac:(lia)).
    rewrite days_before_year_succ in Hm. lia. }
  destruct (decide (ya = yb)) as [->|].
  - assert (Hl := month_day_lt (is_leap yb) da db ltac:(lia) ltac:(lia)).
    destruct (month_day _ da), (month_day _ db). unfold date_key. cbn in Hl. lia.
  - destruct (month_day (is_leap ya) da) as [ma d1], (month_day (is_leap yb) db) as [mb d2].
    destruct (Ra _ _ _ eq_refl), (Rb _ _ _ eq_refl). unfold date_key. lia.
Qed.

Lemma compare_date_key a b :
  (date_key (civil_of_days a) ?= date_key (civil_of_days b)) = (a ?= b).
Proof.
  destruct (Z.compare_spec a b) as [->|H|H];
    [apply Z.compare_refl|apply Z.compare_lt_iff|apply Z.compare_gt_iff]; by apply date_key_lt.
Qed.

Lemma civil_year_range n y m d :
  0 ≤ n < 3652059 → civil_of_days n = (y, m, d) → 0 ≤ y < 10000.
Proof.
  intros Hn E. destruct (civil_in_range _ _ _ _ E).
  assert (date_key (civil_of_days n) < date_key (civil_of_days 3652059)) as Hhi by (apply date_key_lt; lia).
  assert (date_key (civil_of_days (-1)) < date_key (civil_of_days n)) as Hlo by (apply date_key_lt; lia).
  rewrite E in Hhi, Hlo. vm_compute (date_key (civil_of_days 3652059)) in Hhi.
  vm_compute (date_key (civil_of_days (-1))) in Hlo. rewrite date_key_eq in *. lia.
Qed.

(** ** The order of the texts *)

Lemma length_iso_seconds sec : String.length (iso_seconds sec) = 19%nat.
Proof.
  unfold iso_seconds. destruct (civil_of_days _) as [[y m] d].
  by rewrite ?string_length_app, ?length_digits.
Qed.

(** A second's fields, as one positional number. *)
Lemma second_fields sec :
  sec mod DAY = (sec mod DAY / 3600 * 60 + sec mod DAY / 60 mod 60) * 60 + sec mod DAY mod 60.
Proof. dlia. Qed.

Lemma sod_range sec :
  0 ≤ sec mod DAY / 3600 < 24 ∧ 0 ≤ sec mod DAY / 60 mod 60 < 60 ∧ 0 ≤ sec mod DAY mod 60 < 60.
Proof. unfold DAY. dlia. Qed.

(** Two fixed-width fields with a separator between what follows. *)
Lemma compare_field w c a b x y :
  0 ≤ a < 10 ^ Z.of_nat w → 0 ≤ b < 10 ^ Z.of_nat w →
  String.compare (digits w a +:+ String c x) (digits w b +:+ String c y)
  = match a ?= b with Eq => String.compare x y | r => r end.
Proof.
  intros Ha Hb. rewrite compare_app, compare_digits by (done || by rewrite !length_digits).
  destruct (a ?= b); [apply compare_cons_same|done..].
Qed.

Lemma compare_iso_seconds a b :
  0 ≤ a < 3652059 * DAY → 0 ≤ b < 3652059 * DAY →
  String.compare (iso_seconds a) (iso_seconds b) = (a ?= b).
Proof.
  intros Ha Hb.
  assert (0 ≤ a / DAY < 3652059) as Da by (unfold DAY in *; dlia).
  assert (0 ≤ b / DAY < 3652059) as Db by (unfold DAY in *; dlia).
  assert (Hk := compare_date_key (a / DAY) (b / DAY)). unfold iso_seconds.
  destruct (civil_of_days (a / DAY)) as [[y m] d] eqn:Ea, (civil_of_days (b / DAY)) as [[y' m'] d'] eqn:Eb.
  destruct (civil_in_range _ _ _ _ Ea), (civil_in_range _ _ _ _ Eb).
  assert (Ya := civil_year_range _ _ _ _ Da Ea). assert (Yb := civil_year_range _ _ _ _ Db Eb).
  destruct (sod_range a) as (?&?&?), (sod_range b) as (?&?&?).
  repeat (rewrite string_app_cons || rewrite string_app_nil_l).
  rewrite !compare_field, compare_digits by (cbn; lia).
  assert (a = a / DAY * DAY + a mod DAY) as Xa by (rewrite Z.mul_comm; by apply Z.div_mod).
  assert (b = b / DAY * DAY + b mod DAY) as Xb by (rewrite Z.mul_comm; by apply Z.div_mod).
  assert (Ra := Z.mod_pos_bound a DAY ltac:(done)). assert (Rb := Z.mod_pos_bound b DAY ltac:(done)).
  assert (Sa := second_fields a). assert (Sb := second_fields b).
  generalize dependent (a mod DAY / 3600). generalize dependent (a mod DAY / 60 mod 60).
  generalize dependent (a mod DAY mod 60). generalize dependent (b mod DAY / 3600).
  generalize dependent (b mod DAY / 60 mod 60). generalize dependent (b mod DAY mod 60).
  intros s2 ? i2 ? h2 ? Sb s1 ? i1 ? h1 ? Sa.
  rewrite Xa, Xb, compare_pair, <-Hk, Sa, Sb, !(compare_pair 60) by lia.
  unfold date_key. rewrite !(compare_pair 100) by lia.
  by destruct (y ?= y'), (m ?= m'), (d ?= d'), (h1 ?= h2).
Qed.

Lemma compare_fraction a b :
  0 ≤ a < MICRO → 0 ≤ b < MICRO →
  String.compare (iso_fraction a +:+ "Z") (iso_fraction b +:+ "Z")
  = (if a =? 0 then if b =? 0 then Eq else Gt else if b =? 0 then Lt else (a ?= b)).
Proof.
  intros Ha Hb. unfold iso_fraction. destruct (a =? 0), (b =? 0); [done..|].
  repeat (rewrite string_app_assoc || rewrite string_app_cons || rewrite string_app_nil_l).
  rewrite compare_cons_same, compare_app, compare_digits by (done || by rewrite !length_digits).
  by destruct (a ?= b).
Qed.

(** SQL's [<] on two stored timestamps decides [text_rank], not the instants. *)
Lemma text_ltb_rank a b :
  valid_instant a → valid_instant b → text_ltb a b = (text_rank a <? text_rank b).
Proof.
  unfold valid_instant, text_ltb, String.ltb, time_text. intros Ha Hb.
  rewrite compare_app by (by rewrite !length_iso_seconds).
  rewrite compare_iso_seconds by (unfold MICRO, DAY in *; dlia).
  rewrite compare_fraction by (apply Z.mod_pos_bound; done).
  unfold text_rank.
  assert (Ea := Z.div_mod a MICRO ltac:(done)). assert (Eb := Z.div_mod b MICRO ltac:(done)).
  assert (Ra := Z.mod_pos_bound a MICRO ltac:(done)). assert (Rb := Z.mod_pos_bound b MICRO ltac:(done)).
  unfold MICRO in *.
  destruct (Z.compare_spec (a / 1000000) (b / 1000000)) as [E|E|E];
    destruct (Z.eqb_spec (a mod 1000000) 0), (Z.eqb_spec (b mod 1000000) 0);
    try destruct (Z.compare_spec (a mod 1000000) (b mod 1000000));
    symmetry; first [apply Z.ltb_lt; lia|apply Z.ltb_ge; lia].
Qed.

(** Instants in different seconds are ordered as their texts. *)
Lemma text_ltb_seconds a b :
  valid_instant a → valid_instant b → a / MICRO ≠ b / MICRO → text_ltb a b = (a <? b).
Proof.
  intros Ha Hb Hne. rewrite text_ltb_rank by done. unfold text_rank, MICRO in *.
  destruct (Z.eqb_spec (a mod 1000000) 0), (Z.eqb_spec (b mod 1000000) 0), (Z.ltb_spec a b);
    first [done|apply Z.ltb_lt; dlia|apply Z.ltb_ge; dlia].
Qed.

(** ** Round trip *)

Lemma digit_value_digit n : digit_value (digit n) = Some (n mod 10).
Proof.
  unfold digit. assert (H := Z.mod_pos_bound n 10 ltac:(lia)). revert H. generalize (n mod 10).
  intros z Hz. assert (z = 0 ∨ z = 1 ∨ z = 2 ∨ z = 3 ∨ z = 4 ∨ z = 5 ∨ z = 6 ∨ z = 7 ∨ z = 8 ∨ z = 9) by lia.
  by repeat match goal with H : _ ∨ _ |- _ => destruct H | H : z = _ |- _ => subst z end.
Qed.

(** Reading [w] digits and then one more. *)
Lemma read_digits_snoc w acc s n s' c v :
  read_digits w acc s = Some (n, String c s') → digit_value c = Some v →
  read_digits (S w) acc s = Some (10 * n + v, s').
Proof.
  revert acc s. induction w as [|w IH]; intros acc s H Hc.
  - cbn in *. simplify_eq. by rewrite Hc.
  - cbn [read_digits] in H. destruct s as [|c0 s0]; [done|].
    destruct (digit_value c0) as [v0|] eqn:Hv; simpl in H; [|done].
    cbn [read_digits]. rewrite Hv. simpl. by apply IH.
Qed.

Lemma read_digits_app w n acc s :
  0 ≤ n < 10 ^ Z.of_nat w →
  read_digits w acc (digits w n +:+ s) = Some (acc * 10 ^ Z.of_nat w + n, s).
Proof.
  revert n s. induction w as [|w IH]; intros n s Hn.
  - cbn in *. rewrite string_app_nil_l. do 2 f_equal. lia.
  - rewrite Nat2Z.inj_succ, Z.pow_succ_r in Hn by lia.
    rewrite Nat2Z.inj_succ, Z.pow_succ_r by lia. cbn [digits].
    rewrite string_app_assoc, string_app_cons, string_app_nil_l.
    erewrite read_digits_snoc; [|apply IH|apply digit_value_digit].
    + do 2 f_equal. assert (E := Z.div_mod n 10 ltac:(lia)). lia.
    + split; [apply Z.div_pos|apply Z.div_lt_upper_bound]; lia.
Qed.

Lemma read_fraction us :
  0 ≤ us < MICRO →
  match read_char "." (iso_fraction us +:+ "Z") with
  | Some s' => read_digits 6 0 s'
  | None => Some (0, iso_fraction us +:+ "Z")
  end = Some (us, "Z").
Proof.
  intros H. unfold iso_fraction. destruct (Z.eqb_spec us 0) as [->|]; [done|].
  rewrite string_app_cons, string_app_nil_l, string_app_cons, read_char_cons, ?string_app_nil_l.
  rewrite read_digits_app by done. done.
Qed.

Lemma parse_time_text t : valid_instant t → parse_time (time_text t) = Some t.
Proof.
  unfold valid_instant. intros Ht. unfold parse_time, time_text, iso_seconds.
  assert (0 ≤ t / MICRO / DAY < 3652059) as Hd by (unfold MICRO, DAY in *; dlia).
  assert (Hday := days_of_civil_of_days (t / MICRO / DAY)).
  destruct (civil_of_days _) as [[y m] d] eqn:Ec.
  destruct (civil_in_range _ _ _ _ Ec). assert (Hy := civil_year_range _ _ _ _ Hd Ec).
  destruct (sod_range (t / MICRO)) as (?&?&?).
  repeat (rewrite string_app_assoc || rewrite string_app_cons || rewrite string_app_nil_l).
  do 5 (rewrite read_digits_app by (cbn; lia); cbn [mbind option_bind]; rewrite read_char_cons; cbn [mbind option_bind]).
  rewrite read_digits_app by (cbn; lia). cbn [mbind option_bind].
  rewrite read_fraction by (apply Z.mod_pos_bound; done). cbn [mbind option_bind].
  rewrite read_char_cons. cbn [mbind option_bind]. rewrite bool_decide_eq_true_2 by done.
  rewrite !Z.mul_0_l, !Z.add_0_l, Hday. f_equal.
  unfold MICRO, DAY. dlia.
Qed.

(** ** Properties *)

(** A stored timestamp reads back as the instant that was written: for every
    aware datetime whose instant is in the range of years 1 to 9999,
    [_parse_time] of [_format_time]'s text is that instant; a naive datetime is
    refused. *)
Theorem timestamp_roundtrip w off :
  (∃ msg, format_time (Datetime w None) = Exc (Exn ValueError msg)) ∧
  (valid_instant (w - off) →
   ∃ text, format_time (Datetime w (Some off)) = Ret text ∧ parse_time text = Some (w - off)).
Proof. split; [by eexists|]. intros H. eexists. split; [done|]. by apply parse_time_text. Qed.

(** C40: what SQL's comparison of two stored timestamps decides.  It agrees with
    the order of the instants when they lie in different seconds, or when both
    or neither have a fraction; but an instant on the whole second sorts after
    every later instant of the same second. *)
Theorem text_order_of_timestamps a b :
  valid_instant a → valid_instant b →
  ((a / MICRO ≠ b / MICRO ∨ (a mod MICRO = 0 ↔ b mod MICRO = 0)) → text_ltb a b = (a <? b)) ∧
  (a / MICRO = b / MICRO → a mod MICRO = 0 → b mod MICRO ≠ 0 → a < b ∧ text_ltb a b = false ∧ text_ltb b a = true).
Proof.
  intros Ha Hb. rewrite !text_ltb_rank by done. unfold text_rank, MICRO. split.
  - intros H. destruct (Z.eqb_spec (a mod 1000000) 0), (Z.eqb_spec (b mod 1000000) 0), (Z.ltb_spec a b);
      first [done|apply Z.ltb_lt; dlia|apply Z.ltb_ge; dlia].
  - intros E Ea Eb. rewrite Ea. cbn. destruct (Z.eqb_spec (b mod 1000000) 0); [done|].
    rewrite Z.ltb_ge, Z.ltb_lt. dlia.
Qed.

Lemma text_order_of_timestamps_witness :
  5000000 < 5250000 ∧ text_ltb 5000000 5250000 = false ∧ text_ltb 5250000 5000000 = true.
Proof. apply (text_order_of_timestamps 5000000 5250000); unfold valid_instant, MICRO, DAY; done || lia. Defined.

Lemma timestamp_roundtrip_witness :
  ∃ text, format_time (Datetime 63900000000000123 (Some 3600000000)) = Ret text ∧ parse_time text = Some (63900000000000123 - 3600000000).
Proof. apply (proj2 (timestamp_roundtrip 63900000000000123 3600000000)). unfold valid_instant, MICRO, DAY. lia. Defined.

(** ** Timestamps of a stored text in ISO form *)

Lemma replace_z_app a b : replace_z (a +:+ b) = replace_z a +:+ replace_z b.
Proof.
  induction a as [|c a IH]; [done|]. rewrite string_app_cons. cbn [replace_z]. rewrite IH.
  case_bool_decide; [by rewrite string_app_assoc|done].
Qed.

Lemma replace_z_id s : string_forallb (λ c, c != "Z"%char) s = true → replace_z s = s.
Proof.
  induction s as [|c s IH]; [done|]. cbn. intros [Hc Hs]%andb_true_iff. b2p. rewrite bool_decide_eq_false_2 by done.
  by rewrite IH.
Qed.

Lemma digit_not_z n : (digit n != "Z"%char) = true.
Proof.
  unfold digit. assert (0 ≤ n mod 10 < 10) as H by (apply Z.mod_pos_bound; lia).
  assert (Z.to_nat (n mod 10) < 10)%nat as Hn by lia. revert Hn. generalize (Z.to_nat (n mod 10)). clear.
  intros k Hk. do 10 (destruct k as [|k]; [done|]). lia.
Qed.

Lemma digits_not_z w n : string_forallb (λ c, c != "Z"%char) (digits w n) = true.
Proof.
  revert n. induction w as [|w IH]; intros n; [done|]. cbn [digits]. rewrite string_forallb_app, IH. cbn [string_forallb andb].
  by rewrite digit_not_z.
Qed.

Lemma iso_seconds_not_z sec : string_forallb (λ c, c != "Z"%char) (iso_seconds sec) = true.
Proof.
  unfold iso_seconds. destruct (civil_of_days _) as [[y m] d]. by rewrite !string_forallb_app, !digits_not_z.
Qed.

(** Undoing the [Z] of a stored timestamp gives its ISO form. *)
Lemma replace_z_text t : replace_z (time_text t) = isoformat t.
Proof.
  unfold time_text, isoformat. rewrite !replace_z_app. rewrite replace_z_id by apply iso_seconds_not_z.
  rewrite replace_z_id; [done|]. unfold iso_fraction. destruct (_ =? 0); [done|]. by rewrite string_forallb_app, digits_not_z.
Qed.

Lemma substring_app (a b : string) : String.substring 0 (String.length (a +:+ b) - String.length b) (a +:+ b) = a.
Proof.
  rewrite string_length_app, Nat.add_sub. induction a as [|c a IH]; [by destruct b|]. rewrite string_app_cons. cbn. by rewrite IH.
Qed.

(** A reader that inverts [isoformat]. *)
Definition iso (s : string) : option datetime :=
  t ← parse_time (String.substring 0 (String.length s - 6) s +:+ "Z"); Some (utc t).

Lemma iso_ok t : valid_instant t → iso (isoformat t) = Some (utc t).
Proof.
  intros Ht. unfold iso, isoformat. rewrite <-string_app_assoc.
  pose proof (substring_app (iso_seconds (t / MICRO) +:+ iso_fraction (t mod MICRO)) "+00:00") as H. cbn [String.length] in H.
  rewrite H, string_app_assoc. fold (time_text t). by rewrite parse_time_text.
Qed.
