(* ===== verification/Json.v ===== *)
(** * Json: the ledger's canonical, secret-free JSON

    Models [_canonical_json] and [_safe_json] of control_plane/ledger/store.py
    together with the [json.dumps] and [json.loads] they rest on, for values
    built from null, booleans, integers, strings, arrays and objects.  A Python
    dict is the list of its items in insertion order. *)

From Stdlib Require Import DecimalString DecimalZ.
From S2P Require Import Prelude.

#[warnings="-register-all"]
Inductive json : Type :=
| JNull
| JBool (b : bool)
| JInt (n : Z)
| JStr (s : string)
| JArr (l : list json)
| JObj (kvs : list (string * json)).

Section json_ind.
Variable P : json → Prop.
Hypothesis Hnull : P JNull.
Hypothesis Hbool : ∀ b, P (JBool b).
Hypothesis Hint : ∀ n, P (JInt n).
Hypothesis Hstr : ∀ s, P (JStr s).
Hypothesis Harr : ∀ l, Forall P l → P (JArr l).
Hypothesis Hobj : ∀ kvs, Forall (λ kv, P kv.2) kvs → P (JObj kvs).

Fixpoint json_ind' (j : json) : P j :=
  match j with
  | JNull => Hnull
  | JBool b => Hbool b
  | JInt n => Hint n
  | JStr s => Hstr s
  | JArr l => Harr l ((fix go l : Forall P l :=
      match l with [] => Forall_nil_2 _ | x :: l' => Forall_cons_2 _ x l' (json_ind' x) (go l') end) l)
  | JObj kvs => Hobj kvs ((fix go l : Forall (λ kv, P kv.2) l :=
      match l with [] => Forall_nil_2 _ | x :: l' => Forall_cons_2 _ x l' (json_ind' x.2) (go l') end) kvs)
  end.
End json_ind.

#[global] Instance json_eq_dec : EqDecision json.
Proof.
  refine (fix go (a b : json) {struct a} : Decision (a = b) :=
    match a, b with
    | JNull, JNull => left eq_refl
    | JBool x, JBool y => cast_if (decide (x = y))
    | JInt x, JInt y => cast_if (decide (x = y))
    | JStr x, JStr y => cast_if (decide (x = y))
    | JArr x, JArr y => cast_if (@list_eq_dec _ go x y)
    | JObj x, JObj y =>
        cast_if (@list_eq_dec _ (λ p q, cast_if_and (decide (p.1 = q.1)) (go p.2 q.2)) x y)
    | _, _ => right _
    end); try discriminate; try congruence.
  all: try (destruct p, q; simpl in *; congruence).
Defined.

(** ** Dicts *)

(** [d.get(key)] *)
Fixpoint assoc (key : string) (kvs : list (string * json)) : option json :=
  match kvs with
  | [] => None
  | (k, v) :: kvs' => if key == k then Some v else assoc key kvs'
  end.

(** [{**d, key: value}]: an existing key keeps its position. *)
Fixpoint assoc_set (key : string) (value : json) (kvs : list (string * json)) : list (string * json) :=
  match kvs with
  | [] => [(key, value)]
  | (k, v) :: kvs' => if key == k then (k, value) :: kvs' else (k, v) :: assoc_set key value kvs'
  end.

Definition keys (kvs : list (string * json)) : list string := map fst kvs.

(** Every object of the value has distinct keys, as a dict has. *)
Fixpoint well_keyed (j : json) : Prop :=
  match j with
  | JArr l => (fix go l := match l with [] => True | x :: l' => well_keyed x ∧ go l' end) l
  | JObj kvs => NoDup (keys kvs) ∧
      (fix go l := match l with [] => True | (_, x) :: l' => well_keyed x ∧ go l' end) kvs
  | _ => True
  end.

(** ** Printing *)

Definition hex_digit (n : nat) : Ascii.ascii :=
  if (n <? 10)%nat then Ascii.ascii_of_nat (48 + n) else Ascii.ascii_of_nat (87 + n).

Definition DQ : Ascii.ascii := "034"%char.
Definition BS : Ascii.ascii := "092"%char.

(** [py_encode_basestring]: quotes, backslashes and control characters. *)
Definition escape_char (c : Ascii.ascii) : string :=
  let n := Ascii.nat_of_ascii c in
  if c == DQ then String BS (String DQ "")
  else if c == BS then String BS (String BS "")
  else if (n =? 8)%nat then String BS "b"
  else if (n =? 12)%nat then String BS "f"
  else if (n =? 10)%nat then String BS "n"
  else if (n =? 13)%nat then String BS "r"
  else if (n =? 9)%nat then String BS "t"
  else if (n <? 32)%nat then
    String BS (String "u" (String "0" (String "0" (String (hex_digit (n / 16)) (String (hex_digit (n mod 16)) "")))))
  else String c "".

Fixpoint escape (s : string) : string :=
  match s with
  | EmptyString => ""
  | String c s' => escape_char c +:+ escape s'
  end.

Definition quote (s : string) : string := String DQ (escape s +:+ String DQ "").

(** Keys in the order of their code points. *)
Fixpoint insert_key (kv : string * json) (l : list (string * json)) : list (string * json) :=
  match l with
  | [] => [kv]
  | kv' :: l' => if String.leb kv.1 kv'.1 then kv :: l else kv' :: insert_key kv l'
  end.

Definition sort_keys (l : list (string * json)) : list (string * json) := foldr insert_key [] l.

(** The value with the keys of every object sorted. *)
Fixpoint canon (j : json) : json :=
  match j with
  | JArr l => JArr (map canon l)
  | JObj kvs => JObj (sort_keys (map (λ '(k, v), (k, canon v)) kvs))
  | j => j
  end.

(** A value's compact text, objects in the order they are given. *)
Fixpoint print (j : json) : string :=
  match j with
  | JNull => "null"
  | JBool true => "true"
  | JBool false => "false"
  | JInt n => str_int n
  | JStr s => quote s
  | JArr l =>
      "[" +:+ (fix go l := match l with
                           | [] => "]"
                           | [x] => print x +:+ "]"
                           | x :: l' => print x +:+ "," +:+ go l'
                           end) l
  | JObj kvs =>
      "{" +:+ (fix go l := match l with
                           | [] => "}"
                           | [(k, v)] => quote k +:+ ":" +:+ print v +:+ "}"
                           | (k, v) :: l' => quote k +:+ ":" +:+ print v +:+ "," +:+ go l'
                           end) kvs
  end.

(** [_canonical_json] *)
Definition canonical_json (j : json) : string := print (canon j).

(** ** The secret filter of [_safe_json] *)

Definition lower_char (c : Ascii.ascii) : Ascii.ascii :=
  if in_char_range "A"%char "Z"%char c then Ascii.ascii_of_nat (Ascii.nat_of_ascii c + 32) else c.

(** [str.lower] on ASCII letters. *)
Fixpoint lower (s : string) : string :=
  match s with EmptyString => "" | String c s' => String (lower_char c) (lower s') end.

(** [fragment in s] *)
Fixpoint contains (fragment s : string) : bool :=
  String.prefix fragment s || match s with EmptyString => false | String _ s' => contains fragment s' end.

Definition SECRET_FRAGMENTS : list string :=
  ["password"; "secret"; "token"; "authorization"; "credential"; "private_key"].

(** [str(UUID(s)) == s]: the canonical form, lower-case hex in groups 8-4-4-4-12. *)
Fixpoint uuid_chars (i : nat) (s : string) : bool :=
  match s with
  | EmptyString => i == 36%nat
  | String c s' =>
      (if mem i [8; 13; 18; 23]%nat then c == "-"%char else is_lower_hex c) && uuid_chars (S i) s'
  end.

Definition is_canonical_uuid (s : string) : bool := uuid_chars 0 s.

(** The test [inspect] makes at one item of a mapping. *)
Definition forbidden_item (key : string) (nested : json) : bool :=
  let lowered := lower key in
  let safe_boolean_observation := (lowered == "credentials_invalidated") && (nested == JBool true) in
  let safe_authorization_identifier :=
    (lowered == "authorization_id") && match nested with JStr s => is_canonical_uuid s | _ => false end in
  existsb (λ fragment, contains fragment lowered) SECRET_FRAGMENTS
  && negb safe_boolean_observation && negb safe_authorization_identifier.

(** [inspect]: the first forbidden key, in the order of a depth-first walk. *)
Fixpoint inspect (j : json) : option string :=
  match j with
  | JObj kvs =>
      (fix go l := match l with
                   | [] => None
                   | (k, v) :: l' =>
                       if forbidden_item k v then Some k
                       else match inspect v with Some k' => Some k' | None => go l' end
                   end) kvs
  | JArr l =>
      (fix go l := match l with
                   | [] => None
                   | x :: l' => match inspect x with Some k => Some k | None => go l' end
                   end) l
  | _ => None
  end.

(** [len(s.encode("utf-8"))] *)
Fixpoint utf8_length (s : string) : Z :=
  match s with
  | EmptyString => 0
  | String c s' => (if (Ascii.nat_of_ascii c <? 128)%nat then 1 else 2) + utf8_length s'
  end.

Definition MAX_METADATA_BYTES : Z := 16 * 1024.
Definition MAX_EVENT_BYTES : Z := 64 * 1024.

(** [_safe_json]; [None] counts as the empty mapping. *)
Definition safe_json (value : option (list (string * json))) (max_bytes : Z) : outcome string :=
  let value := JObj (default [] value) in
  match inspect value with
  | Some key => throw EventRejected ("secret-bearing field is forbidden in the control ledger: " +:+ key)
  | None =>
      let encoded := canonical_json value in
      throw_if (max_bytes <? utf8_length encoded) EventRejected
        "structured control metadata exceeds its bounded size" ;;
      Ret encoded
  end.

(** ** [str] and [int] of a decoded value *)

Definition repr_char (q c : Ascii.ascii) : string :=
  let n := Ascii.nat_of_ascii c in
  if (c == q) || (c == BS) then String BS (String c "")
  else if (n =? 10)%nat then String BS "n"
  else if (n =? 13)%nat then String BS "r"
  else if (n =? 9)%nat then String BS "t"
  else if (n <? 32)%nat || ((127 <=? n)%nat && (n <=? 160)%nat) || (n =? 173)%nat
  then String BS (String "x" (String (hex_digit (n / 16)) (String (hex_digit (n mod 16)) "")))
  else String c "".

(** [repr] of a string: single quotes unless only double quotes avoid escaping. *)
Definition repr_str (s : string) : string :=
  let q := if contains "'" s && negb (contains (String DQ "") s) then DQ else "'"%char in
  String q ((fix go s := match s with EmptyString => "" | String c s' => repr_char q c +:+ go s' end) s +:+ String q "").

Fixpoint py_repr (j : json) : string :=
  match j with
  | JNull => "None"
  | JBool true => "True"
  | JBool false => "False"
  | JInt n => str_int n
  | JStr s => repr_str s
  | JArr l =>
      "[" +:+ (fix go l := match l with
                           | [] => "]"
                           | [x] => py_repr x +:+ "]"
                           | x :: l' => py_repr x +:+ ", " +:+ go l'
                           end) l
  | JObj kvs =>
      "{" +:+ (fix go l := match l with
                           | [] => "}"
                           | [(k, v)] => repr_str k +:+ ": " +:+ py_repr v +:+ "}"
                           | (k, v) :: l' => repr_str k +:+ ": " +:+ py_repr v +:+ ", " +:+ go l'
                           end) kvs
  end.

(** [str(x)] *)
Definition py_str (j : json) : string := match j with JStr s => s | _ => py_repr j end.

Definition is_space (c : Ascii.ascii) : bool :=
  let n := Ascii.nat_of_ascii c in
  ((9 <=? n)%nat && (n <=? 13)%nat) || ((28 <=? n)%nat && (n <=? 32)%nat) || (n =? 133)%nat || (n =? 160)%nat.

Fixpoint lstrip (s : string) : string :=
  match s with String c s' => if is_space c then lstrip s' else s | EmptyString => "" end.

Fixpoint rstrip (s : string) : string :=
  match s with
  | EmptyString => ""
  | String c s' => let r := rstrip s' in if (r == "") && is_space c then "" else String c r
  end.

(** [str.strip()] *)
Definition strip (s : string) : string := rstrip (lstrip s).

(** [str.isdigit], [str.isalnum] and the like of ASCII characters. *)
Definition is_lower_letter : Ascii.ascii → bool := in_char_range "a"%char "z"%char.
Definition is_digit : Ascii.ascii → bool := in_char_range "0"%char "9"%char.
Definition is_alnum (c : Ascii.ascii) : bool := in_char_range "A"%char "Z"%char c || is_lower_letter c || is_digit c.

(** Decimal digits with single underscores between them, then only blanks. *)
Fixpoint read_decimal (after_digit : bool) (acc : Z) (s : string) : option Z :=
  match s with
  | EmptyString => if after_digit then Some acc else None
  | String c s' =>
      if in_char_range "0"%char "9"%char c
      then read_decimal true (10 * acc + (Z.of_nat (Ascii.nat_of_ascii c) - 48)) s'
      else if (c == "_"%char) && after_digit then read_decimal false acc s'
      else if after_digit && is_space c && (lstrip s' == "") then Some acc
      else None
  end.

(** [int(s)] of a text; [None] is [ValueError]. *)
Definition int_of_text (s : string) : option Z :=
  match lstrip s with
  | String c s' =>
      if c == "-"%char then Z.opp <$> read_decimal false 0 s'
      else if c == "+"%char then read_decimal false 0 s'
      else read_decimal false 0 (String c s')
  | EmptyString => None
  end.

(** [int(x)]; [None] is [ValueError] or [TypeError]. *)
Definition py_int (j : json) : option Z :=
  match j with
  | JInt n => Some n
  | JBool b => Some (if b then 1 else 0)
  | JStr s => int_of_text s
  | JNull | JArr _ | JObj _ => None
  end.

(** [d[key]] of a decoded value; [None] is [KeyError] or [TypeError]. *)
Definition jget (key : string) (j : json) : option json :=
  match j with JObj kvs => assoc key kvs | _ => None end.

(** Python's [==] on decoded values: booleans are the integers 0 and 1, dicts
    compare without order. *)
Fixpoint numeric (j : json) : json :=
  match j with
  | JBool b => JInt (if b then 1 else 0)
  | JArr l => JArr (map numeric l)
  | JObj kvs => JObj (map (λ '(k, v), (k, numeric v)) kvs)
  | j => j
  end.

Definition py_eq (a : option json) (b : json) : bool :=
  match a with Some a => canon (numeric a) == canon (numeric b) | None => false end.

(** The truth value of a decoded value. *)
Definition py_truthy (j : json) : bool :=
  match j with
  | JNull => false
  | JBool b => b
  | JInt n => n != 0
  | JStr s => s != ""
  | JArr l => match l with [] => false | _ => true end
  | JObj kvs => match kvs with [] => false | _ => true end
  end.

(** The items a decoded value iterates over; [None] is [TypeError]. *)
Definition py_iter (j : json) : option (list json) :=
  match j with
  | JArr l => Some l
  | JObj kvs => Some (map (λ kv, JStr kv.1) kvs)
  | JStr s => Some ((fix go s := match s with EmptyString => [] | String c s' => JStr (String c "") :: go s' end) s)
  | _ => None
  end.

(** [json] of a nullable text column. *)
Definition of_option_text (o : option string) : json := match o with Some s => JStr s | None => JNull end.

(** ** Reading: [json.loads] on the compact texts [_canonical_json] writes *)

Fixpoint strip_prefix (p s : string) : option string :=
  match p, s with
  | EmptyString, _ => Some s
  | String a p', String b s' => if a == b then strip_prefix p' s' else None
  | _, _ => None
  end.

Definition hex_value (c : Ascii.ascii) : option nat :=
  let n := Ascii.nat_of_ascii c in
  if in_char_range "0"%char "9"%char c then Some (n - 48)%nat
  else if in_char_range "a"%char "f"%char c then Some (n - 87)%nat
  else if in_char_range "A"%char "F"%char c then Some (n - 55)%nat
  else None.

Definition unescape (c : Ascii.ascii) : option Ascii.ascii :=
  if mem c [DQ; BS; "/"%char] then Some c
  else if c == "b"%char then Some "008"%char
  else if c == "f"%char then Some "012"%char
  else if c == "n"%char then Some "010"%char
  else if c == "r"%char then Some "013"%char
  else if c == "t"%char then Some "009"%char
  else None.

(** The rest of a string literal after its opening quote. *)
Fixpoint read_string (s : string) : option (string * string) :=
  match s with
  | EmptyString => None
  | String c s' =>
      if c == DQ then Some ("", s')
      else if c == BS then
        match s' with
        | EmptyString => None
        | String e s'' =>
            match unescape e with
            | Some c' => '(x, r) ← read_string s''; Some (String c' x, r)
            | None =>
                if e == "u"%char then
                  match s'' with
                  | String h1 (String h2 (String h3 (String h4 r0))) =>
                      a ← hex_value h1; b ← hex_value h2; c ← hex_value h3; d ← hex_value h4;
                      if (a =? 0)%nat && (b =? 0)%nat then
                        '(x, r) ← read_string r0; Some (String (Ascii.ascii_of_nat (16 * c + d)) x, r)
                      else None
                  | _ => None
                  end
                else None
            end
        end
      else '(x, r) ← read_string s'; Some (String c x, r)
  end.

Definition is_num_char (c : Ascii.ascii) : bool := in_char_range "0"%char "9"%char c || (c == "-"%char).

(** The longest prefix of number characters, and the rest. *)
Fixpoint span_num (s : string) : string * string :=
  match s with
  | EmptyString => ("", "")
  | String c s' => if is_num_char c then let '(a, b) := span_num s' in (String c a, b) else ("", s)
  end.

Definition read_int (s : string) : option (Z * string) :=
  let '(a, r) := span_num s in
  n ← NilZero.int_of_string a; Some (Z.of_int n, r).

Definition read_literal (s : string) : option (json * string) :=
  match strip_prefix "null" s, strip_prefix "true" s, strip_prefix "false" s with
  | Some r, _, _ => Some (JNull, r)
  | _, Some r, _ => Some (JBool true, r)
  | _, _, Some r => Some (JBool false, r)
  | None, None, None => '(n, r) ← read_int s; Some (JInt n, r)
  end.

Fixpoint parse_value (fuel : nat) (s : string) : option (json * string) :=
  match fuel with
  | O => None
  | S f =>
      match s with
      | EmptyString => None
      | String c s' =>
          if c == DQ then '(x, r) ← read_string s'; Some (JStr x, r)
          else if c == "["%char then
            match read_char "]" s' with
            | Some r => Some (JArr [], r)
            | None => '(l, r) ← parse_elems f s'; Some (JArr l, r)
            end
          else if c == "{"%char then
            match read_char "}" s' with
            | Some r => Some (JObj [], r)
            | None => '(l, r) ← parse_members f s'; Some (JObj l, r)
            end
          else read_literal s
      end
  end
with parse_elems (fuel : nat) (s : string) : option (list json * string) :=
  match fuel with
  | O => None
  | S f =>
      '(x, r) ← parse_value f s;
      match read_char "," r with
      | Some r' => '(l, r'') ← parse_elems f r'; Some (x :: l, r'')
      | None => r' ← read_char "]" r; Some ([x], r')
      end
  end
with parse_members (fuel : nat) (s : string) : option (list (string * json) * string) :=
  match fuel with
  | O => None
  | S f =>
      s' ← read_char DQ s;
      '(k, r) ← read_string s';
      r ← read_char ":" r;
      '(x, r) ← parse_value f r;
      match read_char "," r with
      | Some r' => '(l, r'') ← parse_members f r'; Some ((k, x) :: l, r'')
      | None => r' ← read_char "}" r; Some ([(k, x)], r')
      end
  end.

(** A text is one value and nothing more; a value has at most as many nodes as
    its text has characters, so the text's length is fuel enough. *)
Definition loads (s : string) : option json :=
  '(j, r) ← parse_value (S (String.length s)) s;
  if r == "" then Some j else None.

Arguments loads : simpl never.
Arguments jget : simpl never.
Arguments py_int : simpl never.

(** ** Round trip *)

Lemma to_int_not_nil n : Z.to_int n ≠ Decimal.Pos Decimal.Nil ∧ Z.to_int n ≠ Decimal.Neg Decimal.Nil.
Proof.
  destruct n as [|p|p]; [done|..]; cbn; split; try done;
    intros [= H]; by apply DecimalPos.Unsigned.to_uint_nonnil in H.
Qed.

Lemma int_of_str_int n : NilZero.int_of_string (str_int n) = Some (Z.to_int n).
Proof. destruct (to_int_not_nil n). by apply NilZero.isi. Qed.

Lemma uint_chars d : string_forallb is_num_char (NilEmpty.string_of_uint d) = true.
Proof. induction d; cbn; by rewrite ?IHd. Qed.

Lemma str_int_chars n : string_forallb is_num_char (str_int n) = true.
Proof.
  unfold str_int. destruct (Z.to_int n) as [d|d]; cbn; unfold NilZero.string_of_uint;
    destruct d; cbn; by rewrite ?uint_chars.
Qed.

Lemma str_int_head n : ∃ c s, str_int n = String c s ∧ is_num_char c = true.
Proof.
  assert (H := str_int_chars n). assert (Hne := int_of_str_int n).
  destruct (str_int n) as [|c s]; [|apply andb_true_iff in H; naive_solver].
  destruct (to_int_not_nil n). cbn in Hne. congruence.
Qed.

Definition stops (rest : string) : Prop :=
  match rest with EmptyString => True | String c _ => is_num_char c = false end.

Lemma span_num_app a rest :
  string_forallb is_num_char a = true → stops rest → span_num (a +:+ rest) = (a, rest).
Proof.
  intros Ha Hr. induction a as [|c a IH]; cbn in Ha.
  - rewrite string_app_nil_l. destruct rest as [|c r]; [done|]. cbn in *. by rewrite Hr.
  - apply andb_true_iff in Ha as [Hc Ha]. rewrite string_app_cons. cbn. by rewrite Hc, IH.
Qed.

Lemma read_int_str n rest : stops rest → read_int (str_int n +:+ rest) = Some (n, rest).
Proof.
  intros Hr. unfold read_int. rewrite span_num_app by (done || apply str_int_chars).
  rewrite int_of_str_int. cbn. by rewrite DecimalZ.of_to.
Qed.

Lemma read_string_char c s :
  read_string (escape_char c +:+ s) = '(x, r) ← read_string s; Some (String c x, r).
Proof. destruct c as [[] [] [] [] [] [] [] []]; reflexivity. Qed.

Lemma read_string_escape s rest : read_string (escape s +:+ String DQ rest) = Some (s, rest).
Proof.
  induction s as [|c s IH]; [done|]. cbn [escape].
  by rewrite string_app_assoc, read_string_char, IH.
Qed.

Lemma quote_app s rest : quote s +:+ rest = String DQ (escape s +:+ String DQ rest).
Proof. unfold quote. by rewrite string_app_cons, string_app_assoc, string_app_cons, string_app_nil_l. Qed.

Fixpoint print_elems (l : list json) : string :=
  match l with
  | [] => "]"
  | [x] => print x +:+ "]"
  | x :: l' => print x +:+ "," +:+ print_elems l'
  end.

Fixpoint print_members (l : list (string * json)) : string :=
  match l with
  | [] => "}"
  | [(k, v)] => quote k +:+ ":" +:+ print v +:+ "}"
  | (k, v) :: l' => quote k +:+ ":" +:+ print v +:+ "," +:+ print_members l'
  end.

Lemma print_arr l : print (JArr l) = String "[" (print_elems l).
Proof. done. Qed.

Lemma print_obj l : print (JObj l) = String "{" (print_members l).
Proof. done. Qed.

(** Fuel a value needs. *)
Fixpoint jsize (j : json) : nat :=
  match j with
  | JArr l => S ((fix go l := match l with [] => O | x :: l' => S (jsize x + go l') end) l)
  | JObj l => S ((fix go l := match l with [] => O | (_, x) :: l' => S (jsize x + go l') end) l)
  | _ => 1%nat
  end.

Fixpoint elems_size (l : list json) : nat :=
  match l with [] => O | x :: l' => S (jsize x + elems_size l') end.

Fixpoint members_size (l : list (string * json)) : nat :=
  match l with [] => O | (_, x) :: l' => S (jsize x + members_size l') end.

Definition opens_value (c : Ascii.ascii) : bool :=
  negb (mem c ["]"%char; "}"%char; ","%char; ":"%char]).

Lemma num_char_opens c : is_num_char c = true → opens_value c = true.
Proof. by destruct c as [[] [] [] [] [] [] [] []]. Qed.

Lemma print_head j : ∃ c s, print j = String c s ∧ opens_value c = true.
Proof.
  destruct j as [|[]|n|s|l|l]; try by eexists _, _.
  destruct (str_int_head n) as (c & s & E & H). exists c, s. split; [done|]. by apply num_char_opens.
Qed.

Lemma read_char_other c c' s : c ≠ c' → read_char c (String c' s) = None.
Proof. intros H. unfold read_char. by rewrite bool_decide_eq_false_2. Qed.

Definition parses (j : json) : Prop := ∀ fuel rest,
  (jsize j ≤ fuel)%nat → stops rest → parse_value fuel (print j +:+ rest) = Some (j, rest).

Lemma read_literal_num c s n rest :
  is_num_char c = true → str_int n = String c s → stops rest →
  read_literal (String c (s +:+ rest)) = Some (JInt n, rest).
Proof.
  intros Hc E Hr. unfold read_literal.
  assert (∀ a p, is_num_char a = false → strip_prefix (String a p) (String c (s +:+ rest)) = None) as Hp.
  { intros a p Ha. cbn. rewrite bool_decide_eq_false_2; [done|congruence]. }
  rewrite !Hp by done. rewrite <-string_app_cons, <-E. by rewrite read_int_str.
Qed.

Lemma parses_int n : parses (JInt n).
Proof.
  intros [|f] rest Hf Hr; [cbn in Hf; lia|]. cbn [print].
  destruct (str_int_head n) as (c & s & E & H). rewrite E, string_app_cons. cbn [parse_value].
  assert (c ≠ DQ ∧ c ≠ "["%char ∧ c ≠ "{"%char) as (H1 & H2 & H3).
  { split_and!; intros ->; done. }
  rewrite !bool_decide_eq_false_2 by done. by apply read_literal_num.
Qed.

Lemma parse_elems_print l :
  Forall parses l → l ≠ [] → ∀ fuel rest,
  (elems_size l ≤ fuel)%nat → parse_elems fuel (print_elems l +:+ rest) = Some (l, rest).
Proof.
  induction 1 as [|x l Hx Hl IH]; [done|]. intros _ [|f] rest Hf; [cbn in Hf; lia|].
  cbn [elems_size] in Hf. destruct l as [|y l].
  - cbn [print_elems parse_elems]. rewrite string_app_assoc, string_app_cons, string_app_nil_l.
    rewrite Hx by (done || lia). cbn [mbind option_bind].
    rewrite read_char_other, read_char_cons by done. done.
  - cbn [print_elems parse_elems]. rewrite !string_app_assoc, string_app_cons, string_app_nil_l.
    rewrite Hx by (done || lia). cbn [mbind option_bind]. rewrite read_char_cons.
    fold (print_elems (y :: l)). rewrite IH by (done || cbn in *; lia). done.
Qed.

Lemma parse_members_print l :
  Forall (λ kv, parses kv.2) l → l ≠ [] → ∀ fuel rest,
  (members_size l ≤ fuel)%nat → parse_members fuel (print_members l +:+ rest) = Some (l, rest).
Proof.
  induction 1 as [|[k x] l Hx Hl IH]; [done|]. intros _ [|f] rest Hf; [cbn in Hf; lia|].
  cbn [members_size] in Hf. cbn in Hx. destruct l as [|[k' y] l].
  - cbn [print_members parse_members].
    repeat (rewrite string_app_assoc || rewrite string_app_cons || rewrite string_app_nil_l).
    rewrite quote_app, read_char_cons. cbn [mbind option_bind].
    rewrite read_string_escape. cbn [mbind option_bind]. rewrite read_char_cons. cbn [mbind option_bind].
    rewrite Hx by (done || lia). cbn [mbind option_bind].
    rewrite read_char_other, read_char_cons by done. done.
  - cbn [print_members parse_members].
    repeat (rewrite string_app_assoc || rewrite string_app_cons || rewrite string_app_nil_l).
    rewrite quote_app, read_char_cons. cbn [mbind option_bind].
    rewrite read_string_escape. cbn [mbind option_bind]. rewrite read_char_cons. cbn [mbind option_bind].
    rewrite Hx by (done || lia). cbn [mbind option_bind]. rewrite read_char_cons.
    fold (print_members ((k', y) :: l)). rewrite IH by (done || cbn in *; lia). done.
Qed.

Lemma parses_all j : parses j.
Proof.
  induction j as [|b|n|s|l IH|l IH] using json_ind'.
  - intros [|f] rest Hf Hr; [cbn in Hf; lia|]. done.
  - intros [|f] rest Hf Hr; [cbn in Hf; lia|]. by destruct b.
  - apply parses_int.
  - intros [|f] rest Hf Hr; [cbn in Hf; lia|]. cbn [print]. rewrite quote_app. cbn [parse_value].
    rewrite bool_decide_eq_true_2 by done. by rewrite read_string_escape.
  - intros [|f] rest Hf Hr; [cbn in Hf; lia|]. rewrite print_arr, string_app_cons. cbn [parse_value].
    rewrite bool_decide_eq_false_2, bool_decide_eq_true_2 by done.
    destruct l as [|x l]; [done|].
    rewrite parse_elems_print by (done || exact (le_S_n _ _ Hf)).
    destruct (print_head x) as (c & s & E & Hc).
    assert (read_char "]" (print_elems (x :: l) +:+ rest) = None) as ->; [|done].
    destruct l; cbn [print_elems]; rewrite E, !string_app_cons; apply read_char_other; by intros <-.
  - intros [|f] rest Hf Hr; [cbn in Hf; lia|]. rewrite print_obj, string_app_cons. cbn [parse_value].
    rewrite !bool_decide_eq_false_2, bool_decide_eq_true_2 by done.
    destruct l as [|[k x] l]; [done|].
    rewrite parse_members_print by (done || exact (le_S_n _ _ Hf)).
    assert (read_char "}" (print_members ((k, x) :: l) +:+ rest) = None) as ->; [|done].
    destruct l as [|[? ?] ?]; cbn [print_members]; rewrite string_app_assoc, quote_app; by apply read_char_other.
Qed.

Lemma jsize_length j : (jsize j ≤ String.length (print j))%nat.
Proof.
  induction j as [|[]|n|s|l IH|l IH] using json_ind'; try (cbn; lia).
  - destruct (str_int_head n) as (c & s & E & _). cbn [print jsize]. rewrite E. cbn. lia.
  - rewrite print_arr. change (jsize (JArr l)) with (S (elems_size l)). cbn [String.length].
    apply le_n_S. induction IH as [|x l Hx Hl IH]; [cbn; lia|].
    destruct l as [|y l]; cbn [elems_size print_elems] in *; rewrite ?string_length_app; cbn in *; lia.
  - rewrite print_obj. change (jsize (JObj l)) with (S (members_size l)). cbn [String.length].
    apply le_n_S. induction IH as [|[k x] l Hx Hl IH]; [cbn; lia|]. cbn in Hx.
    destruct l as [|[k' y] l]; cbn [members_size print_members] in *; rewrite ?string_length_app; cbn in *; lia.
Qed.

Lemma loads_print j : loads (print j) = Some j.
Proof.
  unfold loads. assert (H := parses_all j (S (String.length (print j))) "").
  rewrite string_app_nil_r in H. rewrite H; [done| |done].
  assert (Hl := jsize_length j). lia.
Qed.

(** ** Objects through the text *)

Lemma insert_key_perm kv l : insert_key kv l ≡ₚ kv :: l.
Proof.
  induction l as [|kv' l IH]; [done|]. cbn [insert_key]. case_match; [done|].
  rewrite IH. apply Permutation_swap.
Qed.

Lemma sort_keys_perm l : sort_keys l ≡ₚ l.
Proof. induction l as [|kv l IH]; [done|]. cbn. rewrite insert_key_perm. by f_equiv. Qed.

Lemma assoc_perm key l l' : NoDup (keys l) → l ≡ₚ l' → assoc key l = assoc key l'.
Proof.
  intros Hnd Hp. revert Hnd. induction Hp as [|[k v] l l' Hp IH|[k v] [k' v'] l|l1 l2 l3 H1 IH1 H2 IH2]; intros Hnd.
  - done.
  - cbn in *. apply list.NoDup_cons in Hnd as [_ Hnd]. by rewrite IH.
  - cbn in *. apply list.NoDup_cons in Hnd as [Hn _]. repeat case_bool_decide; subst; try done. set_solver.
  - rewrite IH1 by done. apply IH2. unfold keys in *. by rewrite <-H1.
Qed.

Lemma keys_canon_map l : keys (map (λ '(k, v), (k, canon v)) l) = keys l.
Proof. unfold keys. rewrite map_map. apply map_ext. by intros [k v]. Qed.

Lemma assoc_canon_map key l : assoc key (map (λ '(k, v), (k, canon v)) l) = canon <$> assoc key l.
Proof. induction l as [|[k v] l IH]; [done|]. cbn. by case_bool_decide. Qed.

(** Reading a field of an object back from its canonical text. *)
Lemma assoc_canon key kvs kvs' :
  NoDup (keys kvs) → canon (JObj kvs) = JObj kvs' → assoc key kvs' = canon <$> assoc key kvs.
Proof.
  cbn. intros Hnd [= <-]. rewrite <-assoc_canon_map. apply assoc_perm; [|apply sort_keys_perm].
  unfold keys. rewrite sort_keys_perm. fold keys. by rewrite keys_canon_map.
Qed.

Lemma assoc_set_same key v kvs : assoc key (assoc_set key v kvs) = Some v.
Proof. induction kvs as [|[k w] l IH]; cbn; repeat case_bool_decide; simplify_eq; cbn; repeat case_bool_decide; done. Qed.

Lemma assoc_set_other key key' v kvs : key ≠ key' → assoc key' (assoc_set key v kvs) = assoc key' kvs.
Proof.
  intros Hne. induction kvs as [|[k w] l IH]; cbn; repeat case_bool_decide; simplify_eq; cbn; repeat case_bool_decide; done.
Qed.

Lemma keys_assoc_set key v kvs :
  keys (assoc_set key v kvs) = if mem key (keys kvs) then keys kvs else (keys kvs ++ [key])%list.
Proof.
  unfold keys, mem. induction kvs as [|[k w] l IH]; [done|]. cbn. case_bool_decide; cbn; [done|].
  rewrite IH. by destruct (existsb _ _).
Qed.

Lemma NoDup_assoc_set key v kvs : NoDup (keys kvs) → NoDup (keys (assoc_set key v kvs)).
Proof.
  intros H. rewrite keys_assoc_set. destruct (mem key (keys kvs)) eqn:E; [done|].
  apply mem_false in E. apply list.NoDup_app. split_and!; [done| |apply NoDup_singleton].
  intros x Hx ->%list_elem_of_singleton. done.
Qed.

Lemma safe_json_ret value max_bytes t :
  safe_json value max_bytes = Ret t → loads t = Some (canon (JObj (default [] value))).
Proof.
  unfold safe_json. destruct (inspect _); [done|]. unfold throw_if, throw, mbind, outcome_bind.
  destruct (max_bytes <? _); [done|]. intros [= <-]. apply loads_print.
Qed.

Lemma jget_canon_set key v kvs :
  NoDup (keys kvs) → jget key (canon (JObj (assoc_set key v kvs))) = Some (canon v).
Proof.
  intros H. apply (NoDup_assoc_set key v) in H. destruct (canon (JObj (assoc_set key v kvs))) as [| | | | |kvs'] eqn:E; try done.
  unfold jget. by rewrite (assoc_canon key _ _ H E), assoc_set_same.
Qed.

(** ** The secret filter *)

(** A key that bears a secret: some fragment occurs in its lower-case form. *)
Definition secret_bearing (key : string) : Prop :=
  ∃ fragment before after,
    fragment ∈ ["password"; "secret"; "token"; "authorization"; "credential"; "private_key"] ∧
    lower key = before +:+ fragment +:+ after.

(** The two observations that may be recorded under such a key. *)
Definition harmless (key : string) (value : json) : Prop :=
  (lower key = "credentials_invalidated" ∧ value = JBool true) ∨
  (lower key = "authorization_id" ∧ ∃ s, value = JStr s ∧ is_canonical_uuid s = true).

(** A forbidden item somewhere inside a value. *)
Inductive has_forbidden : json → Prop :=
| hf_here k v kvs : (k, v) ∈ kvs → secret_bearing k → ¬ harmless k v → has_forbidden (JObj kvs)
| hf_member k v kvs : (k, v) ∈ kvs → has_forbidden v → has_forbidden (JObj kvs)
| hf_elem x l : x ∈ l → has_forbidden x → has_forbidden (JArr l).

Lemma prefix_spec p s : String.prefix p s = true ↔ ∃ r, s = p +:+ r.
Proof.
  revert s. induction p as [|c p IH]; intros s; [split; [by exists s|by destruct s]|].
  destruct s as [|c' s]; [split; [done|by intros [r [=]]]|]. cbn. destruct (ascii_dec c c') as [->|Hne].
  - rewrite IH. split; [intros [r ->]; by exists r|intros [r [= ->]]; by exists r].
  - split; [done|intros [r [= E _]]; congruence].
Qed.

Lemma contains_spec f s : contains f s = true ↔ ∃ a b, s = a +:+ f +:+ b.
Proof.
  induction s as [|c s IH]; cbn [contains]; rewrite orb_true_iff, prefix_spec.
  - split; [intros [[r E]|?]; [by exists "", r|done]|]. intros (a & b & E). left. exists b. by destruct a.
  - rewrite IH. split.
    + intros [[r ->]|(a & b & ->)]; [by exists "", r|by exists (String c a), b].
    + intros ([|c' a] & b & E); [left; by exists b|right]. injection E as -> ->. eauto.
Qed.

Lemma forbidden_item_spec k v : forbidden_item k v = true ↔ secret_bearing k ∧ ¬ harmless k v.
Proof.
  unfold forbidden_item, secret_bearing, harmless. rewrite !andb_true_iff, !negb_true_iff.
  assert (existsb (λ fragment, contains fragment (lower k)) SECRET_FRAGMENTS = true ↔
    ∃ f a b, f ∈ ["password"; "secret"; "token"; "authorization"; "credential"; "private_key"] ∧ lower k = a +:+ f +:+ b) as ->.
  { rewrite existsb_exists. setoid_rewrite contains_spec. setoid_rewrite <-list_elem_of_In. split.
    - intros (f & Hf & a & b & E). by exists f, a, b.
    - intros (f & a & b & Hf & E). exists f. eauto. }
  rewrite <-!not_true_iff_false, !andb_true_iff, !bool_decide_eq_true. destruct v; naive_solver.
Qed.

Lemma inspect_arr_none l :
  inspect (JArr l) = None ↔ Forall (λ x, inspect x = None) l.
Proof.
  induction l as [|x l IH]; [by split; [constructor|]|]. rewrite list.Forall_cons, <-IH. cbn.
  destruct (inspect x); naive_solver.
Qed.

Lemma inspect_obj_none kvs :
  inspect (JObj kvs) = None ↔ Forall (λ kv, forbidden_item kv.1 kv.2 = false ∧ inspect kv.2 = None) kvs.
Proof.
  induction kvs as [|[k v] l IH]; [by split; [constructor|]|]. rewrite list.Forall_cons, <-IH. cbn.
  destruct (forbidden_item k v); [naive_solver|]. destruct (inspect v); naive_solver.
Qed.

Lemma inspect_none j : inspect j = None ↔ ¬ has_forbidden j.
Proof.
  split.
  - intros Hi Hf. induction Hf as [k v kvs Hin Hk Hh|k v kvs Hin _ IH|x l Hin _ IH].
    + apply inspect_obj_none in Hi. rewrite list.Forall_forall in Hi. destruct (Hi _ Hin) as [Hf _].
      assert (forbidden_item k v = true) by by apply forbidden_item_spec. simpl in *. congruence.
    + apply inspect_obj_none in Hi. rewrite list.Forall_forall in Hi. by destruct (Hi _ Hin).
    + apply inspect_arr_none in Hi. rewrite list.Forall_forall in Hi. auto.
  - induction j as [|[]|n|s|l IH|l IH] using json_ind'; intros Hn; try done.
    + apply inspect_arr_none. rewrite list.Forall_forall in IH |- *. intros x Hx. apply IH; [done|].
      intros ?. apply Hn. by econstructor.
    + apply inspect_obj_none. rewrite list.Forall_forall in IH |- *. intros [k v] Hx. split.
      * apply not_true_is_false. intros [? ?]%forbidden_item_spec. apply Hn. by econstructor.
      * apply (IH _ Hx). intros ?. apply Hn. by eapply hf_member.
Qed.

(** ** Properties *)

(** The canonical text of a value reads back as the value with its keys
    sorted, and two values have the same text exactly when they differ only in
    the order of keys.  The ledger's comparison of stored texts is therefore a
    comparison of the values. *)
Theorem canonical_json_roundtrip (a b : json) :
  loads (canonical_json a) = Some (canon a) ∧
  (canonical_json a = canonical_json b ↔ canon a = canon b).
Proof.
  unfold canonical_json. split; [apply loads_print|]. split; [|congruence].
  intros H%(f_equal loads). rewrite !loads_print in H. congruence.
Qed.

(** [_safe_json] returns a text exactly when no mapping at any depth has a
    secret-bearing key and the text fits the bound; the text then is the
    canonical one, and otherwise the call raises [EventRejected]. *)
Theorem safe_json_admits_no_secret value max_bytes :
  let j := JObj (default [] value) in
  (safe_json value max_bytes = Ret (canonical_json j)
   ↔ ¬ has_forbidden j ∧ utf8_length (canonical_json j) ≤ max_bytes) ∧
  (safe_json value max_bytes ≠ Ret (canonical_json j) →
   ∃ msg, safe_json value max_bytes = Exc (Exn EventRejected msg)).
Proof.
  intros j. unfold safe_json. fold j. rewrite <-inspect_none.
  destruct (inspect j) as [k|]; [split; [naive_solver|by eexists]|].
  unfold throw_if, throw, mbind, outcome_bind.
  destruct (Z.ltb_spec max_bytes (utf8_length (canonical_json j))).
  - split; [split; [done|lia]|by eexists].
  - split; [split; [intros _; split; [done|lia]|done]|done].
Qed.
