(* ===== verification/Fencing.v ===== *)
(** * Fencing: the epoch fence and the lease watchdog

    Models master_runtime/fencing.py and the identity and gate types of
    master_runtime/contracts.py.  [EpochFence] serialises every method with a
    lock, so an execution is a sequence of whole method calls: [step] runs one
    call and [reachable] closes the empty fence under calls, whether they
    return or raise. *)

From S2P Require Import Prelude Time.

(** A [uuid.UUID] is its 128-bit integer. *)
Abbreviation UUID := N.

Module Fence.

(** ** Contracts *)

Inductive GateState : Set := CLOSED | OPEN | DRAINING | FENCED.

#[global] Instance GateState_eq_dec : EqDecision GateState.
Proof. solve_decision. Defined.

Definition GateState_value (g : GateState) : string :=
  match g with CLOSED => "closed" | OPEN => "open" | DRAINING => "draining" | FENCED => "fenced" end.

Record MasterIdentity : Set := mk_MasterIdentity {
  master_instance_id : UUID;
  run_id : string;
  epoch : Z;
}.

#[global] Instance MasterIdentity_eq_dec : EqDecision MasterIdentity.
Proof. solve_decision. Defined.

(** [MasterIdentity(...)] with its [__post_init__] checks. *)
Definition MasterIdentity_new (mid : UUID) (rid : string) (ep : Z) : outcome MasterIdentity :=
  throw_if (ep <? 1) ValueError "epoch must be positive" ;;
  throw_if (blank_or_longer rid 256) ValueError "run_id must contain 1..256 characters" ;;
  Ret (mk_MasterIdentity mid rid ep).

(** The identities that construction admits. *)
Definition identity_ok (i : MasterIdentity) : Prop :=
  1 ≤ epoch i ∧ blank_or_longer (run_id i) 256 = false.

Record Lease : Set := mk_Lease {
  identity : MasterIdentity;
  lease_until : Z;
  gate : GateState;
  reason : string;
}.

Record CredentialBinding : Set := mk_CredentialBinding {
  principal : string;
  bound_identity : MasterIdentity;
  expires_at : Z;
}.

Record EpochFence : Type := mk_EpochFence {
  highest_epoch : Z;
  lease : option Lease;
  bindings : gmap string CredentialBinding;
}.

(** [EpochFence.__init__] *)
Definition EpochFence_init : EpochFence := mk_EpochFence 0 None ∅.

(** [replace(lease, gate=..., reason=...)] *)
Definition with_gate (l : Lease) (g : GateState) (why : string) : Lease :=
  mk_Lease (identity l) (lease_until l) g why.

Definition set_lease (l : Lease) : M EpochFence Lease := λ s,
  (Ret l, mk_EpochFence (highest_epoch s) (Some l) (bindings s)).

(** ** Methods of [EpochFence] *)

Definition require_identity (i : MasterIdentity) : M EpochFence Lease :=
  l ← gets lease;
  match l with
  | Some l => if identity l == i then mret l else raise FencingError "stale master identity"
  | None => raise FencingError "stale master identity"
  end.

Definition require_current (i : MasterIdentity) (now : datetime) : M EpochFence Lease :=
  l ← require_identity i;
  observed ← lift (require_utc now "now");
  raise_if (lease_until l <=? observed) FencingError "master lease expired" ;;
  mret l.

Definition acquire (i : MasterIdentity) (until now : datetime) : M EpochFence Lease :=
  deadline ← lift (require_utc until "lease_until");
  observed ← lift (require_utc now "now");
  raise_if (deadline <=? observed) FencingError "lease deadline must be in the future" ;;
  s ← get;
  raise_if (match lease s with
            | Some current => negb (mem (gate current) [FENCED; DRAINING])
                              && (observed <? lease_until current)
            | None => false
            end) FencingError "another master has an unexpired lease" ;;
  raise_if (epoch i <=? highest_epoch s) FencingError
    ("control epoch must be newer than restored local epoch " +:+ str_int (highest_epoch s)) ;;
  put (mk_EpochFence (epoch i) (lease s) (bindings s)) ;;
  set_lease (mk_Lease i deadline CLOSED "registered").

Definition open (i : MasterIdentity) (now : datetime) : M EpochFence Lease :=
  l ← require_current i now;
  raise_if (gate l != CLOSED) FencingError "only a closed current gate can be opened" ;;
  set_lease (with_gate l OPEN "activated").

Definition renew (i : MasterIdentity) (until now : datetime) : M EpochFence Lease :=
  deadline ← lift (require_utc until "lease_until");
  l ← require_current i now;
  raise_if (negb (mem (gate l) [CLOSED; OPEN])) FencingError "draining or fenced epoch cannot renew" ;;
  raise_if (deadline <=? lease_until l) FencingError "lease renewal must extend the deadline" ;;
  set_lease (mk_Lease (identity l) deadline (gate l) "renewed").

Definition bind (p : string) (i : MasterIdentity) (expires now : datetime) : M EpochFence CredentialBinding :=
  raise_if (blank_or_longer p 63) FencingError "principal must contain 1..63 characters" ;;
  expiry ← lift (require_utc expires "expires_at");
  l ← require_current i now;
  raise_if (gate l != OPEN) FencingError "credentials are issued only for an open gate" ;;
  observed ← lift (require_utc now "now");
  raise_if ((lease_until l <? expiry) || (expiry <=? observed)) FencingError
    "credential expiry must be in the remaining lease" ;;
  let b := mk_CredentialBinding p i expiry in
  modify (λ s, mk_EpochFence (highest_epoch s) (lease s) (<[p := b]> (bindings s))) ;;
  mret b.

Definition assert_write (p : string) (now : datetime) : M EpochFence unit :=
  observed ← lift (require_utc now "now");
  s ← get;
  match lease s, bindings s !! p with
  | Some l, Some b =>
      raise_if (gate l != OPEN) FencingError ("write gate is " +:+ GateState_value (gate l)) ;;
      raise_if (lease_until l <=? observed) FencingError "master lease expired" ;;
      raise_if (expires_at b <=? observed) FencingError "credential expired" ;;
      raise_if (bound_identity b != identity l) FencingError "credential belongs to a fenced epoch"
  | _, _ => raise FencingError "principal has no current epoch binding"
  end.

(** [drain] takes the time and ignores it. *)
Definition drain (i : MasterIdentity) (now : datetime) : M EpochFence Lease :=
  l ← require_identity i;
  set_lease (with_gate l DRAINING "drain").

Definition fence (i : MasterIdentity) (why : string) : M EpochFence Lease :=
  raise_if (blank_or_longer why 256) FencingError "fence reason must contain 1..256 characters" ;;
  l ← require_identity i;
  set_lease (with_gate l FENCED why).

Definition expire (now : datetime) : M EpochFence bool :=
  observed ← lift (require_utc now "now");
  s ← get;
  match lease s with
  | None => mret false
  | Some l =>
      if mem (gate l) [DRAINING; FENCED] then mret false
      else if observed <? lease_until l then mret false
      else set_lease (with_gate l FENCED "lease_expired") ;; mret true
  end.

(** ** Executions *)

Inductive fence_call : Type :=
| Acquire (i : MasterIdentity) (until now : datetime)
| Open (i : MasterIdentity) (now : datetime)
| Renew (i : MasterIdentity) (until now : datetime)
| Bind (p : string) (i : MasterIdentity) (expires now : datetime)
| AssertWrite (p : string) (now : datetime)
| Drain (i : MasterIdentity) (now : datetime)
| Fence (i : MasterIdentity) (why : string)
| Expire (now : datetime).

(** The state a call leaves, and whether it returned. *)
Definition step (c : fence_call) (s : EpochFence) : bool * EpochFence :=
  let done_ {A} (r : outcome A * EpochFence) :=
    (match r.1 with Ret _ => true | Exc _ => false end, r.2) in
  match c with
  | Acquire i u n => done_ (acquire i u n s)
  | Open i n => done_ (open i n s)
  | Renew i u n => done_ (renew i u n s)
  | Bind p i e n => done_ (bind p i e n s)
  | AssertWrite p n => done_ (assert_write p n s)
  | Drain i n => done_ (drain i n s)
  | Fence i w => done_ (fence i w s)
  | Expire n => done_ (expire n s)
  end.

Definition run (cs : list fence_call) (s : EpochFence) : EpochFence :=
  fold_left (λ s c, (step c s).2) cs s.

(** ** [LeaseWatchdog]

    The gate callback belongs to the caller: [E] is the state it works on and
    [close_gate] may return or raise. *)

Record LeaseWatchdog : Set := mk_LeaseWatchdog {
  safety_margin : Z;
  control_timeout : Z;
  observed_lease : option Z;
  last_control : option Z;
  closed_reason : option string;
}.

(** [LeaseWatchdog.__init__]; timedeltas are microseconds. *)
Definition LeaseWatchdog_new (margin timeout : Z) : outcome LeaseWatchdog :=
  throw_if ((margin <=? 0) || (timeout <=? 0)) ValueError "watchdog timeouts must be positive" ;;
  Ret (mk_LeaseWatchdog margin timeout None None None).

Section watchdog.
Context {E : Type} (close_gate : string → M E unit).

Definition observe_lease (until : datetime) : M (LeaseWatchdog * E) unit :=
  t ← lift (require_utc until "lease_until");
  modify (λ '(w, e), (mk_LeaseWatchdog (safety_margin w) (control_timeout w) (Some t)
                        (last_control w) (closed_reason w), e)).

Definition observe_control (now : datetime) : M (LeaseWatchdog * E) unit :=
  t ← lift (require_utc now "now");
  modify (λ '(w, e), (mk_LeaseWatchdog (safety_margin w) (control_timeout w) (observed_lease w)
                        (Some t) (closed_reason w), e)).

(** The reason, if any, why the gate must be closed at an instant. *)
Definition poll_reason (w : LeaseWatchdog) (observed : Z) : option string :=
  if match observed_lease w with None => true | Some l => l - observed <=? safety_margin w end
  then Some "lease_safety_margin"
  else if match last_control w with None => true | Some c => control_timeout w <=? observed - c end
  then Some "control_heartbeat_lost"
  else None.

Definition poll (now : datetime) : M (LeaseWatchdog * E) (option string) :=
  observed ← lift (require_utc now "now");
  '(w, _) ← get;
  (match poll_reason w observed, closed_reason w with
   | Some why, None =>
       (λ '(w, e), let '(r, e') := close_gate why e in (r, (w, e'))) ;;
       modify (λ '(w, e), (mk_LeaseWatchdog (safety_margin w) (control_timeout w) (observed_lease w)
                             (last_control w) (Some why), e))
   | _, _ => mret tt
   end) ;;
  gets (λ '(w, _), closed_reason w).

End watchdog.

Inductive watchdog_call : Set :=
| WLease (until : datetime)
| WControl (now : datetime)
| WPoll (now : datetime).

Definition watchdog_step {E} (close_gate : string → M E unit) (c : watchdog_call)
    (s : LeaseWatchdog * E) : LeaseWatchdog * E :=
  match c with
  | WLease u => (observe_lease u s).2
  | WControl n => (observe_control n s).2
  | WPoll n => (poll close_gate n s).2
  end.

Definition watchdog_run {E} (close_gate : string → M E unit) (cs : list watchdog_call)
    (s : LeaseWatchdog * E) : LeaseWatchdog * E :=
  fold_left (λ s c, watchdog_step close_gate c s) cs s.

(** A gate that fails as a script says and records every call with its success. *)
Definition scripted_gate (why : string) : M (list bool * list (string * bool)) unit :=
  λ '(script, log),
    match script with
    | true :: k => (Exc (Exn RuntimeError "gate"), (k, (log ++ [(why, false)])%list))
    | _ => (Ret tt, (tl script, (log ++ [(why, true)])%list))
    end.

(** ** The invariant *)

(** Credentials outlive their epoch in the table; what the fence maintains is
    that no credential is newer than the lease, and that a credential of the
    lease's epoch belongs to the lease's master. *)
Definition binding_ok (s : EpochFence) (p : string) (b : CredentialBinding) : Prop :=
  principal b = p ∧ epoch (bound_identity b) ≤ highest_epoch s ∧
  ∀ l, lease s = Some l → epoch (bound_identity b) = highest_epoch s → bound_identity b = identity l.

Definition fence_ok (s : EpochFence) : Prop :=
  0 ≤ highest_epoch s ∧
  (∀ l, lease s = Some l → epoch (identity l) = highest_epoch s ∧ 1 ≤ highest_epoch s) ∧
  (lease s = None → highest_epoch s = 0 ∧ bindings s = ∅) ∧
  map_Forall (binding_ok s) (bindings s).

Definition closed_for_good (g : GateState) : bool := mem g [FENCED; DRAINING].

(** What one call may do to a lease: nothing, extend it or change its gate
    within the epoch, or replace it by a lease of a newer epoch. *)
Definition lease_step (s s' : EpochFence) : Prop :=
  highest_epoch s ≤ highest_epoch s' ∧
  ∀ l, lease s = Some l → ∃ l', lease s' = Some l' ∧
    ((identity l' = identity l ∧ lease_until l ≤ lease_until l' ∧
      (closed_for_good (gate l) = true → closed_for_good (gate l') = true))
     ∨ epoch (identity l) < epoch (identity l')).

Ltac run_call := unfold step, acquire, open, renew, bind, assert_write, drain, fence, expire,
  require_current, require_identity, set_lease, with_gate; py_cases.

Lemma step_exc_unchanged c s s' : step c s = (false, s') → s' = s.
Proof. destruct c; run_call; naive_solver. Qed.

Lemma bind_ok_insert s l p b :
  fence_ok s → lease s = Some l → bound_identity b = identity l → principal b = p →
  fence_ok (mk_EpochFence (highest_epoch s) (lease s) (<[p := b]> (bindings s))).
Proof.
  intros (H0 & Hl & Hn & Hb) El Eb Ep. destruct (Hl _ El) as [He H1].
  split_and!; cbn; [done|done|congruence|].
  apply map_Forall_insert_2; [|done]. split_and!; [done|cbn; rewrite Eb; lia|].
  cbn. intros l' ? ?. congruence.
Qed.

Lemma set_gate_ok s l l' :
  fence_ok s → lease s = Some l → identity l' = identity l →
  fence_ok (mk_EpochFence (highest_epoch s) (Some l') (bindings s)).
Proof.
  intros (H0 & Hl & Hn & Hb) El Ei. destruct (Hl _ El) as [He H1].
  split_and!; cbn; [done| |done|].
  - intros ? [= <-]. rewrite Ei. done.
  - intros p b (Hp & Hle & Heq)%Hb. split_and!; [done..|]. cbn. intros ? [= <-] ?.
    rewrite Ei. by apply Heq.
Qed.

Lemma acquire_ok s l :
  fence_ok s → highest_epoch s < epoch (identity l) →
  fence_ok (mk_EpochFence (epoch (identity l)) (Some l) (bindings s)).
Proof.
  intros (H0 & Hl & Hn & Hb) He. split_and!; cbn; [lia| |done|].
  - intros ? [= <-]. lia.
  - intros p b (Hp & Hle & Heq)%Hb. split_and!; cbn; [done|lia|lia].
Qed.

Lemma step_ok c s : fence_ok s → fence_ok (step c s).2.
Proof.
  intros Hs. destruct c; run_call; b2p; subst; try done.
  all: try (eapply (acquire_ok _ (mk_Lease _ _ _ _)); [done|cbn; lia]).
  all: try (eapply set_gate_ok; done).
  all: eapply bind_ok_insert; done.
Qed.

Lemma run_ok cs s : fence_ok s → fence_ok (run cs s).
Proof.
  revert s. induction cs as [|c cs IH]; intros s Hs; [done|]. by apply IH, step_ok.
Qed.

Lemma init_ok : fence_ok EpochFence_init.
Proof. split_and!; done. Qed.

Lemma reachable_ok cs : fence_ok (run cs EpochFence_init).
Proof. apply run_ok, init_ok. Qed.

Lemma lease_step_refl s : lease_step s s.
Proof. split; [lia|]. intros l Hl. exists l. split; [done|]. left. split_and!; [done|lia|done]. Qed.

Lemma step_lease c s : fence_ok s → lease_step s (step c s).2.
Proof.
  intros (H0 & Hl & _). destruct c; run_call; b2p; subst; try apply lease_step_refl;
    (split; [cbn; lia|]); intros l0 El0; simplify_eq/=; eexists; (split; [done|]); cbn.
  all: repeat match goal with H : gate _ = _ |- _ => rewrite H end.
  all: try (left; split_and!; [done|lia|done]).
  all: right; destruct (Hl _ ltac:(done)); lia.
Qed.

Lemma run_lease cs s :
  fence_ok s → highest_epoch s ≤ highest_epoch (run cs s) ∧
  ∀ l, lease s = Some l → ∃ l', lease (run cs s) = Some l' ∧
    ((identity l' = identity l ∧ lease_until l ≤ lease_until l' ∧
      (closed_for_good (gate l) = true → closed_for_good (gate l') = true))
     ∨ epoch (identity l) < epoch (identity l')).
Proof.
  revert s. induction cs as [|c cs IH]; intros s Hs; [apply (lease_step_refl s)|].
  destruct (step_lease c s Hs) as [H1 H2]. destruct (IH _ (step_ok c s Hs)) as [H3 H4].
  cbn [run fold_left] in *. split; [etransitivity; [exact H1|exact H3]|]. intros l El.
  destruct (H2 _ El) as (l1 & E1 & Hd1). destruct (H4 _ E1) as (l2 & E2 & Hd2).
  exists l2. split; [exact E2|].
  destruct Hd1 as [(A1 & A2 & A3)|A1], Hd2 as [(B1 & B2 & B3)|B1].
  - left. split_and!; [congruence|lia|auto].
  - right. by rewrite A1 in B1.
  - right. by rewrite B1.
  - right. lia.
Qed.

(** Calls other than [bind] for [p] leave [p]'s credential alone. *)
Definition rebinds (p : string) (c : fence_call) : bool :=
  match c with Bind q _ _ _ => q == p | _ => false end.

Lemma step_bindings p c s : rebinds p c = false → bindings (step c s).2 !! p = bindings s !! p.
Proof.
  intros Hr. destruct c; cbn in Hr; b2p; run_call; try done. by rewrite lookup_insert_ne.
Qed.

Lemma run_bindings p cs s :
  forallb (λ c, negb (rebinds p c)) cs = true → bindings (run cs s) !! p = bindings s !! p.
Proof.
  revert s. induction cs as [|c cs IH]; intros s; [done|]. cbn [forallb].
  intros [Hc Hcs]%andb_true_iff. apply negb_true_iff in Hc.
  change (run (c :: cs) s) with (run cs (step c s).2). by rewrite IH, step_bindings.
Qed.

(** What a granted write means. *)
Lemma assert_write_ret p now s s' :
  assert_write p now s = (Ret tt, s') →
  ∃ l b t, s' = s ∧ require_utc now "now" = Ret t ∧ lease s = Some l ∧ bindings s !! p = Some b ∧
    gate l = OPEN ∧ t < lease_until l ∧ t < expires_at b ∧ bound_identity b = identity l.
Proof. unfold assert_write. intros H. py_cases; b2p; subst. naive_solver. Qed.

(** ** Properties of the fence *)

(** C2: once a master with a newer epoch has acquired the lease, a principal
    whose credential was issued before can never pass [assert_write] again,
    whatever calls follow and whatever the clock says, unless it is bound
    anew. *)
Theorem stale_epoch_never_writes cs1 i until now1 l cs2 p b now2 :
  (acquire i until now1 (run cs1 EpochFence_init)).1 = Ret l →
  bindings (run cs1 EpochFence_init) !! p = Some b →
  forallb (λ c, negb (rebinds p c)) cs2 = true →
  ∃ e, (assert_write p now2 (run cs2 (acquire i until now1 (run cs1 EpochFence_init)).2)).1 = Exc e.
Proof.
  set (s := run cs1 EpochFence_init). intros Ha Hb Hcs.
  assert (Hs : fence_ok s) by apply reachable_ok.
  assert (Hs1 : fence_ok (acquire i until now1 s).2) by apply (step_ok (Acquire i until now1) s Hs).
  assert (highest_epoch s < highest_epoch (acquire i until now1 s).2 ∧
          bindings (acquire i until now1 s).2 = bindings s) as [Hlt Hsame].
  { revert Ha. clear. unfold acquire, set_lease. intros Ha. py_cases; b2p; (split; [lia|done]). }
  set (s1 := (acquire i until now1 s).2) in *.
  destruct (run_lease cs2 s1 Hs1) as [Hmono _].
  destruct (assert_write p now2 (run cs2 s1)) as [[[]|e] s'] eqn:Hw; [|by exists e].
  exfalso. apply assert_write_ret in Hw as (l' & b' & t & _ & _ & El & Eb & _ & _ & _ & Hid).
  rewrite run_bindings, Hsame in Eb by done. simplify_eq.
  destruct Hs as (_ & _ & _ & Hall). destruct (Hall _ _ Hb) as (_ & Hle & _).
  destruct (run_ok cs2 s1 Hs1) as (_ & Hl & _). destruct (Hl _ El) as [He _].
  rewrite Hid in Hle. lia.
Qed.

(** A granted write is made under the newest epoch the fence has seen, by
    the master that holds the lease, through an open gate, strictly before the
    lease and the credential expire. *)
Theorem granted_write_is_current cs p now s' :
  assert_write p now (run cs EpochFence_init) = (Ret tt, s') →
  ∃ l b t, s' = run cs EpochFence_init ∧ require_utc now "now" = Ret t ∧
    lease s' = Some l ∧ bindings s' !! p = Some b ∧ gate l = OPEN ∧
    t < lease_until l ∧ t < expires_at b ∧
    bound_identity b = identity l ∧ epoch (identity l) = highest_epoch s'.
Proof.
  intros (l & b & t & -> & ? & El & ? & ? & ? & ? & ?)%assert_write_ret. exists l, b, t.
  assert (Hs := reachable_ok cs).
  destruct Hs as (_ & Hl & _). split_and!; try done. by apply Hl.
Qed.

(** Draining and fencing are final for an epoch.  From any reachable state
    whose gate is draining or fenced, whatever calls follow, the gate is closed
    or open again only for a strictly newer epoch; and within one epoch the
    lease deadline never moves back. *)
Theorem closed_gate_is_final cs cs' l l' :
  lease (run cs EpochFence_init) = Some l →
  lease (run cs' (run cs EpochFence_init)) = Some l' →
  epoch (identity l') ≤ epoch (identity l) →
  identity l' = identity l ∧ lease_until l ≤ lease_until l' ∧
  (closed_for_good (gate l) = true → closed_for_good (gate l') = true).
Proof.
  intros El El' Hle. assert (Hs := reachable_ok cs).
  destruct (run_lease cs' _ Hs) as [_ H]. destruct (H _ El) as (l2 & E2 & [?|?]); simplify_eq; [done|lia].
Qed.

(** A master acquires the lease only with an epoch strictly above every
    epoch acquired before, and only when the lease in force, if it is neither
    draining nor fenced, has expired; the new lease starts with a closed gate. *)
Theorem acquire_needs_newer_epoch cs i until now l s' :
  acquire i until now (run cs EpochFence_init) = (Ret l, s') →
  highest_epoch (run cs EpochFence_init) < epoch i ∧ highest_epoch s' = epoch i ∧
  lease s' = Some l ∧ identity l = i ∧ gate l = CLOSED ∧
  (∀ l0 t, lease (run cs EpochFence_init) = Some l0 → require_utc now "now" = Ret t →
     epoch (identity l0) < epoch i ∧ (closed_for_good (gate l0) = true ∨ lease_until l0 ≤ t)).
Proof.
  intros Ha. assert (Hs := reachable_ok cs).
  generalize dependent (run cs EpochFence_init). intros s Ha (_ & Hl & _).
  unfold acquire, set_lease in Ha. py_cases; b2p; split_and!; try (done || lia); intros l0 t El0 Et; simplify_eq.
  destruct (Hl l0 ltac:(done)). split; [lia|]. unfold closed_for_good. destruct (mem _ _); naive_solver.
Qed.

(** A call that raises changes nothing. *)
Theorem fence_error_changes_nothing c s s' : step c s = (false, s') → s' = s.
Proof. apply step_exc_unchanged. Qed.

(** ** Properties of the watchdog *)

(** [poll] lets the gate stay open only while the lease has more than the
    safety margin left and the control plane was heard within the timeout. *)
Lemma poll_reason_none w t :
  poll_reason w t = None ↔
  ∃ l c, observed_lease w = Some l ∧ last_control w = Some c ∧
    t + safety_margin w < l ∧ t < c + control_timeout w.
Proof.
  unfold poll_reason. split.
  - intros H. repeat case_match; simplify_eq; b2p. eexists _, _. split_and!; [done|done|lia|lia].
  - intros (l & c & -> & -> & ? & ?). rewrite (proj2 (Z.leb_gt _ _)), (proj2 (Z.leb_gt _ _)) by lia. done.
Qed.

(** A poll that returns without a closing reason proves that the gate was
    never closed, that the observed lease outlives the instant by more than the
    safety margin and that the last control heartbeat is younger than the
    timeout.  Any other poll that returns reports a reason, and the reason is
    latched. *)
Theorem poll_is_fail_closed {E} (close_gate : string → M E unit) now w e r w' e' :
  poll close_gate now (w, e) = (Ret r, (w', e')) →
  closed_reason w' = r ∧
  (closed_reason w ≠ None → r = closed_reason w ∧ e' = e) ∧
  (r = None → ∃ t l c, require_utc now "now" = Ret t ∧
     observed_lease w = Some l ∧ last_control w = Some c ∧
     t + safety_margin w < l ∧ t < c + control_timeout w).
Proof.
  unfold poll. intros H. py_cases; split_and!; try done; intros; simplify_eq.
  match goal with Hp : poll_reason _ _ = None |- _ => apply poll_reason_none in Hp end. naive_solver.
Qed.

(** The calls so far: failed tries, then one success if the reason is latched. *)
Definition log_ok (s : LeaseWatchdog * (list bool * list (string * bool))) : Prop :=
  ∃ tries, Forall (λ c, c.2 = false) tries ∧
    s.2.2 = match closed_reason s.1 with
            | None => tries
            | Some r => (tries ++ [(r, true)])%list
            end.

Lemma watchdog_step_log c s : log_ok s → log_ok (watchdog_step scripted_gate c s).
Proof.
  destruct s as [w [script log]]. intros (tries & Hf & Hlog). unfold log_ok.
  destruct c; cbn in Hlog |- *; unfold observe_lease, observe_control, poll; py_cases; eauto.
  all: match goal with |- context [(?t ++ [(?r, true)])%list] => exists t; done | _ => idtac end.
  all: eexists (_ ++ [_])%list; (split; [|done]); apply Forall_app; split; [done|by constructor].
Qed.

(** However the gate callback behaves and whatever is observed, the
    watchdog closes the gate successfully at most once: it retries after a
    failed call, stops after the first success, and the latched reason is the
    one given to that call. *)
Theorem watchdog_closes_gate_once margin timeout w cs script :
  LeaseWatchdog_new margin timeout = Ret w →
  let '(w', (_, log)) := watchdog_run scripted_gate cs (w, (script, [])) in
  ∃ tries, Forall (λ c, c.2 = false) tries ∧
    log = match closed_reason w' with
          | None => tries
          | Some r => (tries ++ [(r, true)])%list
          end.
Proof.
  intros Hw. assert (log_ok (w, (script, []))) as H0.
  { exists []. split; [done|]. unfold LeaseWatchdog_new in Hw. py_cases. done. }
  revert H0. generalize (w, (script, [] : list (string * bool))). clear.
  induction cs as [|c cs IH]; intros s Hs; [by destruct s as [? [? ?]]|].
  apply (IH (watchdog_step scripted_gate c s)), watchdog_step_log, Hs.
Qed.

(** ** Witnesses: two masters, the second taking over while the first drains *)

Definition m1 : MasterIdentity := mk_MasterIdentity 1%N "run-1" 1.
Definition m2 : MasterIdentity := mk_MasterIdentity 2%N "run-2" 2.

(** The first master registers, opens its gate and issues a credential. *)
Definition serving : list fence_call :=
  [Acquire m1 (utc 100) (utc 10); Open m1 (utc 11); Bind "worker" m1 (utc 90) (utc 12)].

Definition drained : list fence_call := (serving ++ [Drain m1 (utc 20)])%list.

Lemma stale_epoch_never_writes_witness :
  ∃ e, (assert_write "worker" (utc 35)
          (run [Open m2 (utc 31)] (acquire m2 (utc 200) (utc 30) (run drained EpochFence_init)).2)).1 = Exc e.
Proof. eapply stale_epoch_never_writes; vm_compute; reflexivity. Defined.

Lemma granted_write_is_current_witness :
  ∃ l b t, run serving EpochFence_init = run serving EpochFence_init ∧ require_utc (utc 50) "now" = Ret t ∧
    lease (run serving EpochFence_init) = Some l ∧ bindings (run serving EpochFence_init) !! "worker" = Some b ∧
    gate l = OPEN ∧ t < lease_until l ∧ t < expires_at b ∧
    bound_identity b = identity l ∧ epoch (identity l) = highest_epoch (run serving EpochFence_init).
Proof. apply (granted_write_is_current serving "worker" (utc 50)). vm_compute. reflexivity. Defined.

Lemma closed_gate_is_final_witness :
  m1 = m1 ∧ 100 ≤ 100 ∧ (closed_for_good DRAINING = true → closed_for_good DRAINING = true).
Proof.
  apply (closed_gate_is_final drained [Open m1 (utc 21); Renew m1 (utc 300) (utc 22)]
           (mk_Lease m1 100 DRAINING "drain") (mk_Lease m1 100 DRAINING "drain")); [vm_compute; reflexivity..|cbn; lia].
Defined.

Lemma acquire_needs_newer_epoch_witness :
  1 < 2 ∧ highest_epoch (acquire m2 (utc 200) (utc 30) (run drained EpochFence_init)).2 = 2.
Proof.
  destruct (acquire m2 (utc 200) (utc 30) (run drained EpochFence_init)) as [r s'] eqn:E.
  assert (r = Ret (mk_Lease m2 200 CLOSED "registered")) as -> by (apply (f_equal fst) in E; vm_compute in E; done).
  destruct (acquire_needs_newer_epoch drained m2 (utc 200) (utc 30) _ s' E) as (H1 & H2 & _).
  split; [exact H1|exact H2].
Defined.

Lemma fence_error_changes_nothing_witness :
  (step (Open m1 (utc 500)) (run serving EpochFence_init)).2 = run serving EpochFence_init.
Proof.
  apply (fence_error_changes_nothing (Open m1 (utc 500)) (run serving EpochFence_init)). vm_compute. reflexivity.
Defined.

Definition wd : LeaseWatchdog := mk_LeaseWatchdog 5 20 None None None.

Lemma poll_is_fail_closed_witness :
  closed_reason (mk_LeaseWatchdog 5 20 (Some 100) (Some 10) None) = None ∧
  ∃ t l c, require_utc (utc 12) "now" = Ret t ∧ Some 100 = Some l ∧ Some 10 = Some c ∧ t + 5 < l ∧ t < c + 20.
Proof.
  destruct (poll_is_fail_closed scripted_gate (utc 12) (mk_LeaseWatchdog 5 20 (Some 100) (Some 10) None) ([], [])
              None (mk_LeaseWatchdog 5 20 (Some 100) (Some 10) None) ([], []) eq_refl) as (H1 & _ & H3).
  split; [exact H1|exact (H3 eq_refl)].
Defined.

(** The lease runs out, the first attempt to close the gate fails, the second succeeds. *)
Lemma watchdog_closes_gate_once_witness :
  ∃ tries, Forall (λ c : string * bool, c.2 = false) tries ∧
    [("lease_safety_margin", false); ("lease_safety_margin", true)]
    = (tries ++ [("lease_safety_margin", true)])%list.
Proof.
  exact (watchdog_closes_gate_once 5 20 wd [WLease (utc 100); WControl (utc 90); WPoll (utc 96); WPoll (utc 97); WPoll (utc 98)]
           [true] eq_refl).
Defined.

End Fence.
