(* ===== verification/LedgerState.v ===== *)
(** * LedgerState: the control ledger's tables and the SQL it runs on them

    Models the schema of control_plane/ledger/sql (001, 002, 003, 006, 010, 011, 022)
    as one list of rows per table, in insertion order, and the statements
    [ControlLedger] issues: lookup by predicate, insertion under the table's
    PRIMARY KEY, UNIQUE, CHECK and REFERENCES constraints, and conditional
    update with its row count.  A write method runs in one [BEGIN IMMEDIATE]
    transaction ([atomically]), so an execution of the ledger is a sequence of
    whole calls.

    A timestamp column holds the instant whose text [_format_time] writes
    (Time.v: the text determines the instant); SQL comparisons of such columns
    go through the texts ([text_ltb]).  A [*_json] column holds the text
    [_safe_json] returned. *)

From S2P Require Import Prelude Time Json.

(** ** Rows *)

Inductive EffectState : Set := PLANNED | IN_PROGRESS | APPLIED | FAILED.

#[global] Instance EffectState_eq_dec : EqDecision EffectState.
Proof. solve_decision. Defined.

Definition EffectState_value (s : EffectState) : string :=
  match s with PLANNED => "PLANNED" | IN_PROGRESS => "IN_PROGRESS" | APPLIED => "APPLIED" | FAILED => "FAILED" end.

Inductive EventDisposition : Set := ACCEPTED | DUPLICATE | COALESCED | FENCED.

Record operation_row := mk_operation {
  op_id : string; op_key : string; op_kind : string; op_intent_hash : string;
  op_state : string; op_identity : string; op_created_at : Z; op_updated_at : Z;
}.

Record operation_log_row := mk_operation_log {
  ol_operation : string; ol_from : option string; ol_to : string; ol_at : Z; ol_metadata : string;
}.

Record effect_row := mk_effect {
  ef_id : string; ef_operation : string; ef_key : string; ef_kind : string; ef_identity : string;
  ef_state : EffectState; ef_receipt : option string; ef_planned_at : Z; ef_updated_at : Z;
}.

Record effect_log_row := mk_effect_log {
  el_effect : string; el_operation : string; el_state : EffectState; el_at : Z; el_metadata : string;
}.

Record attempt_row := mk_attempt {
  at_id : string; at_run : string; at_operation : string; at_source : string; at_version : string;
  at_service : string; at_master : option string; at_epoch : Z; at_provider_run : option string;
  at_state : string; at_created_at : Z; at_updated_at : Z;
}.

Record token_row := mk_token {
  tk_run : string; tk_attempt : string; tk_sha256 : string; tk_revoked_at : option Z; tk_created_at : Z;
}.

Record dedup_row := mk_dedup { dd_event : string; dd_body_sha256 : string; dd_first_seen : Z }.

Record event_row := mk_event {
  ev_id : string; ev_schema : string; ev_run : string; ev_attempt : string; ev_service : string;
  ev_source : string; ev_version : string; ev_epoch : Z; ev_type : string; ev_emitted_at : Z;
  ev_received_at : Z; ev_sequence : Z; ev_body_sha256 : string; ev_body_bytes : Z; ev_json : string;
}.

Record projection_row := mk_projection {
  pj_run : string; pj_attempt : string; pj_event : string; pj_type : string; pj_sequence : Z;
  pj_epoch : Z; pj_seen_at : Z; pj_terminal : bool;
}.

Record epoch_row := mk_epoch { ep_kind : string; ep_current : Z; ep_updated_at : Z }.

Record service_row := mk_service {
  sv_id : string; sv_kind : string; sv_run : string; sv_attempt : string; sv_master : option string;
  sv_epoch : Z; sv_endpoint : string; sv_protocol : string; sv_tls : option string; sv_capabilities : string;
  sv_revision : option Z; sv_schema : option string; sv_lease_until : Z; sv_state : string;
  sv_event : string; sv_updated_at : Z;
}.

Record lease_row := mk_lease {
  ls_id : string; ls_kind : string; ls_ref : string; ls_holder : string; ls_epoch : Z;
  ls_acquired_at : Z; ls_until : Z; ls_released_at : option Z;
}.

Record candidate_row := mk_candidate {
  cc_id : string; cc_service : string; cc_operation : string; cc_dataset : string; cc_version : option string;
  cc_manifest_sha256 : string; cc_source : option string; cc_generation : Z; cc_master : string; cc_epoch : Z;
  cc_status : string; cc_failure : option string; cc_created_at : Z; cc_verified_at : option Z;
  cc_manifest : option string; cc_package : option string;
}.

Record head_row := mk_head {
  hd_service : string; hd_generation : Z; hd_current : option string; hd_previous : option string; hd_updated_at : Z;
}.

(** [master_status_dataset_authorities]: the status Dataset bound to a master. *)
Record authority_row := mk_authority {
  au_operation : string; au_run : string; au_attempt : string; au_token_sha256 : string; au_claim_until : Z;
  au_tree_sha256 : string; au_resource_lease : string; au_status : option string; au_cleanup : option string;
  au_cleanup_until : option Z; au_state : string; au_created_at : Z; au_updated_at : Z;
}.

(** [audit_log]; the modelled method leaves principal, client and revision NULL. *)
Record audit_row := mk_audit {
  ad_id : string; ad_action : string; ad_operation : string; ad_epoch : Z; ad_ref : string; ad_at : Z; ad_metadata : string;
}.

(** The columns of [blogger_migration_requests] the master's recovery uses. *)
Record blogger_row := mk_blogger {
  bl_request : string; bl_state : string; bl_run : option string; bl_attempt : option string; bl_import : option string;
  bl_updated_at : Z;
}.

Record revocation_row := mk_revocation {
  rv_token_sha256 : string; rv_client : string; rv_principal : option string; rv_reason : string; rv_at : Z; rv_audit : string;
}.

(** [retention_runs]; the identity is a fresh [uuid4]. *)
Record retention_row := mk_retention {
  rt_id : string; rt_nonterminal_before : Z; rt_terminal_before : option Z; rt_events : nat; rt_keys : nat; rt_at : Z;
}.

(** ** The database *)

Record ledger := mk_ledger {
  l_operations : list operation_row;
  l_operation_log : list operation_log_row;
  l_effects : list effect_row;
  l_effect_log : list effect_log_row;
  l_attempts : list attempt_row;
  l_tokens : list token_row;
  l_dedup : list dedup_row;
  l_events : list event_row;
  l_projections : list projection_row;
  l_epochs : list epoch_row;
  l_services : list service_row;
  l_leases : list lease_row;
  l_candidates : list candidate_row;
  l_heads : list head_row;
  l_authorities : list authority_row;
  l_audit : list audit_row;
  l_bloggers : list blogger_row;
  l_revocations : list revocation_row;
  l_retention : list retention_row;
}.

Definition empty_ledger : ledger := mk_ledger [] [] [] [] [] [] [] [] [] [] [] [] [] [] [] [] [] [] [].

(** A table: how to read its rows and replace them. *)
Record table (R : Type) := mk_table {
  rows : ledger → list R;
  set_rows : list R → ledger → ledger;
}.
Arguments mk_table {R} _ _.
Arguments rows {R} _ _.
Arguments set_rows {R} _ _ _.

Definition operations : table operation_row := mk_table l_operations
  (λ x l, mk_ledger x (l_operation_log l) (l_effects l) (l_effect_log l) (l_attempts l) (l_tokens l) (l_dedup l) (l_events l)
     (l_projections l) (l_epochs l) (l_services l) (l_leases l) (l_candidates l) (l_heads l) (l_authorities l) (l_audit l) (l_bloggers l) (l_revocations l) (l_retention l)).
Definition operation_log : table operation_log_row := mk_table l_operation_log
  (λ x l, mk_ledger (l_operations l) x (l_effects l) (l_effect_log l) (l_attempts l) (l_tokens l) (l_dedup l) (l_events l)
     (l_projections l) (l_epochs l) (l_services l) (l_leases l) (l_candidates l) (l_heads l) (l_authorities l) (l_audit l) (l_bloggers l) (l_revocations l) (l_retention l)).
Definition effects : table effect_row := mk_table l_effects
  (λ x l, mk_ledger (l_operations l) (l_operation_log l) x (l_effect_log l) (l_attempts l) (l_tokens l) (l_dedup l) (l_events l)
     (l_projections l) (l_epochs l) (l_services l) (l_leases l) (l_candidates l) (l_heads l) (l_authorities l) (l_audit l) (l_bloggers l) (l_revocations l) (l_retention l)).
Definition effect_log : table effect_log_row := mk_table l_effect_log
  (λ x l, mk_ledger (l_operations l) (l_operation_log l) (l_effects l) x (l_attempts l) (l_tokens l) (l_dedup l) (l_events l)
     (l_projections l) (l_epochs l) (l_services l) (l_leases l) (l_candidates l) (l_heads l) (l_authorities l) (l_audit l) (l_bloggers l) (l_revocations l) (l_retention l)).
Definition run_attempts : table attempt_row := mk_table l_attempts
  (λ x l, mk_ledger (l_operations l) (l_operation_log l) (l_effects l) (l_effect_log l) x (l_tokens l) (l_dedup l) (l_events l)
     (l_projections l) (l_epochs l) (l_services l) (l_leases l) (l_candidates l) (l_heads l) (l_authorities l) (l_audit l) (l_bloggers l) (l_revocations l) (l_retention l)).
Definition runtime_token_hashes : table token_row := mk_table l_tokens
  (λ x l, mk_ledger (l_operations l) (l_operation_log l) (l_effects l) (l_effect_log l) (l_attempts l) x (l_dedup l) (l_events l)
     (l_projections l) (l_epochs l) (l_services l) (l_leases l) (l_candidates l) (l_heads l) (l_authorities l) (l_audit l) (l_bloggers l) (l_revocations l) (l_retention l)).
Definition runtime_event_dedup : table dedup_row := mk_table l_dedup
  (λ x l, mk_ledger (l_operations l) (l_operation_log l) (l_effects l) (l_effect_log l) (l_attempts l) (l_tokens l) x (l_events l)
     (l_projections l) (l_epochs l) (l_services l) (l_leases l) (l_candidates l) (l_heads l) (l_authorities l) (l_audit l) (l_bloggers l) (l_revocations l) (l_retention l)).
Definition runtime_events : table event_row := mk_table l_events
  (λ x l, mk_ledger (l_operations l) (l_operation_log l) (l_effects l) (l_effect_log l) (l_attempts l) (l_tokens l) (l_dedup l) x
     (l_projections l) (l_epochs l) (l_services l) (l_leases l) (l_candidates l) (l_heads l) (l_authorities l) (l_audit l) (l_bloggers l) (l_revocations l) (l_retention l)).
Definition runtime_projection : table projection_row := mk_table l_projections
  (λ x l, mk_ledger (l_operations l) (l_operation_log l) (l_effects l) (l_effect_log l) (l_attempts l) (l_tokens l) (l_dedup l) (l_events l)
     x (l_epochs l) (l_services l) (l_leases l) (l_candidates l) (l_heads l) (l_authorities l) (l_audit l) (l_bloggers l) (l_revocations l) (l_retention l)).
Definition service_epochs : table epoch_row := mk_table l_epochs
  (λ x l, mk_ledger (l_operations l) (l_operation_log l) (l_effects l) (l_effect_log l) (l_attempts l) (l_tokens l) (l_dedup l) (l_events l)
     (l_projections l) x (l_services l) (l_leases l) (l_candidates l) (l_heads l) (l_authorities l) (l_audit l) (l_bloggers l) (l_revocations l) (l_retention l)).
Definition services : table service_row := mk_table l_services
  (λ x l, mk_ledger (l_operations l) (l_operation_log l) (l_effects l) (l_effect_log l) (l_attempts l) (l_tokens l) (l_dedup l) (l_events l)
     (l_projections l) (l_epochs l) x (l_leases l) (l_candidates l) (l_heads l) (l_authorities l) (l_audit l) (l_bloggers l) (l_revocations l) (l_retention l)).
Definition resource_leases : table lease_row := mk_table l_leases
  (λ x l, mk_ledger (l_operations l) (l_operation_log l) (l_effects l) (l_effect_log l) (l_attempts l) (l_tokens l) (l_dedup l) (l_events l)
     (l_projections l) (l_epochs l) (l_services l) x (l_candidates l) (l_heads l) (l_authorities l) (l_audit l) (l_bloggers l) (l_revocations l) (l_retention l)).
Definition checkpoint_candidates : table candidate_row := mk_table l_candidates
  (λ x l, mk_ledger (l_operations l) (l_operation_log l) (l_effects l) (l_effect_log l) (l_attempts l) (l_tokens l) (l_dedup l) (l_events l)
     (l_projections l) (l_epochs l) (l_services l) (l_leases l) x (l_heads l) (l_authorities l) (l_audit l) (l_bloggers l) (l_revocations l) (l_retention l)).
Definition checkpoint_heads : table head_row := mk_table l_heads
  (λ x l, mk_ledger (l_operations l) (l_operation_log l) (l_effects l) (l_effect_log l) (l_attempts l) (l_tokens l) (l_dedup l) (l_events l)
     (l_projections l) (l_epochs l) (l_services l) (l_leases l) (l_candidates l) x (l_authorities l) (l_audit l) (l_bloggers l) (l_revocations l) (l_retention l)).
Definition status_authorities : table authority_row := mk_table l_authorities
  (λ x l, mk_ledger (l_operations l) (l_operation_log l) (l_effects l) (l_effect_log l) (l_attempts l) (l_tokens l) (l_dedup l) (l_events l)
     (l_projections l) (l_epochs l) (l_services l) (l_leases l) (l_candidates l) (l_heads l) x (l_audit l) (l_bloggers l) (l_revocations l) (l_retention l)).
Definition audit_log : table audit_row := mk_table l_audit
  (λ x l, mk_ledger (l_operations l) (l_operation_log l) (l_effects l) (l_effect_log l) (l_attempts l) (l_tokens l) (l_dedup l) (l_events l)
     (l_projections l) (l_epochs l) (l_services l) (l_leases l) (l_candidates l) (l_heads l) (l_authorities l) x (l_bloggers l) (l_revocations l) (l_retention l)).
Definition blogger_requests : table blogger_row := mk_table l_bloggers
  (λ x l, mk_ledger (l_operations l) (l_operation_log l) (l_effects l) (l_effect_log l) (l_attempts l) (l_tokens l) (l_dedup l) (l_events l)
     (l_projections l) (l_epochs l) (l_services l) (l_leases l) (l_candidates l) (l_heads l) (l_authorities l) (l_audit l) x (l_revocations l) (l_retention l)).
Definition oauth_revocations : table revocation_row := mk_table l_revocations
  (λ x l, mk_ledger (l_operations l) (l_operation_log l) (l_effects l) (l_effect_log l) (l_attempts l) (l_tokens l) (l_dedup l) (l_events l)
     (l_projections l) (l_epochs l) (l_services l) (l_leases l) (l_candidates l) (l_heads l) (l_authorities l) (l_audit l) (l_bloggers l) x (l_retention l)).
Definition retention_runs : table retention_row := mk_table l_retention
  (λ x l, mk_ledger (l_operations l) (l_operation_log l) (l_effects l) (l_effect_log l) (l_attempts l) (l_tokens l) (l_dedup l) (l_events l)
     (l_projections l) (l_epochs l) (l_services l) (l_leases l) (l_candidates l) (l_heads l) (l_authorities l) (l_audit l) (l_bloggers l) (l_revocations l) x).

(** ** Statements *)

Section statements.
Context {R : Type} (t : table R).

(** [SELECT ... WHERE p], one row. *)
Definition select_one (p : R → bool) : M ledger (option R) := gets (λ l, List.find p (rows t l)).

(** [UPDATE ... SET f WHERE p]; the result is the row count. *)
Definition update_where (p : R → bool) (f : R → R) : M ledger nat := λ l,
  (Ret (length (List.filter p (rows t l))),
   set_rows t (map (λ r, if p r then f r else r) (rows t l)) l).

(** [DELETE ... WHERE p]; the result is the row count. *)
Definition delete_where (p : R → bool) : M ledger nat := λ l,
  (Ret (length (List.filter p (rows t l))),
   set_rows t (List.filter (λ r, negb (p r)) (rows t l)) l).

(** [INSERT]: [valid] are the CHECK and REFERENCES constraints on the new row,
    [conflict r r'] its PRIMARY KEY and UNIQUE constraints against a row. *)
Definition insert_row (valid : ledger → bool) (conflict : R → R → bool) (r : R) : M ledger unit := λ l,
  if negb (valid l) || existsb (conflict r) (rows t l)
  then (Exc (Exn IntegrityError "constraint failed"), l)
  else (Ret tt, set_rows t (rows t l ++ [r])%list l).

(** A log row: the table has no constraint the code can violate. *)
Definition append_row (r : R) : M ledger unit := λ l, (Ret tt, set_rows t (rows t l ++ [r])%list l).

End statements.

(** [REFERENCES operations(operation_id)] *)
Definition operation_exists (id : string) (l : ledger) : bool :=
  existsb (λ o, op_id o == id) (l_operations l).

(** [ORDER BY key DESC LIMIT 1]; the key is unique among the selected rows. *)
Fixpoint max_by {R} (key : R → Z) (l : list R) : option R :=
  match l with
  | [] => None
  | x :: l' => match max_by key l' with
               | Some y => if key x <? key y then Some y else Some x
               | None => Some x
               end
  end.

(** [lease_until <= now] in Python: comparing a naive with an aware datetime
    raises. *)
Definition aware_instant (d : datetime) : outcome Z :=
  match utcoffset d with
  | None => throw TypeError "can't compare offset-naive and offset-aware datetimes"
  | Some off => Ret (wall d - off)
  end.

(** ** Setters of single columns *)

Definition op_set_state (s : string) (now : Z) (o : operation_row) : operation_row :=
  mk_operation (op_id o) (op_key o) (op_kind o) (op_intent_hash o) s (op_identity o) (op_created_at o) now.

Definition ef_set_state (s : EffectState) (now : Z) (e : effect_row) : effect_row :=
  mk_effect (ef_id e) (ef_operation e) (ef_key e) (ef_kind e) (ef_identity e) s (ef_receipt e) (ef_planned_at e) now.

Definition ef_set_receipt (r : string) (e : effect_row) : effect_row :=
  mk_effect (ef_id e) (ef_operation e) (ef_key e) (ef_kind e) (ef_identity e) (ef_state e) (Some r) (ef_planned_at e) (ef_updated_at e).

Definition at_set_state (s : string) (now : Z) (a : attempt_row) : attempt_row :=
  mk_attempt (at_id a) (at_run a) (at_operation a) (at_source a) (at_version a) (at_service a) (at_master a)
    (at_epoch a) (at_provider_run a) s (at_created_at a) now.

Definition at_set_provider_run (r : string) (a : attempt_row) : attempt_row :=
  mk_attempt (at_id a) (at_run a) (at_operation a) (at_source a) (at_version a) (at_service a) (at_master a)
    (at_epoch a) (Some r) (at_state a) (at_created_at a) (at_updated_at a).

Definition sv_set_state (s : string) (now : Z) (v : service_row) : service_row :=
  mk_service (sv_id v) (sv_kind v) (sv_run v) (sv_attempt v) (sv_master v) (sv_epoch v) (sv_endpoint v)
    (sv_protocol v) (sv_tls v) (sv_capabilities v) (sv_revision v) (sv_schema v) (sv_lease_until v) s (sv_event v) now.

Definition sv_set_event (e : string) (v : service_row) : service_row :=
  mk_service (sv_id v) (sv_kind v) (sv_run v) (sv_attempt v) (sv_master v) (sv_epoch v) (sv_endpoint v)
    (sv_protocol v) (sv_tls v) (sv_capabilities v) (sv_revision v) (sv_schema v) (sv_lease_until v) (sv_state v) e
    (sv_updated_at v).

Definition sv_set_lease (until : Z) (v : service_row) : service_row :=
  mk_service (sv_id v) (sv_kind v) (sv_run v) (sv_attempt v) (sv_master v) (sv_epoch v) (sv_endpoint v)
    (sv_protocol v) (sv_tls v) (sv_capabilities v) (sv_revision v) (sv_schema v) until (sv_state v) (sv_event v)
    (sv_updated_at v).

Definition tk_set_revoked (now : Z) (k : token_row) : token_row :=
  mk_token (tk_run k) (tk_attempt k) (tk_sha256 k) (Some now) (tk_created_at k).

Definition ls_set_until (until : Z) (r : lease_row) : lease_row :=
  mk_lease (ls_id r) (ls_kind r) (ls_ref r) (ls_holder r) (ls_epoch r) (ls_acquired_at r) until (ls_released_at r).

Definition ls_set_released (now : Z) (r : lease_row) : lease_row :=
  mk_lease (ls_id r) (ls_kind r) (ls_ref r) (ls_holder r) (ls_epoch r) (ls_acquired_at r) (ls_until r) (Some now).

(** ** Lemmas on statements *)

Lemma find_some_iff {R} (p : R → bool) l r :
  List.find p l = Some r → r ∈ l ∧ p r = true.
Proof. intros [H1 H2]%List.find_some. by rewrite list_elem_of_In. Qed.

Lemma find_none_iff {R} (p : R → bool) l :
  List.find p l = None ↔ ∀ r, r ∈ l → p r = false.
Proof.
  split.
  - intros H r Hr. apply (List.find_none _ _ H). by apply list_elem_of_In.
  - intros H. induction l as [|x l IH]; [done|]. cbn. rewrite H by left. apply IH. intros; apply H. by right.
Qed.

Lemma existsb_false_iff {R} (p : R → bool) l : existsb p l = false ↔ ∀ r, r ∈ l → p r = false.
Proof.
  split.
  - intros H r Hr. apply not_true_is_false. intros Hp. apply not_true_iff_false in H. apply H.
    apply existsb_exists. exists r. by rewrite <-list_elem_of_In.
  - intros H. apply not_true_is_false. intros (r & Hr & Hp)%existsb_exists.
    apply list_elem_of_In in Hr. rewrite H in Hp; done.
Qed.

Lemma find_map_update {R} (q : R → bool) (g : R → R) l :
  (∀ r, q (g r) = q r) → List.find q (map g l) = g <$> List.find q l.
Proof. intros H. induction l as [|x l IH]; [done|]. cbn. rewrite H. by destruct (q x). Qed.

Lemma find_app {R} (q : R → bool) l l' :
  List.find q (l ++ l') = match List.find q l with Some r => Some r | None => List.find q l' end.
Proof. induction l as [|x l IH]; [done|]. cbn. by destruct (q x). Qed.

(** A lookup by a unique key finds the row that has it. *)
Lemma find_unique {R K} `{EqDecision K} (key : R → K) l r :
  NoDup (map key l) → r ∈ l → List.find (λ x, key x == key r) l = Some r.
Proof.
  induction l as [|x l IH]; [by intros _ ?%not_elem_of_nil|].
  cbn. intros [Hx Hl]%list.NoDup_cons [->|Hr]%elem_of_cons.
  - by rewrite bool_decide_eq_true_2.
  - rewrite bool_decide_eq_false_2; [by apply IH|]. intros E. apply Hx. rewrite E.
    by apply list_elem_of_fmap_2.
Qed.

Lemma key_unique {R K} `{EqDecision K} (key : R → K) l r r' :
  NoDup (map key l) → r ∈ l → r' ∈ l → key r = key r' → r = r'.
Proof.
  intros H Hr Hr' E. apply (find_unique key l) in Hr; [|done]. apply (find_unique key l) in Hr'; [|done].
  rewrite E in Hr. congruence.
Qed.

Lemma map_key_update {R K} (key : R → K) (p : R → bool) (f : R → R) l :
  (∀ r, key (f r) = key r) → map key (map (λ r, if p r then f r else r) l) = map key l.
Proof. intros H. rewrite map_map. apply map_ext. intros r. by destruct (p r). Qed.

Lemma NoDup_map_snoc {R K} (key : R → K) l r :
  NoDup (map key l) → (∀ x, x ∈ l → key x ≠ key r) → NoDup (map key (l ++ [r])).
Proof.
  intros Hl Hr. rewrite map_app. apply list.NoDup_app. split; [done|]. split; [|apply NoDup_singleton].
  intros k (x & -> & Hx)%list_elem_of_fmap Hk%list_elem_of_singleton. by apply (Hr x).
Qed.

Lemma elem_of_update {R} (p : R → bool) (f : R → R) l r :
  r ∈ map (λ r, if p r then f r else r) l ↔ ∃ x, x ∈ l ∧ r = if p x then f x else x.
Proof. split; [intros (x & -> & Hx)%list_elem_of_fmap; eauto|]. intros (x & Hx & ->). by apply (list_elem_of_fmap_2 (λ r, if p r then f r else r)). Qed.

Lemma filter_elem {R} (p : R → bool) l r : r ∈ List.filter p l ↔ r ∈ l ∧ p r = true.
Proof. rewrite !list_elem_of_In. apply filter_In. Qed.

(** A statement that changed one row found a row to change. *)
Lemma filter_one {R} (p : R → bool) l :
  (length (List.filter p l) == 1%nat) = true → ∃ r, r ∈ l ∧ p r = true.
Proof.
  intros H. destruct (List.filter p l) as [|r rest] eqn:E; [done|]. exists r. apply filter_elem. rewrite E. by left.
Qed.

Lemma NoDup_map_filter {R K} (key : R → K) (p : R → bool) l : NoDup (map key l) → NoDup (map key (List.filter p l)).
Proof.
  intros Hl. induction l as [|x l IH]; [constructor|]. cbn in *. apply list.NoDup_cons in Hl as [Hx Hl].
  destruct (p x); [|by apply IH]. cbn. apply list.NoDup_cons. split; [|by apply IH].
  intros (y & Ey & [Hy _]%filter_elem)%list_elem_of_fmap. apply Hx. rewrite Ey. by apply list_elem_of_fmap_2.
Qed.

(** An update by a unique key that did not change exactly one row changed none. *)
Lemma update_not_one {R K} (key : R → K) (p : R → bool) f l k :
  NoDup (map key l) → (∀ r, p r = true → key r = k) → (length (List.filter p l) == 1%nat) = false →
  map (λ r, if p r then f r else r) l = l.
Proof.
  intros Hl Hk Hn. assert (List.filter p l = []) as E.
  { destruct (List.filter p l) as [|a [|b rest]] eqn:E; [done..|exfalso].
    assert (Hd := NoDup_map_filter key p l Hl).
    assert (∀ r, r ∈ List.filter p l → key r = k) as Hr by (intros r [_ ?]%filter_elem; auto).
    rewrite E in Hd, Hr. cbn in Hd. rewrite (Hr a), (Hr b) in Hd by set_solver.
    apply list.NoDup_cons in Hd as [[]%not_elem_of_cons _]. done. }
  clear -E. induction l as [|x l IH]; [done|]. cbn in *. destruct (p x); [done|]. by rewrite IH.
Qed.

Lemma max_by_some {R} (key : R → Z) l r :
  max_by key l = Some r → r ∈ l ∧ ∀ x, x ∈ l → key x ≤ key r.
Proof.
  revert r. induction l as [|y l IH]; intros r; [done|]. cbn.
  destruct (max_by key l) as [z|] eqn:E.
  - destruct (IH z eq_refl) as [Hz Hm]. destruct (Z.ltb_spec (key y) (key z)); intros [= <-].
    + split; [by right|]. intros x [->|Hx]%elem_of_cons; [lia|auto].
    + split; [by left|]. intros x [->|Hx]%elem_of_cons; [lia|]. specialize (Hm _ Hx). lia.
  - intros [= <-]. split; [by left|]. intros x [->|Hx]%elem_of_cons; [lia|].
    destruct l; [by apply not_elem_of_nil in Hx|]. cbn in E. by repeat case_match.
Qed.

Lemma max_by_none {R} (key : R → Z) l : max_by key l = None ↔ l = [].
Proof. split; [|by intros ->]. destruct l; [done|]. cbn. by repeat case_match. Qed.

(** ** Frames

    [keeps π m]: running [m] leaves the projection [π] of the database alone.
    A statement on one table keeps every projection of the others, which the
    kernel sees by computation. *)
Definition keeps {X A} (π : ledger → X) (m : M ledger A) : Prop := ∀ l, π (m l).2 = π l.

Section keeps.
Context {X : Type} (π : ledger → X).

Lemma keeps_bind {A B} (m : M ledger A) (k : A → M ledger B) :
  keeps π m → (∀ a, keeps π (k a)) → keeps π (mbind k m).
Proof.
  intros Hm Hk l. specialize (Hm l). unfold mbind, M_bind.
  destruct (m l) as [[a|e] l']; cbn in *; [|done]. rewrite <-Hm. apply Hk.
Qed.

Lemma keeps_atomically {A} (m : M ledger A) : keeps π m → keeps π (atomically m).
Proof. intros Hm l. specialize (Hm l). unfold atomically. by destruct (m l) as [[a|e] l']. Qed.

End keeps.

Lemma keeps_inv {X A} (π : ledger → X) (m : M ledger A) l r l' : keeps π m → m l = (r, l') → π l' = π l.
Proof. intros H E. specialize (H l). by rewrite E in H. Qed.

(** Prove [keeps π m] by walking over [m]'s statements; the database [frame]
    holds the lemmas on the compound statements of the later files. *)
Create HintDb frame.

Ltac frame :=
  repeat match goal with
  | |- keeps _ (atomically _) => apply keeps_atomically
  | |- keeps _ (mbind _ _) => apply keeps_bind; [|intros ?]
  | |- keeps _ (raise_if ?b _ _) => intros ?; unfold raise_if; destruct b; reflexivity
  | |- keeps _ (insert_row _ _ _ _) =>
      intros ?; unfold insert_row; match goal with |- context [if ?b then _ else _] => destruct b end; reflexivity
  | |- keeps _ (assert_some ?o) => destruct o; intros ?; reflexivity
  | |- keeps _ (match ?x with _ => _ end) => destruct x
  | |- keeps _ ((match ?x with _ => _ end) _) => destruct x; cbv beta
  | |- keeps _ _ => first [solve [auto 1 with frame nocore] | intros ?; reflexivity]
  end.

(** ** Inverting statements that succeeded *)

Section statement_inversion.
Context {R : Type} (t : table R).

Lemma select_one_inv p l a l' : select_one t p l = (Ret a, l') → a = List.find p (rows t l) ∧ l' = l.
Proof. by intros [= <- <-]. Qed.

Lemma update_where_inv p f l n l' :
  update_where t p f l = (Ret n, l') →
  n = length (List.filter p (rows t l)) ∧ l' = set_rows t (map (λ r, if p r then f r else r) (rows t l)) l.
Proof. by intros [= <- <-]. Qed.

Lemma delete_where_inv p l n l' :
  delete_where t p l = (Ret n, l') →
  n = length (List.filter p (rows t l)) ∧ l' = set_rows t (List.filter (λ r, negb (p r)) (rows t l)) l.
Proof. by intros [= <- <-]. Qed.

Lemma insert_row_inv valid conflict r l u l' :
  insert_row t valid conflict r l = (Ret u, l') →
  (valid l = true ∧ ∀ r', r' ∈ rows t l → conflict r r' = false) ∧ l' = set_rows t (rows t l ++ [r])%list l.
Proof.
  unfold insert_row. destruct (valid l); [|done]. destruct (existsb _ _) eqn:E; [done|].
  intros [= _ <-]. by rewrite existsb_false_iff in E.
Qed.

Lemma append_row_inv r l u l' :
  append_row t r l = (Ret u, l') → l' = set_rows t (rows t l ++ [r])%list l.
Proof. by intros [= _ <-]. Qed.

End statement_inversion.

Ltac stmt_inv H :=
  first
    [ monad_inv H
    | lazymatch type of H with
      | select_one _ _ _ = (Ret _, _) => apply select_one_inv in H as [-> ->]
      | update_where _ _ _ _ = (Ret _, _) => apply update_where_inv in H as [-> ->]
      | delete_where _ _ _ = (Ret _, _) => apply delete_where_inv in H as [-> ->]
      | insert_row _ _ _ _ _ = (Ret _, _) => apply insert_row_inv in H as [H ->]
      | append_row _ _ _ = (Ret _, _) => apply append_row_inv in H as ->
      end ].

(** Run every computation in the context backwards. *)
Ltac run_inv := repeat match goal with H : _ _ = (Ret _, _) |- _ => progress stmt_inv H end.

(** Compute which rows a table holds after updates of other tables. *)
Ltac tables :=
  cbn [rows set_rows operations operation_log effects effect_log run_attempts runtime_token_hashes runtime_event_dedup
    runtime_events runtime_projection service_epochs services resource_leases checkpoint_candidates checkpoint_heads
    status_authorities audit_log blogger_requests oauth_revocations retention_runs l_operations l_operation_log l_effects l_effect_log l_attempts l_tokens l_dedup
    l_events l_projections l_epochs l_services l_leases l_candidates l_heads l_authorities l_audit l_bloggers l_revocations l_retention] in *.
