(* ===== verification/LedgerOperations.v ===== *)
(** * LedgerOperations: lifecycle operations, epochs and master admission

    Models the operation and epoch methods of [ControlLedger]
    (control_plane/ledger/store.py): [ensure_operation],
    [ensure_master_operation], [transition_operation], the operation queries,
    [allocate_epoch] and [current_epoch].  [now] is the value [self.clock.now()]
    returns during the call; [sha256] is [hashlib.sha256(...).hexdigest()] of
    the UTF-8 text. *)

From S2P Require Import Prelude Time Json LedgerState.

Record OperationRecord := mk_OperationRecord {
  or_id : string; or_key : string; or_kind : string; or_intent_hash : string; or_state : string;
  or_identity : json; or_created_at : Z; or_updated_at : Z;
}.

(** [_operation_from_row] *)
Definition operation_from_row (o : operation_row) : outcome OperationRecord :=
  match loads (op_identity o) with
  | Some identity => Ret (mk_OperationRecord (op_id o) (op_key o) (op_kind o) (op_intent_hash o) (op_state o)
                            identity (op_created_at o) (op_updated_at o))
  | None => throw ValueError "Expecting value"
  end.

Definition by_op_id (id : string) (o : operation_row) : bool := op_id o == id.
Definition by_op_key (key : string) (o : operation_row) : bool := op_key o == key.

(** [INSERT INTO operations]: [operation_id] is the primary key and
    [idempotency_key] is unique. *)
Definition insert_operation (o : operation_row) : M ledger unit :=
  insert_row operations (λ _, true) (λ r r', (op_id r == op_id r') || (op_key r == op_key r')) o.

Definition log_operation (id : string) (from : option string) (to : string) (now : Z) (metadata : string) :
    M ledger unit :=
  append_row operation_log (mk_operation_log id from to now metadata).

(** The current epoch of a service kind, 0 before the first allocation. *)
Definition epoch_of (kind : string) (l : ledger) : Z :=
  match List.find (λ e, ep_kind e == kind) (l_epochs l) with Some e => ep_current e | None => 0 end.

(** [INSERT INTO service_epochs ... ON CONFLICT(service_kind) DO UPDATE] *)
Definition upsert_epoch (kind : string) (epoch now : Z) : M ledger unit :=
  raise_if (epoch <? 0) IntegrityError "CHECK constraint failed" ;;
  r ← select_one service_epochs (λ e, ep_kind e == kind);
  match r with
  | Some _ => update_where service_epochs (λ e, ep_kind e == kind) (λ e, mk_epoch (ep_kind e) epoch now) ;; mret tt
  | None => append_row service_epochs (mk_epoch kind epoch now)
  end.

Definition live_states : list string := ["ACTIVE"; "DRAINING"].

(** [UPDATE services SET state='FENCED' WHERE service_kind=? AND epoch<? AND
    state IN ('ACTIVE','DRAINING')] *)
Definition fence_older_services (kind : string) (epoch now : Z) : M ledger unit :=
  update_where services (λ s, (sv_kind s == kind) && (sv_epoch s <? epoch) && mem (sv_state s) live_states)
    (sv_set_state "FENCED" now) ;;
  mret tt.

Section with_sha256.
Context (sha256 : string → string).

Definition ensure_operation (operation_id idempotency_key operation_kind : string)
    (intent : list (string * json)) (initial_state : string) (identity : list (string * json))
    (allocate_epoch_for : option string) (now : Z) : M ledger (OperationRecord * bool) :=
  intent_json ← lift (safe_json (Some intent) MAX_METADATA_BYTES);
  let intent_hash := sha256 intent_json in
  atomically (
    row ← select_one operations (by_op_key idempotency_key);
    match row with
    | Some o =>
        raise_if ((op_intent_hash o != intent_hash) || (op_kind o != operation_kind)) IdempotencyConflict
          "idempotency key was reused for a different control intent" ;;
        r ← lift (operation_from_row o); mret (r, false)
    | None =>
        durable_identity ←
          match allocate_epoch_for with
          | Some kind =>
              current ← gets (epoch_of kind);
              let epoch := current + 1 in
              upsert_epoch kind epoch now ;;
              fence_older_services kind epoch now ;;
              mret (assoc_set "epoch" (JInt epoch) identity)
          | None => mret identity
          end;
        identity_json ← lift (safe_json (Some durable_identity) MAX_METADATA_BYTES);
        insert_operation (mk_operation operation_id idempotency_key operation_kind intent_hash initial_state
                            identity_json now now) ;;
        reason ← lift (safe_json (Some [("reason", JStr "created")]) MAX_METADATA_BYTES);
        log_operation operation_id None initial_state now reason ;;
        row ← select_one operations (by_op_key idempotency_key);
        o ← assert_some row;
        r ← lift (operation_from_row o);
        mret (r, true)
    end).

(** *** Master admission *)

Definition terminal_states : list string := ["STOPPED"; "FAILED"; "FENCED"; "ORPHANED"].

Definition op_order (a b : operation_row) : bool :=
  if text_ltb (op_created_at a) (op_created_at b) then true
  else if text_ltb (op_created_at b) (op_created_at a) then false
  else String.leb (op_id a) (op_id b).

(** [SELECT * FROM operations WHERE operation_kind='ensure_master' ORDER BY ...] *)
Definition master_predecessors (l : ledger) : list operation_row :=
  order_by op_order (List.filter (λ o, op_kind o == "ensure_master") (l_operations l)).

(** The row with the greatest epoch above the one found so far. *)
Fixpoint latest_predecessor (found : option (operation_row * json)) (epoch : Z) (l : list operation_row) :
    outcome (option (operation_row * json) * Z) :=
  match l with
  | [] => Ret (found, epoch)
  | o :: l' =>
      match (j ← loads (op_identity o); e ← jget "epoch" j; n ← py_int e; Some (j, n)) with
      | None => throw MasterAdmissionRejected "master admission rejected: predecessor epoch identity is invalid"
      | Some (j, n) =>
          if epoch <? n then latest_predecessor (Some (o, j)) n l' else latest_predecessor found epoch l'
      end
  end.

(** The candidate that is the head of a service, [checkpoint_heads JOIN
    checkpoint_candidates]. *)
Definition head_candidate (kind : string) (l : ledger) : option candidate_row :=
  h ← List.find (λ h, hd_service h == kind) (l_heads l);
  c ← hd_current h;
  List.find (λ r, cc_id r == c) (l_candidates l).

Definition rotation_prefix : string := "forced-rotation:".

(** The checks made for a ["forced-rotation:<request>"] key. *)
Definition check_forced_rotation (service_kind request_id : string) (current_epoch : Z)
    (predecessor : option (operation_row * json)) : M ledger unit :=
  l ← get;
  let invalid {A} : M ledger A :=
    raise MasterAdmissionRejected "master admission rejected: forced rotation binding is invalid" in
  rotation ← match List.find (by_op_id request_id) (l_operations l) with
             | Some r => if (op_kind r != "forced_master_rotation") || (op_state r != "REQUESTED") then invalid
                         else mret r
             | None => invalid
             end;
  '(expected_epoch, expected_generation, expected_checkpoint) ←
    match (j ← loads (op_identity rotation);
           e ← jget "expected_active_epoch" j; e ← py_int e;
           g ← jget "head_generation" j; g ← py_int g;
           c ← jget "checkpoint_id" j; Some (e, g, py_str c)) with
    | Some x => mret x
    | None => invalid
    end;
  let head := List.find (λ h, hd_service h == service_kind) (l_heads l) in
  let candidate := List.find (λ c, cc_id c == expected_checkpoint) (l_candidates l) in
  '(candidate, source) ←
    match (c ← candidate; s ← List.find (by_op_id (cc_operation c)) (l_operations l); Some (c, s)) with
    | Some x => mret x
    | None => raise MasterAdmissionRejected "master admission rejected: forced rotation source is invalid"
    end;
  source_identity ← match loads (op_identity source) with
                    | Some j => mret j
                    | None => raise MasterAdmissionRejected "master admission rejected: forced rotation source is invalid"
                    end;
  let refused : M ledger unit :=
    raise MasterAdmissionRejected
      "master admission rejected: forced rotation lacks the exact verified STOPPED handoff" in
  match predecessor, head with
  | Some (p, _), Some h =>
      if (current_epoch != expected_epoch) || (hd_generation h != expected_generation)
         || (hd_current h != Some expected_checkpoint) || (op_id p != cc_operation candidate)
         || (op_state p != "STOPPED") || (cc_status candidate != "VERIFIED")
         || (cc_epoch candidate != expected_epoch) || (op_state source != "STOPPED")
      then refused
      else match source_identity with
           | JObj kvs =>
               match py_int (default (JInt 0) (assoc "epoch" kvs)) with
               | None => raise ValueError "invalid literal for int()"
               | Some e => if (e != expected_epoch)
                              || (Some (JStr (cc_master candidate)) != assoc "master_instance_id" kvs)
                           then refused else mret tt
               end
           | _ => raise AttributeError "get"
           end
  | _, _ => refused
  end.

(** The checks before an epoch is allocated; the result is the current epoch. *)
Definition admit_master (idempotency_key service_kind : string) : M ledger Z :=
  l ← get;
  let predecessors := master_predecessors l in
  match List.find (λ o, negb (mem (op_state o) terminal_states)) predecessors with
  | Some o => raise MasterAdmissionRejected
                ("master admission rejected: lifecycle operation " +:+ op_id o +:+ " is " +:+ op_state o)
  | None =>
      match max_by sv_epoch (List.filter (λ s, (sv_kind s == service_kind) && mem (sv_state s) live_states)
                               (l_services l)) with
      | Some s => raise MasterAdmissionRejected
                    ("master admission rejected: service " +:+ sv_id s +:+ " is " +:+ sv_state s)
      | None =>
          let current_epoch := epoch_of service_kind l in
          '(predecessor, predecessor_epoch) ← lift (latest_predecessor None 0 predecessors);
          raise_if (match predecessor with
                    | None => current_epoch != 0
                    | Some _ => predecessor_epoch != current_epoch
                    end) MasterAdmissionRejected
            "master admission rejected: lifecycle and epoch ledgers are inconsistent" ;;
          raise_if (match predecessor with
                    | Some (p, pid) =>
                        (op_state p == "STOPPED") &&
                        match head_candidate service_kind l with
                        | None => true
                        | Some c => (cc_status c != "VERIFIED") || (cc_operation c != op_id p)
                                    || (Some (JStr (cc_master c)) != jget "master_instance_id" pid)
                                    || (cc_epoch c != predecessor_epoch)
                        end
                    | None => false
                    end) MasterAdmissionRejected
            "master admission rejected: stopped predecessor lacks its verified checkpoint" ;;
          (if startswith rotation_prefix idempotency_key
           then check_forced_rotation service_kind (removeprefix rotation_prefix idempotency_key) current_epoch predecessor
           else mret tt) ;;
          mret current_epoch
      end
  end.

Definition ensure_master_operation (operation_id idempotency_key : string) (intent identity : list (string * json))
    (service_kind : string) (now : Z) : M ledger (OperationRecord * bool) :=
  intent_json ← lift (safe_json (Some intent) MAX_METADATA_BYTES);
  let intent_hash := sha256 intent_json in
  atomically (
    existing ← select_one operations (by_op_key idempotency_key);
    match existing with
    | Some o =>
        raise_if ((op_intent_hash o != intent_hash) || (op_kind o != "ensure_master")) IdempotencyConflict
          "idempotency key was reused for a different control intent" ;;
        r ← lift (operation_from_row o); mret (r, false)
    | None =>
        current_epoch ← admit_master idempotency_key service_kind;
        let epoch := current_epoch + 1 in
        upsert_epoch service_kind epoch now ;;
        identity_json ← lift (safe_json (Some (assoc_set "epoch" (JInt epoch) identity)) MAX_METADATA_BYTES);
        insert_operation (mk_operation operation_id idempotency_key "ensure_master" intent_hash "REQUESTED"
                            identity_json now now) ;;
        reason ← lift (safe_json (Some [("reason", JStr "master_admitted"); ("epoch", JInt epoch)]) MAX_METADATA_BYTES);
        log_operation operation_id None "REQUESTED" now reason ;;
        row ← select_one operations (by_op_id operation_id);
        o ← assert_some row;
        r ← lift (operation_from_row o);
        mret (r, true)
    end).

End with_sha256.

(** *** Queries *)

Definition find_operation (p : operation_row → bool) : M ledger (option OperationRecord) :=
  row ← select_one operations p;
  match row with
  | Some o => r ← lift (operation_from_row o); mret (Some r)
  | None => mret None
  end.

Definition get_operation (operation_id : string) : M ledger (option OperationRecord) :=
  find_operation (by_op_id operation_id).

Definition get_operation_by_idempotency_key (key : string) : M ledger (option OperationRecord) :=
  find_operation (by_op_key key).

Fixpoint records_of (l : list operation_row) : outcome (list OperationRecord) :=
  match l with
  | [] => Ret []
  | o :: l' => r ← operation_from_row o; rs ← records_of l'; Ret (r :: rs)
  end.

(** A row of [operations LEFT JOIN run_attempts LEFT JOIN services] whose
    service is draining. *)
Definition has_draining_service (l : ledger) (o : operation_row) : bool :=
  existsb (λ a, (at_operation a == op_id o) &&
                existsb (λ s, (sv_id s == at_service a) && (sv_state s == "DRAINING")) (l_services l))
    (l_attempts l).

Definition incomplete_operations (operation_kind : option string) : M ledger (list OperationRecord) :=
  l ← get;
  let selected :=
    match operation_kind with
    | Some "ensure_master" =>
        List.filter (λ o, (op_kind o == "ensure_master")
                          && negb (mem (op_state o) ["FAILED"; "FENCED"; "ORPHANED"])
                          && ((op_state o != "STOPPED") || has_draining_service l o)) (l_operations l)
    | _ =>
        List.filter (λ o, negb (mem (op_state o) ["ACTIVE"; "STOPPED"; "FAILED"; "FENCED"; "ORPHANED"; "DURABLE_COMPLETE"])
                          && match operation_kind with Some k => op_kind o == k | None => true end) (l_operations l)
    end in
  lift (records_of (order_by op_order selected)).

(** *** Transitions *)

Definition transition_operation (operation_id expected_state new_state : string)
    (metadata : option (list (string * json))) (now : Z) : M ledger OperationRecord :=
  metadata_json ← lift (safe_json metadata MAX_METADATA_BYTES);
  atomically (
    changed ← update_where operations (λ o, (op_id o == operation_id) && (op_state o == expected_state))
                (op_set_state new_state now);
    (if changed == 1%nat then mret tt
     else current ← select_one operations (by_op_id operation_id);
          raise StaleRuntimeEvent ("operation transition expected " +:+ expected_state +:+ ", found "
            +:+ match current with Some o => op_state o | None => "missing" end)) ;;
    log_operation operation_id (Some expected_state) new_state now metadata_json ;;
    row ← select_one operations (by_op_id operation_id);
    o ← assert_some row;
    lift (operation_from_row o)).

(** *** Epochs *)

Definition allocate_epoch (service_kind : string) (now : Z) : M ledger Z :=
  atomically (
    current ← gets (epoch_of service_kind);
    let epoch := current + 1 in
    upsert_epoch service_kind epoch now ;;
    fence_older_services service_kind epoch now ;;
    mret epoch).

Definition current_epoch (service_kind : string) : M ledger Z := gets (epoch_of service_kind).

(** ** What admission establishes *)

Lemma check_forced_rotation_ret kind request e p l u l' :
  check_forced_rotation kind request e p l = (Ret u, l') → l' = l.
Proof.
  intros H. apply (keeps_inv (λ l, l)) in H; [done|]. unfold check_forced_rotation. frame.
Qed.

(** Admission only reads, and returns the current epoch; it returns only when
    every earlier master operation is terminal and no service of the kind is
    live. *)
Lemma admit_master_ret key kind l e l' :
  admit_master key kind l = (Ret e, l') →
  l' = l ∧ e = epoch_of kind l ∧
  (∀ o, o ∈ l_operations l → op_kind o = "ensure_master" → op_state o ∈ terminal_states) ∧
  (∀ s, s ∈ l_services l → sv_kind s = kind → sv_state s ∉ live_states).
Proof.
  unfold admit_master. intros H. run_inv; try (apply check_forced_rotation_ret in Hrun2 as ->).
  all: split_and!; [done|done|intros x Hx Hk; apply mem_true|intros x Hx Hk Hl%mem_true].
  1,3: rewrite find_none_iff in Heqo; specialize (Heqo x); unfold master_predecessors in Heqo;
    rewrite order_by_perm, filter_elem in Heqo; b2p; auto.
  all: apply max_by_none in Heqo0; apply (not_elem_of_nil x); rewrite <-Heqo0; apply filter_elem; b2p; auto.
Qed.
