(* ===== verification/LedgerEffects.v ===== *)
(** * LedgerEffects: planned provider effects

    Models the effect methods of [ControlLedger] (control_plane/ledger/store.py):
    [plan_effect], [claim_effect], [complete_effect], [pending_effects],
    [get_effect_by_idempotency_key] and
    [fail_unstarted_master_after_tunnel_expiry].  An effect is planned once,
    claimed by one caller, and completed with one receipt. *)

From S2P Require Import Prelude Time Json LedgerState LedgerOperations.

Record EffectRecord := mk_EffectRecord {
  er_id : string; er_operation : string; er_key : string; er_kind : string; er_identity : json;
  er_state : EffectState; er_receipt : option json; er_planned_at : Z; er_updated_at : Z;
}.

Definition decode (text : string) : outcome json :=
  match loads text with Some j => Ret j | None => throw ValueError "Expecting value" end.

(** [_effect_from_row]; an empty receipt text counts as none. *)
Definition effect_from_row (e : effect_row) : outcome EffectRecord :=
  identity ← decode (ef_identity e);
  receipt ← match ef_receipt e with
            | Some r => if r == "" then Ret None else j ← decode r; Ret (Some j)
            | None => Ret None
            end;
  Ret (mk_EffectRecord (ef_id e) (ef_operation e) (ef_key e) (ef_kind e) identity (ef_state e) receipt
         (ef_planned_at e) (ef_updated_at e)).

Definition by_ef_id (id : string) (e : effect_row) : bool := ef_id e == id.
Definition by_ef_key (key : string) (e : effect_row) : bool := ef_key e == key.

(** [INSERT INTO effects]: primary key [effect_id], unique [idempotency_key],
    [operation_id] references [operations]. *)
Definition insert_effect (e : effect_row) : M ledger unit :=
  insert_row effects (operation_exists (ef_operation e))
    (λ r r', (ef_id r == ef_id r') || (ef_key r == ef_key r')) e.

Definition log_effect (id op : string) (s : EffectState) (now : Z) (metadata : string) : M ledger unit :=
  append_row effect_log (mk_effect_log id op s now metadata).

(** [try ... except sqlite3.IntegrityError]: the failed statement is undone,
    the transaction goes on. *)
Definition except_integrity {A} (m : M ledger A) (h : M ledger A) : M ledger A := λ l,
  match m l with
  | (Exc e, _) => if exn_cls e == IntegrityError then h l else m l
  | r => r
  end.

Lemma keeps_except_integrity {X A} (π : ledger → X) (m h : M ledger A) :
  keeps π m → keeps π h → keeps π (except_integrity m h).
Proof.
  intros Hm Hh l. unfold except_integrity. specialize (Hm l). specialize (Hh l).
  destruct (m l) as [[a|e] l']; [done|]. by case_match.
Qed.

Lemma except_integrity_inv {A} (m h : M ledger A) l a l' :
  except_integrity m h l = (Ret a, l') →
  m l = (Ret a, l') ∨ (∃ msg l1, m l = (Exc (Exn IntegrityError msg), l1)) ∧ h l = (Ret a, l').
Proof.
  unfold except_integrity. destruct (m l) as [[a'|[c msg]] l1]; [by left|]. cbn. case_match; [|done].
  b2p. subst c. right. eauto.
Qed.

Definition plan_effect (effect_id operation_id idempotency_key effect_kind : string)
    (exact_identity : list (string * json)) (now : Z) : M ledger (EffectRecord * bool) :=
  exact_json ← lift (safe_json (Some exact_identity) MAX_METADATA_BYTES);
  atomically (
    created ← except_integrity
      (insert_effect (mk_effect effect_id operation_id idempotency_key effect_kind exact_json PLANNED None now now) ;;
       reason ← lift (safe_json (Some [("reason", JStr "planned")]) MAX_METADATA_BYTES);
       log_effect effect_id operation_id PLANNED now reason ;;
       mret true)
      (row ← select_one effects (by_ef_key idempotency_key);
       raise_if (match row with
                 | None => true
                 | Some e => (ef_operation e != operation_id) || (ef_kind e != effect_kind)
                             || (ef_identity e != exact_json)
                 end) IdempotencyConflict "effect idempotency key was reused with different exact identity" ;;
       mret false);
    row ← select_one effects (by_ef_key idempotency_key);
    e ← assert_some row;
    r ← lift (effect_from_row e);
    mret (r, created)).

Definition claim_effect (effect_id : string) (now : Z) : M ledger (option EffectRecord) :=
  atomically (
    changed ← update_where effects (λ e, (ef_id e == effect_id) && (ef_state e == PLANNED))
                (ef_set_state IN_PROGRESS now);
    if changed == 1%nat then
      row ← select_one effects (by_ef_id effect_id);
      e ← assert_some row;
      reason ← lift (safe_json (Some [("reason", JStr "claimed")]) MAX_METADATA_BYTES);
      log_effect effect_id (ef_operation e) IN_PROGRESS now reason ;;
      r ← lift (effect_from_row e);
      mret (Some r)
    else mret None).

Definition complete_effect (effect_id : string) (receipt : list (string * json)) (now : Z) : M ledger EffectRecord :=
  receipt_json ← lift (safe_json (Some receipt) MAX_METADATA_BYTES);
  atomically (
    row ← select_one effects (by_ef_id effect_id);
    match row with
    | None => raise KeyError effect_id
    | Some e =>
        if ef_state e == APPLIED then
          raise_if (ef_receipt e != Some receipt_json) IdempotencyConflict
            "effect already completed with a different receipt" ;;
          lift (effect_from_row e)
        else
          raise_if (ef_state e != IN_PROGRESS) StaleRuntimeEvent ("effect " +:+ effect_id +:+ " is not in progress") ;;
          update_where effects (by_ef_id effect_id) (λ e, ef_set_receipt receipt_json (ef_set_state APPLIED now e)) ;;
          log_effect effect_id (ef_operation e) APPLIED now receipt_json ;;
          completed ← select_one effects (by_ef_id effect_id);
          e ← assert_some completed;
          lift (effect_from_row e)
    end).

Definition ef_order (a b : effect_row) : bool :=
  if text_ltb (ef_planned_at a) (ef_planned_at b) then true
  else if text_ltb (ef_planned_at b) (ef_planned_at a) then false
  else String.leb (ef_id a) (ef_id b).

Fixpoint effect_records_of (l : list effect_row) : outcome (list EffectRecord) :=
  match l with
  | [] => Ret []
  | e :: l' => r ← effect_from_row e; rs ← effect_records_of l'; Ret (r :: rs)
  end.

Definition pending_effects (operation_id : option string) : M ledger (list EffectRecord) :=
  l ← get;
  lift (effect_records_of (order_by ef_order (List.filter
    (λ e, mem (ef_state e) [PLANNED; IN_PROGRESS]
          && match operation_id with Some o => ef_operation e == o | None => true end) (l_effects l)))).

Definition get_effect_by_idempotency_key (key : string) : M ledger (option EffectRecord) :=
  row ← select_one effects (by_ef_key key);
  match row with
  | Some e => r ← lift (effect_from_row e); mret (Some r)
  | None => mret None
  end.

Definition MASTER_SERVICE_KIND : string := "postgres-master".

Definition fail_unstarted_master_after_tunnel_expiry
    (operation_id effect_id run_id attempt_id service_instance_id : string) (epoch now : Z) :
    M ledger OperationRecord :=
  metadata ← lift (safe_json (Some [("code", JStr "TRIGGER_ABSENT_AFTER_TUNNEL_LEASE_EXPIRY"); ("epoch", JInt epoch)])
                     MAX_METADATA_BYTES);
  atomically (
    operation ← select_one operations (by_op_id operation_id);
    effect ← select_one effects
      (λ e, (ef_id e == effect_id) && (ef_operation e == operation_id) && (ef_kind e == "trigger_run"));
    attempt ← select_one run_attempts
      (λ a, (at_operation a == operation_id) && (at_run a == run_id) && (at_id a == attempt_id)
            && (at_service a == service_instance_id) && (at_epoch a == epoch));
    current ← select_one service_epochs (λ e, ep_kind e == MASTER_SERVICE_KIND);
    match operation, effect, attempt, current with
    | Some o, Some e, Some _, Some c =>
        if (op_state o == "FAILED") && (ef_state e == FAILED) then lift (operation_from_row o)
        else
          raise_if ((op_state o != "RESTORING") || (ef_state e != IN_PROGRESS) || (ep_current c != epoch))
            StaleRuntimeEvent "expired unstarted master is no longer terminalizable" ;;
          update_where effects (λ e, (ef_id e == effect_id) && (ef_state e == IN_PROGRESS)) (ef_set_state FAILED now) ;;
          log_effect effect_id operation_id FAILED now metadata ;;
          update_where operations (λ o, (op_id o == operation_id) && (op_state o == "RESTORING"))
            (op_set_state "FAILED" now) ;;
          log_operation operation_id (Some "RESTORING") "FAILED" now metadata ;;
          update_where run_attempts (λ a, (at_id a == attempt_id) && (at_run a == run_id) && (at_epoch a == epoch))
            (at_set_state "FENCED" now) ;;
          update_where services
            (λ s, (sv_id s == service_instance_id) && (sv_epoch s == epoch)
                  && mem (sv_state s) ["REGISTERING"; "ACTIVE"; "DRAINING"])
            (sv_set_state "FENCED" now) ;;
          update_where runtime_token_hashes (λ k, (tk_run k == run_id) && (tk_attempt k == attempt_id))
            (tk_set_revoked now) ;;
          terminal ← select_one operations (by_op_id operation_id);
          o ← assert_some terminal;
          lift (operation_from_row o)
    | _, _, _, _ => raise StaleRuntimeEvent "expired unstarted master identity is incomplete"
    end).
