(* ===== verification/LedgerServices.v ===== *)
(** * LedgerServices: run attempts, tokens, announced services and their leases

    Models the attempt, runtime-token and service methods of [ControlLedger]
    (control_plane/ledger/store.py).  A service row is the control plane's view
    of one running master; [resolve_service] is what callers use to find the
    writable primary. *)

From S2P Require Import Prelude Time Json LedgerState LedgerOperations LedgerEffects.

(** ** Attempts *)

(** [INSERT INTO run_attempts ... ON CONFLICT(attempt_id) DO NOTHING], the other
    UNIQUE, CHECK and REFERENCES constraints still raise. *)
Definition insert_attempt (a : attempt_row) : M ledger unit :=
  raise_if (at_epoch a <? 1) IntegrityError "CHECK constraint failed: epoch >= 1" ;;
  existing ← select_one run_attempts (λ r, at_id r == at_id a);
  match existing with
  | Some _ => mret tt
  | None =>
      insert_row run_attempts (operation_exists (at_operation a))
        (λ r r', ((at_run r == at_run r') && (at_id r == at_id r'))
                 || ((at_service r == at_service r') && (at_epoch r == at_epoch r'))) a
  end.

Definition record_attempt (attempt_id run_id operation_id source_identity source_version service_instance_id : string)
    (master_instance_id : option string) (epoch : Z) (state : string) (now : Z) : M ledger unit :=
  atomically (
    insert_attempt (mk_attempt attempt_id run_id operation_id source_identity source_version service_instance_id
                      master_instance_id epoch None state now now) ;;
    row ← select_one run_attempts (λ r, at_id r == attempt_id);
    a ← assert_some row;
    raise_if (negb ((at_run a == run_id) && (at_operation a == operation_id) && (at_source a == source_identity)
                    && (at_version a == source_version) && (at_service a == service_instance_id)
                    && (at_master a == master_instance_id) && (at_epoch a == epoch))) IdempotencyConflict
      "attempt ID was reused with different exact identities").

Definition set_attempt_provider_run (attempt_id provider_run_ref state : string) (now : Z) : M ledger unit :=
  atomically (
    update_where run_attempts (λ a, at_id a == attempt_id)
      (λ a, at_set_provider_run provider_run_ref (at_set_state state now a)) ;;
    mret tt).

Definition operation_for_attempt (run_id attempt_id : string) : M ledger (option OperationRecord) :=
  row ← select_one run_attempts (λ a, (at_run a == run_id) && (at_id a == attempt_id));
  match row with
  | Some a => get_operation (at_operation a)
  | None => mret None
  end.

(** ** Runtime tokens *)

Definition by_token (run_id attempt_id : string) (k : token_row) : bool :=
  (tk_run k == run_id) && (tk_attempt k == attempt_id).

Section with_sha256.
Context (sha256 : string → string).

Definition store_runtime_token_hash (run_id attempt_id token : string) (now : Z) : M ledger unit :=
  let token_sha256 := sha256 token in
  atomically (
    existing ← select_one runtime_token_hashes (by_token run_id attempt_id);
    (match existing with
     | Some _ => mret tt
     | None => append_row runtime_token_hashes (mk_token run_id attempt_id token_sha256 None now)
     end) ;;
    row ← select_one runtime_token_hashes (by_token run_id attempt_id);
    raise_if (match row with None => true | Some k => tk_sha256 k != token_sha256 end) IdempotencyConflict
      "runtime attempt already has a different per-run token hash").

Definition runtime_token_valid (run_id attempt_id token : string) : M ledger bool :=
  if blank_or_longer token 4096 then mret false
  else
    row ← select_one runtime_token_hashes (by_token run_id attempt_id);
    mret (match row with
          | Some k => match tk_revoked_at k with
                      | None => tk_sha256 k == sha256 token
                      | Some _ => false
                      end
          | None => false
          end).

End with_sha256.

Definition revoke_runtime_token (run_id attempt_id : string) (now : Z) : M ledger unit :=
  atomically (update_where runtime_token_hashes (by_token run_id attempt_id) (tk_set_revoked now) ;; mret tt).

(** ** Services *)

Record ServiceRecord := mk_ServiceRecord {
  sr_id : string; sr_kind : string; sr_run : string; sr_attempt : string; sr_master : option string; sr_epoch : Z;
  sr_endpoint : string; sr_protocol : string; sr_tls : option string; sr_capabilities : json;
  sr_revision : option Z; sr_schema : option string; sr_lease_until : Z; sr_state : string; sr_event : string;
  sr_updated_at : Z;
}.

(** [_service_from_row] *)
Definition service_from_row (s : service_row) : outcome ServiceRecord :=
  capabilities ← decode (sv_capabilities s);
  Ret (mk_ServiceRecord (sv_id s) (sv_kind s) (sv_run s) (sv_attempt s) (sv_master s) (sv_epoch s) (sv_endpoint s)
         (sv_protocol s) (sv_tls s) capabilities (sv_revision s) (sv_schema s) (sv_lease_until s) (sv_state s)
         (sv_event s) (sv_updated_at s)).

(** [_canonical_json(sorted(set(capabilities)))] *)
Fixpoint insert_string (x : string) (l : list string) : list string :=
  match l with
  | [] => [x]
  | y :: l' => if x == y then l else if String.leb x y then x :: l else y :: insert_string x l'
  end.

Definition capabilities_json (capabilities : list string) : string :=
  canonical_json (JArr (map JStr (foldr insert_string [] capabilities))).

(** What a runtime announces about itself. *)
Record announcement := mk_announcement {
  an_service : string; an_kind : string; an_run : string; an_attempt : string; an_master : option string;
  an_epoch : Z; an_endpoint : string; an_protocol : string; an_tls : option string; an_capabilities : list string;
  an_revision : option Z; an_schema : option string; an_lease_until : datetime; an_event : string;
}.

Definition row_of_announcement (a : announcement) (until now : Z) : service_row :=
  mk_service (an_service a) (an_kind a) (an_run a) (an_attempt a) (an_master a) (an_epoch a) (an_endpoint a)
    (an_protocol a) (an_tls a) (capabilities_json (an_capabilities a)) (an_revision a) (an_schema a) until "ACTIVE"
    (an_event a) now.

Definition service_states : list string := ["ACTIVE"; "DRAINING"; "FENCED"; "STOPPED"].

(** [INSERT INTO services]: primary key [service_instance_id], unique
    [(service_kind, epoch)]. *)
Definition insert_service (s : service_row) : M ledger unit :=
  insert_row services (λ _, (1 <=? sv_epoch s) && mem (sv_state s) service_states)
    (λ r r', (sv_id r == sv_id r') || ((sv_kind r == sv_kind r') && (sv_epoch r == sv_epoch r'))) s.

Definition by_sv_id (id : string) (s : service_row) : bool := sv_id s == id.

(** The column updates of the upsert in [announce_service]. *)
Definition reannounce (new old : service_row) : service_row :=
  mk_service (sv_id old) (sv_kind old) (sv_run old) (sv_attempt old) (sv_master old) (sv_epoch old) (sv_endpoint new)
    (sv_protocol new) (sv_tls new) (sv_capabilities new) (sv_revision new) (sv_schema new) (sv_lease_until new) "ACTIVE"
    (sv_event new) (sv_updated_at new).

Definition announce_service (a : announcement) (now : Z) : M ledger ServiceRecord :=
  until ← lift (aware_instant (an_lease_until a));
  raise_if (until <=? now) LeaseRejected "service lease is already expired" ;;
  atomically (
    current ← select_one service_epochs (λ e, ep_kind e == an_kind a);
    raise_if (match current with Some c => ep_current c != an_epoch a | None => true end) LeaseRejected
      "service announcement is fenced by a newer epoch" ;;
    raise_if (an_epoch a <? 1) IntegrityError "CHECK constraint failed: epoch >= 1" ;;
    let new := row_of_announcement a until now in
    existing ← select_one services (by_sv_id (an_service a));
    (match existing with
     | Some _ => update_where services (λ s, by_sv_id (an_service a) s && (sv_epoch s == an_epoch a)) (reannounce new) ;; mret tt
     | None => insert_service new
     end) ;;
    row ← select_one services (by_sv_id (an_service a));
    s ← assert_some row;
    lift (service_from_row s)).

Definition activate_service_operation (operation_id expected_state : string) (a : announcement) (now : Z) :
    M ledger ServiceRecord :=
  until ← lift (aware_instant (an_lease_until a));
  raise_if (until <=? now) LeaseRejected "service lease is already expired" ;;
  atomically (
    current ← select_one service_epochs (λ e, ep_kind e == an_kind a);
    raise_if (match current with Some c => ep_current c != an_epoch a | None => true end) LeaseRejected
      "service activation is fenced by a newer epoch" ;;
    operation ← select_one operations (by_op_id operation_id);
    match operation with
    | None => raise KeyError operation_id
    | Some o =>
        if op_state o == "ACTIVE" then
          existing ← select_one services (by_sv_id (an_service a));
          match existing with
          | Some s => lift (service_from_row s)
          | None => raise StaleRuntimeEvent "active operation is missing its atomic service projection"
          end
        else
          raise_if (op_state o != expected_state) StaleRuntimeEvent
            ("service activation expected operation " +:+ expected_state +:+ ", found " +:+ op_state o) ;;
          update_where operations (by_op_id operation_id) (op_set_state "ACTIVE" now) ;;
          metadata ← lift (safe_json (Some [("event_id", JStr (an_event a))]) MAX_METADATA_BYTES);
          log_operation operation_id (Some expected_state) "ACTIVE" now metadata ;;
          insert_service (row_of_announcement a until now) ;;
          row ← select_one services (by_sv_id (an_service a));
          s ← assert_some row;
          lift (service_from_row s)
    end).

Definition project_master_lifecycle (operation_id service_instance_id : string) (epoch : Z)
    (expected_operation_state operation_state service_state event_id : string) (now : Z) : M ledger unit :=
  atomically (
    operation ← select_one operations (by_op_id operation_id);
    service ← select_one services (by_sv_id service_instance_id);
    match operation, service with
    | Some o, Some s =>
        raise_if (sv_epoch s != epoch) StaleRuntimeEvent "runtime lifecycle identity is absent or fenced" ;;
        if (op_state o == operation_state) && (sv_state s == service_state) then mret tt
        else
          raise_if (op_state o != expected_operation_state) StaleRuntimeEvent
            ("runtime lifecycle expected " +:+ expected_operation_state +:+ ", found " +:+ op_state o) ;;
          update_where operations (λ o, (op_id o == operation_id) && (op_state o == expected_operation_state))
            (op_set_state operation_state now) ;;
          raise_if (negb (mem service_state service_states)) IntegrityError "CHECK constraint failed: services" ;;
          update_where services (λ s, (sv_id s == service_instance_id) && (sv_epoch s == epoch))
            (λ s, sv_set_event event_id (sv_set_state service_state now s)) ;;
          update_where run_attempts (λ a, (at_operation a == operation_id) && (at_epoch a == epoch))
            (at_set_state operation_state now) ;;
          metadata ← lift (safe_json (Some [("event_id", JStr event_id)]) MAX_METADATA_BYTES);
          log_operation operation_id (Some expected_operation_state) operation_state now metadata
    | _, _ => raise StaleRuntimeEvent "runtime lifecycle identity is absent or fenced"
    end).

(** The lease a status authority names: [lease["lease_id"]], ["holder_id"], ["epoch"]. *)
Definition authority_lease (j : json) : option (string * string * Z) :=
  i ← jget "lease_id" j; h ← jget "holder_id" j; e ← jget "epoch" j; n ← py_int e;
  Some (py_str i, py_str h, n).

Definition project_master_terminal_failure
    (operation_id run_id attempt_id service_instance_id : string) (epoch : Z)
    (expected_operation_state event_id : string) (now : Z) : M ledger unit :=
  metadata ← lift (safe_json (Some [("event_id", JStr event_id); ("code", JStr "PROVIDER_TERMINAL_FAILED")])
                     MAX_METADATA_BYTES);
  atomically (
    operation ← select_one operations (by_op_id operation_id);
    attempt ← select_one run_attempts
      (λ a, (at_operation a == operation_id) && (at_run a == run_id) && (at_id a == attempt_id));
    current ← select_one service_epochs (λ e, ep_kind e == MASTER_SERVICE_KIND);
    service ← select_one services (by_sv_id service_instance_id);
    l ← get;
    let status_authority := List.find (λ u, au_operation u == operation_id) (l_authorities l) in
    match operation, attempt, current with
    | Some o, Some a, Some c =>
        if (op_state o == "FAILED") && (at_state a == "FAILED") then mret tt
        else
          raise_if ((op_state o != expected_operation_state) || (at_service a != service_instance_id)
                    || (at_epoch a != epoch) || (ep_current c != epoch)
                    || match service with Some s => sv_epoch s != epoch | None => false end) StaleRuntimeEvent
            "provider-terminal master identity is stale or fenced" ;;
          update_where operations (λ o, (op_id o == operation_id) && (op_state o == expected_operation_state))
            (op_set_state "FAILED" now) ;;
          update_where run_attempts
            (λ a, (at_operation a == operation_id) && (at_run a == run_id) && (at_id a == attempt_id)
                  && (at_epoch a == epoch)) (at_set_state "FAILED" now) ;;
          (match service with
           | Some _ => update_where services (λ s, (sv_id s == service_instance_id) && (sv_epoch s == epoch))
                         (λ s, sv_set_event event_id (sv_set_state "FENCED" now s)) ;; mret tt
           | None => mret tt
           end) ;;
          update_where runtime_token_hashes (by_token run_id attempt_id) (tk_set_revoked now) ;;
          (match status_authority with
           | Some u =>
               lease ← lift (decode (au_resource_lease u));
               '(lease_id, holder_id, lease_epoch) ←
                 match authority_lease lease with
                 | Some x => mret x
                 | None => raise StaleRuntimeEvent "provider-terminal master resource lease is invalid"
                 end;
               raise_if (holder_id != run_id) StaleRuntimeEvent "provider-terminal master resource lease differs" ;;
               update_where resource_leases
                 (λ r, (ls_id r == lease_id) && (ls_holder r == holder_id) && (ls_epoch r == lease_epoch)
                       && (ls_released_at r == None)) (ls_set_released now) ;;
               mret tt
           | None => mret tt
           end) ;;
          log_operation operation_id (Some expected_operation_state) "FAILED" now metadata
    | _, _, _ => raise StaleRuntimeEvent "provider-terminal master identity is incomplete"
    end).

Definition renew_service (service_instance_id : string) (epoch : Z) (lease_until : datetime) (event_id : string)
    (now : Z) : M ledger unit :=
  until ← lift (aware_instant lease_until);
  raise_if (until <=? now) LeaseRejected "renewed lease must be in the future" ;;
  atomically (
    row ← select_one services (by_sv_id service_instance_id);
    l ← get;
    raise_if (match row with
              | None => true
              | Some s =>
                  match List.find (λ e, ep_kind e == sv_kind s) (l_epochs l) with
                  | None => true
                  | Some c => (sv_state s != "ACTIVE") || (sv_epoch s != epoch) || (ep_current c != epoch)
                              || (sv_lease_until s <=? now)
                  end
              end) LeaseRejected "service renewal was fenced or arrived after lease expiry" ;;
    update_where services (by_sv_id service_instance_id)
      (λ s, sv_set_event event_id (sv_set_lease until (sv_set_state (sv_state s) now s))) ;;
    mret tt).

(** The rows [resolve_service] selects; the lease test compares texts. *)
Definition resolvable (l : ledger) (service_kind : string) (now : Z) (s : service_row) : bool :=
  (sv_kind s == service_kind) && (sv_state s == "ACTIVE")
  && match List.find (λ e, ep_kind e == service_kind) (l_epochs l) with
     | Some c => sv_epoch s == ep_current c
     | None => false
     end
  && text_ltb now (sv_lease_until s).

Definition resolve_service (service_kind : string) (now : Z) : M ledger (option ServiceRecord) :=
  l ← get;
  match max_by sv_epoch (List.filter (resolvable l service_kind now) (l_services l)) with
  | Some s => r ← lift (service_from_row s); mret (Some r)
  | None => mret None
  end.
