(* ===== verification/LedgerEvents.v ===== *)
(** * LedgerEvents: authenticated runtime events

    Models [ingest_runtime_event], [prune_runtime_events] and the OAuth
    revocation methods of [ControlLedger] (control_plane/ledger/store.py), and
    the event record of runtime_sdk/events.py.  Decoding and re-encoding an
    event is pydantic's work: [validate_json] and [model_dump] stand for
    [RuntimeEvent.model_validate_json] and [model_dump(mode="json",
    by_alias=True, exclude_none=True)]. *)

From S2P Require Import Prelude Time Json LedgerState LedgerOperations LedgerEffects LedgerServices.

Record RuntimeEvent := mk_RuntimeEvent {
  event_id : string; schema_version : string; e_run : string; e_attempt : string; e_service : string;
  e_source : string; e_version : string; event_type : string; emitted_at : Z; local_sequence : Z; e_epoch : Z;
  phase : option string; status : option string; e_data : list (string * json);
  e_artifact_refs : list json; e_metrics : list (string * json);
}.

Record EventReceipt := mk_EventReceipt {
  rc_event : string; rc_disposition : EventDisposition; rc_body_sha256 : string;
}.

Definition TERMINAL_EVENT_TYPES : list string :=
  ["runtime.terminal"; "runtime.failed"; "job.completed"; "job.failed"; "checkpoint.verified"; "checkpoint.failed"].

Definition pj_key (run_id attempt_id : string) (p : projection_row) : bool :=
  (pj_run p == run_id) && (pj_attempt p == attempt_id).

(** [INSERT INTO runtime_projection ... ON CONFLICT(run_id,attempt_id) DO UPDATE];
    [terminal] only ever rises. *)
Definition upsert_projection (new : projection_row) : M ledger unit :=
  existing ← select_one runtime_projection (pj_key (pj_run new) (pj_attempt new));
  match existing with
  | Some _ =>
      update_where runtime_projection (pj_key (pj_run new) (pj_attempt new))
        (λ p, mk_projection (pj_run p) (pj_attempt p) (pj_event new) (pj_type new) (pj_sequence new) (pj_epoch new)
                (pj_seen_at new) (pj_terminal p || pj_terminal new)) ;;
      mret tt
  | None => append_row runtime_projection new
  end.

(** [INSERT INTO runtime_events]: unique [event_id] and
    [(run_id, attempt_id, local_sequence)], [body_bytes BETWEEN 2 AND 65536]. *)
Definition insert_event (e : event_row) : M ledger unit :=
  insert_row runtime_events
    (λ l, (2 <=? ev_body_bytes e) && (ev_body_bytes e <=? 65536)
          && existsb (λ d, dd_event d == ev_id e) (l_dedup l))
    (λ r r', (ev_id r == ev_id r')
             || ((ev_run r == ev_run r') && (ev_attempt r == ev_attempt r') && (ev_sequence r == ev_sequence r'))) e.

Definition insert_dedup (d : dedup_row) : M ledger unit :=
  insert_row runtime_event_dedup (λ _, true) (λ r r', dd_event r == dd_event r') d.

Section with_parameters.
Context (sha256 : string → string).
Context (validate_json : string → option RuntimeEvent).
Context (model_dump : RuntimeEvent → list (string * json)).
(** [self.heartbeat_coalesce_seconds], in microseconds. *)
Context (heartbeat_coalesce : Z).

(** The part of the transaction after the identity, token and epoch checks. *)
Definition record_event (event : RuntimeEvent) (body_sha256 : string) (body_bytes : Z) (sanitized_json : string)
    (now : Z) : M ledger EventReceipt :=
  insert_dedup (mk_dedup (event_id event) body_sha256 now) ;;
  projection ← select_one runtime_projection (pj_key (e_run event) (e_attempt event));
  let coalesced :=
    match projection with
    | Some p => (event_type event == "runtime.heartbeat") && (pj_type p == "runtime.heartbeat")
                && (now - pj_seen_at p <? heartbeat_coalesce)
    | None => false
    end in
  let terminal := mem (event_type event) TERMINAL_EVENT_TYPES in
  (if coalesced then mret tt
   else insert_event (mk_event (event_id event) (schema_version event) (e_run event) (e_attempt event) (e_service event)
                        (e_source event) (e_version event) (e_epoch event) (event_type event) (emitted_at event) now
                        (local_sequence event) body_sha256 body_bytes sanitized_json)) ;;
  (if match projection with Some p => pj_sequence p <? local_sequence event | None => true end
   then upsert_projection (mk_projection (e_run event) (e_attempt event) (event_id event) (event_type event)
                             (local_sequence event) (e_epoch event) now terminal)
   else mret tt) ;;
  mret (mk_EventReceipt (event_id event) (if coalesced then COALESCED else ACCEPTED) body_sha256).

(** The body of the transaction. *)
Definition ingest_transaction (event : RuntimeEvent) (body_sha256 : string) (body_bytes : Z)
    (sanitized_json header_token : string) (now : Z) : M ledger EventReceipt :=
  expected ← select_one run_attempts (λ a, (at_run a == e_run event) && (at_id a == e_attempt event));
  match expected with
  | None => raise StaleRuntimeEvent "unknown run/attempt identity"
  | Some a =>
      token_row ← select_one runtime_token_hashes (by_token (e_run event) (e_attempt event));
      let candidate_hash := sha256 header_token in
      raise_if ((e_service event != at_service a) || (e_source event != at_source a)
                || (e_version event != at_version a) || (e_epoch event != at_epoch a)) StaleRuntimeEvent
        "event exact identity does not match the durable attempt" ;;
      duplicate ← select_one runtime_event_dedup (λ d, dd_event d == event_id event);
      match duplicate with
      | Some d =>
          raise_if (dd_body_sha256 d != body_sha256) EventRejected "event ID was reused with a different body" ;;
          raise_if (match token_row with Some k => tk_sha256 k != candidate_hash | None => true end) EventRejected
            "invalid runtime token for duplicate event" ;;
          mret (mk_EventReceipt (event_id event) DUPLICATE body_sha256)
      | None =>
          raise_if (match token_row with
                    | Some k => (tk_revoked_at k != None) || (tk_sha256 k != candidate_hash)
                    | None => true
                    end) EventRejected "invalid or revoked runtime token" ;;
          current_epoch ← select_one service_epochs (λ e, ep_kind e == MASTER_SERVICE_KIND);
          if match current_epoch with Some c => e_epoch event <? ep_current c | None => false end then
            update_where run_attempts (λ a, at_id a == e_attempt event) (at_set_state "FENCED" now) ;;
            mret (mk_EventReceipt (event_id event) FENCED body_sha256)
          else record_event event body_sha256 body_bytes sanitized_json now
      end
  end.

Definition ingest_runtime_event (raw_body header_token : string) (now : Z) : M ledger EventReceipt :=
  raise_if (MAX_EVENT_BYTES <? slen raw_body) EventRejected "runtime event body exceeds 64 KiB" ;;
  event ← match validate_json raw_body with
          | Some e => mret e
          | None => raise EventRejected "invalid content-runtime-event/v1 envelope"
          end;
  let raw := model_dump event in
  raise_if (existsb (λ key, mem key (keys raw)) ["token"; "authorization"; "credential"; "password"]) EventRejected
    "runtime credentials are forbidden in the event body" ;;
  sanitized_json ← lift (safe_json (Some raw) MAX_EVENT_BYTES);
  atomically (ingest_transaction event (sha256 raw_body) (slen raw_body) sanitized_json header_token now).

(** ** Revocation of OAuth references *)

Definition revoke_oauth_reference (token_reference client_id : string) (principal_id : option string)
    (reason_code audit_ref : string) (now : Z) : M ledger string :=
  let digest := sha256 token_reference in
  atomically (
    existing ← select_one oauth_revocations (λ r, rv_token_sha256 r == digest);
    match existing with
    | Some _ => mret tt
    | None => append_row oauth_revocations (mk_revocation digest client_id principal_id reason_code now audit_ref)
    end) ;;
  mret digest.

Definition is_oauth_reference_revoked (token_reference : string) : M ledger bool :=
  row ← select_one oauth_revocations (λ r, rv_token_sha256 r == sha256 token_reference);
  mret (match row with Some _ => true | None => false end).

End with_parameters.

(** ** Retention *)

(** [retention_run_id] is the fresh [uuid4]. *)
Definition prune_runtime_events (nonterminal : datetime) (terminal : option datetime) (retention_run_id : string)
    (now : Z) : M ledger (nat * nat) :=
  atomically (
    nonterminal_before ← lift (stamp nonterminal);
    terminal_before ← match terminal with
                      | Some t => t ← lift (stamp t); mret (Some t)
                      | None => mret None
                      end;
    l ← get;
    events_deleted ← delete_where runtime_events
      (λ e, negb (mem (ev_id e) (map pj_event (l_projections l)))
            && ((negb (mem (ev_type e) TERMINAL_EVENT_TYPES) && text_ltb (ev_received_at e) nonterminal_before)
                || match terminal_before with
                   | Some t => mem (ev_type e) TERMINAL_EVENT_TYPES && text_ltb (ev_received_at e) t
                   | None => false
                   end));
    l' ← get;
    dedupe_deleted ← delete_where runtime_event_dedup
      (λ d, negb (mem (dd_event d) (map ev_id (l_events l')))
            && text_ltb (dd_first_seen d) (default nonterminal_before terminal_before));
    insert_row retention_runs (λ _, true) (λ r r', rt_id r == rt_id r')
      (mk_retention retention_run_id nonterminal_before terminal_before events_deleted dedupe_deleted now) ;;
    mret (events_deleted, dedupe_deleted)).
