(* ===== verification/LedgerLeases.v ===== *)
(** * LedgerLeases: leases on provider resources

    Models the resource-lease methods of [ControlLedger]
    (control_plane/ledger/store.py). *)

From S2P Require Import Prelude Time Json LedgerState.

Definition of_resource (kind ref : string) (r : lease_row) : bool := (ls_kind r == kind) && (ls_ref r == ref).

(** A lease row in force at [now], as SQL decides it: unreleased, with a
    deadline text above the text of [now]. *)
Definition in_force (now : Z) (r : lease_row) : bool := (ls_released_at r == None) && text_ltb now (ls_until r).

(** [SELECT max(epoch)], 0 when there is no row. *)
Definition max_epoch (l : list lease_row) : Z := match max_by ls_epoch l with Some r => ls_epoch r | None => 0 end.

(** [INSERT INTO resource_leases]: primary key [lease_id], unique
    [(resource_kind, resource_ref, epoch)], [epoch >= 1]. *)
Definition insert_lease (r : lease_row) : M ledger unit :=
  insert_row resource_leases (λ _, 1 <=? ls_epoch r)
    (λ a b, (ls_id a == ls_id b) || ((ls_kind a == ls_kind b) && (ls_ref a == ls_ref b) && (ls_epoch a == ls_epoch b))) r.

Definition acquire_resource_lease (lease_id resource_kind resource_ref holder_id : string) (lease_until : datetime)
    (now : Z) : M ledger lease_row :=
  until ← lift (aware_instant lease_until);
  raise_if (until <=? now) LeaseRejected "resource lease must expire in the future" ;;
  atomically (
    l ← get;
    let mine := List.filter (of_resource resource_kind resource_ref) (l_leases l) in
    match max_by ls_epoch (List.filter (in_force now) mine) with
    | Some active =>
        if (ls_id active == lease_id) && (ls_holder active == holder_id) then mret active
        else raise LeaseRejected "resource already has an active lease"
    | None =>
        insert_lease (mk_lease lease_id resource_kind resource_ref holder_id (max_epoch mine + 1) now until None) ;;
        row ← select_one resource_leases (λ r, ls_id r == lease_id);
        assert_some row
    end).

Definition resource_lease (lease_id : string) : M ledger (option lease_row) :=
  select_one resource_leases (λ r, ls_id r == lease_id).

Definition held_by (lease_id holder_id : string) (epoch : Z) (r : lease_row) : bool :=
  (ls_id r == lease_id) && (ls_holder r == holder_id) && (ls_epoch r == epoch).

Definition renew_resource_lease (lease_id holder_id : string) (epoch : Z) (lease_until : datetime) (now : Z) :
    M ledger unit :=
  until ← lift (aware_instant lease_until);
  raise_if (until <=? now) LeaseRejected "resource lease renewal must expire in the future" ;;
  atomically (
    changed ← update_where resource_leases (λ r, held_by lease_id holder_id epoch r && in_force now r)
                (ls_set_until until);
    raise_if (changed != 1%nat) LeaseRejected "resource lease renewal is stale, expired, or fenced").

Definition release_resource_lease (lease_id holder_id : string) (epoch now : Z) : M ledger unit :=
  atomically (
    changed ← update_where resource_leases (λ r, held_by lease_id holder_id epoch r && (ls_released_at r == None))
                (ls_set_released now);
    raise_if (changed != 1%nat) LeaseRejected "resource lease release is stale or fenced").

Definition release_resource_lease_exact (lease_id holder_id : string) (epoch now : Z) : M ledger unit :=
  atomically (
    row ← select_one resource_leases (λ r, ls_id r == lease_id);
    match row with
    | Some r =>
        raise_if ((ls_holder r != holder_id) || (ls_epoch r != epoch)) LeaseRejected
          "resource lease release is stale or fenced" ;;
        if ls_released_at r == None then
          update_where resource_leases (λ r, (ls_id r == lease_id) && (ls_released_at r == None)) (ls_set_released now) ;;
          mret tt
        else mret tt
    | None => raise LeaseRejected "resource lease release is stale or fenced"
    end).
