(* ===== verification/LedgerCheckpoints.v ===== *)
(** * LedgerCheckpoints: checkpoint candidates and the durable HEAD

    Models the checkpoint methods of [ControlLedger]
    (control_plane/ledger/store.py) on the tables of migrations 006 and 010. *)

From S2P Require Import Prelude Time Json LedgerState.

Definition cc_with (c : candidate_row) (version : option string) (status : string) (failure : option string)
    (verified : option Z) (package : option string) : candidate_row :=
  mk_candidate (cc_id c) (cc_service c) (cc_operation c) (cc_dataset c) version (cc_manifest_sha256 c) (cc_source c)
    (cc_generation c) (cc_master c) (cc_epoch c) status failure (cc_created_at c) verified (cc_manifest c) package.

Definition by_cc_id (id : string) (c : candidate_row) : bool := cc_id c == id.
Definition by_hd (kind : string) (h : head_row) : bool := hd_service h == kind.

(** UNIQUE(dataset_ref, version_ref): SQL NULLs never collide. *)
Definition same_version (a b : candidate_row) : bool :=
  (cc_dataset a == cc_dataset b) && (cc_version a == cc_version b) && (cc_version a != None).

(** [REFERENCES checkpoint_candidates(checkpoint_id)] of a nullable column. *)
Definition candidate_exists (id : option string) (l : ledger) : bool :=
  match id with None => true | Some c => existsb (by_cc_id c) (l_candidates l) end.

Definition insert_candidate (c : candidate_row) : M ledger unit :=
  insert_row checkpoint_candidates
    (λ l, operation_exists (cc_operation c) l && ((cc_source c == Some (cc_id c)) || candidate_exists (cc_source c) l)
          && (0 <=? cc_generation c) && (1 <=? cc_epoch c))
    (λ a b, (cc_id a == cc_id b) || same_version a b) c.

(** An UPDATE of candidates that must keep UNIQUE(dataset_ref, version_ref). *)
Definition update_versions (p : candidate_row → bool) (f : candidate_row → candidate_row) : M ledger nat := λ l,
  let changed := List.filter p (l_candidates l) in
  if existsb (λ c, existsb (λ c', (cc_id (f c) != cc_id c') && same_version (f c) c')
                     (map (λ r, if p r then f r else r) (l_candidates l))) changed
  then (Exc (Exn IntegrityError "UNIQUE constraint failed"), l)
  else update_where checkpoint_candidates p f l.

#[export] Hint Extern 1 (keeps _ (update_versions _ _)) =>
  intros ?; unfold update_versions;
  match goal with |- context [if ?b then _ else _] => destruct b end; reflexivity : frame.

Record candidate_request := mk_candidate_request {
  cr_id : string; cr_service : string; cr_operation : string; cr_dataset : string; cr_version : option string;
  cr_manifest_sha256 : string; cr_source : option string; cr_generation : option Z; cr_master : string; cr_epoch : Z;
  cr_manifest : option (list (string * json));
}.

(** [str(head["current_checkpoint_id"]) if head and head["current_checkpoint_id"] else None] *)
Definition truthy_text (o : option string) : option string :=
  match o with Some s => if s == "" then None else Some s | None => None end.

Definition add_checkpoint_candidate (r : candidate_request) (now : Z) : M ledger unit :=
  raise_if (slen (cr_manifest_sha256 r) != 64) ValueError "manifest_sha256 must be an exact SHA-256" ;;
  atomically (
    existing ← select_one checkpoint_candidates (by_cc_id (cr_id r));
    match existing with
    | Some c =>
        let replay_generation := default (cc_generation c) (cr_generation r) in
        raise_if (negb ((cc_service c == cr_service r) && (cc_operation c == cr_operation r)
                        && (cc_dataset c == cr_dataset r) && (cc_manifest_sha256 c == cr_manifest_sha256 r)
                        && (cc_source c == cr_source r) && (cc_generation c == replay_generation)
                        && (cc_master c == cr_master r) && (cc_epoch c == cr_epoch r))) StaleRuntimeEvent
          "checkpoint idempotency identity conflicts with durable candidate"
    | None =>
        head ← select_one checkpoint_heads (by_hd (cr_service r));
        let current_generation := match head with Some h => hd_generation h | None => 0 end in
        let current_checkpoint := match head with Some h => truthy_text (hd_current h) | None => None end in
        let expected_generation := default current_generation (cr_generation r) in
        raise_if ((expected_generation != current_generation) || (cr_source r != current_checkpoint)) StaleRuntimeEvent
          "checkpoint candidate source is not current HEAD" ;;
        manifest ← match cr_manifest r with
                   | Some m => t ← lift (safe_json (Some m) MAX_METADATA_BYTES); mret (Some t)
                   | None => mret None
                   end;
        insert_candidate (mk_candidate (cr_id r) (cr_service r) (cr_operation r) (cr_dataset r) (cr_version r)
          (cr_manifest_sha256 r) (cr_source r) expected_generation (cr_master r) (cr_epoch r) "CANDIDATE" None now None
          manifest None)
    end).

Definition mark_checkpoint_uploaded (checkpoint_id version_ref : string) : M ledger unit :=
  raise_if (blank_or_longer version_ref 512) ValueError "checkpoint exact version ref is invalid" ;;
  atomically (
    changed ← update_versions
      (λ c, by_cc_id checkpoint_id c && (cc_status c == "CANDIDATE") && (cc_version c == None))
      (λ c, cc_with c (Some version_ref) "UPLOADED" (cc_failure c) (cc_verified_at c) (cc_package c));
    if changed == 1%nat then mret tt
    else
      row ← select_one checkpoint_candidates (by_cc_id checkpoint_id);
      raise_if (match row with
                | None => true
                | Some c => negb (mem (cc_status c) ["UPLOADED"; "READBACK_VERIFIED"; "RESTORE_VERIFIED"; "VERIFIED"])
                            || (cc_version c != Some version_ref)
                end) StaleRuntimeEvent "checkpoint candidate cannot be uploaded from its current state").

Definition record_checkpoint_package_sha256 (checkpoint_id package_sha256 : string) : M ledger unit :=
  raise_if (negb (is_sha256 package_sha256)) ValueError "checkpoint package hash is invalid" ;;
  atomically (
    changed ← update_where checkpoint_candidates
      (λ c, by_cc_id checkpoint_id c && ((cc_package c == None) || (cc_package c == Some package_sha256)))
      (λ c, cc_with c (cc_version c) (cc_status c) (cc_failure c) (cc_verified_at c)
              (Some (default package_sha256 (cc_package c))));
    raise_if (changed != 1%nat) StaleRuntimeEvent "checkpoint package hash conflicts with durable identity").

(** [_checkpoint_transition] *)
Definition checkpoint_transition (checkpoint_id expected target : string) (verified_at : option Z)
    (later_statuses : list string) : M ledger unit :=
  atomically (
    changed ← update_where checkpoint_candidates (λ c, by_cc_id checkpoint_id c && (cc_status c == expected))
      (λ c, cc_with c (cc_version c) target (cc_failure c)
              (match verified_at with Some t => Some t | None => cc_verified_at c end) (cc_package c));
    if changed == 1%nat then mret tt
    else
      row ← select_one checkpoint_candidates (by_cc_id checkpoint_id);
      raise_if (match row with
                | None => true
                | Some c => negb (mem (cc_status c) (target :: later_statuses))
                end) StaleRuntimeEvent
        ("checkpoint candidate cannot advance " +:+ expected +:+ "->" +:+ target +:+ " from its current state")).

Definition mark_checkpoint_readback_verified (checkpoint_id : string) : M ledger unit :=
  checkpoint_transition checkpoint_id "UPLOADED" "READBACK_VERIFIED" None ["RESTORE_VERIFIED"; "VERIFIED"].

Definition mark_checkpoint_restore_verified (checkpoint_id : string) : M ledger unit :=
  checkpoint_transition checkpoint_id "READBACK_VERIFIED" "RESTORE_VERIFIED" None ["VERIFIED"].

Definition mark_checkpoint_verified (checkpoint_id : string) (now : Z) : M ledger unit :=
  checkpoint_transition checkpoint_id "RESTORE_VERIFIED" "VERIFIED" (Some now) [].

Definition fail_checkpoint (checkpoint_id failure_code : string) : M ledger unit :=
  atomically (
    update_where checkpoint_candidates (λ c, by_cc_id checkpoint_id c && (cc_status c != "VERIFIED"))
      (λ c, cc_with c (cc_version c) "FAILED" (Some failure_code) (cc_verified_at c) (cc_package c)) ;;
    mret tt).

(** The HEAD constraint: [current_checkpoint_id IS NULL OR current_checkpoint_id
    <> previous_checkpoint_id], which a NULL previous satisfies, and both
    columns reference candidates. *)
Definition head_valid (h : head_row) (l : ledger) : bool :=
  (0 <=? hd_generation h) && candidate_exists (hd_current h) l && candidate_exists (hd_previous h) l
  && match hd_current h, hd_previous h with Some c, Some p => c != p | _, _ => true end.

Definition promote_checkpoint (service_kind checkpoint_id : string) (expected_generation : Z)
    (expected_parent : option string) (now : Z) : M ledger head_row :=
  atomically (
    candidate ← select_one checkpoint_candidates (by_cc_id checkpoint_id);
    match candidate with
    | None => raise StaleRuntimeEvent "checkpoint candidate is absent or belongs to another service"
    | Some c =>
        raise_if (cc_service c != service_kind) StaleRuntimeEvent
          "checkpoint candidate is absent or belongs to another service" ;;
        current ← select_one checkpoint_heads (by_hd service_kind);
        let generation := match current with Some h => hd_generation h | None => 0 end in
        let old_current := match current with Some h => hd_current h | None => None end in
        if (old_current == Some checkpoint_id) && (cc_status c == "VERIFIED") then assert_some current
        else
          raise_if (negb (mem (cc_status c) ["RESTORE_VERIFIED"; "VERIFIED"])) StaleRuntimeEvent
            "only a restore-verified checkpoint can advance HEAD" ;;
          raise_if ((generation != expected_generation) || (old_current != expected_parent)
                    || (cc_generation c != expected_generation) || (cc_source c != expected_parent)) StaleRuntimeEvent
            "checkpoint HEAD generation or parent changed concurrently" ;;
          (match current with
           | None =>
               let h := mk_head service_kind 1 (Some checkpoint_id) old_current now in
               insert_row checkpoint_heads (head_valid h) (λ a b, hd_service a == hd_service b) h
           | Some h =>
               let step r := mk_head (hd_service r) (hd_generation r + 1) (Some checkpoint_id) (hd_current r) now in
               l ← get;
               raise_if (negb (head_valid (step h) l)) IntegrityError "CHECK constraint failed: checkpoint_heads" ;;
               changed ← update_where checkpoint_heads
                 (λ r, by_hd service_kind r && (hd_generation r == expected_generation) && (hd_current r == expected_parent))
                 step;
               raise_if (changed != 1%nat) StaleRuntimeEvent "checkpoint HEAD compare-and-swap lost"
           end) ;;
          (if cc_status c == "RESTORE_VERIFIED" then
             verified ← update_where checkpoint_candidates
               (λ r, by_cc_id checkpoint_id r && (cc_status r == "RESTORE_VERIFIED"))
               (λ r, cc_with r (cc_version r) "VERIFIED" (cc_failure r) (Some now) (cc_package r));
             raise_if (verified != 1%nat) StaleRuntimeEvent "checkpoint verification state changed during promotion"
           else mret tt) ;;
          row ← select_one checkpoint_heads (by_hd service_kind);
          assert_some row
    end).

Definition checkpoint_head (service_kind : string) : M ledger (option head_row) :=
  select_one checkpoint_heads (by_hd service_kind).

(** The projection [checkpoint_candidate] returns is the row with its manifest
    decoded. *)
Definition checkpoint_candidate (checkpoint_id : string) : M ledger (option (candidate_row * option json)) :=
  row ← select_one checkpoint_candidates (by_cc_id checkpoint_id);
  match row with
  | None => mret None
  | Some c =>
      manifest ← match truthy_text (cc_manifest c) with
                 | None => mret None
                 | Some t => match loads t with
                             | Some j => mret (Some j)
                             | None => raise ValueError "Expecting value"
                             end
                 end;
      mret (Some (c, manifest))
  end.
