(* ===== verification/LedgerStatus.v ===== *)
(** * LedgerStatus: the status Dataset of a master, recovery evidence and import receipts

    Models the methods of [ControlLedger] (control_plane/ledger/store.py) on
    [master_status_dataset_authorities], [record_master_terminal_recovery_evidence]
    and [record_blogger_import_receipt]. *)

From S2P Require Import Prelude Time Json LedgerState LedgerOperations LedgerEffects LedgerServices LedgerEvents.
From S2P Require Import LedgerCheckpoints.

(** [_master_status_dataset_from_row]: the row with its documents decoded. *)
Record StatusAuthority := mk_StatusAuthority {
  sa_row : authority_row; sa_resource_lease : json; sa_status_dataset : option json; sa_cleanup_receipt : option json;
}.

Definition decode_option (text : option string) : outcome (option json) :=
  match text with Some t => j ← decode t; Ret (Some j) | None => Ret None end.

Definition status_authority_from_row (u : authority_row) : outcome StatusAuthority :=
  lease ← decode (au_resource_lease u);
  status ← decode_option (au_status u);
  cleanup ← decode_option (au_cleanup u);
  Ret (mk_StatusAuthority u lease status cleanup).

Definition by_au (operation_id : string) (u : authority_row) : bool := au_operation u == operation_id.

Definition authority_states : list string := ["CREATING"; "READY"; "CLEANING"; "CLEANED"; "AMBIGUOUS"].

(** [INSERT INTO master_status_dataset_authorities] *)
Definition insert_authority (u : authority_row) : M ledger unit :=
  insert_row status_authorities
    (λ l, operation_exists (au_operation u) l && (slen (au_token_sha256 u) =? 64) && (slen (au_tree_sha256 u) =? 64)
          && mem (au_state u) authority_states)
    (λ a b, (au_operation a == au_operation b) || (au_run a == au_run b) || (au_attempt a == au_attempt b)) u.

(** [UPDATE ... SET state=?, updated_at=?] and the documents. *)
Definition au_with (state : string) (status cleanup : option string) (until : option Z) (now : Z) (u : authority_row) :
    authority_row :=
  mk_authority (au_operation u) (au_run u) (au_attempt u) (au_token_sha256 u) (au_claim_until u) (au_tree_sha256 u)
    (au_resource_lease u) status cleanup until state (au_created_at u) now.

(** [str(identity.get(key))] of a decoded identity. *)
Definition identity_text (key : string) (identity : json) : outcome string :=
  match identity with
  | JObj kvs => Ret (py_str (default JNull (assoc key kvs)))
  | _ => throw AttributeError "get"
  end.

(** The answer after an update: the row as it is now. *)
Definition current_authority (operation_id : string) : M ledger StatusAuthority :=
  row ← select_one status_authorities (by_au operation_id);
  u ← assert_some row;
  lift (status_authority_from_row u).

Section with_sha256.
Context (sha256 : string → string).

Definition ensure_master_status_dataset_authority (operation_id run_id attempt_id token : string)
    (creator_claim_until : datetime) (expected_content_tree_sha256 : string) (resource_lease : list (string * json))
    (now : Z) : M ledger (StatusAuthority * bool) :=
  let token_sha256 := sha256 token in
  raise_if ((match utcoffset creator_claim_until with None => true | Some _ => false end) || (slen token != 64)
            || negb (is_sha256 expected_content_tree_sha256)) ValueError
    "master status Dataset authority is invalid" ;;
  claim_until ← lift (stamp creator_claim_until);
  resource_lease_json ← lift (safe_json (Some resource_lease) (8 * 1024));
  atomically (
    operation ← select_one operations (λ o, by_op_id operation_id o && (op_kind o == "ensure_master"));
    match operation with
    | None => raise KeyError operation_id
    | Some o =>
        identity ← lift (decode (op_identity o));
        run ← lift (identity_text "run_id" identity);
        attempt ← lift (identity_text "attempt_id" identity);
        raise_if ((run != run_id) || (attempt != attempt_id)) StaleRuntimeEvent
          "master status authority differs from admitted operation" ;;
        existing ← select_one status_authorities (by_au operation_id);
        match existing with
        | Some u => a ← lift (status_authority_from_row u); mret (a, false)
        | None =>
            insert_authority (mk_authority operation_id run_id attempt_id token_sha256 claim_until
              expected_content_tree_sha256 resource_lease_json None None None "CREATING" now now) ;;
            stored ← select_one runtime_token_hashes (by_token run_id attempt_id);
            (match stored with
             | Some _ => mret tt
             | None => append_row runtime_token_hashes (mk_token run_id attempt_id token_sha256 None now)
             end) ;;
            token_row ← select_one runtime_token_hashes (by_token run_id attempt_id);
            raise_if (match token_row with Some k => tk_sha256 k != token_sha256 | None => true end) IdempotencyConflict
              "master attempt already has another callback token hash" ;;
            a ← current_authority operation_id;
            mret (a, true)
        end
    end).

End with_sha256.

Definition master_status_dataset_authority (operation_id : string) : M ledger (option StatusAuthority) :=
  row ← select_one status_authorities (by_au operation_id);
  match row with
  | Some u => a ← lift (status_authority_from_row u); mret (Some a)
  | None => mret None
  end.

Definition record_master_status_dataset (operation_id : string) (status_dataset : list (string * json)) (now : Z) :
    M ledger StatusAuthority :=
  payload ← lift (safe_json (Some status_dataset) (32 * 1024));
  atomically (
    row ← select_one status_authorities (by_au operation_id);
    match row with
    | None => raise KeyError operation_id
    | Some u =>
        raise_if ((au_status u != None) && (au_status u != Some payload)) IdempotencyConflict
          "master status Dataset claim changed" ;;
        update_where status_authorities (λ u, by_au operation_id u && mem (au_state u) ["CREATING"; "READY"])
          (λ u, au_with "READY" (Some payload) (au_cleanup u) (au_cleanup_until u) now u) ;;
        current_authority operation_id
    end).

Definition complete_master_status_dataset_cleanup (operation_id : string) (cleanup_receipt : list (string * json)) (now : Z) :
    M ledger StatusAuthority :=
  payload ← lift (safe_json (Some cleanup_receipt) (32 * 1024));
  atomically (
    row ← select_one status_authorities (by_au operation_id);
    raise_if (match row with Some u => au_status u == None | None => true end) StaleRuntimeEvent
      "master status Dataset cleanup lacks an exact claim" ;;
    raise_if (match row with Some u => (au_cleanup u != None) && (au_cleanup u != Some payload) | None => false end)
      IdempotencyConflict "master status Dataset cleanup receipt changed" ;;
    update_where status_authorities (λ u, by_au operation_id u && mem (au_state u) ["CLEANING"; "CLEANED"])
      (λ u, au_with "CLEANED" (au_status u) (Some payload) (au_cleanup_until u) now u) ;;
    current_authority operation_id).

Definition complete_ambiguous_master_status_dataset_cleanup (operation_id : string) (cleanup_receipt : list (string * json))
    (now : Z) : M ledger StatusAuthority :=
  payload ← lift (safe_json (Some cleanup_receipt) (32 * 1024));
  atomically (
    row ← select_one status_authorities (by_au operation_id);
    raise_if (match row with Some u => (au_state u != "AMBIGUOUS") || (au_status u != None) | None => true end)
      StaleRuntimeEvent "ambiguous master status cleanup binding changed" ;;
    raise_if (match row with Some u => (au_cleanup u != None) && (au_cleanup u != Some payload) | None => false end)
      IdempotencyConflict "ambiguous master status cleanup receipt changed" ;;
    update_where status_authorities (λ u, by_au operation_id u && (au_state u == "AMBIGUOUS"))
      (λ u, au_with (au_state u) (au_status u) (Some payload) (au_cleanup_until u) now u) ;;
    current_authority operation_id).

Definition claim_master_status_dataset_cleanup (operation_id : string) (claim_until : datetime) (now : Z) : M ledger bool :=
  until ← lift (aware_instant claim_until);
  raise_if (until <=? now) ValueError "master status cleanup claim must expire in the future" ;;
  atomically (
    row ← select_one status_authorities (by_au operation_id);
    match row with
    | None => raise KeyError operation_id
    | Some u =>
        let reclaim := (au_state u == "CLEANING")
                       && match au_cleanup_until u with Some t => t <=? now | None => false end in
        if (au_state u != "READY") && negb reclaim then mret false
        else
          changed ← update_where status_authorities (λ r, by_au operation_id r && (au_state r == au_state u))
            (λ r, au_with "CLEANING" (au_status r) (au_cleanup r) (Some until) now r);
          mret (changed == 1%nat)
    end).

(** [ORDER BY a.updated_at, a.operation_id] *)
Definition au_order (a b : authority_row) : bool :=
  if text_ltb (au_updated_at a) (au_updated_at b) then true
  else if text_ltb (au_updated_at b) (au_updated_at a) then false
  else String.leb (au_operation a) (au_operation b).

Fixpoint status_authorities_of (l : list authority_row) : outcome (list StatusAuthority) :=
  match l with
  | [] => Ret []
  | u :: l' => a ← status_authority_from_row u; rest ← status_authorities_of l'; Ret (a :: rest)
  end.

Definition terminal_master_status_dataset_authorities (limit : Z) : M ledger (list StatusAuthority) :=
  raise_if (negb ((1 <=? limit) && (limit <=? 100))) ValueError "master status cleanup limit is invalid" ;;
  l ← get;
  let terminal u := existsb (λ o, (op_id o == au_operation u) && mem (op_state o) terminal_states) (l_operations l) in
  lift (status_authorities_of (take (Z.to_nat limit) (order_by au_order (List.filter
    (λ u, terminal u && (au_status u != None) && (au_cleanup u == None) && mem (au_state u) ["READY"; "CLEANING"])
    (l_authorities l))))).

Definition fail_ambiguous_master_status_dataset (operation_id : string) (now : Z) : M ledger StatusAuthority :=
  atomically (
    row ← select_one status_authorities (by_au operation_id);
    match row with
    | None => raise KeyError operation_id
    | Some u =>
        if (au_status u != None) || (now <? au_claim_until u) then lift (status_authority_from_row u)
        else
          update_where status_authorities (λ r, by_au operation_id r && (au_state r == "CREATING"))
            (λ r, au_with "AMBIGUOUS" (au_status r) (au_cleanup r) (au_cleanup_until r) now r) ;;
          operation ← select_one operations (by_op_id operation_id);
          (match operation with
           | Some o =>
               if mem (op_state o) ["REQUESTED"; "STARTING"] then
                 update_where operations (by_op_id operation_id) (op_set_state "FAILED" now) ;;
                 metadata ← lift (safe_json (Some [("code", JStr "MASTER_STATUS_DATASET_RESPONSE_AMBIGUOUS")]) MAX_METADATA_BYTES);
                 log_operation operation_id (Some (op_state o)) "FAILED" now metadata
               else mret tt
           | None => mret tt
           end) ;;
          update_where runtime_token_hashes (by_token (au_run u) (au_attempt u)) (tk_set_revoked now) ;;
          current_authority operation_id
    end).

(** ** [record_master_terminal_recovery_evidence] *)

Definition recovery_keys : list string :=
  ["schema_version"; "run_id"; "attempt_id"; "service_instance_id"; "master_instance_id"; "source_identity";
   "source_version"; "checkpoint_id"; "manifest_sha256"; "output_tree_sha256"; "output_receipt_sha256"; "provider_status";
   "events"].

(** One entry of ["events"]. *)
Definition recovery_event_ok (e : json) : bool :=
  match e with
  | JObj kvs =>
      forallb (λ k, mem k ["event_id"; "body_sha256"]) (keys kvs)
      && match assoc "event_id" kvs, assoc "body_sha256" kvs with
         | Some (JStr i), Some (JStr b) => (1 <=? slen i) && (slen i <=? 200) && is_sha256 b
         | _, _ => false
         end
  | _ => false
  end.

Definition event_id_of (e : json) : option json := jget "event_id" e.

Definition recovery_metadata_ok (metadata : list (string * json)) (output_receipt_sha256 provider_status : string) : bool :=
  forallb (λ k, mem k (keys metadata)) recovery_keys
  && forallb (λ k, mem k ("blogger_import_receipt_sha256" :: recovery_keys)) (keys metadata)
  && (assoc "schema_version" metadata == Some (JStr "my-data-hub-master-terminal-recovery-evidence.v1"))
  && (assoc "provider_status" metadata == Some (JStr provider_status))
  && (assoc "output_receipt_sha256" metadata == Some (JStr output_receipt_sha256))
  && match assoc "events" metadata with
     | Some (JArr events) =>
         (length events =? 4)%nat && forallb recovery_event_ok events
         && (length (remove_dups (map event_id_of events)) =? 4)%nat
     | _ => false
     end
  && match assoc "blogger_import_receipt_sha256" metadata with
     | None | Some JNull => true
     | Some (JStr s) => is_sha256 s
     | _ => false
     end
  && forallb (λ k, (k == "events")
                   || match assoc k metadata with Some (JStr s) => negb (blank_or_longer s 500) | _ => false end) recovery_keys.

Definition record_master_terminal_recovery_evidence (sha256 : string → string) (operation_id : string) (epoch : Z)
    (output_receipt_sha256 provider_status : string) (metadata : list (string * json)) (now : Z) : M ledger string :=
  raise_if ((epoch <? 1) || negb (is_sha256 output_receipt_sha256)
            || negb (mem provider_status ["queued"; "running"; "complete"; "error"; "unknown"])) ValueError
    "master terminal recovery evidence identity is invalid" ;;
  raise_if (negb (recovery_metadata_ok metadata output_receipt_sha256 provider_status)) ValueError
    "master terminal recovery metadata contract is invalid" ;;
  metadata_json ← lift (safe_json (Some metadata) MAX_METADATA_BYTES);
  let audit_ref := "kaggle-terminal-output-sha256:" +:+ output_receipt_sha256 in
  let audit_id := sha256 ("master-terminal-recovery-v1:" +:+ operation_id +:+ ":" +:+ str_int epoch +:+ ":" +:+ output_receipt_sha256) in
  atomically (
    existing ← select_one audit_log (λ a, ad_id a == audit_id);
    (match existing with
     | Some _ => mret tt
     | None => append_row audit_log (mk_audit audit_id "master.terminal_recovery" operation_id epoch audit_ref now metadata_json)
     end) ;;
    row ← select_one audit_log (λ a, ad_id a == audit_id);
    raise_if (match row with
              | None => true
              | Some a => (ad_action a != "master.terminal_recovery") || (ad_operation a != operation_id) || (ad_epoch a != epoch)
                          || (ad_ref a != audit_ref) || (ad_metadata a != metadata_json)
              end) IdempotencyConflict "master terminal recovery evidence identity collision") ;;
  mret audit_id.

(** ** [record_blogger_import_receipt] *)

Definition by_bl (request_id : string) (b : blogger_row) : bool := bl_request b == request_id.

Definition record_blogger_import_receipt (request_id run_id attempt_id : string) (receipt : list (string * json)) (now : Z) :
    M ledger unit :=
  receipt_json ← lift (safe_json (Some receipt) MAX_METADATA_BYTES);
  atomically (
    changed ← update_where blogger_requests
      (λ b, by_bl request_id b && (bl_state b == "CLAIMED") && (bl_run b == Some run_id) && (bl_attempt b == Some attempt_id))
      (λ b, mk_blogger (bl_request b) "IMPORT_COMMITTED" (bl_run b) (bl_attempt b) (Some receipt_json) now);
    row ← select_one blogger_requests (by_bl request_id);
    raise_if (match row with
              | None => true
              | Some b => (changed != 1%nat) && (bl_import b != Some receipt_json)
              end) StaleRuntimeEvent "blogger import receipt does not bind the claimed runtime").
