(* ===== verification/LedgerSafety.v ===== *)
(** * LedgerSafety: executions of the ledger and their invariants

    A ledger execution is a sequence of whole method calls, each of which may
    return or raise ([ledger_call], [ledger_step], [ledger_run]). *)

From S2P Require Import Prelude Time Json LedgerState LedgerOperations LedgerEffects LedgerServices LedgerEvents.
From S2P Require Import LedgerLeases LedgerCheckpoints LedgerStatus.

(** ** Calls *)

Inductive ledger_call : Type :=
| EnsureOperation (operation_id key kind : string) (intent : list (string * json)) (state : string)
    (identity : list (string * json)) (allocate_epoch_for : option string) (now : Z)
| EnsureMaster (operation_id key : string) (intent identity : list (string * json)) (service_kind : string) (now : Z)
| TransitionOperation (operation_id expected new : string) (metadata : option (list (string * json))) (now : Z)
| AllocateEpoch (service_kind : string) (now : Z)
| PlanEffect (effect_id operation_id key kind : string) (identity : list (string * json)) (now : Z)
| ClaimEffect (effect_id : string) (now : Z)
| CompleteEffect (effect_id : string) (receipt : list (string * json)) (now : Z)
| FailUnstarted (operation_id effect_id run_id attempt_id service_id : string) (epoch now : Z)
| RecordAttempt (attempt_id run_id operation_id source version service_id : string) (master : option string)
    (epoch : Z) (state : string) (now : Z)
| SetProviderRun (attempt_id ref state : string) (now : Z)
| StoreToken (run_id attempt_id token : string) (now : Z)
| RevokeToken (run_id attempt_id : string) (now : Z)
| AnnounceService (a : announcement) (now : Z)
| ActivateService (operation_id expected : string) (a : announcement) (now : Z)
| ProjectLifecycle (operation_id service_id : string) (epoch : Z) (expected state service_state event_id : string) (now : Z)
| ProjectFailure (operation_id run_id attempt_id service_id : string) (epoch : Z) (expected event_id : string) (now : Z)
| RenewService (service_id : string) (epoch : Z) (until : datetime) (event_id : string) (now : Z)
| IngestEvent (raw_body header_token : string) (now : Z)
| PruneEvents (nonterminal : datetime) (terminal : option datetime) (retention_run_id : string) (now : Z)
| RevokeOauth (token client : string) (principal : option string) (reason audit : string) (now : Z)
| AcquireLease (lease_id kind ref holder : string) (until : datetime) (now : Z)
| RenewLease (lease_id holder : string) (epoch : Z) (until : datetime) (now : Z)
| ReleaseLease (lease_id holder : string) (epoch now : Z)
| ReleaseLeaseExact (lease_id holder : string) (epoch now : Z)
| AddCandidate (r : candidate_request) (now : Z)
| MarkUploaded (checkpoint_id version : string)
| RecordPackage (checkpoint_id package : string)
| MarkReadback (checkpoint_id : string)
| MarkRestore (checkpoint_id : string)
| MarkVerified (checkpoint_id : string) (now : Z)
| FailCheckpoint (checkpoint_id code : string)
| PromoteCheckpoint (kind checkpoint_id : string) (generation : Z) (parent : option string) (now : Z)
| EnsureStatusAuthority (operation_id run_id attempt_id token : string) (claim_until : datetime) (tree_sha256 : string)
    (resource_lease : list (string * json)) (now : Z)
| RecordStatusDataset (operation_id : string) (status : list (string * json)) (now : Z)
| CompleteStatusCleanup (operation_id : string) (receipt : list (string * json)) (now : Z)
| CompleteAmbiguousCleanup (operation_id : string) (receipt : list (string * json)) (now : Z)
| ClaimStatusCleanup (operation_id : string) (until : datetime) (now : Z)
| FailAmbiguousStatus (operation_id : string) (now : Z)
| RecordRecovery (operation_id : string) (epoch : Z) (output_receipt_sha256 provider_status : string)
    (metadata : list (string * json)) (now : Z)
| RecordBloggerImport (request_id run_id attempt_id : string) (receipt : list (string * json)) (now : Z).

Definition discard {A} (m : M ledger A) : M ledger unit := m ;; mret tt.

Section executions.
Context (sha256 : string → string).
Context (validate_json : string → option RuntimeEvent).
Context (model_dump : RuntimeEvent → list (string * json)).
Context (heartbeat_coalesce : Z).

Definition ledger_step (c : ledger_call) : M ledger unit :=
  match c with
  | EnsureOperation i k d intent s ident a now => discard (ensure_operation sha256 i k d intent s ident a now)
  | EnsureMaster i k intent ident d now => discard (ensure_master_operation sha256 i k intent ident d now)
  | TransitionOperation i e n m now => discard (transition_operation i e n m now)
  | AllocateEpoch k now => discard (allocate_epoch k now)
  | PlanEffect e o k d i now => discard (plan_effect e o k d i now)
  | ClaimEffect e now => discard (claim_effect e now)
  | CompleteEffect e r now => discard (complete_effect e r now)
  | FailUnstarted o e r a s ep now => discard (fail_unstarted_master_after_tunnel_expiry o e r a s ep now)
  | RecordAttempt a r o s v i m e st now => record_attempt a r o s v i m e st now
  | SetProviderRun a r s now => set_attempt_provider_run a r s now
  | StoreToken r a t now => store_runtime_token_hash sha256 r a t now
  | RevokeToken r a now => revoke_runtime_token r a now
  | AnnounceService a now => discard (announce_service a now)
  | ActivateService o e a now => discard (activate_service_operation o e a now)
  | ProjectLifecycle o s e ex st ss ev now => project_master_lifecycle o s e ex st ss ev now
  | ProjectFailure o r a s e ex ev now => project_master_terminal_failure o r a s e ex ev now
  | RenewService s e u ev now => renew_service s e u ev now
  | IngestEvent b t now => discard (ingest_runtime_event sha256 validate_json model_dump heartbeat_coalesce b t now)
  | PruneEvents n t i now => discard (prune_runtime_events n t i now)
  | RevokeOauth t c p r a now => discard (revoke_oauth_reference sha256 t c p r a now)
  | AcquireLease i k r h u now => discard (acquire_resource_lease i k r h u now)
  | RenewLease i h e u now => renew_resource_lease i h e u now
  | ReleaseLease i h e now => release_resource_lease i h e now
  | ReleaseLeaseExact i h e now => release_resource_lease_exact i h e now
  | AddCandidate r now => add_checkpoint_candidate r now
  | MarkUploaded c v => mark_checkpoint_uploaded c v
  | RecordPackage c p => record_checkpoint_package_sha256 c p
  | MarkReadback c => mark_checkpoint_readback_verified c
  | MarkRestore c => mark_checkpoint_restore_verified c
  | MarkVerified c now => mark_checkpoint_verified c now
  | FailCheckpoint c f => fail_checkpoint c f
  | PromoteCheckpoint k c g p now => discard (promote_checkpoint k c g p now)
  | EnsureStatusAuthority o r a t u h l now => discard (ensure_master_status_dataset_authority sha256 o r a t u h l now)
  | RecordStatusDataset o s now => discard (record_master_status_dataset o s now)
  | CompleteStatusCleanup o r now => discard (complete_master_status_dataset_cleanup o r now)
  | CompleteAmbiguousCleanup o r now => discard (complete_ambiguous_master_status_dataset_cleanup o r now)
  | ClaimStatusCleanup o u now => discard (claim_master_status_dataset_cleanup o u now)
  | FailAmbiguousStatus o now => discard (fail_ambiguous_master_status_dataset o now)
  | RecordRecovery o e h st m now => discard (record_master_terminal_recovery_evidence sha256 o e h st m now)
  | RecordBloggerImport q r a m now => record_blogger_import_receipt q r a m now
  end.

Definition ledger_run (cs : list ledger_call) (l : ledger) : ledger :=
  fold_left (λ l c, (ledger_step c l).2) cs l.

End executions.

(** Unfold a call down to its statements. *)
Ltac unfold_call := unfold ledger_step, discard, ensure_operation, ensure_master_operation, transition_operation, allocate_epoch,
  plan_effect, claim_effect, complete_effect, fail_unstarted_master_after_tunnel_expiry, record_attempt, insert_attempt,
  set_attempt_provider_run, store_runtime_token_hash, revoke_runtime_token, announce_service, activate_service_operation,
  project_master_lifecycle, project_master_terminal_failure, renew_service, ingest_runtime_event, ingest_transaction,
  record_event, insert_dedup, insert_event, upsert_projection, prune_runtime_events, revoke_oauth_reference,
  acquire_resource_lease, insert_lease, renew_resource_lease, release_resource_lease, release_resource_lease_exact,
  add_checkpoint_candidate, insert_candidate, mark_checkpoint_uploaded, record_checkpoint_package_sha256,
  mark_checkpoint_readback_verified, mark_checkpoint_restore_verified, mark_checkpoint_verified, checkpoint_transition,
  fail_checkpoint, promote_checkpoint, upsert_epoch, fence_older_services, log_effect, insert_effect, insert_service,
  admit_master, check_forced_rotation, insert_operation, log_operation,
  ensure_master_status_dataset_authority, insert_authority, record_master_status_dataset, complete_master_status_dataset_cleanup,
  complete_ambiguous_master_status_dataset_cleanup, claim_master_status_dataset_cleanup, fail_ambiguous_master_status_dataset,
  current_authority, record_master_terminal_recovery_evidence, record_blogger_import_receipt.

Section safety.
Context (sha256 : string → string).
Context (validate_json : string → option RuntimeEvent).
Context (model_dump : RuntimeEvent → list (string * json)).
Context (heartbeat_coalesce : Z).
Abbreviation step := (ledger_step sha256 validate_json model_dump heartbeat_coalesce).
Abbreviation run := (ledger_run sha256 validate_json model_dump heartbeat_coalesce).

(** Calls that never touch the operations and their log. *)
Definition op_tables (l : ledger) := (l_operations l, l_operation_log l).

Definition touches_operations (c : ledger_call) : bool :=
  match c with
  | EnsureOperation _ _ _ _ _ _ _ _ | EnsureMaster _ _ _ _ _ _ | TransitionOperation _ _ _ _ _
  | FailUnstarted _ _ _ _ _ _ _ | ActivateService _ _ _ _ | ProjectLifecycle _ _ _ _ _ _ _ _
  | ProjectFailure _ _ _ _ _ _ _ _ | FailAmbiguousStatus _ _ => true
  | _ => false
  end.

Lemma keeps_op_tables c : touches_operations c = false → keeps op_tables (step c).
Proof.
  destruct c; intros H; try discriminate H; clear H; unfold_call; frame.
  apply keeps_except_integrity; frame.
Qed.

(** ** Failed calls *)

Definition rolls_back {A} (m : M ledger A) : Prop := ∀ l e l', m l = (Exc e, l') → l' = l.
Definition read_only {A} (m : M ledger A) : Prop := keeps (λ l, l) m.
Definition never_raises {A} (m : M ledger A) : Prop := ∀ l e l', m l ≠ (Exc e, l').

Lemma rolls_back_atomically {A} (m : M ledger A) : rolls_back (atomically m).
Proof. intros l e l'. apply atomically_exc. Qed.

Lemma rolls_back_read {A} (m : M ledger A) : read_only m → rolls_back m.
Proof. intros H l e l' E. specialize (H l). by rewrite E in H. Qed.

Lemma rolls_back_bind {A B} (m : M ledger A) (k : A → M ledger B) :
  read_only m → (∀ a, rolls_back (k a)) → rolls_back (mbind k m).
Proof.
  intros Hm Hk l e l'. specialize (Hm l). unfold mbind, M_bind. destruct (m l) as [[a|e'] l1]; cbn in *; subst.
  - apply Hk.
  - by intros [= _ ->].
Qed.

Lemma rolls_back_then {A B} (m : M ledger A) (k : A → M ledger B) :
  rolls_back m → (∀ a, never_raises (k a)) → rolls_back (mbind k m).
Proof.
  intros Hm Hk l e l'. specialize (Hm l). unfold mbind, M_bind. destruct (m l) as [[a|e'] l1].
  - by intros H%Hk.
  - intros [= _ <-]. by apply (Hm e').
Qed.

Lemma discard_inv {A} (m : M ledger A) l l' : discard m l = (Ret tt, l') → ∃ a, m l = (Ret a, l').
Proof. unfold discard. intros H. run_inv. eauto. Qed.

Lemma rolls_back_discard {A} (m : M ledger A) : rolls_back m → rolls_back (discard m).
Proof. intros H. apply rolls_back_then; [done|]. by intros a l e l'. Qed.

Ltac rollback :=
  repeat match goal with
  | |- rolls_back (discard _) => apply rolls_back_discard
  | |- rolls_back (atomically _) => apply rolls_back_atomically
  | |- rolls_back (mbind _ (atomically _)) => apply rolls_back_then; [apply rolls_back_atomically|by intros ? ? ? ?]
  | |- rolls_back (mbind _ _) => apply rolls_back_bind; [unfold read_only; frame|intros ?]
  end.

Lemma step_rolls_back c : rolls_back (step c).
Proof.
  destruct c; unfold ledger_step, ensure_operation, ensure_master_operation, transition_operation, allocate_epoch,
    plan_effect, claim_effect, complete_effect, fail_unstarted_master_after_tunnel_expiry, record_attempt,
    set_attempt_provider_run, store_runtime_token_hash, revoke_runtime_token, announce_service, activate_service_operation,
    project_master_lifecycle, project_master_terminal_failure, renew_service, ingest_runtime_event, prune_runtime_events,
    revoke_oauth_reference, acquire_resource_lease, renew_resource_lease, release_resource_lease,
    release_resource_lease_exact, add_checkpoint_candidate, mark_checkpoint_uploaded, record_checkpoint_package_sha256,
    mark_checkpoint_readback_verified, mark_checkpoint_restore_verified, mark_checkpoint_verified, checkpoint_transition,
    fail_checkpoint, promote_checkpoint, ensure_master_status_dataset_authority, record_master_status_dataset,
    complete_master_status_dataset_cleanup, complete_ambiguous_master_status_dataset_cleanup,
    claim_master_status_dataset_cleanup, fail_ambiguous_master_status_dataset, record_master_terminal_recovery_evidence,
    record_blogger_import_receipt; rollback.
Qed.

(** Every step either returned, or changed nothing. *)
Lemma step_cases c l : step c l = (Ret tt, (step c l).2) ∨ (step c l).2 = l.
Proof.
  destruct (step c l) as [[[]|e] l'] eqn:E; [by left|right]. by apply (step_rolls_back c l e).
Qed.

(** An invariant of every returning call holds in every execution. *)
Lemma run_invariant (I : ledger → Prop) :
  (∀ c l l', I l → step c l = (Ret tt, l') → I l') → ∀ cs l, I l → I (run cs l).
Proof.
  intros H cs. induction cs as [|c cs IH]; intros l Hl; [done|]. apply IH.
  destruct (step_cases c l) as [E| ->]; [by apply (H _ _ _ Hl E)|done].
Qed.

Lemma ledger_run_app cs cs' l : run (cs ++ cs') l = run cs' (run cs l).
Proof. apply fold_left_app. Qed.

(** A ledger method that raises leaves every table exactly as it was,
    whatever it had already written inside its transaction. *)
Theorem failed_call_changes_nothing c l e l' : step c l = (Exc e, l') → l' = l.
Proof. apply step_rolls_back. Qed.

End safety.

(** ** A concrete execution

    One master admitted, started, announced, heard from, checkpointed and
    stopped; the witnesses below and in the later files run it. *)
Module Scenario.

Definition plain (s : string) : string := s.

(** Bodies are event identifiers; ["done"] is the terminal event. *)
Definition decode_event (body : string) : option RuntimeEvent :=
  if body == "" then None
  else Some (mk_RuntimeEvent body "content-runtime-event/v1" "run-1" "attempt-1" "service-1" "kernel" "v1"
               (if body == "done" then "runtime.terminal" else "runtime.heartbeat") 4250000
               (if body == "done" then 2 else 1) 1 None None [] [] []).
Definition dump_event (e : RuntimeEvent) : list (string * json) := [("event_id", JStr (event_id e))].

Definition identity : list (string * json) := [("master_instance_id", JStr "master-1")].
Definition intent : list (string * json) := [("service", JStr "postgres-master")].

Definition hello : announcement :=
  mk_announcement "service-1" MASTER_SERVICE_KIND "run-1" "attempt-1" (Some "master-1") 1 "10.0.0.1:5432" "postgres" None
    ["sql"] None None (utc 60000000) "event-1".

Definition hash64 : string := "aaaaaaaaaaaaaaaaaaaaaaaaaaaaaaaaaaaaaaaaaaaaaaaaaaaaaaaaaaaaaaaa".

Definition requested : list ledger_call := [EnsureMaster "op-1" "key-1" intent identity MASTER_SERVICE_KIND 1250000].

Definition started : list ledger_call :=
  (requested ++
   [PlanEffect "effect-1" "op-1" "effect-key-1" "trigger_run" identity 1500000;
    ClaimEffect "effect-1" 1750000;
    CompleteEffect "effect-1" [("receipt", JStr "r")] 2250000;
    RecordAttempt "attempt-1" "run-1" "op-1" "kernel" "v1" "service-1" (Some "master-1") 1 "STARTING" 2500000;
    StoreToken "run-1" "attempt-1" "secret" 2500000;
    ActivateService "op-1" "REQUESTED" hello 3250000])%list.

Definition heard : list ledger_call := (started ++ [IngestEvent "alive" "secret" 4500000])%list.

Definition saved : list ledger_call :=
  (heard ++
   [AddCandidate (mk_candidate_request "cp-1" MASTER_SERVICE_KIND "op-1" "dataset" None hash64 None None "master-1" 1 None) 5250000;
    MarkUploaded "cp-1" "v1"; MarkReadback "cp-1"; MarkRestore "cp-1"])%list.

Definition promoted : list ledger_call := (saved ++ [PromoteCheckpoint MASTER_SERVICE_KIND "cp-1" 0 None 5500000])%list.

Definition stopped : list ledger_call :=
  (promoted ++ [ProjectLifecycle "op-1" "service-1" 1 "ACTIVE" "STOPPED" "STOPPED" "event-9" 6250000])%list.

Definition run (cs : list ledger_call) : ledger := ledger_run plain decode_event dump_event 60000000 cs empty_ledger.

(** Nothing in the execution raised: it left what it was meant to leave. *)
Example stopped_state :
  map op_state (l_operations (run stopped)) = ["STOPPED"] ∧ map ef_state (l_effects (run stopped)) = [APPLIED] ∧
  map sv_state (l_services (run stopped)) = ["STOPPED"] ∧ map ev_id (l_events (run stopped)) = ["alive"] ∧
  map cc_status (l_candidates (run stopped)) = ["VERIFIED"] ∧ map hd_generation (l_heads (run stopped)) = [1].
Proof. vm_compute. repeat split. Qed.

End Scenario.

Lemma failed_call_changes_nothing_witness :
  (ledger_step Scenario.plain Scenario.decode_event Scenario.dump_event 0
    (TransitionOperation "op-1" "ACTIVE" "STOPPED" None 2000000) (Scenario.run Scenario.requested)).2
  = Scenario.run Scenario.requested.
Proof.
  eapply (failed_call_changes_nothing Scenario.plain Scenario.decode_event Scenario.dump_event 0
    (TransitionOperation "op-1" "ACTIVE" "STOPPED" None 2000000)). vm_compute. reflexivity.
Defined.
