(* ===== verification/LedgerHistory.v ===== *)
(** * LedgerHistory: the operation and effect logs are faithful histories

    [ControlLedger] writes one row of [operation_log] with every change of an
    operation's state and one row of [effect_log] with every change of an
    effect's state.  Replaying the log rows of an operation from nothing gives
    its current state, in every execution of the ledger. *)

From S2P Require Import Prelude Time Json LedgerState LedgerOperations LedgerEffects LedgerServices LedgerEvents.
From S2P Require Import LedgerLeases LedgerCheckpoints LedgerStatus LedgerSafety.

#[local] Set Default Proof Using "Type".
#[local] Set Proof Using Clear Unused.

(** ** Operations *)

(** Follow log rows from a state: each row must start where the last one
    ended. *)
Fixpoint replay (current : option string) (log : list operation_log_row) : option (option string) :=
  match log with
  | [] => Some current
  | e :: log' => if ol_from e == current then replay (Some (ol_to e)) log' else None
  end.

Definition log_of (id : string) (log : list operation_log_row) : list operation_log_row :=
  List.filter (λ e, ol_operation e == id) log.

Definition state_of (id : string) (ops : list operation_row) : option string :=
  op_state <$> List.find (by_op_id id) ops.

(** What one call can do to the operations and their log: nothing, create an
    operation the call is allowed to create, or move one operation
    between states the call is allowed to move it between. *)
Inductive op_step (creates : operation_row → Prop) (leaves : string → string → Prop) :
  list operation_row * list operation_log_row → list operation_row * list operation_log_row → Prop :=
| op_same x : op_step creates leaves x x
| op_created ops log o now metadata :
    creates o → (∀ r, r ∈ ops → op_id r ≠ op_id o ∧ op_key r ≠ op_key o) →
    op_step creates leaves (ops, log) (ops ++ [o], log ++ [mk_operation_log (op_id o) None (op_state o) now metadata])%list
| op_moved ops log o from to now t metadata p :
    o ∈ ops → op_state o = from → leaves from to → p o = true → (∀ r, p r = true → op_id r = op_id o) →
    op_step creates leaves (ops, log) (map (λ r, if p r then op_set_state to now r else r) ops,
                        log ++ [mk_operation_log (op_id o) (Some from) to t metadata])%list.

Lemma replay_snoc cur log e :
  replay cur (log ++ [e]) =
    s ← replay cur log; if ol_from e == s then Some (Some (ol_to e)) else None.
Proof. revert cur. induction log as [|x log IH]; intros cur; cbn; [by case_match|]. case_match; [apply IH|done]. Qed.

Lemma replay_app cur log log' : replay cur (log ++ log') = (s ← replay cur log; replay s log').
Proof. revert cur. induction log as [|x log IH]; intros cur; [done|]. cbn. case_match; [apply IH|done]. Qed.

Lemma find_op_id id ops o : List.find (by_op_id id) ops = Some o → op_id o = id.
Proof. intros [_ H]%find_some_iff. unfold by_op_id in H. by b2p. Qed.

Section with_parameters.
Context (sha256 : string → string).
Context (validate_json : string → option RuntimeEvent).
Context (model_dump : RuntimeEvent → list (string * json)).
Context (heartbeat_coalesce : Z).
Abbreviation step := (ledger_step sha256 validate_json model_dump heartbeat_coalesce).
Abbreviation run := (ledger_run sha256 validate_json model_dump heartbeat_coalesce).

(** An insertion followed by its log row, after statements that left both
    tables alone. *)
Lemma op_step_insert (P : operation_row → Prop) (Q : string → string → Prop) l l1 o now metadata valid :
  P o → op_tables l1 = op_tables l →
  (valid = true ∧ ∀ r, r ∈ rows operations l1 → (op_id o == op_id r) || (op_key o == op_key r) = false) →
  op_step P Q (op_tables l) (l_operations l1 ++ [o],
    l_operation_log l1 ++ [mk_operation_log (op_id o) None (op_state o) now metadata])%list.
Proof.
  intros HP <- [_ H]. apply op_created; [done|]. intros r Hr. specialize (H r Hr). b2p. naive_solver.
Qed.

Lemma op_step_ensure_operation i k d intent st ident a now l r l' :
  ensure_operation sha256 i k d intent st ident a now l = (Ret r, l') → op_step (λ o, op_kind o = d) (λ _ _, False) (op_tables l) (op_tables l').
Proof.
  unfold ensure_operation, insert_operation, log_operation. intros H. run_inv; [constructor|..].
  - apply (keeps_inv op_tables) in Hrun1; [|unfold upsert_epoch; frame].
    apply (keeps_inv op_tables) in Hrun2; [|unfold fence_older_services; frame].
    unfold op_tables at 2; tables. eapply (op_step_insert _ _ _ _ (mk_operation _ _ _ _ _ _ _ _)); [done|congruence|done].
  - unfold op_tables at 2; tables. eapply (op_step_insert _ _ _ _ (mk_operation _ _ _ _ _ _ _ _)); done.
Qed.

Lemma op_step_ensure_master i k intent ident d now l r l' :
  ensure_master_operation sha256 i k intent ident d now l = (Ret r, l') → op_step (λ o, op_kind o = "ensure_master" ∧ op_state o = "REQUESTED" ∧ ∀ r, r ∈ l_operations l → op_kind r = "ensure_master" → op_state r ∈ terminal_states) (λ _ _, False) (op_tables l) (op_tables l').
Proof.
  unfold ensure_master_operation, insert_operation, log_operation. intros H. run_inv; [constructor|..].
  apply admit_master_ret in Hrun0 as (-> & _ & Hterminal & _).
  apply (keeps_inv op_tables) in Hrun1; [|unfold upsert_epoch; frame].
  unfold op_tables at 2; tables. eapply (op_step_insert _ _ _ _ (mk_operation _ _ _ _ _ _ _ _)); [done|congruence|done].
Qed.

Lemma op_step_transition i e n m now l r l' :
  transition_operation i e n m now l = (Ret r, l') → op_step (λ _, False) (λ s t, s = e ∧ t = n) (op_tables l) (op_tables l').
Proof.
  unfold transition_operation, log_operation. intros H. run_inv. unfold op_tables at 2; tables.
  apply filter_one in Heqb as (o & Ho & Hp). b2p. destruct Hp as [<- <-].
  apply op_moved; [done|done|done|..]; intros; b2p; naive_solver.
Qed.

(** An update that names the operation and its state. *)
Lemma op_step_update (P : operation_row → Prop) (Q : string → string → Prop) l id from to now t metadata p o :
  List.find (by_op_id id) (l_operations l) = Some o → op_state o = from → Q from to →
  p o = true → (∀ r, p r = true → op_id r = id) →
  op_step P Q (op_tables l) (map (λ r, if p r then op_set_state to now r else r) (l_operations l),
                         l_operation_log l ++ [mk_operation_log id (Some from) to t metadata])%list.
Proof.
  intros [Ho Hid]%find_some_iff Hst HQ Hp Hr. unfold by_op_id in Hid. b2p. subst id. by apply op_moved.
Qed.

Ltac op_moves :=
  unfold op_tables at 2; tables; eapply op_step_update; [eassumption|..]; intros; unfold by_op_id in *; b2p;
  repeat match goal with H : List.find _ _ = Some _ |- _ => apply find_some_iff in H as [? H] end; b2p; naive_solver.

Lemma op_step_activate o e a now l r l' :
  activate_service_operation o e a now l = (Ret r, l') → op_step (λ _, False) (λ s t, s = e ∧ t = "ACTIVE") (op_tables l) (op_tables l').
Proof.
  unfold activate_service_operation, insert_service, log_operation. intros H. run_inv; [constructor|]. op_moves.
Qed.

Lemma op_step_lifecycle o s e ex st ss ev now l r l' :
  project_master_lifecycle o s e ex st ss ev now l = (Ret r, l') → op_step (λ _, False) (λ s t, s = ex ∧ t = st) (op_tables l) (op_tables l').
Proof.
  unfold project_master_lifecycle, log_operation. intros H. run_inv; [constructor|]. op_moves.
Qed.

Lemma op_step_failure o rn a s e ex ev now l r l' :
  project_master_terminal_failure o rn a s e ex ev now l = (Ret r, l') → op_step (λ _, False) (λ s t, s = ex ∧ t = "FAILED") (op_tables l) (op_tables l').
Proof.
  unfold project_master_terminal_failure, log_operation. intros H. run_inv; [constructor|..]; op_moves.
Qed.

Lemma op_step_unstarted o ef rn a s e now l r l' :
  fail_unstarted_master_after_tunnel_expiry o ef rn a s e now l = (Ret r, l') → op_step (λ _, False) (λ s t, s = "RESTORING" ∧ t = "FAILED") (op_tables l) (op_tables l').
Proof.
  unfold fail_unstarted_master_after_tunnel_expiry, log_operation, log_effect. intros H. run_inv; [constructor|..]; op_moves.
Qed.

Lemma op_step_ambiguous o now l r l' :
  fail_ambiguous_master_status_dataset o now l = (Ret r, l') → op_step (λ _, False) (λ s t, s ∈ ["REQUESTED"; "STARTING"] ∧ t = "FAILED") (op_tables l) (op_tables l').
Proof.
  unfold fail_ambiguous_master_status_dataset, current_authority, log_operation. intros H. run_inv; try constructor.
  all: apply mem_true in Heqb0; op_moves.
Qed.

(** The operations a call may create in a ledger, and the states it may move an
    operation from and to. *)
Definition call_creates (c : ledger_call) (l : ledger) (o : operation_row) : Prop :=
  match c with
  | EnsureOperation _ _ kind _ _ _ _ _ => op_kind o = kind
  | EnsureMaster _ _ _ _ _ _ =>
      op_kind o = "ensure_master" ∧ op_state o = "REQUESTED" ∧
      ∀ r, r ∈ l_operations l → op_kind r = "ensure_master" → op_state r ∈ terminal_states
  | _ => False
  end.

Definition call_leaves (c : ledger_call) (from to : string) : Prop :=
  match c with
  | TransitionOperation _ expected new _ _ => from = expected ∧ to = new
  | ActivateService _ expected _ _ => from = expected ∧ to = "ACTIVE"
  | ProjectLifecycle _ _ _ expected state _ _ _ => from = expected ∧ to = state
  | ProjectFailure _ _ _ _ _ expected _ _ => from = expected ∧ to = "FAILED"
  | FailUnstarted _ _ _ _ _ _ _ => from = "RESTORING" ∧ to = "FAILED"
  | FailAmbiguousStatus _ _ => from ∈ ["REQUESTED"; "STARTING"] ∧ to = "FAILED"
  | _ => False
  end.

Lemma step_op_step c l l' :
  step c l = (Ret tt, l') → op_step (call_creates c l) (call_leaves c) (op_tables l) (op_tables l').
Proof.
  destruct (touches_operations c) eqn:E.
  - destruct c; try discriminate E; cbn [ledger_step call_creates call_leaves]; intros H;
      try (apply discard_inv in H as [? H]);
      eauto using op_step_ensure_operation, op_step_ensure_master, op_step_transition, op_step_activate,
        op_step_lifecycle, op_step_failure, op_step_unstarted, op_step_ambiguous.
  - intros H. apply (keeps_inv op_tables) in H as ->; [constructor|by apply keeps_op_tables].
Qed.

(** Operation identities and keys are unique, and the log replays to the
    current states. *)
Definition ops_ok (x : list operation_row * list operation_log_row) : Prop :=
  NoDup (map op_id x.1) ∧ NoDup (map op_key x.1) ∧ ∀ id, replay None (log_of id x.2) = Some (state_of id x.1).

Lemma log_of_snoc id log e :
  log_of id (log ++ [e]) = if ol_operation e == id then (log_of id log ++ [e])%list else log_of id log.
Proof. unfold log_of. rewrite List.filter_app. cbn. case_match; [done|]. by rewrite app_nil_r. Qed.

Lemma log_of_app id log log' : log_of id (log ++ log') = (log_of id log ++ log_of id log')%list.
Proof. unfold log_of. apply List.filter_app. Qed.

Lemma state_of_update id (p : operation_row → bool) to now ops :
  state_of id (map (λ r, if p r then op_set_state to now r else r) ops) =
  (λ r, if p r then to else op_state r) <$> List.find (by_op_id id) ops.
Proof.
  unfold state_of. rewrite find_map_update by (intros r; by case_match).
  destruct (List.find _ _); [|done]. cbn. by case_match.
Qed.

Lemma op_step_ok P Q x y : op_step P Q x y → ops_ok x → ops_ok y.
Proof.
  intros [?|ops log o now m HP Hnew|ops log o from to now t m p Ho Hst HQ Hp Hone]; [done|..];
    intros (Hid & Hkey & Hlog); unfold ops_ok; cbn [fst snd] in *.
  - split_and!; [apply NoDup_map_snoc; [done|naive_solver]..|]. intros id. cbn [fst snd]. rewrite log_of_snoc. cbn [ol_operation].
    unfold state_of, by_op_id in *. rewrite find_app. specialize (Hlog id). case_match; b2p.
    + subst id. rewrite replay_snoc, Hlog. cbn.
      assert (List.find (λ o0, op_id o0 == op_id o) ops = None) as -> by (apply find_none_iff; intros; b2p; naive_solver).
      cbn. by rewrite !bool_decide_eq_true_2.
    + rewrite Hlog. cbn. rewrite bool_decide_eq_false_2 by done. by destruct (List.find _ ops).
  - split_and!; [by rewrite map_key_update..|]. intros id. cbn [fst snd]. rewrite log_of_snoc. cbn [ol_operation].
    rewrite state_of_update. specialize (Hlog id). unfold state_of in Hlog.
    assert (Hf := find_unique op_id ops o Hid Ho). case_match; b2p.
    + subst id. unfold by_op_id in *. rewrite replay_snoc, Hlog, Hf. cbn.
      rewrite Hst, Hp. by rewrite bool_decide_eq_true_2.
    + rewrite Hlog. destruct (List.find _ ops) as [r|] eqn:E; [|done]. cbn.
      destruct (p r) eqn:Ep; [|done]. apply Hone in Ep. apply find_op_id in E. congruence.
Qed.

Lemma run_ops_ok cs : ops_ok (op_tables (run cs empty_ledger)).
Proof.
  apply (run_invariant _ _ _ _ (λ l, ops_ok (op_tables l))); [|split_and!; [constructor..|done]].
  intros c l l' Hl H%step_op_step. by apply (op_step_ok _ _ _ _ H).
Qed.

(** C36: in every execution, the rows of [operation_log] of an operation form an
    unbroken chain from its creation, each starting in the state the last one
    ended in, and replaying them gives the state the [operations] table holds
    (nothing, for an operation that does not exist). *)
Theorem operation_log_replays cs id :
  let l := run cs empty_ledger in
  replay None (log_of id (l_operation_log l)) = Some (state_of id (l_operations l)).
Proof. apply (run_ops_ok cs). Qed.

(** Two versions of one operation differ at most in state and update time. *)
Definition same_operation (o o' : operation_row) : Prop := op_set_state (op_state o') (op_updated_at o') o = o'.

Lemma same_operation_refl o : same_operation o o.
Proof. by destruct o. Qed.

Lemma same_operation_trans a b c : same_operation a b → same_operation b c → same_operation a c.
Proof. unfold same_operation, op_set_state. intros <- <-. done. Qed.

Lemma op_step_find P Q x y id o :
  op_step P Q x y → List.find (by_op_id id) x.1 = Some o →
  ∃ o', List.find (by_op_id id) y.1 = Some o' ∧ same_operation o o'.
Proof.
  intros [?|ops log r now m HP Hnew|ops log r from to now t m p Ho Hst HQ Hp Hone] Hf; cbn in *.
  - eauto using same_operation_refl.
  - rewrite find_app, Hf. eauto using same_operation_refl.
  - rewrite find_map_update by (intros q; by case_match). rewrite Hf. cbn. eexists; split; [done|].
    case_match; [done|apply same_operation_refl].
Qed.

Lemma run_find_operation cs l id o :
  List.find (by_op_id id) (l_operations l) = Some o →
  ∃ o', List.find (by_op_id id) (l_operations (run cs l)) = Some o' ∧ same_operation o o'.
Proof.
  intros Hf. apply (run_invariant _ _ _ _ (λ l, ∃ o', List.find (by_op_id id) (l_operations l) = Some o' ∧ same_operation o o')).
  - intros c l1 l2 (o1 & H1 & E1) (o2 & H2 & E2)%step_op_step%(op_step_find _ _ _ _ id o1); [|done].
    eauto using same_operation_trans.
  - eauto using same_operation_refl.
Qed.

(** An operation, once created, keeps its identity, idempotency key, kind,
    intent hash, identity document and creation time through every later call,
    and is never deleted. *)
Theorem operation_identity_is_immutable cs cs' o :
  o ∈ l_operations (run cs empty_ledger) →
  ∃ state updated, List.find (by_op_id (op_id o)) (l_operations (run (cs ++ cs') empty_ledger)) =
    Some (mk_operation (op_id o) (op_key o) (op_kind o) (op_intent_hash o) state (op_identity o) (op_created_at o) updated).
Proof.
  intros Ho. rewrite ledger_run_app. destruct (run_ops_ok cs) as (Hid & _).
  destruct (run_find_operation cs' _ _ o (find_unique op_id _ o Hid Ho)) as (o' & H & E).
  exists (op_state o'), (op_updated_at o'). rewrite H. f_equal. exact (eq_sym E).
Qed.

(** ** Effects *)

(** The state changes the code means to make. *)
Definition effect_next (current : option EffectState) (next : EffectState) : bool :=
  match current, next with
  | None, PLANNED => true
  | Some PLANNED, IN_PROGRESS => true
  | Some IN_PROGRESS, APPLIED => true
  | Some IN_PROGRESS, FAILED => true
  | _, _ => false
  end.

Fixpoint replay_effect (current : option EffectState) (log : list effect_log_row) : option (option EffectState) :=
  match log with
  | [] => Some current
  | e :: log' => if effect_next current (el_state e) then replay_effect (Some (el_state e)) log' else None
  end.

Definition effect_log_of (id : string) (log : list effect_log_row) : list effect_log_row :=
  List.filter (λ e, el_effect e == id) log.

Definition effect_state_of (id : string) (efs : list effect_row) : option EffectState :=
  ef_state <$> List.find (by_ef_id id) efs.

Definition ef_tables (l : ledger) := (l_effects l, l_effect_log l).

(** Two versions of one effect: the identity stays, and a receipt that was
    recorded stays. *)
Definition same_effect (e e' : effect_row) : Prop :=
  ef_id e' = ef_id e ∧ ef_key e' = ef_key e ∧ ef_operation e' = ef_operation e ∧ ef_kind e' = ef_kind e ∧
  ef_identity e' = ef_identity e ∧ ef_planned_at e' = ef_planned_at e ∧
  (ef_state e = APPLIED → ef_state e' = APPLIED ∧ ef_receipt e' = ef_receipt e).

(** What one call can do to the effects and their log. *)
Inductive ef_step : list effect_row * list effect_log_row → list effect_row * list effect_log_row → Prop :=
| ef_same x : ef_step x x
| ef_created efs log e now metadata :
    ef_state e = PLANNED → (∀ r, r ∈ efs → ef_id r ≠ ef_id e ∧ ef_key r ≠ ef_key e) →
    ef_step (efs, log) (efs ++ [e], log ++ [mk_effect_log (ef_id e) (ef_operation e) PLANNED now metadata])%list
| ef_moved efs log e to op now metadata p f :
    e ∈ efs → p e = true → effect_next (Some (ef_state e)) to = true →
    (∀ r, p r = true → ef_id r = ef_id e) →
    (∀ r, ef_id (f r) = ef_id r ∧ ef_key (f r) = ef_key r) → ef_state (f e) = to → same_effect e (f e) →
    ef_step (efs, log) (map (λ r, if p r then f r else r) efs,
                        log ++ [mk_effect_log (ef_id e) op to now metadata])%list.

Definition touches_effects (c : ledger_call) : bool :=
  match c with
  | PlanEffect _ _ _ _ _ _ | ClaimEffect _ _ | CompleteEffect _ _ _ | FailUnstarted _ _ _ _ _ _ _ => true
  | _ => false
  end.

Lemma keeps_ef_tables c : touches_effects c = false → keeps ef_tables (step c).
Proof.
  destruct c; intros H; try discriminate H; clear H; unfold_call; frame.
Qed.

Lemma ef_step_plan e o k d i now l r l' :
  plan_effect e o k d i now l = (Ret r, l') → ef_step (ef_tables l) (ef_tables l').
Proof.
  unfold plan_effect, insert_effect, log_effect. intros H. run_inv.
  apply except_integrity_inv in Hrun0 as [H|[_ H]]; run_inv; [|constructor].
  unfold ef_tables at 2; tables. eapply (ef_created _ _ (mk_effect _ _ _ _ _ _ _ _ _)); [done|]. cbn.
  destruct Hrun0 as [_ Hnew]. intros q Hq. specialize (Hnew q Hq). b2p. naive_solver.
Qed.

Ltac ef_moves := intros; unfold by_ef_id, same_effect in *; b2p; split_and?; first [done | intros; cbn in *; intuition congruence].

Lemma ef_step_claim e now l r l' :
  NoDup (map ef_id (l_effects l)) → claim_effect e now l = (Ret r, l') → ef_step (ef_tables l) (ef_tables l').
Proof.
  unfold claim_effect, log_effect. intros Hid H. run_inv; unfold ef_tables at 2; tables.
  - apply filter_one in Heqb as (x & Hx & Hp). b2p. destruct Hp as [<- Hp].
    apply ef_moved; [done|ef_moves|by rewrite Hp|ef_moves|done|done|ef_moves].
  - rewrite (update_not_one ef_id _ _ _ e Hid); [apply ef_same|intros; b2p; naive_solver|done].
Qed.

Lemma ef_step_complete e rc now l r l' :
  complete_effect e rc now l = (Ret r, l') → ef_step (ef_tables l) (ef_tables l').
Proof.
  unfold complete_effect, log_effect. intros H. run_inv; [constructor|]. unfold ef_tables at 2; tables.
  apply find_some_iff in Heqo as [Hx Hid]. unfold by_ef_id in Hid. b2p. subst e.
  apply ef_moved; [done|ef_moves|by rewrite Hrun0|ef_moves|done|done|ef_moves].
Qed.

Lemma ef_step_unstarted o ef rn a s e now l r l' :
  fail_unstarted_master_after_tunnel_expiry o ef rn a s e now l = (Ret r, l') → ef_step (ef_tables l) (ef_tables l').
Proof.
  unfold fail_unstarted_master_after_tunnel_expiry, log_operation, log_effect. intros H. run_inv; [constructor|].
  unfold ef_tables at 2; tables. apply find_some_iff in Heqo1 as [Hx Hp]. b2p. destruct Hp as [[<- Ho] Hk].
  destruct Hrun0 as [[_ Hst] _]. apply ef_moved; [done|ef_moves|by rewrite Hst|ef_moves|done|done|ef_moves].
Qed.

Lemma step_ef_step c l l' :
  NoDup (map ef_id (l_effects l)) → step c l = (Ret tt, l') → ef_step (ef_tables l) (ef_tables l').
Proof.
  destruct (touches_effects c) eqn:E.
  - destruct c; try discriminate E; cbn [ledger_step]; intros Hid H; apply discard_inv in H as [? H];
      eauto using ef_step_plan, ef_step_claim, ef_step_complete, ef_step_unstarted.
  - intros _ H. apply (keeps_inv ef_tables) in H as ->; [constructor|by apply keeps_ef_tables].
Qed.

Lemma replay_effect_snoc cur log e :
  replay_effect cur (log ++ [e]) =
    s ← replay_effect cur log; if effect_next s (el_state e) then Some (Some (el_state e)) else None.
Proof. revert cur. induction log as [|x log IH]; intros cur; cbn; [by case_match|]. case_match; [apply IH|done]. Qed.

Lemma effect_log_of_snoc id log e :
  effect_log_of id (log ++ [e]) = if el_effect e == id then (effect_log_of id log ++ [e])%list else effect_log_of id log.
Proof. unfold effect_log_of. rewrite List.filter_app. cbn. case_match; [done|]. by rewrite app_nil_r. Qed.

Definition efs_ok (x : list effect_row * list effect_log_row) : Prop :=
  NoDup (map ef_id x.1) ∧ NoDup (map ef_key x.1) ∧
  ∀ id, replay_effect None (effect_log_of id x.2) = Some (effect_state_of id x.1).

Lemma find_update_ef id (p : effect_row → bool) f efs :
  (∀ r, ef_id (f r) = ef_id r ∧ ef_key (f r) = ef_key r) →
  List.find (by_ef_id id) (map (λ r, if p r then f r else r) efs) =
  (λ r, if p r then f r else r) <$> List.find (by_ef_id id) efs.
Proof. intros H. apply find_map_update. intros r. unfold by_ef_id. case_match; [|done]. by rewrite (proj1 (H r)). Qed.

Lemma ef_step_ok x y : ef_step x y → efs_ok x → efs_ok y.
Proof.
  intros [?|efs log e now m Hst Hnew|efs log e to op now m p f He Hp Hnext Hone Hf Hto Hsame]; [done|..];
    intros (Hid & Hkey & Hlog); unfold efs_ok; cbn [fst snd] in *.
  - split_and!; [apply NoDup_map_snoc; [done|naive_solver]..|]. intros id. rewrite effect_log_of_snoc. cbn [el_effect].
    unfold effect_state_of, by_ef_id in *. rewrite find_app. specialize (Hlog id). case_match; b2p.
    + subst id. rewrite replay_effect_snoc, Hlog. cbn.
      assert (List.find (λ r, ef_id r == ef_id e) efs = None) as -> by (apply find_none_iff; intros; b2p; naive_solver).
      cbn. rewrite bool_decide_eq_true_2 by done. cbn. by rewrite Hst.
    + rewrite Hlog. cbn. rewrite bool_decide_eq_false_2 by done. by destruct (List.find _ efs).
  - split_and!; [rewrite map_key_update; [done|apply Hf]..|]. intros id. rewrite effect_log_of_snoc. cbn [el_effect].
    unfold effect_state_of in *. rewrite find_update_ef by done. specialize (Hlog id).
    assert (List.find (by_ef_id (ef_id e)) efs = Some e) as Hu by (by apply (find_unique ef_id)). case_match; b2p.
    + subst id. rewrite replay_effect_snoc, Hlog, Hu. cbn [fmap option_fmap option_map mbind option_bind el_state]. rewrite Hnext, Hp. cbn. by rewrite Hto.
    + rewrite Hlog. destruct (List.find _ efs) as [r|] eqn:E; [|done]. cbn.
      destruct (p r) eqn:Ep; [|done]. apply Hone in Ep. apply find_some_iff in E as [_ E]. unfold by_ef_id in E. b2p. congruence.
Qed.

Lemma run_efs_ok cs l : efs_ok (ef_tables l) → efs_ok (ef_tables (run cs l)).
Proof.
  apply (run_invariant _ _ _ _ (λ l, efs_ok (ef_tables l))).
  intros c l1 l2 Hl H%step_ef_step; [|apply Hl]. by apply (ef_step_ok _ _ H).
Qed.

Lemma empty_efs_ok : efs_ok (ef_tables empty_ledger).
Proof. split_and!; [constructor..|done]. Qed.

(** In every execution, the log rows of an effect walk the machine PLANNED,
    IN_PROGRESS, then APPLIED or FAILED, without skipping or repeating a state,
    and end in the state the [effects] table holds. *)
Theorem effect_log_replays cs id :
  let l := run cs empty_ledger in
  replay_effect None (effect_log_of id (l_effect_log l)) = Some (effect_state_of id (l_effects l)).
Proof. apply (run_efs_ok cs _ empty_efs_ok). Qed.

(** A walk through the effect states from a given one passes IN_PROGRESS at
    most once, and never after it was there. *)
Lemma replay_effect_claims log cur s :
  replay_effect cur log = Some s →
  (length (List.filter (λ e, el_state e == IN_PROGRESS) log) ≤ match cur with None | Some PLANNED => 1 | _ => 0 end)%nat.
Proof.
  revert cur. induction log as [|e log IH]; intros cur; cbn; [lia|].
  destruct cur as [[]|], (el_state e); cbn; try done; intros H%IH; case_bool_decide; cbn in *; try done; lia.
Qed.

(** An effect is claimed at most once: whatever calls are made, the log never
    holds two IN_PROGRESS rows for one effect, so two workers never both start
    the same provider effect. *)
Theorem effect_claimed_at_most_once cs id :
  (length (List.filter (λ e, el_state e == IN_PROGRESS)
             (effect_log_of id (l_effect_log (run cs empty_ledger)))) ≤ 1)%nat.
Proof. apply (replay_effect_claims _ None (effect_state_of id (l_effects (run cs empty_ledger)))). apply (run_efs_ok cs _ empty_efs_ok). Qed.

Lemma same_effect_refl e : same_effect e e.
Proof. by unfold same_effect. Qed.

Lemma same_effect_trans a b c : same_effect a b → same_effect b c → same_effect a c.
Proof. unfold same_effect. intuition congruence. Qed.

Lemma ef_step_find x y id e :
  ef_step x y → NoDup (map ef_id x.1) → List.find (by_ef_id id) x.1 = Some e →
  ∃ e', List.find (by_ef_id id) y.1 = Some e' ∧ same_effect e e'.
Proof.
  intros [?|efs log r now m Hst Hnew|efs log r to op now m p f He Hp Hnext Hone Hf Hto Hsame] Hid Hfind; cbn [fst] in *.
  - eauto using same_effect_refl.
  - rewrite find_app, Hfind. eauto using same_effect_refl.
  - rewrite find_update_ef, Hfind by done. cbn. eexists; split; [done|]. case_match; [|apply same_effect_refl].
    apply find_some_iff in Hfind as [Hin _]. assert (e = r) as -> by (apply (key_unique ef_id efs); auto). done.
Qed.

Lemma run_find_effect cs l id e :
  efs_ok (ef_tables l) → List.find (by_ef_id id) (l_effects l) = Some e →
  ∃ e', List.find (by_ef_id id) (l_effects (run cs l)) = Some e' ∧ same_effect e e'.
Proof.
  intros Hl Hf. apply (run_invariant _ _ _ _ (λ l, efs_ok (ef_tables l) ∧ ∃ e', List.find (by_ef_id id) (l_effects l) = Some e' ∧ same_effect e e')).
  - intros c l1 l2 (Hok & o1 & H1 & E1) Hs%step_ef_step; [|apply Hok]. split; [by apply (ef_step_ok _ _ Hs)|].
    destruct (ef_step_find _ _ id o1 Hs (proj1 Hok) H1) as (o2 & H2 & E2). eauto using same_effect_trans.
  - eauto using same_effect_refl.
Qed.

(** Once an effect is APPLIED it stays APPLIED with the very receipt that
    was recorded, and its identity, operation, key and kind never change. *)
Theorem applied_effect_is_final cs cs' e :
  e ∈ l_effects (run cs empty_ledger) → ef_state e = APPLIED →
  ∃ e', List.find (by_ef_id (ef_id e)) (l_effects (run (cs ++ cs') empty_ledger)) = Some e' ∧
    ef_state e' = APPLIED ∧ ef_receipt e' = ef_receipt e ∧
    ef_operation e' = ef_operation e ∧ ef_key e' = ef_key e ∧ ef_kind e' = ef_kind e ∧ ef_identity e' = ef_identity e.
Proof.
  intros He Hst. rewrite ledger_run_app. assert (Hok := run_efs_ok cs _ empty_efs_ok).
  destruct (run_find_effect cs' _ (ef_id e) e Hok) as (e' & H & Hs).
  - by apply (find_unique ef_id); [apply Hok|].
  - exists e'. unfold same_effect in Hs. naive_solver.
Qed.

End with_parameters.

(** ** Witnesses *)

Lemma operation_identity_is_immutable_witness :
  ∃ state updated, List.find (by_op_id "op-1") (l_operations (Scenario.run (Scenario.requested ++ skipn 1 Scenario.stopped))) =
    Some (mk_operation "op-1" "key-1" "ensure_master" (canonical_json (JObj Scenario.intent)) state
            (canonical_json (JObj (assoc_set "epoch" (JInt 1) Scenario.identity))) 1250000 updated).
Proof.
  apply (operation_identity_is_immutable Scenario.plain Scenario.decode_event Scenario.dump_event 60000000 Scenario.requested
    (skipn 1 Scenario.stopped)
    (mk_operation "op-1" "key-1" "ensure_master" (canonical_json (JObj Scenario.intent)) "REQUESTED"
       (canonical_json (JObj (assoc_set "epoch" (JInt 1) Scenario.identity))) 1250000 1250000)).
  apply list_elem_of_In. vm_compute. by left.
Defined.

Definition applied : effect_row :=
  default (mk_effect "" "" "" "" "" PLANNED None 0 0) (head (l_effects (Scenario.run Scenario.started))).

Lemma applied_effect_is_final_witness :
  ∃ e', List.find (by_ef_id (ef_id applied)) (l_effects (Scenario.run (Scenario.started ++ skipn 7 Scenario.stopped))) = Some e' ∧
    ef_state e' = APPLIED ∧ ef_receipt e' = ef_receipt applied ∧
    ef_operation e' = ef_operation applied ∧ ef_key e' = ef_key applied ∧ ef_kind e' = ef_kind applied ∧
    ef_identity e' = ef_identity applied.
Proof.
  apply (applied_effect_is_final Scenario.plain Scenario.decode_event Scenario.dump_event 60000000 Scenario.started
    (skipn 7 Scenario.stopped) applied).
  - apply list_elem_of_In. vm_compute. by left.
  - vm_compute. reflexivity.
Defined.
