(* ===== verification/LedgerPrimary.v ===== *)
(** * LedgerPrimary: one writable primary, fenced by its epoch

    What the service and epoch tables guarantee in every execution of the
    ledger: epochs only grow, a service row is bound for good to the epoch it
    was announced with, at most one service of a kind can be resolved at any
    time, and a service whose epoch was superseded can never be resolved or
    renewed again. *)

From S2P Require Import Prelude Time Json LedgerState LedgerOperations LedgerEffects LedgerServices LedgerEvents.
From S2P Require Import LedgerLeases LedgerCheckpoints LedgerSafety.

#[local] Set Default Proof Using "Type".
#[local] Set Proof Using Clear Unused.

Definition sv_tables (l : ledger) := (l_services l, l_epochs l).

Definition epoch_in (kind : string) (eps : list epoch_row) : Z :=
  match List.find (λ e, ep_kind e == kind) eps with Some e => ep_current e | None => 0 end.

Definition epochs_le (eps eps' : list epoch_row) : Prop := ∀ kind, epoch_in kind eps ≤ epoch_in kind eps'.

#[export] Instance epochs_le_preorder : PreOrder epochs_le.
Proof. split; [intros a kind; lia|]. intros a b c H1 H2 kind. specialize (H1 kind). specialize (H2 kind). lia. Qed.

(** An update that leaves a service's identity alone. *)
Definition keeps_identity (g : service_row → service_row) : Prop :=
  ∀ s, sv_id (g s) = sv_id s ∧ sv_kind (g s) = sv_kind s ∧ sv_epoch (g s) = sv_epoch s.

(** What one call can do to the services and the epochs. *)
Inductive sv_step : list service_row * list epoch_row → list service_row * list epoch_row → Prop :=
| sv_updated svs eps g eps' :
    keeps_identity g → epochs_le eps eps' → sv_step (svs, eps) (map g svs, eps')
| sv_inserted svs eps s :
    (∀ r, r ∈ svs → sv_id r ≠ sv_id s ∧ (sv_kind r, sv_epoch r) ≠ (sv_kind s, sv_epoch s)) →
    sv_epoch s = epoch_in (sv_kind s) eps →
    sv_step (svs, eps) (svs ++ [s], eps)%list.

Lemma sv_step_same x : sv_step x x.
Proof.
  destruct x as [svs eps]. rewrite <-(map_id svs) at 2. by apply sv_updated.
Qed.

Lemma keeps_identity_if (p : service_row → bool) g : keeps_identity g → keeps_identity (λ s, if p s then g s else s).
Proof. intros H s. case_match; [apply H|done]. Qed.

(** The epoch upsert sets one kind's epoch. *)
Lemma upsert_epoch_inv kind e now l u l' :
  upsert_epoch kind e now l = (Ret u, l') →
  l_services l' = l_services l ∧ ∀ k, epoch_of k l' = if k == kind then e else epoch_of k l.
Proof.
  unfold upsert_epoch. intros H. run_inv; tables; (split; [done|]); intros k; unfold epoch_of; tables.
  - rewrite find_map_update by (intros r; by case_match). case_bool_decide.
    { subst k. rewrite Heqo. cbn. apply find_some_iff in Heqo as [_ ->]. done. }
    destruct (List.find (λ e0, ep_kind e0 == k) (l_epochs l)) as [r|] eqn:E; [|done]. cbn.
    apply find_some_iff in E as [_ E]. b2p. case_bool_decide; [congruence|done].
  - rewrite find_app. case_bool_decide; [subst k; rewrite Heqo; cbn; rewrite bool_decide_eq_true_2; done|].
    destruct (List.find (λ e0, ep_kind e0 == k) (l_epochs l)); [done|]. cbn. case_bool_decide; [congruence|done].
Qed.

Lemma resolvable_spec l kind now s :
  resolvable l kind now s = true →
  sv_kind s = kind ∧ sv_state s = "ACTIVE" ∧ sv_epoch s = epoch_of kind l ∧ text_ltb now (sv_lease_until s) = true.
Proof. unfold resolvable, epoch_of. destruct (List.find _ _); intros H; b2p; naive_solver. Qed.

Section with_parameters.
Context (sha256 : string → string).
Context (validate_json : string → option RuntimeEvent).
Context (model_dump : RuntimeEvent → list (string * json)).
Context (heartbeat_coalesce : Z).
Abbreviation step := (ledger_step sha256 validate_json model_dump heartbeat_coalesce).
Abbreviation run := (ledger_run sha256 validate_json model_dump heartbeat_coalesce).

Definition touches_services (c : ledger_call) : bool :=
  match c with
  | EnsureOperation _ _ _ _ _ _ _ _ | EnsureMaster _ _ _ _ _ _ | AllocateEpoch _ _ | FailUnstarted _ _ _ _ _ _ _
  | AnnounceService _ _ | ActivateService _ _ _ _ | ProjectLifecycle _ _ _ _ _ _ _ _
  | ProjectFailure _ _ _ _ _ _ _ _ | RenewService _ _ _ _ _ => true
  | _ => false
  end.

Lemma keeps_sv_tables c : touches_services c = false → keeps sv_tables (step c).
Proof.
  destruct c; intros H; try discriminate H; clear H; unfold_call; frame.
  apply keeps_except_integrity; frame.
Qed.

(** An epoch allocated above the current one, older services fenced. *)
Lemma sv_step_bump kind now l l1 l2 u v :
  upsert_epoch kind (epoch_of kind l + 1) now l = (Ret u, l1) →
  fence_older_services kind (epoch_of kind l + 1) now l1 = (Ret v, l2) → sv_step (sv_tables l) (sv_tables l2).
Proof.
  intros [Hs He]%upsert_epoch_inv H. unfold fence_older_services in H. run_inv. unfold sv_tables; tables.
  rewrite Hs. apply sv_updated; [by apply keeps_identity_if|]. intros k. specialize (He k).
  change (epoch_of k l ≤ epoch_of k l1). rewrite He. case_bool_decide; subst; lia.
Qed.

Lemma sv_step_ensure_operation i k d intent st ident a now l r l' :
  ensure_operation sha256 i k d intent st ident a now l = (Ret r, l') → sv_step (sv_tables l) (sv_tables l').
Proof.
  unfold ensure_operation, insert_operation, log_operation. intros H.
  run_inv; unfold sv_tables at 2; tables; try apply sv_step_same. exact (sv_step_bump _ _ _ _ _ _ _ Hrun1 Hrun2).
Qed.

Lemma sv_step_ensure_master i k intent ident d now l r l' :
  ensure_master_operation sha256 i k intent ident d now l = (Ret r, l') → sv_step (sv_tables l) (sv_tables l').
Proof.
  unfold ensure_master_operation, insert_operation, log_operation. intros H.
  run_inv; unfold sv_tables at 2; tables; [apply sv_step_same|].
  apply admit_master_ret in Hrun0 as (-> & -> & _). apply upsert_epoch_inv in Hrun1 as [Hs He].
  rewrite Hs, <-(map_id (l_services l)). apply sv_updated; [done|]. intros kind.
  specialize (He kind). unfold epoch_of, epoch_in in *. rewrite He. case_bool_decide; subst; lia.
Qed.

Lemma sv_step_unstarted o ef rn a s e now l r l' :
  fail_unstarted_master_after_tunnel_expiry o ef rn a s e now l = (Ret r, l') → sv_step (sv_tables l) (sv_tables l').
Proof.
  unfold fail_unstarted_master_after_tunnel_expiry, log_operation, log_effect. intros H.
  run_inv; [apply sv_step_same|]. apply sv_updated; [by apply keeps_identity_if|done].
Qed.

Lemma sv_step_lifecycle o s e ex st ss ev now l r l' :
  project_master_lifecycle o s e ex st ss ev now l = (Ret r, l') → sv_step (sv_tables l) (sv_tables l').
Proof.
  unfold project_master_lifecycle, log_operation. intros H. run_inv; [apply sv_step_same|].
  apply sv_updated; [by apply keeps_identity_if|done].
Qed.

Lemma sv_step_failure o rn a s e ex ev now l r l' :
  project_master_terminal_failure o rn a s e ex ev now l = (Ret r, l') → sv_step (sv_tables l) (sv_tables l').
Proof.
  unfold project_master_terminal_failure, log_operation. intros H.
  run_inv; first [apply sv_step_same | apply sv_updated; [by apply keeps_identity_if|done]].
Qed.

Lemma sv_step_renew s e u ev now l r l' :
  renew_service s e u ev now l = (Ret r, l') → sv_step (sv_tables l) (sv_tables l').
Proof. unfold renew_service. intros H. run_inv. apply sv_updated; [by apply keeps_identity_if|done]. Qed.

(** The epoch test of the announcing calls. *)
Lemma current_epoch_check kind epoch l :
  match List.find (λ e, ep_kind e == kind) (rows service_epochs l) with
  | Some c => ep_current c != epoch
  | None => true
  end = false → epoch = epoch_in kind (l_epochs l).
Proof. unfold epoch_in. tables. destruct (List.find _ _); [|done]. intros. by b2p. Qed.

Lemma sv_step_insert l l1 s valid :
  sv_tables l1 = sv_tables l → sv_epoch s = epoch_in (sv_kind s) (l_epochs l) →
  valid = true ∧ (∀ r, r ∈ rows services l1 →
     (sv_id s == sv_id r) || (sv_kind s == sv_kind r) && (sv_epoch s == sv_epoch r) = false) →
  sv_step (sv_tables l) (l_services l1 ++ [s], l_epochs l1)%list.
Proof.
  intros [= E1 E2] He [_ H]. unfold sv_tables. rewrite E1, E2. apply sv_inserted; [|done].
  intros r Hr. rewrite <-E1 in Hr. specialize (H r Hr). b2p. split; [naive_solver|]. intros [= ? ?]. naive_solver.
Qed.

Lemma sv_step_announce a now l r l' :
  announce_service a now l = (Ret r, l') → sv_step (sv_tables l) (sv_tables l').
Proof.
  unfold announce_service, insert_service. intros H. run_inv.
  - apply sv_updated; [by apply keeps_identity_if|done].
  - apply current_epoch_check in Hrun1. unfold sv_tables at 2; tables. by eapply sv_step_insert.
Qed.

Lemma sv_step_activate o e a now l r l' :
  activate_service_operation o e a now l = (Ret r, l') → sv_step (sv_tables l) (sv_tables l').
Proof.
  unfold activate_service_operation, insert_service, log_operation. intros H. run_inv; [apply sv_step_same|].
  apply current_epoch_check in Hrun1. unfold sv_tables at 2; tables. by eapply sv_step_insert.
Qed.

Lemma sv_step_allocate k now l r l' : allocate_epoch k now l = (Ret r, l') → sv_step (sv_tables l) (sv_tables l').
Proof. unfold allocate_epoch. intros H. run_inv. exact (sv_step_bump _ _ _ _ _ _ _ Hrun Hrun0). Qed.

Lemma step_sv_step c l l' : step c l = (Ret tt, l') → sv_step (sv_tables l) (sv_tables l').
Proof.
  destruct (touches_services c) eqn:E.
  - destruct c; try discriminate E; cbn [ledger_step]; intros H; try (apply discard_inv in H as [? H]);
      eauto using sv_step_ensure_operation, sv_step_ensure_master, sv_step_allocate, sv_step_unstarted, sv_step_announce,
        sv_step_activate, sv_step_lifecycle, sv_step_failure, sv_step_renew.
  - intros H. apply (keeps_inv sv_tables) in H as ->; [apply sv_step_same|by apply keeps_sv_tables].
Qed.

(** ** The invariant *)

Definition sv_slot (s : service_row) : string * Z := (sv_kind s, sv_epoch s).

Definition svs_ok (x : list service_row * list epoch_row) : Prop :=
  NoDup (map sv_id x.1) ∧ NoDup (map sv_slot x.1) ∧ ∀ s, s ∈ x.1 → sv_epoch s ≤ epoch_in (sv_kind s) x.2.

Lemma map_identity {K} (key : service_row → K) g svs :
  (∀ s, key (g s) = key s) → map key (map g svs) = map key svs.
Proof. intros H. rewrite map_map. by apply map_ext. Qed.

Lemma sv_step_ok x y : sv_step x y → svs_ok x → svs_ok y.
Proof.
  intros [svs eps g eps' Hg He|svs eps s Hnew Hs] (Hid & Hslot & Hle); unfold svs_ok; cbn [fst snd] in *.
  - split_and!; [rewrite map_identity; [done|apply Hg]| |].
    + rewrite map_identity; [done|]. intros s. unfold sv_slot. by destruct (Hg s) as (_ & -> & ->).
    + intros s (s0 & -> & Hs0)%list_elem_of_fmap. destruct (Hg s0) as (_ & -> & ->).
      specialize (Hle s0 Hs0). specialize (He (sv_kind s0)). lia.
  - split_and!; [apply NoDup_map_snoc; [done|intros r Hr; by destruct (Hnew r Hr)]..|].
    intros r [Hr| ->%list_elem_of_singleton]%elem_of_app; [auto|lia].
Qed.

Lemma run_svs_ok cs l : svs_ok (sv_tables l) → svs_ok (sv_tables (run cs l)).
Proof.
  apply (run_invariant _ _ _ _ (λ l, svs_ok (sv_tables l))).
  intros c l1 l2 Hl H%step_sv_step. by apply (sv_step_ok _ _ H).
Qed.

Lemma empty_svs_ok : svs_ok (sv_tables empty_ledger).
Proof. split_and!; [constructor..|]. by intros s ?%not_elem_of_nil. Qed.

Lemma sv_step_epochs x y : sv_step x y → epochs_le x.2 y.2.
Proof. by intros []. Qed.

Lemma run_epochs cs l : epochs_le (l_epochs l) (l_epochs (run cs l)).
Proof.
  apply (run_invariant _ _ _ _ (λ l', epochs_le (l_epochs l) (l_epochs l'))); [|done].
  intros c l1 l2 Hl H%step_sv_step%sv_step_epochs. by transitivity (l_epochs l1).
Qed.

(** A service row stays in the table with its identity. *)
Lemma run_find_service cs l s :
  s ∈ l_services l →
  ∃ s', s' ∈ l_services (run cs l) ∧ sv_id s' = sv_id s ∧ sv_kind s' = sv_kind s ∧ sv_epoch s' = sv_epoch s.
Proof.
  intros Hs. apply (run_invariant _ _ _ _ (λ l', ∃ s', s' ∈ l_services l' ∧ sv_id s' = sv_id s ∧ sv_kind s' = sv_kind s ∧
    sv_epoch s' = sv_epoch s)); [|eauto].
  intros c l1 l2 (s' & Hs' & E) H%step_sv_step. unfold sv_tables in H.
  inversion H as [svs eps g eps' Hg He|svs eps r Hnew Hr]; subst.
  - exists (g s'). destruct (Hg s') as (-> & -> & ->). split; [by apply list_elem_of_fmap_2|done].
  - exists s'. split; [|done]. apply elem_of_app. by left.
Qed.

(** ** Properties *)

(** C1: single writable primary.  In every execution, at every time and for every
    kind of service, the rows [resolve_service] chooses from are at most one,
    an ACTIVE service of the kind's current epoch whose lease text has not been
    passed. *)
Theorem single_writable_primary cs kind now :
  let l := run cs empty_ledger in
  match List.filter (resolvable l kind now) (l_services l) with
  | [] => True
  | [s] => sv_kind s = kind ∧ sv_state s = "ACTIVE" ∧ sv_epoch s = epoch_of kind l ∧ text_ltb now (sv_lease_until s) = true
  | _ => False
  end.
Proof.
  cbn zeta. set (l := run cs empty_ledger). destruct (run_svs_ok cs _ empty_svs_ok) as (_ & Hslot & _).
  change (NoDup (map sv_slot (l_services l))) in Hslot.
  assert (∀ s, s ∈ List.filter (resolvable l kind now) (l_services l) → resolvable l kind now s = true) as Hr.
  { by intros s [_ ?]%filter_elem. }
  assert (NoDup (map sv_slot (List.filter (resolvable l kind now) (l_services l)))) as Hd by (by apply NoDup_map_filter).
  destruct (List.filter _ _) as [|a [|b rest]]; [done|apply resolvable_spec, Hr; by left|].
  destruct (resolvable_spec _ _ _ a (Hr a ltac:(set_solver))) as (Ka & _ & Ea & _).
  destruct (resolvable_spec _ _ _ b (Hr b ltac:(set_solver))) as (Kb & _ & Eb & _).
  cbn in Hd. unfold sv_slot at 1 2 in Hd. rewrite Ka, Kb, Ea, Eb in Hd.
  apply list.NoDup_cons in Hd as [[]%not_elem_of_cons _]. done.
Qed.

(** The epoch of a service kind never decreases, whatever calls are made. *)
Theorem epoch_never_decreases cs cs' kind :
  epoch_of kind (run cs empty_ledger) ≤ epoch_of kind (run (cs ++ cs') empty_ledger).
Proof. rewrite ledger_run_app. apply run_epochs. Qed.

(** Fencing.  A service whose epoch has been superseded is out for good:
    after any further calls its row still carries the old epoch, is resolvable
    at no time, and every attempt to renew its lease raises. *)
Theorem superseded_service_is_fenced cs cs' s :
  s ∈ l_services (run cs empty_ledger) → sv_epoch s < epoch_of (sv_kind s) (run cs empty_ledger) →
  let l := run (cs ++ cs') empty_ledger in
  ∃ s', List.find (by_sv_id (sv_id s)) (l_services l) = Some s' ∧ sv_epoch s' = sv_epoch s ∧
    (∀ kind now, resolvable l kind now s' = false) ∧
    ∀ epoch until event now, ∃ e, renew_service (sv_id s) epoch until event now l = (Exc e, l).
Proof.
  intros Hs He. cbn zeta. rewrite ledger_run_app. set (l1 := run cs empty_ledger) in *. set (l2 := run cs' l1).
  destruct (run_svs_ok cs' _ (run_svs_ok cs _ empty_svs_ok)) as (Hid & _ & _).
  change (NoDup (map sv_id (l_services l2))) in Hid.
  destruct (run_find_service cs' l1 s Hs) as (s' & Hs' & Ei & Ek & Ee). change (s' ∈ l_services l2) in Hs'.
  assert (List.find (by_sv_id (sv_id s)) (l_services l2) = Some s') as Hf.
  { rewrite <-Ei. by apply (find_unique sv_id). }
  assert (sv_epoch s' < epoch_of (sv_kind s') l2) as Hlt.
  { rewrite Ek, Ee. pose proof (run_epochs cs' l1 (sv_kind s)) as H. unfold epoch_in in H. unfold epoch_of in *. fold l2 in H. lia. }
  exists s'. split_and!; [done|done| |].
  - intros kind now. apply not_true_is_false. intros (<- & _ & E & _)%resolvable_spec. lia.
  - intros epoch until event now. destruct (renew_service (sv_id s) epoch until event now l2) as [[u|e] l'] eqn:E.
    + exfalso. revert E. unfold renew_service. intros E. run_inv. tables. rewrite Hf in Hrun1.
      unfold epoch_of in Hlt. destruct (List.find _ (l_epochs l2)); [|done]. b2p. lia.
    + exists e. f_equal. by apply (step_rolls_back sha256 validate_json model_dump heartbeat_coalesce
        (RenewService (sv_id s) epoch until event now) l2 e l').
Qed.

End with_parameters.

(** What a resolved service is worth: it is ACTIVE, of the current epoch, and
    its lease deadline is either in the future or, because the deadline is
    compared as text, in the current second. *)
Theorem resolved_service_lease kind now l r l' :
  resolve_service kind now l = (Ret (Some r), l') → valid_instant now → valid_instant (sr_lease_until r) →
  l' = l ∧ sr_kind r = kind ∧ sr_state r = "ACTIVE" ∧ sr_epoch r = epoch_of kind l ∧
  now < sr_lease_until r + MICRO ∧ (now / MICRO ≠ sr_lease_until r / MICRO → now < sr_lease_until r).
Proof.
  unfold resolve_service. intros H. run_inv. apply max_by_some in Heqo as [[_ Hs]%filter_elem _].
  apply resolvable_spec in Hs as (Hk & Hst & He & Ht). intros Hn Hu.
  assert (sr_kind r = sv_kind s ∧ sr_state r = sv_state s ∧ sr_epoch r = sv_epoch s ∧ sr_lease_until r = sv_lease_until s)
    as (-> & -> & -> & Eu).
  { unfold service_from_row in Hrun. py_cbn. destruct (decode _); by simplify_eq. }
  rewrite Eu in *. split_and!; try done.
  - rewrite text_ltb_rank in Ht by done. unfold text_rank, MICRO in *. b2p.
    destruct (Z.eqb_spec (now mod 1000000) 0), (Z.eqb_spec (sv_lease_until s mod 1000000) 0); lia.
  - intros Hne. rewrite text_ltb_seconds in Ht by done. by b2p.
Qed.

(** ** Witnesses *)

Definition hello (id : string) (epoch until : Z) : announcement :=
  mk_announcement id MASTER_SERVICE_KIND "run-1" "attempt-1" (Some "master-1") epoch "10.0.0.1:5432" "postgres" None
    ["sql"] None None (utc until) "event-1".

(** One master announced in epoch 1 with a lease until second 10. *)
Definition announced : list ledger_call :=
  [AllocateEpoch MASTER_SERVICE_KIND 1000000; AnnounceService (hello "service-1" 1 10000000) 2000000].

Definition announced_ledger : ledger := ledger_run Scenario.plain Scenario.decode_event Scenario.dump_event 0 announced empty_ledger.

Definition hello_record (until now : Z) : ServiceRecord :=
  mk_ServiceRecord "service-1" MASTER_SERVICE_KIND "run-1" "attempt-1" (Some "master-1") 1 "10.0.0.1:5432" "postgres" None
    (JArr [JStr "sql"]) None None until "ACTIVE" "event-1" now.

Lemma resolved_service_lease_witness :
  announced_ledger = announced_ledger ∧ MASTER_SERVICE_KIND = MASTER_SERVICE_KIND ∧ "ACTIVE" = "ACTIVE" ∧
  1 = epoch_of MASTER_SERVICE_KIND announced_ledger ∧ 9500000 < 10000000 + MICRO ∧
  (9500000 / MICRO ≠ 10000000 / MICRO → 9500000 < 10000000).
Proof.
  apply (resolved_service_lease MASTER_SERVICE_KIND 9500000 announced_ledger (hello_record 10000000 2000000) announced_ledger);
    [vm_compute; reflexivity|unfold valid_instant, MICRO, DAY; cbn; lia..].
Defined.

(** An expired service is still resolved within the second of its deadline:
    half a second after a deadline on a whole second, [resolve_service] returns
    the service. *)
Theorem expired_service_still_resolves :
  resolve_service MASTER_SERVICE_KIND 10500000 announced_ledger =
    (Ret (Some (hello_record 10000000 2000000)), announced_ledger) ∧ 10000000 < 10500000.
Proof. vm_compute. split; reflexivity. Qed.

Lemma superseded_service_is_fenced_witness :
  let l := ledger_run Scenario.plain Scenario.decode_event Scenario.dump_event 0 (announced ++ [AllocateEpoch MASTER_SERVICE_KIND 3000000] ++ []) empty_ledger in
  ∃ s', List.find (by_sv_id "service-1") (l_services l) = Some s' ∧ sv_epoch s' = 1 ∧
    (∀ kind now, resolvable l kind now s' = false) ∧
    ∀ epoch until event now, ∃ e, renew_service "service-1" epoch until event now l = (Exc e, l).
Proof.
  pose (s := sv_set_state "FENCED" 3000000 (row_of_announcement (hello "service-1" 1 10000000) 10000000 2000000)).
  apply (superseded_service_is_fenced Scenario.plain Scenario.decode_event Scenario.dump_event 0 (announced ++ [AllocateEpoch MASTER_SERVICE_KIND 3000000]) [] s).
  - apply list_elem_of_In. vm_compute. by left.
  - vm_compute. reflexivity.
Defined.
