(* ===== verification/LedgerAdmission.v ===== *)
(** * LedgerAdmission: master admission

    What [ensure_master_operation] guarantees: one new epoch per admitted
    master, no admission beside a live one or over an unsaved predecessor, and
    an idempotency key that always names the same operation. *)

From S2P Require Import Prelude Time Json LedgerState LedgerOperations LedgerEffects LedgerServices LedgerEvents.
From S2P Require Import LedgerLeases LedgerCheckpoints LedgerSafety LedgerHistory LedgerPrimary.

#[local] Set Default Proof Using "Type".
#[local] Set Proof Using Clear Unused.

(** ** The predecessor *)

(** The epoch an operation's identity document names. *)
Definition identity_epoch (o : operation_row) : option Z :=
  j ← loads (op_identity o); e ← jget "epoch" j; py_int e.

Lemma latest_predecessor_spec l found epoch p :
  (∀ o j, found = Some (o, j) → loads (op_identity o) = Some j ∧ identity_epoch o = Some epoch) →
  latest_predecessor found epoch l = Ret p →
  (p.1 = None → found = None) ∧
  ∀ o j, p.1 = Some (o, j) →
    (found = Some (o, j) ∨ o ∈ l) ∧ loads (op_identity o) = Some j ∧ identity_epoch o = Some p.2.
Proof.
  revert found epoch. induction l as [|o l IH]; intros found epoch Hf H; cbn in H.
  - injection H as <-. cbn. naive_solver.
  - destruct (loads (op_identity o)) as [j|] eqn:Ej; cbn in H; [|done].
    destruct (jget "epoch" j) as [e|] eqn:Ee; cbn in H; [|done]. destruct (py_int e) as [n|] eqn:En; cbn in H; [|done].
    destruct (epoch <? n).
    + apply IH in H as [H1 H2].
      * split; [intros ?%H1; done|]. intros o' j' [[[= <- <-]|?] ?]%H2; split; auto; right; [by left|by right].
      * intros o' j' [= <- <-]. unfold identity_epoch. by rewrite Ej; cbn; rewrite Ee.
    + apply IH in H as [H1 H2]; [|done]. split; [done|]. intros o' j' [[?|?] ?]%H2; split; auto. right. by right.
Qed.

(** What admission requires of the durable state the predecessor left: the
    epoch ledger is at the newest master operation, and if that operation was
    stopped gracefully, HEAD is its own verified checkpoint. *)
Lemma admit_master_predecessor key kind l e l' :
  admit_master key kind l = (Ret e, l') →
  epoch_of kind l = 0 ∨
  ∃ p j, p ∈ l_operations l ∧ op_kind p = "ensure_master" ∧ loads (op_identity p) = Some j ∧
    identity_epoch p = Some (epoch_of kind l) ∧
    (op_state p = "STOPPED" →
     ∃ c, head_candidate kind l = Some c ∧ cc_status c = "VERIFIED" ∧ cc_operation c = op_id p ∧
       cc_epoch c = epoch_of kind l ∧ jget "master_instance_id" j = Some (JStr (cc_master c))).
Proof.
  unfold admit_master. intros H. run_inv.
  all: apply latest_predecessor_spec in Hrun as [_ Hp]; [|done]; cbn in Hp.
  all: destruct o as [[p j]|]; [right|left; by b2p].
  all: specialize (Hp p j eq_refl) as ([?|Hin] & Hj & He); [done|]; b2p; subst z.
  all: unfold master_predecessors in Hin; rewrite order_by_perm, filter_elem in Hin; b2p.
  all: exists p, j; split_and!; try naive_solver.
  all: intros Hst; destruct Hrun1 as [?|Hrun1]; [done|]; destruct (head_candidate kind l) as [c|]; [|done].
  all: exists c; b2p; naive_solver.
Qed.

Section with_parameters.
Context (sha256 : string → string).
Context (validate_json : string → option RuntimeEvent).
Context (model_dump : RuntimeEvent → list (string * json)).
Context (heartbeat_coalesce : Z).
Abbreviation step := (ledger_step sha256 validate_json model_dump heartbeat_coalesce).
Abbreviation run := (ledger_run sha256 validate_json model_dump heartbeat_coalesce).

(** The row a call that created a master inserts. *)
Lemma ensure_master_created i k intent ident kind now l r l' :
  ensure_master_operation sha256 i k intent ident kind now l = (Ret (r, true), l') →
  ∃ intent_json identity_json,
    let o := mk_operation i k "ensure_master" (sha256 intent_json) "REQUESTED" identity_json now now in
    safe_json (Some intent) MAX_METADATA_BYTES = Ret intent_json ∧
    safe_json (Some (assoc_set "epoch" (JInt (epoch_of kind l + 1)) ident)) MAX_METADATA_BYTES = Ret identity_json ∧
    admit_master k kind l = (Ret (epoch_of kind l), l) ∧
    l_operations l' = (l_operations l ++ [o])%list ∧ operation_from_row o = Ret r ∧
    l_services l' = l_services l ∧
    ∀ kind', epoch_of kind' l' = if kind' == kind then epoch_of kind l + 1 else epoch_of kind' l.
Proof.
  unfold ensure_master_operation, insert_operation, log_operation. intros H. run_inv.
  pose proof Hrun0 as (-> & -> & _)%admit_master_ret. pose proof Hrun1 as [Hs He]%upsert_epoch_inv.
  apply (keeps_inv op_tables) in Hrun1 as [= Ho _]; [|unfold upsert_epoch; frame]. tables.
  eexists _, _. split_and!; try done; [by rewrite Ho|].
  assert (List.find (by_op_id i) (l_operations l) = None) as Hnone.
  { apply find_none_iff. intros o Hin. destruct Hrun3 as [_ Hrun3]. rewrite Ho in Hrun3. specialize (Hrun3 o Hin).
    unfold by_op_id. cbn in Hrun3. b2p. naive_solver. }
  rewrite Ho, find_app, Hnone in Hrun5. cbn in Hrun5. unfold by_op_id in Hrun5. cbn in Hrun5.
  rewrite bool_decide_eq_true_2 in Hrun5 by done. by injection Hrun5 as <-.
Qed.

(** A master is admitted only when every earlier master operation is terminal
    and no service of the kind is live; admission then inserts exactly one
    REQUESTED operation, raises the kind's epoch by exactly one, writes that
    epoch into the operation's identity, and touches no service. *)
Theorem master_admission i k intent ident kind now l r l' :
  NoDup (keys ident) →
  ensure_master_operation sha256 i k intent ident kind now l = (Ret (r, true), l') →
  (∀ o, o ∈ l_operations l → op_kind o = "ensure_master" → op_state o ∈ terminal_states) ∧
  (∀ s, s ∈ l_services l → sv_kind s = kind → sv_state s ∉ live_states) ∧
  (∀ kind', epoch_of kind' l' = if kind' == kind then epoch_of kind l + 1 else epoch_of kind' l) ∧
  or_id r = i ∧ or_state r = "REQUESTED" ∧ jget "epoch" (or_identity r) = Some (JInt (epoch_of kind l + 1)) ∧
  (∃ o, l_operations l' = (l_operations l ++ [o])%list ∧ operation_from_row o = Ret r) ∧
  l_services l' = l_services l.
Proof.
  intros Hnd (ij & dj & _ & Hident & (_ & _ & Hterm & Hlive)%admit_master_ret & Hops & Hr & Hs & He)%ensure_master_created.
  apply safe_json_ret in Hident. unfold operation_from_row in Hr. cbn in Hr. rewrite Hident in Hr. injection Hr as <-.
  cbn. split_and!; [done..| | |done].
  - by apply (jget_canon_set "epoch" (JInt (epoch_of kind l + 1))).
  - eexists. split; [done|]. unfold operation_from_row. cbn. by rewrite Hident.
Qed.

(** No admission over unsaved state.  When a kind already has an epoch, a
    master is admitted only on top of the operation that holds that epoch, and
    if that one was STOPPED gracefully, only when the checkpoint HEAD is
    VERIFIED and was written by that operation, master and epoch. *)
Theorem admission_requires_verified_checkpoint i k intent ident kind now l r l' :
  ensure_master_operation sha256 i k intent ident kind now l = (Ret (r, true), l') → epoch_of kind l ≠ 0 →
  ∃ p j, p ∈ l_operations l ∧ op_kind p = "ensure_master" ∧ loads (op_identity p) = Some j ∧
    identity_epoch p = Some (epoch_of kind l) ∧
    (op_state p = "STOPPED" →
     ∃ c, head_candidate kind l = Some c ∧ cc_status c = "VERIFIED" ∧ cc_operation c = op_id p ∧
       cc_epoch c = epoch_of kind l ∧ jget "master_instance_id" j = Some (JStr (cc_master c))).
Proof.
  intros (ij & dj & _ & _ & [?|?]%admit_master_predecessor & _)%ensure_master_created He; [done|done].
Qed.

(** ** Replay *)

Lemma run_find_key cs cs' o :
  o ∈ l_operations (run cs empty_ledger) →
  ∃ o', List.find (by_op_key (op_key o)) (l_operations (run cs' (run cs empty_ledger))) = Some o' ∧ same_operation o o'.
Proof.
  intros Ho. destruct (run_ops_ok sha256 validate_json model_dump heartbeat_coalesce cs) as (Hid & _).
  destruct (run_find_operation sha256 validate_json model_dump heartbeat_coalesce cs' _ _ o (find_unique op_id _ o Hid Ho))
    as (o' & [Hin _]%find_some_iff & Hs).
  rewrite <-ledger_run_app in *.
  destruct (run_ops_ok sha256 validate_json model_dump heartbeat_coalesce (cs ++ cs')) as (_ & Hkey & _).
  exists o'. split; [|done]. assert (op_key o = op_key o') as -> by (by rewrite <-Hs). by apply (find_unique op_key).
Qed.

(** A call with a key that names a master operation of the same intent. *)
Lemma ensure_master_replay i k intent ident kind now l o t r :
  List.find (by_op_key k) (l_operations l) = Some o → op_kind o = "ensure_master" → op_intent_hash o = sha256 t →
  safe_json (Some intent) MAX_METADATA_BYTES = Ret t → operation_from_row o = Ret r →
  ensure_master_operation sha256 i k intent ident kind now l = (Ret (r, false), l).
Proof.
  intros Hf Hk Hi Ht Hr. unfold ensure_master_operation. py_cbn. rewrite Ht. unfold select_one. py_cbn. cbn [rows operations]. rewrite Hf, Hk, Hi.
  rewrite !bool_decide_eq_true_2 by done. cbn. by rewrite Hr.
Qed.

Lemma ensure_master_conflict i k intent ident kind now l o t :
  List.find (by_op_key k) (l_operations l) = Some o → op_intent_hash o ≠ sha256 t →
  safe_json (Some intent) MAX_METADATA_BYTES = Ret t →
  ∃ msg, ensure_master_operation sha256 i k intent ident kind now l = (Exc (Exn IdempotencyConflict msg), l).
Proof.
  intros Hf Hi Ht. unfold ensure_master_operation. py_cbn. rewrite Ht. unfold select_one. py_cbn. cbn [rows operations]. rewrite Hf.
  rewrite bool_decide_eq_false_2 by done. cbn. eauto.
Qed.

(** An idempotency key names one master for good.  After a master was
    admitted under a key, and after any further calls, repeating the call with
    the same intent returns that operation (with its identity unchanged, and
    "not created") and changes nothing; using the key for an intent with
    another hash raises [IdempotencyConflict] and changes nothing. *)
Theorem admission_is_idempotent cs0 i k intent ident kind now r l' cs :
  ensure_master_operation sha256 i k intent ident kind now (run cs0 empty_ledger) = (Ret (r, true), l') →
  let l2 := run cs l' in
  (∀ i' ident' kind' now', ∃ r',
     ensure_master_operation sha256 i' k intent ident' kind' now' l2 = (Ret (r', false), l2) ∧
     or_id r' = or_id r ∧ or_identity r' = or_identity r ∧ or_intent_hash r' = or_intent_hash r) ∧
  (∀ i' intent' ident' kind' now' t t',
     safe_json (Some intent) MAX_METADATA_BYTES = Ret t → safe_json (Some intent') MAX_METADATA_BYTES = Ret t' →
     sha256 t ≠ sha256 t' →
     ∃ msg, ensure_master_operation sha256 i' k intent' ident' kind' now' l2 = (Exc (Exn IdempotencyConflict msg), l2)).
Proof.
  intros H. pose proof H as (ij & dj & Hint & _ & _ & Hops & Hr & _)%ensure_master_created.
  assert (l' = run (cs0 ++ [EnsureMaster i k intent ident kind now]) empty_ledger) as El.
  { rewrite ledger_run_app. cbn. unfold discard, mbind, M_bind. by rewrite H. }
  set (o := mk_operation i k "ensure_master" (sha256 ij) "REQUESTED" dj now now) in *.
  destruct (run_find_key (cs0 ++ [EnsureMaster i k intent ident kind now]) cs o) as (o' & Hf & Hs).
  { rewrite <-El, Hops. apply elem_of_app. right. by left. }
  rewrite <-El in Hf. cbn zeta. change (op_key o) with k in Hf.
  unfold operation_from_row in Hr. cbn in Hr. destruct (loads dj) as [j|] eqn:Ej; [|done]. injection Hr as <-. split.
  - intros i' ident' kind' now'. eexists. split.
    + eapply (ensure_master_replay _ _ _ _ _ _ _ o' ij); [done|by rewrite <-Hs|by rewrite <-Hs|done|].
      unfold operation_from_row. assert (op_identity o' = dj) as -> by (by rewrite <-Hs). by rewrite Ej.
    + cbn. split_and!; [|done|]; by rewrite <-Hs.
  - intros i' intent' ident' kind' now' t t' Ht Ht' Hne. rewrite Hint in Ht. injection Ht as <-.
    eapply ensure_master_conflict; [done| |done].
    assert (op_intent_hash o' = sha256 ij) as -> by (by rewrite <-Hs). done.
Qed.

(** ** At most one live master *)

Definition live_master (o : operation_row) : bool :=
  (op_kind o == "ensure_master") && negb (mem (op_state o) terminal_states).

(** Calls that respect terminal states: master operations are created by
    admission only, and no call asks to move an operation out of a terminal
    state into a non-terminal one. *)
Definition terminal (state : string) : bool := mem state terminal_states.

Definition disciplined (c : ledger_call) : bool :=
  match c with
  | EnsureOperation _ _ kind _ _ _ _ _ => kind != "ensure_master"
  | TransitionOperation _ expected new _ _ => negb (terminal expected) || terminal new
  | ActivateService _ expected _ _ => negb (terminal expected)
  | ProjectLifecycle _ _ _ expected state _ _ _ => negb (terminal expected) || terminal state
  | _ => true
  end.

Definition one_live_master (ops : list operation_row) : Prop :=
  ∀ a b, a ∈ ops → b ∈ ops → live_master a = true → live_master b = true → op_id a = op_id b.

Lemma op_step_one_live c l x y :
  disciplined c = true → op_step (call_creates c l) (call_leaves c) x y → x.1 = l_operations l →
  NoDup (map op_id x.1) → one_live_master x.1 → one_live_master y.1.
Proof.
  intros Hc Hstep El Hid H1. destruct Hstep as [?|ops log o now m HP Hnew|ops log o from to now t m p Ho Hst HQ Hp Hone];
    cbn [fst] in *; [done|..].
  - assert (live_master o = true → ∀ r, r ∈ ops → live_master r = false) as Hfirst.
    { unfold live_master. intros Hlive r Hr. b2p. destruct c; try done; cbn in HP, Hc; b2p; [naive_solver|].
      destruct HP as (_ & _ & HP). rewrite El in Hr. destruct (decide (op_kind r = "ensure_master")); [right|by left].
      apply mem_true. auto. }
    intros a b [Ha| ->%list_elem_of_singleton]%elem_of_app [Hb| ->%list_elem_of_singleton]%elem_of_app La Lb;
      [by apply H1|..|done]; exfalso.
    + specialize (Hfirst Lb a Ha). congruence.
    + specialize (Hfirst La b Hb). congruence.
  - assert (∀ r, r ∈ ops → live_master (if p r then op_set_state to now r else r) = true → live_master r = true) as Hback.
    { intros r Hr HL. destruct (p r) eqn:Ep; [|done]. assert (r = o) as -> by (apply (key_unique op_id ops); auto).
      unfold live_master in *. b2p. cbn in HL. split; [naive_solver|]. rewrite Hst.
      destruct HL as [_ HL]. destruct (mem from terminal_states) eqn:Ef; [exfalso|done].
      destruct c; try done; cbn in HQ, Hc; unfold terminal in Hc; b2p; destruct HQ as [HQ ->]; first [rewrite HQ in * | idtac];
        first [by vm_compute in Ef | by vm_compute in HL | destruct Hc; congruence | congruence]. }
    intros a b (a0 & Ha & ->)%elem_of_update (b0 & Hb & ->)%elem_of_update La Lb.
    assert (E : op_id a0 = op_id b0) by (apply H1; auto). by repeat case_match.
Qed.

(** With such calls at most one master operation is in a non-terminal state. *)
Lemma disciplined_one_live cs :
  Forall (λ c, disciplined c = true) cs →
  (length (List.filter live_master (l_operations (run cs empty_ledger))) ≤ 1)%nat.
Proof.
  intros Hcs. assert (ops_ok (op_tables (run cs empty_ledger)) ∧ one_live_master (l_operations (run cs empty_ledger))) as [(Hid & _) Hone].
  { revert Hcs. induction cs as [|c cs IH] using rev_ind; intros Hcs.
    - split; [split_and!; [constructor..|done]|]. by intros a b ?%not_elem_of_nil.
    - rewrite Forall_app, Forall_singleton in Hcs. destruct Hcs as [Hcs Hc]. specialize (IH Hcs) as [Hok H1]. rewrite ledger_run_app. cbn.
      destruct (step_cases sha256 validate_json model_dump heartbeat_coalesce c (run cs empty_ledger)) as [E| ->]; [|done].
      apply step_op_step in E. split; [by eapply op_step_ok|].
      exact (op_step_one_live _ _ _ _ Hc E eq_refl (proj1 Hok) H1). }
  change (op_tables (run cs empty_ledger)).1 with (l_operations (run cs empty_ledger)) in Hid.
  apply (NoDup_map_filter op_id live_master) in Hid. destruct (List.filter _ _) as [|a [|b rest]] eqn:E; [cbn; lia..|exfalso].
  assert (∀ r, r ∈ a :: b :: rest → r ∈ l_operations (run cs empty_ledger) ∧ live_master r = true) as Hin
    by (intros r; by rewrite <-E, filter_elem).
  destruct (Hin a ltac:(set_solver)), (Hin b ltac:(set_solver)). cbn in Hid.
  apply list.NoDup_cons in Hid as [[Hne _]%not_elem_of_cons _]. apply Hne. by apply Hone.
Qed.

End with_parameters.

(** ** Witnesses *)

Definition first_master : OperationRecord :=
  mk_OperationRecord "op-1" "key-1" "ensure_master" (canonical_json (JObj Scenario.intent)) "REQUESTED"
    (JObj [("epoch", JInt 1); ("master_instance_id", JStr "master-1")]) 1250000 1250000.

Lemma master_admission_witness :
  (∀ kind', epoch_of kind' (Scenario.run Scenario.requested) =
     if kind' == MASTER_SERVICE_KIND then epoch_of MASTER_SERVICE_KIND empty_ledger + 1 else epoch_of kind' empty_ledger) ∧
  jget "epoch" (or_identity first_master) = Some (JInt (epoch_of MASTER_SERVICE_KIND empty_ledger + 1)).
Proof.
  pose proof (master_admission Scenario.plain "op-1" "key-1" Scenario.intent Scenario.identity MASTER_SERVICE_KIND 1250000
    empty_ledger first_master (Scenario.run Scenario.requested)) as H.
  assert (NoDup (keys Scenario.identity)) as Hn by apply NoDup_singleton.
  specialize (H Hn ltac:(vm_compute; reflexivity)). split; apply H.
Defined.

(** The successor of the stopped master. *)
Definition second_master : OperationRecord :=
  mk_OperationRecord "op-2" "key-2" "ensure_master" (canonical_json (JObj Scenario.intent)) "REQUESTED"
    (JObj [("epoch", JInt 2); ("master_instance_id", JStr "master-2")]) 7250000 7250000.

Definition succeeded : list ledger_call :=
  (Scenario.stopped ++ [EnsureMaster "op-2" "key-2" Scenario.intent [("master_instance_id", JStr "master-2")] MASTER_SERVICE_KIND 7250000])%list.

Lemma admission_requires_verified_checkpoint_witness :
  let l := Scenario.run Scenario.stopped in
  ∃ p j, p ∈ l_operations l ∧ op_kind p = "ensure_master" ∧ loads (op_identity p) = Some j ∧
    identity_epoch p = Some (epoch_of MASTER_SERVICE_KIND l) ∧
    (op_state p = "STOPPED" →
     ∃ c, head_candidate MASTER_SERVICE_KIND l = Some c ∧ cc_status c = "VERIFIED" ∧ cc_operation c = op_id p ∧
       cc_epoch c = epoch_of MASTER_SERVICE_KIND l ∧ jget "master_instance_id" j = Some (JStr (cc_master c))).
Proof.
  apply (admission_requires_verified_checkpoint Scenario.plain "op-2" "key-2" Scenario.intent
    [("master_instance_id", JStr "master-2")] MASTER_SERVICE_KIND 7250000 (Scenario.run Scenario.stopped) second_master
    (Scenario.run succeeded)).
  - vm_compute. reflexivity.
  - vm_compute. discriminate.
Defined.

Lemma admission_is_idempotent_witness :
  let l2 := ledger_run Scenario.plain Scenario.decode_event Scenario.dump_event 60000000 (skipn 1 Scenario.stopped)
    (Scenario.run Scenario.requested) in
  ∃ r', ensure_master_operation Scenario.plain "op-7" "key-1" Scenario.intent [] "other" 9000000 l2 = (Ret (r', false), l2) ∧
    or_id r' = "op-1" ∧ or_identity r' = or_identity first_master ∧ or_intent_hash r' = or_intent_hash first_master.
Proof.
  apply (admission_is_idempotent Scenario.plain Scenario.decode_event Scenario.dump_event 60000000 [] "op-1" "key-1"
    Scenario.intent Scenario.identity MASTER_SERVICE_KIND 1250000 first_master (Scenario.run Scenario.requested)
    (skipn 1 Scenario.stopped)).
  vm_compute. reflexivity.
Defined.
