(* ===== verification/LedgerEvolution.v ===== *)
(** * LedgerEvolution: tables whose rows are only added to or refined

    A table grows under a relation [same] between two versions of a row when
    every old row survives, at its place, in a version related to it, and new
    rows come after.  A ledger method evolves a table this way when each of its
    statements does, because growth composes. *)

From S2P Require Import Prelude Time Json LedgerState LedgerOperations LedgerEffects LedgerServices LedgerEvents.
From S2P Require Import LedgerLeases LedgerCheckpoints LedgerSafety.

Definition grows {R} (same : R → R → Prop) (l l' : list R) : Prop :=
  ∃ kept new, l' = (kept ++ new)%list ∧ Forall2 same l kept.

Section grows.
Context {R : Type} (same : R → R → Prop) `{!PreOrder same}.

#[export] Instance grows_preorder : PreOrder (grows same).
Proof.
  split.
  - intros l. exists l, []. split; [by rewrite app_nil_r|]. apply Forall_Forall2_diag, list.Forall_forall; intros r _; reflexivity.
  - intros a b c (k1 & n1 & -> & H1) (k2 & n2 & -> & H2).
    apply Forall2_app_inv_l in H2 as (k3 & k4 & H3 & H4 & ->).
    exists k3, (k4 ++ n2)%list. split; [by rewrite app_assoc|]. by apply (transitivity H1).
Qed.

Lemma grows_update (p : R → bool) f l :
  (∀ r, p r = true → same r (f r)) → grows same l (map (λ r, if p r then f r else r) l).
Proof.
  intros H. exists (map (λ r, if p r then f r else r) l), []. split; [by rewrite app_nil_r|].
  apply Forall2_fmap_r, Forall_Forall2_diag, list.Forall_forall. intros r _. cbn. destruct (p r) eqn:E; [auto|reflexivity].
Qed.

Lemma grows_snoc l r : grows same l (l ++ [r])%list.
Proof. exists l, [r]. split; [done|]. apply Forall_Forall2_diag, list.Forall_forall; intros x _; reflexivity. Qed.

(** A lookup that does not distinguish versions keeps its answer. *)
Lemma grows_find (q : R → bool) l l' r :
  (∀ a b, same a b → q b = q a) → grows same l l' → List.find q l = Some r →
  ∃ r', List.find q l' = Some r' ∧ same r r'.
Proof.
  intros Hq (kept & new & -> & HF) Hf. rewrite find_app.
  assert (∃ r', List.find q kept = Some r' ∧ same r r') as (r' & -> & Hs); [|eauto].
  induction HF as [|a b l kept Hab HF IH]; [done|]. cbn in *. rewrite (Hq a b Hab).
  destruct (q a); [injection Hf as <-; eauto|auto].
Qed.

Lemma grows_elem l l' r : grows same l l' → r ∈ l → ∃ r', r' ∈ l' ∧ same r r'.
Proof.
  intros (kept & new & -> & HF) Hr. apply list_elem_of_lookup in Hr as (i & Hi).
  eapply Forall2_lookup_l in HF as (r' & Hi' & Hs); [|done]. exists r'. split; [|done].
  apply elem_of_app. left. by eapply list_elem_of_lookup_2.
Qed.

End grows.

(** Methods under which a projection of the ledger evolves by a preorder. *)
Section evolves.
Context {X : Type} (π : ledger → X) (R : X → X → Prop) `{!PreOrder R}.

Definition evolves {A} (m : M ledger A) : Prop := ∀ l, R (π l) (π (m l).2).

Lemma evolves_keeps {A} (m : M ledger A) : keeps π m → evolves m.
Proof. intros H l. by rewrite (H l). Qed.

Lemma evolves_bind {A B} (m : M ledger A) (k : A → M ledger B) :
  evolves m → (∀ a, evolves (k a)) → evolves (mbind k m).
Proof.
  intros Hm Hk l. specialize (Hm l). unfold mbind, M_bind. destruct (m l) as [[a|e] l1]; cbn in *; [|done].
  transitivity (π l1); [done|apply Hk].
Qed.

Lemma evolves_atomically {A} (m : M ledger A) : evolves m → evolves (atomically m).
Proof. intros Hm l. specialize (Hm l). unfold atomically. by destruct (m l) as [[a|e] l1]. Qed.

Lemma evolves_except_integrity {A} (m h : M ledger A) :
  evolves m → evolves h → evolves (except_integrity m h).
Proof.
  intros Hm Hh l. specialize (Hm l). specialize (Hh l). unfold except_integrity.
  destruct (m l) as [[a|e] l1]; [done|]. by case_match.
Qed.

Lemma evolves_raise_if b c msg : evolves (raise_if b c msg).
Proof. intros l. by destruct b. Qed.

Lemma evolves_run sha256 validate_json model_dump heartbeat cs l :
  (∀ c, evolves (ledger_step sha256 validate_json model_dump heartbeat c)) →
  R (π l) (π (ledger_run sha256 validate_json model_dump heartbeat cs l)).
Proof.
  intros H. revert l. induction cs as [|c cs IH]; intros l; [done|]. cbn.
  transitivity (π (ledger_step sha256 validate_json model_dump heartbeat c l).2); [apply H|apply IH].
Qed.

End evolves.

(** Walk over a method's statements; each statement on the table in question
    leaves one goal, about the rows it changes or adds. *)
Ltac evolve :=
  repeat match goal with
  | |- evolves _ _ (atomically _) => apply evolves_atomically
  | |- evolves _ _ (mbind _ _) => apply evolves_bind; [try typeclasses eauto| |intros ?]
  | |- evolves _ _ (except_integrity _ _) => apply evolves_except_integrity
  | |- evolves _ _ (raise_if _ _ _) => apply evolves_raise_if; typeclasses eauto
  | |- PreOrder _ => typeclasses eauto
  | |- evolves _ _ (match ?x with _ => _ end) => destruct x eqn:?
  | |- evolves _ _ ((match ?x with _ => _ end) _) => destruct x eqn:?; cbv beta
  | |- evolves _ _ _ => apply evolves_keeps; [typeclasses eauto|]; solve [frame]
  end.

(** The remaining goals about statements on the table itself. *)
Ltac evolve_rows :=
  intros ?; first
    [ apply grows_snoc; typeclasses eauto
    | unfold insert_row; match goal with |- context [if ?b then _ else _] => destruct b end;
      [reflexivity | apply grows_snoc; typeclasses eauto]
    | apply grows_update; [typeclasses eauto|]; intros; b2p ].

(** ** Attempts, tokens and deduplication keys *)

Definition same_attempt (a b : attempt_row) : Prop :=
  at_id b = at_id a ∧ at_run b = at_run a ∧ at_operation b = at_operation a ∧ at_source b = at_source a ∧
  at_version b = at_version a ∧ at_service b = at_service a ∧ at_master b = at_master a ∧ at_epoch b = at_epoch a.

(** A token's hash never changes and a revocation is never undone. *)
Definition same_token (a b : token_row) : Prop :=
  tk_run b = tk_run a ∧ tk_attempt b = tk_attempt a ∧ tk_sha256 b = tk_sha256 a ∧
  (tk_revoked_at a ≠ None → tk_revoked_at b ≠ None).

#[export] Instance same_attempt_preorder : PreOrder same_attempt.
Proof. unfold same_attempt. split; [intros ?; done|]. intros a b c ? ?. intuition congruence. Qed.

#[export] Instance same_token_preorder : PreOrder same_token.
Proof. unfold same_token. split; [intros ?; done|]. intros a b c ? ?. naive_solver congruence. Qed.

Section with_parameters.
Context (sha256 : string → string).
Context (validate_json : string → option RuntimeEvent).
Context (model_dump : RuntimeEvent → list (string * json)).
Context (heartbeat_coalesce : Z).
Abbreviation step := (ledger_step sha256 validate_json model_dump heartbeat_coalesce).
Abbreviation run := (ledger_run sha256 validate_json model_dump heartbeat_coalesce).

Lemma attempts_evolve c : evolves l_attempts (grows same_attempt) (step c).
Proof. destruct c; unfold_call; evolve; evolve_rows; done. Qed.

Lemma tokens_evolve c : evolves l_tokens (grows same_token) (step c).
Proof. destruct c; unfold_call; evolve; evolve_rows; done. Qed.

Definition prunes (c : ledger_call) : bool := match c with PruneEvents _ _ _ _ => true | _ => false end.

Lemma dedup_evolves c : prunes c = false → evolves l_dedup (grows eq) (step c).
Proof. destruct c; intros H; try discriminate H; clear H; unfold_call; evolve; evolve_rows; done. Qed.

End with_parameters.
