(* ===== verification/LedgerIngest.v ===== *)
(** * LedgerIngest: properties of runtime event ingestion

    Exactly-once ingestion, authenticity of what is recorded, and the
    monotonicity of the per-attempt projection. *)

From S2P Require Import Prelude Time Json LedgerState LedgerOperations LedgerEffects LedgerServices LedgerEvents.
From S2P Require Import LedgerLeases LedgerCheckpoints LedgerSafety LedgerEvolution.

#[local] Set Default Proof Using "Type".
#[local] Set Proof Using Clear Unused.

Section with_parameters.
Context (sha256 : string → string).
Context (validate_json : string → option RuntimeEvent).
Context (model_dump : RuntimeEvent → list (string * json)).
Context (heartbeat_coalesce : Z).
Abbreviation step := (ledger_step sha256 validate_json model_dump heartbeat_coalesce).
Abbreviation run := (ledger_run sha256 validate_json model_dump heartbeat_coalesce).
Abbreviation ingest := (ingest_runtime_event sha256 validate_json model_dump heartbeat_coalesce).

Definition by_attempt (e : RuntimeEvent) (a : attempt_row) : bool := (at_run a == e_run e) && (at_id a == e_attempt e).

(** The event names the durable attempt's exact identity. *)
Definition identity_matches (e : RuntimeEvent) (a : attempt_row) : Prop :=
  e_service e = at_service a ∧ e_source e = at_source a ∧ e_version e = at_version a ∧ e_epoch e = at_epoch a.

(** The tests on a body that do not depend on the ledger. *)
Definition well_formed (body : string) (e : RuntimeEvent) (sanitized : string) : Prop :=
  slen body ≤ MAX_EVENT_BYTES ∧ validate_json body = Some e ∧
  existsb (λ key, mem key (keys (model_dump e))) ["token"; "authorization"; "credential"; "password"] = false ∧
  safe_json (Some (model_dump e)) MAX_EVENT_BYTES = Ret sanitized.

Lemma ingest_well_formed body token now l rc l' :
  ingest body token now l = (Ret rc, l') →
  ∃ e sanitized, well_formed body e sanitized ∧
    ingest_transaction sha256 heartbeat_coalesce e (sha256 body) (slen body) sanitized token now l = (Ret rc, l').
Proof.
  unfold ingest_runtime_event. intros H. run_inv. b2p. by eexists _, _.
Qed.

(** The ledger knows the event: its attempt, its token and its body hash. *)
Definition known (l : ledger) (e : RuntimeEvent) (body_sha token : string) : Prop :=
  (∃ a, List.find (by_attempt e) (l_attempts l) = Some a ∧ identity_matches e a) ∧
  (∃ k, List.find (by_token (e_run e) (e_attempt e)) (l_tokens l) = Some k ∧ tk_sha256 k = sha256 token) ∧
  (∃ d, List.find (λ d, dd_event d == event_id e) (l_dedup l) = Some d ∧ dd_body_sha256 d = body_sha).

Lemma identity_matches_iff e a :
  (e_service e != at_service a) || (e_source e != at_source a) || (e_version e != at_version a)
  || (e_epoch e != at_epoch a) = false ↔ identity_matches e a.
Proof. unfold identity_matches. split; intros; b2p; naive_solver. Qed.

(** Every way ingestion can return. *)
Inductive ingested (l : ledger) (e : RuntimeEvent) (body_sha token : string) : EventReceipt → ledger → Prop :=
| ingested_duplicate :
    known l e body_sha token → ingested l e body_sha token (mk_EventReceipt (event_id e) DUPLICATE body_sha) l
| ingested_fenced a k now c :
    List.find (by_attempt e) (l_attempts l) = Some a → identity_matches e a →
    List.find (by_token (e_run e) (e_attempt e)) (l_tokens l) = Some k → tk_sha256 k = sha256 token →
    tk_revoked_at k = None →
    List.find (λ d, dd_event d == event_id e) (l_dedup l) = None →
    List.find (λ e, ep_kind e == MASTER_SERVICE_KIND) (l_epochs l) = Some c → e_epoch e < ep_current c →
    ingested l e body_sha token (mk_EventReceipt (event_id e) FENCED body_sha)
      (set_rows run_attempts (map (λ a, if at_id a == e_attempt e then at_set_state "FENCED" now a else a) (l_attempts l)) l)
| ingested_recorded a k now n sanitized rc l' :
    List.find (by_attempt e) (l_attempts l) = Some a → identity_matches e a →
    List.find (by_token (e_run e) (e_attempt e)) (l_tokens l) = Some k → tk_sha256 k = sha256 token →
    tk_revoked_at k = None →
    List.find (λ d, dd_event d == event_id e) (l_dedup l) = None →
    (∀ c, List.find (λ e, ep_kind e == MASTER_SERVICE_KIND) (l_epochs l) = Some c → ep_current c ≤ e_epoch e) →
    record_event heartbeat_coalesce e body_sha n sanitized now l = (Ret rc, l') →
    ingested l e body_sha token rc l'.

Lemma ingest_transaction_cases e body_sha n sanitized token now l rc l' :
  ingest_transaction sha256 heartbeat_coalesce e body_sha n sanitized token now l = (Ret rc, l') →
  ingested l e body_sha token rc l'.
Proof.
  unfold ingest_transaction. intros H. run_inv; apply identity_matches_iff in Hrun; tables.
  - destruct (List.find (by_token _ _) _) as [k|] eqn:Ek; [|done]. b2p. apply ingested_duplicate. unfold known. eauto 10.
  - destruct (List.find (by_token _ _) _) as [k|] eqn:Ek; [|done]. b2p.
    destruct (List.find _ (l_epochs l)) as [c|] eqn:Ec; [|done]. b2p. eapply ingested_fenced; naive_solver.
  - destruct (List.find (by_token _ _) _) as [k|] eqn:Ek; [|done]. b2p. eapply ingested_recorded; try naive_solver.
    intros c Hc. rewrite Hc in Heqb. by b2p.
Qed.

Lemma ingest_cases body token now l rc l' :
  ingest body token now l = (Ret rc, l') →
  ∃ e sanitized, well_formed body e sanitized ∧ ingested l e (sha256 body) token rc l'.
Proof. intros (e & sanitized & Hw & H%ingest_transaction_cases)%ingest_well_formed. eauto. Qed.

(** Ingesting a known event again is a no-op. *)
Lemma ingest_known body token now l e sanitized :
  well_formed body e sanitized → known l e (sha256 body) token →
  ingest body token now l = (Ret (mk_EventReceipt (event_id e) DUPLICATE (sha256 body)), l).
Proof.
  intros (Hlen & Hv & Hkeys & Hs) ((a & Ha & Hid) & (k & Hk & Ek) & (d & Hd & Ed)).
  unfold ingest_runtime_event, ingest_transaction, select_one. py_cbn.
  apply Z.ltb_ge in Hlen. rewrite Hlen, Hv, Hkeys, Hs. py_cbn. tables. unfold by_attempt in Ha. rewrite Ha.
  apply identity_matches_iff in Hid. rewrite Hid. py_cbn. tables.
  rewrite Hd, Ed, bool_decide_eq_true_2 by done. py_cbn. rewrite Hk, Ek. by rewrite bool_decide_eq_true_2.
Qed.

(** What recording an event does to the other tables. *)
Lemma record_event_ret e body_sha n sanitized now l rc l' :
  record_event heartbeat_coalesce e body_sha n sanitized now l = (Ret rc, l') →
  l_attempts l' = l_attempts l ∧ l_tokens l' = l_tokens l ∧ l_epochs l' = l_epochs l ∧
  l_dedup l' = (l_dedup l ++ [mk_dedup (event_id e) body_sha now])%list ∧
  rc_event rc = event_id e ∧ rc_body_sha256 rc = body_sha ∧ (rc_disposition rc = ACCEPTED ∨ rc_disposition rc = COALESCED).
Proof.
  unfold record_event, insert_dedup, insert_event, upsert_projection. intros H. run_inv; tables; naive_solver.
Qed.

Lemma ingested_known l e body_sha token rc l' :
  ingested l e body_sha token rc l' → rc_disposition rc ≠ FENCED →
  known l' e body_sha token ∧ rc_event rc = event_id e ∧ rc_body_sha256 rc = body_sha.
Proof.
  intros [Hk|a k now c|a k now n sanitized rc' l1 Ha Hid Hk Ek Hrev Hnew Hep Hrec] Hd; [done|done|].
  apply record_event_ret in Hrec as (Ea & Et & _ & Ed & Ei & Eb & _). split; [|done].
  unfold known. rewrite Ea, Et, Ed, find_app, Hnew. split_and!; [eauto..|]. cbn.
  rewrite bool_decide_eq_true_2 by done. eauto.
Qed.

Lemma known_run cs l e body_sha token :
  Forall (λ c, prunes c = false) cs → known l e body_sha token → known (run cs l) e body_sha token.
Proof.
  intros Hcs ((a & Ha & Hid) & (k & Hk & Ek) & (d & Hd & Ed)).
  assert (grows same_attempt (l_attempts l) (l_attempts (run cs l))) as Ga.
  { apply (evolves_run _ _). intros. apply attempts_evolve. }
  assert (grows same_token (l_tokens l) (l_tokens (run cs l))) as Gk.
  { apply (evolves_run _ _). intros. apply tokens_evolve. }
  assert (grows eq (l_dedup l) (l_dedup (run cs l))) as Gd.
  { clear -Hcs. revert l. induction Hcs as [|c cs Hc Hcs IH]; intros l; [reflexivity|]. cbn.
    etransitivity; [exact (dedup_evolves sha256 validate_json model_dump heartbeat_coalesce c Hc l)|apply IH]. }
  apply (grows_find same_attempt (by_attempt e) _ _ a) in Ga as (a' & Ha' & Sa); [| |done].
  2: { unfold same_attempt, by_attempt. by intros ?? (-> & -> & _). }
  apply (grows_find same_token (by_token (e_run e) (e_attempt e)) _ _ k) in Gk as (k' & Hk' & Sk); [| |done].
  2: { unfold same_token, by_token. by intros ?? (-> & -> & _). }
  apply (grows_find eq (λ d, dd_event d == event_id e) _ _ d) in Gd as (d' & Hd' & <-); [|by intros ?? ->|done].
  unfold known. split_and!; [exists a'|exists k'|eauto]; (split; [done|]).
  - unfold identity_matches, same_attempt in *. intuition congruence.
  - unfold same_token in Sk. intuition congruence.
Qed.

(** Exactly-once ingestion.  An event body that was accepted (or coalesced,
    or already a duplicate) is recognised when it is sent again with the same
    token, whatever was called in between short of pruning: the answer is
    DUPLICATE with the same hash, and no table changes. *)
Theorem replayed_event_is_duplicate body token now l rc l' cs now' :
  ingest body token now l = (Ret rc, l') → rc_disposition rc ≠ FENCED → Forall (λ c, prunes c = false) cs →
  ingest body token now' (run cs l') =
    (Ret (mk_EventReceipt (rc_event rc) DUPLICATE (rc_body_sha256 rc)), run cs l').
Proof.
  intros (e & sanitized & Hw & Hi)%ingest_cases Hd Hcs. apply ingested_known in Hi as (Hk & -> & ->); [|done].
  eapply ingest_known; [done|]. by apply known_run.
Qed.

(** C37: only authentic events are recorded.  Whatever ingestion answers, short of
    an exception, the body names a durable attempt with exactly its service,
    source, version and epoch, and the caller presented the attempt's token; an
    answer other than DUPLICATE also means that the token was not revoked and
    the event identifier new, and an answer of ACCEPTED or COALESCED that the
    epoch was not superseded. *)
Theorem ingested_event_is_authentic body token now l rc l' :
  ingest body token now l = (Ret rc, l') →
  ∃ e a k, validate_json body = Some e ∧ rc_event rc = event_id e ∧
    List.find (by_attempt e) (l_attempts l) = Some a ∧ identity_matches e a ∧
    List.find (by_token (e_run e) (e_attempt e)) (l_tokens l) = Some k ∧ tk_sha256 k = sha256 token ∧
    (rc_disposition rc ≠ DUPLICATE →
       tk_revoked_at k = None ∧ List.find (λ d, dd_event d == event_id e) (l_dedup l) = None) ∧
    (rc_disposition rc = ACCEPTED ∨ rc_disposition rc = COALESCED →
       ∀ c, List.find (λ e, ep_kind e == MASTER_SERVICE_KIND) (l_epochs l) = Some c → ep_current c ≤ e_epoch e).
Proof.
  intros (e & sanitized & (_ & Hv & _) & Hi)%ingest_cases.
  destruct Hi as [((a & Ha & Hid) & (k & Hk & Ek) & _)|a k t c|a k t n sj rc' l1 Ha Hid Hk Ek Hrev Hnew Hep Hrec].
  - exists e, a, k. naive_solver.
  - exists e, a, k. naive_solver.
  - apply record_event_ret in Hrec. exists e, a, k. naive_solver.
Qed.

(** An event of a superseded epoch is fenced: it is answered FENCED and
    leaves no trace except the FENCED mark on its own attempt; events,
    deduplication keys and projections stay as they were. *)
Theorem stale_epoch_event_is_fenced body token now l rc l' e c :
  ingest body token now l = (Ret rc, l') → validate_json body = Some e → rc_disposition rc ≠ DUPLICATE →
  List.find (λ e, ep_kind e == MASTER_SERVICE_KIND) (l_epochs l) = Some c → e_epoch e < ep_current c →
  rc_disposition rc = FENCED ∧
  (∀ a, a ∈ l_attempts l' → at_id a = e_attempt e → at_state a = "FENCED") ∧
  l_events l' = l_events l ∧ l_dedup l' = l_dedup l ∧ l_projections l' = l_projections l ∧
  l_services l' = l_services l ∧ l_operations l' = l_operations l.
Proof.
  intros (e' & sanitized & (_ & Hv & _) & Hi)%ingest_cases Hv' Hd Hc Hlt. rewrite Hv in Hv'. injection Hv' as ->.
  destruct Hi as [|a k t c'|a k t n sj rc' l1 Ha Hid Hk Ek Hrev Hnew Hep Hrec]; [done| |].
  - split_and!; try done. tables. intros a' (a0 & _ & ->)%elem_of_update.
    case_bool_decide as Ea; [done|]. intros ?. done.
  - specialize (Hep c Hc). lia.
Qed.

(** ** The projection *)

Definition pj_slot (p : projection_row) : string * string := (pj_run p, pj_attempt p).

(** A later version of an attempt's projection: never an older event, and
    terminal once terminal. *)
Definition advanced (a b : projection_row) : Prop :=
  pj_slot b = pj_slot a ∧ pj_sequence a ≤ pj_sequence b ∧ (pj_terminal a = true → pj_terminal b = true).

#[export] Instance advanced_preorder : PreOrder advanced.
Proof.
  unfold advanced. split; [intros a; repeat split; auto; lia|]. intros a b c ? ?. intuition (congruence || lia).
Qed.

Lemma pj_key_slot r a p : pj_key r a p = true ↔ pj_slot p = (r, a).
Proof. unfold pj_key, pj_slot. split; intros; b2p; naive_solver. Qed.

Lemma upsert_projection_advances new l u l' :
  upsert_projection new l = (Ret u, l') → NoDup (map pj_slot (l_projections l)) →
  (∀ p, List.find (pj_key (pj_run new) (pj_attempt new)) (l_projections l) = Some p → pj_sequence p < pj_sequence new) →
  NoDup (map pj_slot (l_projections l')) ∧ grows advanced (l_projections l) (l_projections l').
Proof.
  unfold upsert_projection. intros H Hnd Hseq. run_inv; tables.
  - split; [by rewrite map_key_update|]. apply find_some_iff in Heqo as Hp. destruct Hp as [Hp Hkp%pj_key_slot].
    assert (∀ r, r ∈ l_projections l → pj_key (pj_run new) (pj_attempt new) r = true → r = p) as Hone.
    { intros r Hr Hkr%pj_key_slot. apply (key_unique pj_slot (l_projections l)); congruence || done. }
    exists (map (λ p, if pj_key (pj_run new) (pj_attempt new) p then mk_projection (pj_run p) (pj_attempt p) (pj_event new)
        (pj_type new) (pj_sequence new) (pj_epoch new) (pj_seen_at new) (pj_terminal p || pj_terminal new) else p)
        (l_projections l)), [].
    split; [by rewrite app_nil_r|]. apply Forall2_fmap_r, Forall_Forall2_diag, list.Forall_forall. intros r Hr. cbn.
    destruct (pj_key _ _ r) eqn:E; [|reflexivity]. rewrite (Hone r Hr E).
    specialize (Hseq p Heqo). unfold advanced. cbn. split_and!; [done|lia|]. by intros ->.
  - split; [|apply grows_snoc; apply _]. apply NoDup_map_snoc; [done|]. intros p Hp E.
    rewrite find_none_iff in Heqo. specialize (Heqo p Hp). apply not_true_iff_false in Heqo. apply Heqo.
    by apply pj_key_slot.
Qed.

Lemma step_projections c l l' :
  step c l = (Ret tt, l') → NoDup (map pj_slot (l_projections l)) →
  NoDup (map pj_slot (l_projections l')) ∧ grows advanced (l_projections l) (l_projections l').
Proof.
  intros H Hnd. destruct (match c with IngestEvent _ _ _ => true | _ => false end) eqn:Ec.
  - destruct c; try discriminate Ec. apply discard_inv in H as (rc & H).
    apply ingest_cases in H as (e & sanitized & _ & Hi).
    destruct Hi as [|a k t c'|a k t n sj rc' l1 Ha Hid Hk Ek Hrev Hnew Hep Hrec]; [done|done|].
    unfold record_event, insert_dedup, insert_event in Hrec. run_inv; tables; try done.
    all: match goal with H : upsert_projection _ _ = _ |- _ => apply upsert_projection_advances in H as [H1 H2] end;
      [done|done|]; cbn; tables; intros p Hp.
    all: rewrite Hp in *; by b2p.
  - assert (keeps l_projections (step c)) as Hk.
    { destruct c; try discriminate Ec; unfold_call; frame. apply keeps_except_integrity; frame. }
    by rewrite (keeps_inv _ _ _ _ _ Hk H).
Qed.

(** The projection of an attempt only advances: in every execution its last
    sequence number never goes back, and once it is terminal it stays terminal,
    even for events that arrive late or out of order. *)
Theorem projection_only_advances cs cs' p :
  p ∈ l_projections (run cs empty_ledger) →
  ∃ p', p' ∈ l_projections (run (cs ++ cs') empty_ledger) ∧ pj_run p' = pj_run p ∧ pj_attempt p' = pj_attempt p ∧
    pj_sequence p ≤ pj_sequence p' ∧ (pj_terminal p = true → pj_terminal p' = true).
Proof.
  intros Hp. rewrite ledger_run_app.
  assert (∀ cs0, NoDup (map pj_slot (l_projections (run cs0 empty_ledger)))) as Hnd.
  { intros cs0. apply (run_invariant _ _ _ _ (λ l, NoDup (map pj_slot (l_projections l)))); [|constructor].
    intros c l l' Hl H. by apply (step_projections _ _ _ H). }
  destruct (run_invariant sha256 validate_json model_dump heartbeat_coalesce
    (λ l, NoDup (map pj_slot (l_projections l)) ∧ grows advanced (l_projections (run cs empty_ledger)) (l_projections l))
    ltac:(intros c l l' [H1 H2] Hs; destruct (step_projections _ _ _ Hs H1); split; [done|by etransitivity])
    cs' (run cs empty_ledger) ltac:(done)) as [_ Hg].
  destruct (grows_elem _ _ _ _ Hg Hp) as (p' & Hp' & [= E1 E2] & E). exists p'. naive_solver.
Qed.

End with_parameters.

(** ** Witnesses *)

Abbreviation scenario_run := (ledger_run Scenario.plain Scenario.decode_event Scenario.dump_event 60000000).
Abbreviation scenario_ingest := (ingest_runtime_event Scenario.plain Scenario.decode_event Scenario.dump_event 60000000).

Definition receipt (disposition : EventDisposition) : EventReceipt := mk_EventReceipt "alive" disposition "alive".

Lemma replayed_event_is_duplicate_witness :
  let l := scenario_run (skipn 8 Scenario.stopped) (Scenario.run Scenario.heard) in
  scenario_ingest "alive" "secret" 9000000 l = (Ret (receipt DUPLICATE), l).
Proof.
  apply (replayed_event_is_duplicate Scenario.plain Scenario.decode_event Scenario.dump_event 60000000 "alive" "secret" 4500000
    (Scenario.run Scenario.started) (receipt ACCEPTED) (Scenario.run Scenario.heard) (skipn 8 Scenario.stopped) 9000000).
  - vm_compute. reflexivity.
  - discriminate.
  - repeat constructor.
Defined.

Lemma ingested_event_is_authentic_witness :
  let l := Scenario.run Scenario.started in
  ∃ e a k, Scenario.decode_event "alive" = Some e ∧ rc_event (receipt ACCEPTED) = event_id e ∧
    List.find (by_attempt e) (l_attempts l) = Some a ∧ identity_matches e a ∧
    List.find (by_token (e_run e) (e_attempt e)) (l_tokens l) = Some k ∧ tk_sha256 k = Scenario.plain "secret" ∧
    (ACCEPTED ≠ DUPLICATE →
       tk_revoked_at k = None ∧ List.find (λ d, dd_event d == event_id e) (l_dedup l) = None) ∧
    (ACCEPTED = ACCEPTED ∨ ACCEPTED = COALESCED →
       ∀ c, List.find (λ e, ep_kind e == MASTER_SERVICE_KIND) (l_epochs l) = Some c → ep_current c ≤ e_epoch e).
Proof.
  apply (ingested_event_is_authentic Scenario.plain Scenario.decode_event Scenario.dump_event 60000000 "alive" "secret" 4500000
    (Scenario.run Scenario.started) (receipt ACCEPTED) (Scenario.run Scenario.heard)).
  vm_compute. reflexivity.
Defined.

(** The master was superseded before its event arrived. *)
Definition superseded : ledger := Scenario.run (Scenario.started ++ [AllocateEpoch MASTER_SERVICE_KIND 4000000]).

Definition alive : RuntimeEvent :=
  mk_RuntimeEvent "alive" "content-runtime-event/v1" "run-1" "attempt-1" "service-1" "kernel" "v1" "runtime.heartbeat" 4250000
    1 1 None None [] [] [].

Lemma stale_epoch_event_is_fenced_witness :
  let l' := (scenario_ingest "alive" "secret" 4500000 superseded).2 in
  FENCED = FENCED ∧ (∀ a, a ∈ l_attempts l' → at_id a = "attempt-1" → at_state a = "FENCED") ∧
  l_events l' = l_events superseded ∧ l_dedup l' = l_dedup superseded ∧ l_projections l' = l_projections superseded ∧
  l_services l' = l_services superseded ∧ l_operations l' = l_operations superseded.
Proof.
  apply (stale_epoch_event_is_fenced Scenario.plain Scenario.decode_event Scenario.dump_event 60000000 "alive" "secret" 4500000
    superseded (receipt FENCED) (scenario_ingest "alive" "secret" 4500000 superseded).2 alive
    (mk_epoch MASTER_SERVICE_KIND 2 4000000)); [vm_compute; reflexivity..|discriminate|vm_compute; reflexivity|].
  vm_compute. reflexivity.
Defined.

Definition projected : projection_row := mk_projection "run-1" "attempt-1" "alive" "runtime.heartbeat" 1 1 4500000 false.

Lemma projection_only_advances_witness :
  ∃ p', p' ∈ l_projections (Scenario.run (Scenario.heard ++ [IngestEvent "done" "secret" 8000000])) ∧
    pj_run p' = "run-1" ∧ pj_attempt p' = "attempt-1" ∧ 1 ≤ pj_sequence p' ∧ (false = true → pj_terminal p' = true).
Proof.
  apply (projection_only_advances Scenario.plain Scenario.decode_event Scenario.dump_event 60000000 Scenario.heard
    [IngestEvent "done" "secret" 8000000] projected).
  apply list_elem_of_In. vm_compute. by left.
Defined.
