(* ===== verification/LedgerMutex.v ===== *)
(** * LedgerMutex: mutual exclusion of resource leases

    [acquire_resource_lease] admits a new holder when no lease of the resource
    is in force, a test SQL makes on the texts of the timestamps.  While the
    clock never reads a whole second, at most one lease of a resource is in
    force at any time; a clock reading on the whole second breaks it, which the
    last theorem shows on a concrete execution. *)

From S2P Require Import Prelude Time Json LedgerState LedgerOperations LedgerEffects LedgerServices LedgerEvents.
From S2P Require Import LedgerLeases LedgerCheckpoints LedgerSafety.

#[local] Set Default Proof Using "Type".
#[local] Set Proof Using Clear Unused.

(** ** The order of texts *)

Lemma string_compare_trans a b c :
  String.compare a b = Lt → String.compare b c = Lt → String.compare a c = Lt.
Proof.
  revert b c. induction a as [|x a IH]; intros [|y b] [|z c]; cbn; try done.
  unfold Ascii.compare. destruct (N.compare_spec (N_of_ascii x) (N_of_ascii y)) as [E|E|E]; [|intros _|done].
  - rewrite E. intros H. destruct (N.compare_spec (N_of_ascii y) (N_of_ascii z)); [|done..]. by apply IH.
  - destruct (N.compare_spec (N_of_ascii y) (N_of_ascii z)) as [F|F|F]; [intros _|intros _|done];
      by rewrite (proj2 (N.compare_lt_iff _ _)) by lia.
Qed.

Lemma text_ltb_trans a b c : text_ltb a b = true → text_ltb b c = true → text_ltb a c = true.
Proof.
  unfold text_ltb, String.ltb. destruct (String.compare (time_text a) (time_text b)) eqn:E1; try done.
  destruct (String.compare (time_text b) (time_text c)) eqn:E2; try done. by rewrite (string_compare_trans _ _ _ E1 E2).
Qed.

(** A clock reading that is not on a whole second. *)
Definition sharp (t : Z) : Prop := valid_instant t ∧ t mod MICRO ≠ 0.

Lemma in_force_earlier t t' r : sharp t → sharp t' → t ≤ t' → in_force t' r = true → in_force t r = true.
Proof.
  unfold in_force. intros [Hv Hf] [Hv' Hf'] Hle H. b2p. destruct H as [Hr H]. split; [done|].
  destruct (decide (t = t')) as [->|Hne]; [done|]. eapply text_ltb_trans; [|done].
  rewrite text_ltb_rank by done. unfold text_rank. apply Z.eqb_neq in Hf, Hf'. rewrite Hf, Hf'. apply Z.ltb_lt. lia.
Qed.

(** ** The invariant *)

(** The reading of the clock during a call that looks at it for leases. *)
Definition lease_time (c : ledger_call) : option Z :=
  match c with
  | AcquireLease _ _ _ _ _ now | RenewLease _ _ _ _ now => Some now
  | _ => None
  end.

(** The clock never goes back, and is never read on a whole second; [t] is the
    reading before the calls and [final] the one after them. *)
Fixpoint clock_ok (t : Z) (cs : list ledger_call) (final : Z) : Prop :=
  match cs with
  | [] => sharp final ∧ t ≤ final
  | c :: cs' => match lease_time c with
                | Some now => sharp now ∧ t ≤ now ∧ clock_ok now cs' final
                | None => clock_ok t cs' final
                end
  end.

Definition same_resource (a b : lease_row) : Prop := ls_kind a = ls_kind b ∧ ls_ref a = ls_ref b.

(** At time [t] no resource has two leases in force. *)
Definition exclusive (t : Z) (ls : list lease_row) : Prop :=
  ∀ a b, a ∈ ls → b ∈ ls → same_resource a b → in_force t a = true → in_force t b = true → ls_id a = ls_id b.

Definition leases_ok (t : Z) (ls : list lease_row) : Prop := NoDup (map ls_id ls) ∧ exclusive t ls.

Lemma leases_ok_later t t' ls : sharp t → sharp t' → t ≤ t' → leases_ok t ls → leases_ok t' ls.
Proof. intros ? ? ? [Hid H]. split; [done|]. intros a b ? ? ? Fa Fb. apply H; eauto using in_force_earlier. Qed.

(** An update that neither renames a lease nor brings one into force. *)
Lemma leases_ok_update t p f ls :
  (∀ r, ls_id (f r) = ls_id r ∧ ls_kind (f r) = ls_kind r ∧ ls_ref (f r) = ls_ref r) →
  (∀ r, p r = true → in_force t (f r) = true → in_force t r = true) →
  leases_ok t ls → leases_ok t (map (λ r, if p r then f r else r) ls).
Proof.
  intros Hf Hforce [Hid H]. split; [rewrite map_key_update; [done|apply Hf]|].
  intros a b (a0 & Ha & ->)%elem_of_update (b0 & Hb & ->)%elem_of_update [S1 S2] Fa Fb.
  assert (ls_id a0 = ls_id b0).
  { apply H; try done.
    - split; destruct (p a0), (p b0); destruct (Hf a0) as (? & ? & ?), (Hf b0) as (? & ? & ?); congruence.
    - destruct (p a0) eqn:E; eauto.
    - destruct (p b0) eqn:E; eauto. }
  destruct (p a0), (p b0); destruct (Hf a0) as (? & ? & ?), (Hf b0) as (? & ? & ?); congruence.
Qed.

Section with_parameters.
Context (sha256 : string → string).
Context (validate_json : string → option RuntimeEvent).
Context (model_dump : RuntimeEvent → list (string * json)).
Context (heartbeat_coalesce : Z).
Abbreviation step := (ledger_step sha256 validate_json model_dump heartbeat_coalesce).
Abbreviation run := (ledger_run sha256 validate_json model_dump heartbeat_coalesce).

Lemma acquire_leases_ok i k r h u now l a l' :
  acquire_resource_lease i k r h u now l = (Ret a, l') → leases_ok now (l_leases l) → leases_ok now (l_leases l').
Proof.
  unfold acquire_resource_lease, insert_lease. intros H Hok. run_inv; [done|]. tables. destruct Hok as [Hid Hex].
  apply max_by_none in Heqo. destruct Hrun1 as [_ Hnew].
  assert (∀ x, x ∈ l_leases l → ls_kind x = k → ls_ref x = r → in_force now x = false) as Hnone.
  { intros x Hx Hk Hr. apply not_true_is_false. intros Hf. apply (not_elem_of_nil x). rewrite <-Heqo.
    rewrite !filter_elem. unfold of_resource. b2p. auto. }
  split.
  - apply NoDup_map_snoc; [done|]. intros x Hx E. specialize (Hnew x Hx). cbn in Hnew. b2p. naive_solver.
  - intros x y [Hx| ->%list_elem_of_singleton]%elem_of_app [Hy| ->%list_elem_of_singleton]%elem_of_app [S1 S2] Fx Fy;
      cbn in *; [by apply Hex|..|done].
    + by rewrite Hnone in Fx.
    + by rewrite Hnone in Fy.
Qed.

Lemma renew_leases_ok i h e u now l a l' :
  renew_resource_lease i h e u now l = (Ret a, l') → leases_ok now (l_leases l) → leases_ok now (l_leases l').
Proof.
  unfold renew_resource_lease. intros H Hok. run_inv. tables. apply leases_ok_update; [done| |done].
  intros r Hp _. b2p. naive_solver.
Qed.

Definition touches_leases (c : ledger_call) : bool :=
  match c with
  | AcquireLease _ _ _ _ _ _ | RenewLease _ _ _ _ _ | ReleaseLease _ _ _ _ | ReleaseLeaseExact _ _ _ _
  | ProjectFailure _ _ _ _ _ _ _ _ => true
  | _ => false
  end.

Lemma keeps_leases c : touches_leases c = false → keeps l_leases (step c).
Proof.
  destruct c; intros H; try discriminate H; clear H; unfold_call; frame. apply keeps_except_integrity; frame.
Qed.

Lemma release_leases_ok t now (p : lease_row → bool) ls : leases_ok t ls → leases_ok t (map (λ r, if p r then ls_set_released now r else r) ls).
Proof. apply leases_ok_update; [done|]. intros r _ H. unfold in_force in H. b2p. by destruct H. Qed.

Lemma step_leases_ok c t l l' :
  step c l = (Ret tt, l') → leases_ok (default t (lease_time c)) (l_leases l) →
  leases_ok (default t (lease_time c)) (l_leases l').
Proof.
  intros H Hok. destruct (touches_leases c) eqn:E.
  - destruct c; try discriminate E; cbn [ledger_step lease_time default] in *.
    + unfold project_master_terminal_failure, log_operation in H. run_inv; tables; auto using release_leases_ok.
    + apply discard_inv in H as [? H]. by eapply acquire_leases_ok.
    + by eapply renew_leases_ok.
    + unfold release_resource_lease in H. run_inv. tables. by apply release_leases_ok.
    + unfold release_resource_lease_exact in H. run_inv; tables; [by apply release_leases_ok|done].
  - by rewrite (keeps_inv _ _ _ _ _ (keeps_leases c E) H).
Qed.

Lemma run_leases_ok cs t l final :
  sharp t → clock_ok t cs final → leases_ok t (l_leases l) → leases_ok final (l_leases (run cs l)).
Proof.
  revert t l. induction cs as [|c cs IH]; intros t l Ht Hclock Hok.
  - destruct Hclock as [Hf Hle]. by apply (leases_ok_later t).
  - cbn [clock_ok] in Hclock.
    assert (∃ t', default t (lease_time c) = t' ∧ sharp t' ∧ t ≤ t' ∧ clock_ok t' cs final) as (t' & Et & Ht' & Hle & Hc').
    { destruct (lease_time c); cbn; naive_solver lia. }
    apply (leases_ok_later t t') in Hok; [|done..]. change (run (c :: cs) l) with (run cs (step c l).2).
    apply (IH t'); [done|done|]. subst t'.
    destruct (step_cases sha256 validate_json model_dump heartbeat_coalesce c l) as [E| ->]; [|done].
    by apply (step_leases_ok _ _ _ _ E).
Qed.

(** C38: mutual exclusion of resource leases.  If the clock never goes back and is
    never read exactly on a whole second, then after any calls at most one
    lease of any resource is in force. *)
Theorem resource_lease_mutual_exclusion cs t final kind ref :
  sharp t → clock_ok t cs final →
  (length (List.filter (λ r, of_resource kind ref r && in_force final r) (l_leases (run cs empty_ledger))) ≤ 1)%nat.
Proof.
  intros Ht Hc. assert (leases_ok final (l_leases (run cs empty_ledger))) as [Hid Hex].
  { apply (run_leases_ok cs t); [done|done|]. split; [constructor|]. by intros a b ?%not_elem_of_nil. }
  apply (NoDup_map_filter ls_id (λ r, of_resource kind ref r && in_force final r)) in Hid.
  destruct (List.filter _ _) as [|a [|b rest]] eqn:E; [cbn; lia..|exfalso].
  assert (∀ r, r ∈ a :: b :: rest → r ∈ l_leases (run cs empty_ledger) ∧ of_resource kind ref r && in_force final r = true) as Hin
    by (intros r; by rewrite <-E, filter_elem).
  destruct (Hin a ltac:(set_solver)) as [Ha Pa], (Hin b ltac:(set_solver)) as [Hb Pb].
  unfold of_resource in *. b2p. cbn in Hid. apply list.NoDup_cons in Hid as [[Hne _]%not_elem_of_cons _]. apply Hne.
  apply Hex; [done|done| |naive_solver..]. unfold same_resource. intuition congruence.
Qed.

End with_parameters.

(** ** Witnesses and the counterexample *)

(** Two holders ask for one resource half a second apart, the first lease lasting
    a second. *)
Definition contended : list ledger_call :=
  [AcquireLease "lease-a" "kaggle" "kernel" "holder-a" (utc 11250000) 10250000;
   AcquireLease "lease-b" "kaggle" "kernel" "holder-b" (utc 12750000) 10750000].

Lemma resource_lease_mutual_exclusion_witness :
  (length (List.filter (λ r, of_resource "kaggle" "kernel" r && in_force 10800000 r)
    (l_leases (ledger_run Scenario.plain Scenario.decode_event Scenario.dump_event 0 contended empty_ledger))) ≤ 1)%nat.
Proof.
  apply (resource_lease_mutual_exclusion Scenario.plain Scenario.decode_event Scenario.dump_event 0 contended 10250000 10800000 "kaggle" "kernel");
    cbn; unfold sharp, valid_instant, MICRO, DAY; repeat split; done || lia.
Defined.

(** The same two requests, the second one read on the whole second. *)
Definition overlapping : list ledger_call :=
  [AcquireLease "lease-a" "kaggle" "kernel" "holder-a" (utc 11500000) 10250000;
   AcquireLease "lease-b" "kaggle" "kernel" "holder-b" (utc 12750000) 11000000].

(** The exclusion fails for a clock reading on a whole second.  Both leases of
    this execution are granted, and a quarter of a second later both are in
    force and neither has reached its deadline: the text of 11 s sorts after the
    text of 11.5 s, so the second call did not see the first lease. *)
Theorem whole_second_breaks_lease_exclusion :
  let l := ledger_run Scenario.plain Scenario.decode_event Scenario.dump_event 0 overlapping empty_ledger in
  List.filter (λ r, of_resource "kaggle" "kernel" r && in_force 11250000 r) (l_leases l) =
    [mk_lease "lease-a" "kaggle" "kernel" "holder-a" 1 10250000 11500000 None;
     mk_lease "lease-b" "kaggle" "kernel" "holder-b" 2 11000000 12750000 None].
Proof. vm_compute. reflexivity. Qed.
