(* ===== verification/LedgerHead.v ===== *)
(** * LedgerHead: the checkpoint HEAD only ever names verified checkpoints

    A candidate climbs CANDIDATE, UPLOADED, READBACK_VERIFIED,
    RESTORE_VERIFIED, VERIFIED, or falls to FAILED; [promote_checkpoint] moves
    HEAD by compare-and-swap on its generation and parent. *)

From S2P Require Import Prelude Time Json LedgerState LedgerOperations LedgerEffects LedgerServices LedgerEvents.
From S2P Require Import LedgerLeases LedgerCheckpoints LedgerSafety LedgerEvolution.

#[local] Set Default Proof Using "Type".
#[local] Set Proof Using Clear Unused.

(** ** Candidates *)

(** The rung a status stands on; FAILED can be reached from every rung below
    VERIFIED and is left by none. *)
Definition rung (status : string) : option nat :=
  if status == "CANDIDATE" then Some 0%nat else if status == "UPLOADED" then Some 1%nat
  else if status == "READBACK_VERIFIED" then Some 2%nat else if status == "RESTORE_VERIFIED" then Some 3%nat
  else if status == "VERIFIED" then Some 4%nat else None.

(** Two versions of one candidate: the identity stays; a version or package
    that was recorded stays; the status climbs, or falls to FAILED; VERIFIED and
    FAILED are final. *)
Definition same_candidate (a b : candidate_row) : Prop :=
  cc_id b = cc_id a ∧ cc_service b = cc_service a ∧ cc_operation b = cc_operation a ∧ cc_dataset b = cc_dataset a ∧
  cc_manifest_sha256 b = cc_manifest_sha256 a ∧ cc_source b = cc_source a ∧ cc_generation b = cc_generation a ∧
  cc_master b = cc_master a ∧ cc_epoch b = cc_epoch a ∧ cc_manifest b = cc_manifest a ∧
  (cc_version a ≠ None → cc_version b = cc_version a) ∧
  (cc_package a ≠ None → cc_package b = cc_package a) ∧
  (cc_status b = cc_status a ∨
   (cc_status b = "FAILED" ∧ cc_status a ≠ "VERIFIED") ∨
   (∃ m n, rung (cc_status a) = Some m ∧ rung (cc_status b) = Some n ∧ (m < n)%nat)).

#[export] Instance same_candidate_preorder : PreOrder same_candidate.
Proof.
  split; [intros a; unfold same_candidate; intuition|].
  intros a b c (H1 & H2 & H3 & H4 & H5 & H6 & H7 & H8 & H9 & H10 & V & P & S)
    (K1 & K2 & K3 & K4 & K5 & K6 & K7 & K8 & K9 & K10 & V' & P' & S').
  unfold same_candidate. split_and!; try congruence.
  - intros Hn. specialize (V Hn). rewrite V'; congruence.
  - intros Hn. specialize (P Hn). rewrite P'; congruence.
  - destruct S as [E|[[E N]|(m & n & E1 & E2 & L)]].
    + rewrite <-E. done.
    + destruct S' as [E'|[[E' N']|(m' & n' & E1' & E2' & L')]]; [right; left; split; congruence|by right; left|].
      rewrite E in E1'. done.
    + destruct S' as [E'|[[E' N']|(m' & n' & E1' & E2' & L')]].
      * right. right. exists m, n. by rewrite E'.
      * right. left. split; [done|]. intros Hv. rewrite Hv in E1. injection E1 as <-.
        assert (n ≤ 4)%nat; [|lia]. revert E2. unfold rung. repeat case_match; intros [= <-]; lia.
      * right. right. exists m, n'. rewrite E2 in E1'. injection E1' as <-. split_and!; [done|done|lia].
Qed.

(** A statement that moves a candidate up the ladder. *)
Lemma same_candidate_climb c version status failure verified m n :
  rung (cc_status c) = Some m → rung status = Some n → (m < n)%nat → (cc_version c ≠ None → version = cc_version c) →
  same_candidate c (cc_with c version status failure verified (cc_package c)).
Proof. intros. unfold same_candidate. cbn. split_and!; try done. right. right. eauto. Qed.

Lemma evolves_update_versions (p : candidate_row → bool) f :
  (∀ c, p c = true → same_candidate c (f c)) → evolves l_candidates (grows same_candidate) (update_versions p f).
Proof.
  intros H l. unfold update_versions. case_match; [reflexivity|]. by apply grows_update; [apply _|].
Qed.

Section with_parameters.
Context (sha256 : string → string).
Context (validate_json : string → option RuntimeEvent).
Context (model_dump : RuntimeEvent → list (string * json)).
Context (heartbeat_coalesce : Z).
Abbreviation step := (ledger_step sha256 validate_json model_dump heartbeat_coalesce).
Abbreviation run := (ledger_run sha256 validate_json model_dump heartbeat_coalesce).

Lemma candidates_evolve c : evolves l_candidates (grows same_candidate) (step c).
Proof.
  destruct c; unfold_call; evolve.
  all: try evolve_rows.
  - apply evolves_update_versions. intros c Hp. b2p. destruct Hp as [[_ Hst] Hv].
    eapply same_candidate_climb; [by rewrite Hst|done|lia|done].
  - destruct (cc_package r) as [pk|] eqn:E; unfold same_candidate, cc_with; cbn; split_and!; try done; by left.
  - destruct H as [_ H]. by eapply same_candidate_climb; [rewrite H|..]; [done|done|lia|].
  - destruct H as [_ H]. by eapply same_candidate_climb; [rewrite H|..]; [done|done|lia|].
  - destruct H as [_ H]. by eapply same_candidate_climb; [rewrite H|..]; [done|done|lia|].
  - destruct H as [_ H]. unfold same_candidate, cc_with. cbn. split_and!; try done. right. by left.
  - destruct H as [_ H]. by eapply same_candidate_climb; [rewrite H|..]; [done|done|lia|].
Qed.

Lemma run_candidates cs l : grows same_candidate (l_candidates l) (l_candidates (run cs l)).
Proof. apply (evolves_run _ _). intros c. apply candidates_evolve. Qed.

(** ** HEAD *)

(** A verified candidate of a service. *)
Definition verified_in (cs : list candidate_row) (service id : string) : Prop :=
  ∃ r, r ∈ cs ∧ cc_id r = id ∧ cc_service r = service ∧ cc_status r = "VERIFIED".

Definition head_ok (cs : list candidate_row) (h : head_row) : Prop :=
  1 ≤ hd_generation h ∧ ∃ id, hd_current h = Some id ∧ verified_in cs (hd_service h) id ∧
  ∀ p, hd_previous h = Some p → p ≠ id ∧ verified_in cs (hd_service h) p.

Lemma verified_final a b : same_candidate a b → cc_status a = "VERIFIED" → cc_status b = "VERIFIED".
Proof.
  intros (_ & _ & _ & _ & _ & _ & _ & _ & _ & _ & _ & _ & S) Ha. destruct S as [E|[[E N]|(m & n & E1 & E2 & L)]]; [congruence|done|].
  rewrite Ha in E1. injection E1 as <-. revert E2. unfold rung. repeat case_match; intros [= <-]; lia.
Qed.

Lemma verified_in_grows cs cs' service id :
  grows same_candidate cs cs' → verified_in cs service id → verified_in cs' service id.
Proof.
  intros Hg (r & Hr & Hid & Hs & Hst). destruct (grows_elem _ _ _ _ Hg Hr) as (r' & Hr' & Hsame). exists r'.
  pose proof (verified_final _ _ Hsame Hst). unfold same_candidate in Hsame. intuition congruence.
Qed.

Lemma head_ok_grows cs cs' h : grows same_candidate cs cs' → head_ok cs h → head_ok cs' h.
Proof.
  intros Hg (Hgen & id & Hid & Hv & Hp). split; [done|]. exists id. split_and!; [done|by eapply verified_in_grows|].
  intros p E. destruct (Hp p E). split; [done|]. by eapply verified_in_grows.
Qed.

(** The head before a promotion: its generation and current checkpoint, 0 and
    none when the service has no head yet. *)
Definition head_position (kind : string) (l : ledger) : Z * option string :=
  match List.find (by_hd kind) (l_heads l) with Some h => (hd_generation h, hd_current h) | None => (0, None) end.

(** What a promotion that is not a replay does to the heads. *)
Definition advance_head (kind id : string) (g : Z) (parent : option string) (now : Z) (r : head_row) : head_row :=
  if by_hd kind r && (hd_generation r == g) && (hd_current r == parent)
  then mk_head (hd_service r) (hd_generation r + 1) (Some id) (hd_current r) now else r.

Definition heads_after (kind id : string) (g : Z) (parent : option string) (now : Z) (l : ledger) : list head_row :=
  match List.find (by_hd kind) (l_heads l) with
  | None => (l_heads l ++ [mk_head kind (g + 1) (Some id) parent now])%list
  | Some _ => map (advance_head kind id g parent now) (l_heads l)
  end.

(** The promoted candidate is VERIFIED afterwards. *)
Lemma candidate_verified_after c id cs now :
  List.find (by_cc_id id) cs = Some c → cc_status c = "RESTORE_VERIFIED" →
  verified_in (map (λ r, if by_cc_id id r && (cc_status r == "RESTORE_VERIFIED")
                         then cc_with r (cc_version r) "VERIFIED" (cc_failure r) (Some now) (cc_package r) else r) cs)
    (cc_service c) id.
Proof.
  intros [Hc Hid]%find_some_iff Hst. exists (cc_with c (cc_version c) "VERIFIED" (cc_failure c) (Some now) (cc_package c)).
  split.
  - apply elem_of_update. exists c. split; [done|]. by rewrite Hid, Hst, bool_decide_eq_true_2.
  - unfold by_cc_id in Hid. b2p. done.
Qed.

Lemma candidate_verified c id cs :
  List.find (by_cc_id id) cs = Some c → cc_status c = "VERIFIED" → verified_in cs (cc_service c) id.
Proof. intros [Hc Hid]%find_some_iff Hst. exists c. unfold by_cc_id in Hid. b2p. done. Qed.

Lemma find_advanced kind id g parent now heads h0 :
  List.find (by_hd kind) heads = Some h0 → hd_generation h0 = g → hd_current h0 = parent →
  List.find (by_hd kind) (map (advance_head kind id g parent now) heads) = Some (mk_head kind (g + 1) (Some id) parent now).
Proof.
  intros Hf <- <-. rewrite find_map_update, Hf by (intros r; unfold advance_head; by case_match). cbn.
  apply find_some_iff in Hf as [_ Hk]. unfold advance_head. rewrite Hk, !bool_decide_eq_true_2 by done. cbn.
  unfold by_hd in Hk. b2p. by rewrite Hk.
Qed.

(** A promotion either finds HEAD where it wanted to bring it, or moves it. *)
Inductive promoted (kind id : string) (g : Z) (parent : option string) (now : Z) (l : ledger) : head_row → ledger → Prop :=
| promoted_before h :
    List.find (by_hd kind) (l_heads l) = Some h → hd_current h = Some id →
    promoted kind id g parent now l h l
| promoted_now c h l' :
    h = mk_head kind (g + 1) (Some id) parent now → List.find (by_cc_id id) (l_candidates l) = Some c → cc_service c = kind →
    (cc_status c = "RESTORE_VERIFIED" ∨ cc_status c = "VERIFIED") → cc_generation c = g → cc_source c = parent →
    head_position kind l = (g, parent) → (∀ p, parent = Some p → p ≠ id) →
    l_heads l' = heads_after kind id g parent now l → verified_in (l_candidates l') kind id →
    promoted kind id g parent now l h l'.

Lemma promote_cases kind id g parent now l h l' :
  promote_checkpoint kind id g parent now l = (Ret h, l') → promoted kind id g parent now l h l'.
Proof.
  unfold promote_checkpoint. intros H. run_inv; tables; b2p; subst kind.
  1: { apply promoted_before; [done|]. rewrite H in Heqb. by destruct Heqb. }
  all: destruct Hrun1 as [[[Hg Hp] Hcg] Hcs]; apply mem_true in Hrun0;
    assert (cc_status c = "RESTORE_VERIFIED" ∨ cc_status c = "VERIFIED") as Hst by set_solver.
  1,2: change (map (λ r, _) (l_heads l)) with (map (advance_head (cc_service c) id g parent now) (l_heads l)) in H;
    rewrite (find_advanced _ _ _ _ _ _ h0 Heqo0 Hg Hp) in H; injection H as <-;
    assert (∀ p, parent = Some p → p ≠ id) as Hne
      by (intros p E; unfold head_valid in Hrun3; cbn in Hrun3; rewrite Hp, E in Hrun3; b2p; naive_solver).
  3,4: rewrite find_app, Heqo0 in H; cbn in H; unfold by_hd in H; cbn in H;
    rewrite bool_decide_eq_true_2 in H by done; subst g parent; injection H as <-.
  all: apply (promoted_now _ _ _ _ _ _ c); try done; unfold head_position, heads_after; rewrite ?Heqo0; cbn;
    first [done | congruence | by apply candidate_verified_after | apply candidate_verified; naive_solver].
Qed.

Lemma step_heads c l l' :
  step c l = (Ret tt, l') → (∀ h, h ∈ l_heads l → head_ok (l_candidates l) h) → ∀ h, h ∈ l_heads l' → head_ok (l_candidates l') h.
Proof.
  intros H Hok. assert (grows same_candidate (l_candidates l) (l_candidates l')) as Hg.
  { pose proof (candidates_evolve c l) as Hg. by rewrite H in Hg. }
  destruct (match c with PromoteCheckpoint _ _ _ _ _ => true | _ => false end) eqn:Ec.
  - destruct c; try discriminate Ec. apply discard_inv in H as (h & H). apply promote_cases in H.
    destruct H as [h Hf Hc|cand h l' Eh' Hf Hs Hst Hcg Hcs Hpos Hne Hheads Hv]; [done|].
    intros x Hx. rewrite Hheads in Hx. unfold heads_after, head_position in *.
    destruct (List.find (by_hd kind) (l_heads l)) as [h0|] eqn:Eh.
    + apply list_elem_of_fmap in Hx as (y & -> & Hy). specialize (Hok y Hy). unfold advance_head.
      destruct (by_hd kind y && _ && _) eqn:Ep; [|by apply (head_ok_grows _ _ _ Hg)].
      unfold by_hd in Ep. b2p. destruct Ep as [[Ek Eg] Ep]. destruct Hok as (Hgen & id0 & Hid0 & Hv0 & _).
      split; cbn; [lia|]. exists checkpoint_id. rewrite Ek in *. split_and!; [done|done|].
      intros p E. split; [apply Hne; congruence|]. apply (verified_in_grows _ _ _ _ Hg). congruence.
    + apply elem_of_app in Hx as [Hx| ->%list_elem_of_singleton]; [by apply (head_ok_grows _ _ _ Hg), Hok|].
      injection Hpos as <- <-. split; cbn; [lia|]. by exists checkpoint_id.
  - assert (keeps l_heads (step c)) as Hk.
    { destruct c; try discriminate Ec; unfold_call; frame. apply keeps_except_integrity; frame. }
    rewrite (keeps_inv _ _ _ _ _ Hk H). intros h Hh. by apply (head_ok_grows _ _ _ Hg), Hok.
Qed.

(** C3: HEAD is always verified.  In every execution, each service's HEAD has a
    generation of at least one and names a candidate of that service whose
    status is VERIFIED; the previous checkpoint it keeps is another VERIFIED
    candidate of the service. *)
Theorem head_is_always_verified cs h :
  let l := run cs empty_ledger in
  h ∈ l_heads l →
  1 ≤ hd_generation h ∧ ∃ id, hd_current h = Some id ∧ verified_in (l_candidates l) (hd_service h) id ∧
  ∀ p, hd_previous h = Some p → p ≠ id ∧ verified_in (l_candidates l) (hd_service h) p.
Proof.
  cbn zeta. revert h. apply (run_invariant _ _ _ _ (λ l, ∀ h, h ∈ l_heads l → head_ok (l_candidates l) h)).
  - intros c l l' Hl H. by apply (step_heads c l).
  - by intros h ?%not_elem_of_nil.
Qed.

(** C5: HEAD moves by compare-and-swap.  A promotion that returns either found the
    checkpoint already at HEAD and changed nothing, or found HEAD exactly at the
    expected generation and parent, with a restore-verified candidate made for
    that very generation and parent; HEAD then stands one generation higher, at
    the checkpoint, keeping the parent as previous. *)
Theorem promotion_is_compare_and_swap kind id g parent now l h l' :
  promote_checkpoint kind id g parent now l = (Ret h, l') →
  (l' = l ∧ hd_current h = Some id ∧ List.find (by_hd kind) (l_heads l) = Some h) ∨
  (head_position kind l = (g, parent) ∧ h = mk_head kind (g + 1) (Some id) parent now ∧
   l_heads l' = heads_after kind id g parent now l ∧
   ∃ c, List.find (by_cc_id id) (l_candidates l) = Some c ∧ cc_service c = kind ∧
     (cc_status c = "RESTORE_VERIFIED" ∨ cc_status c = "VERIFIED") ∧ cc_generation c = g ∧ cc_source c = parent).
Proof. intros []%promote_cases; [by left|right]. split_and!; try done. eauto 10. Qed.

(** VERIFIED and FAILED are final: whatever is called later, a candidate with
    one of these statuses keeps it, with its manifest hash, lineage and the
    version it was uploaded as. *)
Theorem settled_candidate_is_final cs l c :
  c ∈ l_candidates l → cc_status c = "VERIFIED" ∨ cc_status c = "FAILED" →
  ∃ c', c' ∈ l_candidates (run cs l) ∧ cc_id c' = cc_id c ∧ cc_status c' = cc_status c ∧
    cc_manifest_sha256 c' = cc_manifest_sha256 c ∧ cc_generation c' = cc_generation c ∧ cc_source c' = cc_source c ∧
    (cc_version c ≠ None → cc_version c' = cc_version c).
Proof.
  intros Hc Hst. destruct (grows_elem _ _ _ _ (run_candidates cs l) Hc) as (c' & Hc' & Hs).
  assert (cc_status c' = cc_status c) as Est.
  { destruct Hst as [E|E]; [rewrite E; by apply (verified_final c)|].
    destruct Hs as (_ & _ & _ & _ & _ & _ & _ & _ & _ & _ & _ & _ & [?|[[? ?]|(m & n & Em & _)]]); [done|congruence|].
    by rewrite E in Em. }
  exists c'. unfold same_candidate in Hs. naive_solver.
Qed.

End with_parameters.

(** ** Witnesses *)

Definition first_head : head_row := mk_head MASTER_SERVICE_KIND 1 (Some "cp-1") None 5500000.

Lemma head_is_always_verified_witness :
  let l := Scenario.run Scenario.promoted in
  1 ≤ hd_generation first_head ∧
  ∃ id, hd_current first_head = Some id ∧ verified_in (l_candidates l) (hd_service first_head) id ∧
    ∀ p, hd_previous first_head = Some p → p ≠ id ∧ verified_in (l_candidates l) (hd_service first_head) p.
Proof.
  apply (head_is_always_verified Scenario.plain Scenario.decode_event Scenario.dump_event 60000000 Scenario.promoted first_head).
  apply list_elem_of_In. vm_compute. by left.
Defined.

Lemma promotion_is_compare_and_swap_witness :
  let l := Scenario.run Scenario.saved in
  let l' := Scenario.run Scenario.promoted in
  (l' = l ∧ hd_current first_head = Some "cp-1" ∧ List.find (by_hd MASTER_SERVICE_KIND) (l_heads l) = Some first_head) ∨
  (head_position MASTER_SERVICE_KIND l = (0, None) ∧
   first_head = mk_head MASTER_SERVICE_KIND (0 + 1) (Some "cp-1") None 5500000 ∧
   l_heads l' = heads_after MASTER_SERVICE_KIND "cp-1" 0 None 5500000 l ∧
   ∃ c, List.find (by_cc_id "cp-1") (l_candidates l) = Some c ∧ cc_service c = MASTER_SERVICE_KIND ∧
     (cc_status c = "RESTORE_VERIFIED" ∨ cc_status c = "VERIFIED") ∧ cc_generation c = 0 ∧ cc_source c = None).
Proof.
  apply (promotion_is_compare_and_swap MASTER_SERVICE_KIND "cp-1" 0 None 5500000 (Scenario.run Scenario.saved) first_head
    (Scenario.run Scenario.promoted)).
  vm_compute. reflexivity.
Defined.

Definition settled : candidate_row :=
  mk_candidate "cp-1" MASTER_SERVICE_KIND "op-1" "dataset" (Some "v1") Scenario.hash64 None 0 "master-1" 1 "VERIFIED" None
    5250000 (Some 5500000) None None.

Lemma settled_candidate_is_final_witness :
  ∃ c', c' ∈ l_candidates (ledger_run Scenario.plain Scenario.decode_event Scenario.dump_event 60000000
                             [FailCheckpoint "cp-1" "late"] (Scenario.run Scenario.promoted)) ∧
    cc_id c' = "cp-1" ∧ cc_status c' = "VERIFIED" ∧ cc_manifest_sha256 c' = Scenario.hash64 ∧ cc_generation c' = 0 ∧
    cc_source c' = None ∧ (Some "v1" ≠ None → cc_version c' = Some "v1").
Proof.
  apply (settled_candidate_is_final Scenario.plain Scenario.decode_event Scenario.dump_event 60000000
    [FailCheckpoint "cp-1" "late"] (Scenario.run Scenario.promoted) settled).
  - apply list_elem_of_In. vm_compute. by left.
  - by left.
Defined.
