(* ===== verification/Lifecycle.v ===== *)
(** * Lifecycle: the master's state machine

    Models orchestrator/master/state_machine.py: the states, signals and
    effects, the transition table and [transition_master]. *)

From S2P Require Import Prelude.

Module MasterState.
Inductive t : Set :=
| ABSENT | REQUESTED | STARTING | RESTORING | REGISTERING | ACTIVE | DRAINING | CHECKPOINTING | STOPPED | FAILED | FENCED
| CHECKPOINT_FAILED | ORPHANED.

#[global] Instance eq_dec : EqDecision t.
Proof. solve_decision. Defined.

Definition value (s : t) : string :=
  match s with
  | ABSENT => "ABSENT" | REQUESTED => "REQUESTED" | STARTING => "STARTING" | RESTORING => "RESTORING"
  | REGISTERING => "REGISTERING" | ACTIVE => "ACTIVE" | DRAINING => "DRAINING" | CHECKPOINTING => "CHECKPOINTING"
  | STOPPED => "STOPPED" | FAILED => "FAILED" | FENCED => "FENCED" | CHECKPOINT_FAILED => "CHECKPOINT_FAILED"
  | ORPHANED => "ORPHANED"
  end.

Definition all : list t :=
  [ABSENT; REQUESTED; STARTING; RESTORING; REGISTERING; ACTIVE; DRAINING; CHECKPOINTING; STOPPED; FAILED; FENCED;
   CHECKPOINT_FAILED; ORPHANED].

(** [MasterState(text)] *)
Definition of_value (text : string) : outcome t :=
  match List.find (λ s, value s == text) all with
  | Some s => Ret s
  | None => throw ValueError (text +:+ " is not a valid MasterState")
  end.
End MasterState.

Module MasterSignal.
Inductive t : Set :=
| REQUEST | DATASET_READY | SOURCE_PUSHED | RUN_TRIGGERED | SERVICE_READY | DRAIN | DRAINED | CHECKPOINT_VERIFIED
| CHECKPOINT_FAILED | STOP | FAIL | FENCE | ORPHAN | RETRY_CHECKPOINT.

#[global] Instance eq_dec : EqDecision t.
Proof. solve_decision. Defined.

Definition value (g : t) : string :=
  match g with
  | REQUEST => "request" | DATASET_READY => "dataset_ready" | SOURCE_PUSHED => "source_pushed"
  | RUN_TRIGGERED => "run_triggered" | SERVICE_READY => "service_ready" | DRAIN => "drain" | DRAINED => "drained"
  | CHECKPOINT_VERIFIED => "checkpoint_verified" | CHECKPOINT_FAILED => "checkpoint_failed" | STOP => "stop"
  | FAIL => "fail" | FENCE => "fence" | ORPHAN => "orphan" | RETRY_CHECKPOINT => "retry_checkpoint"
  end.
End MasterSignal.

Module MasterEffect.
Inductive t : Set :=
| NONE | ENSURE_DATASET | PUSH_NOTEBOOK | TRIGGER_RUN | BEGIN_DRAIN | PUBLISH_CHECKPOINT | STOP_RUNTIME.
End MasterEffect.

Record Transition := mk_Transition {
  previous : MasterState.t; signal : MasterSignal.t; current : MasterState.t; next_effect : MasterEffect.t;
}.

(** [_TRANSITIONS] *)
Definition transitions (s : MasterState.t) (g : MasterSignal.t) : option (MasterState.t * MasterEffect.t) :=
  match s, g with
  | MasterState.ABSENT, MasterSignal.REQUEST => Some (MasterState.REQUESTED, MasterEffect.ENSURE_DATASET)
  | MasterState.REQUESTED, MasterSignal.DATASET_READY => Some (MasterState.STARTING, MasterEffect.PUSH_NOTEBOOK)
  | MasterState.STARTING, MasterSignal.SOURCE_PUSHED => Some (MasterState.RESTORING, MasterEffect.TRIGGER_RUN)
  | MasterState.RESTORING, MasterSignal.RUN_TRIGGERED => Some (MasterState.REGISTERING, MasterEffect.NONE)
  | MasterState.REGISTERING, MasterSignal.SERVICE_READY => Some (MasterState.ACTIVE, MasterEffect.NONE)
  | MasterState.ACTIVE, MasterSignal.DRAIN => Some (MasterState.DRAINING, MasterEffect.BEGIN_DRAIN)
  | MasterState.DRAINING, MasterSignal.DRAINED => Some (MasterState.CHECKPOINTING, MasterEffect.PUBLISH_CHECKPOINT)
  | MasterState.CHECKPOINTING, MasterSignal.CHECKPOINT_VERIFIED => Some (MasterState.STOPPED, MasterEffect.STOP_RUNTIME)
  | MasterState.CHECKPOINTING, MasterSignal.CHECKPOINT_FAILED => Some (MasterState.CHECKPOINT_FAILED, MasterEffect.NONE)
  | MasterState.CHECKPOINT_FAILED, MasterSignal.RETRY_CHECKPOINT =>
      Some (MasterState.CHECKPOINTING, MasterEffect.PUBLISH_CHECKPOINT)
  | _, _ => None
  end.

Definition transition_master (s : MasterState.t) (g : MasterSignal.t) : outcome Transition :=
  if (g == MasterSignal.FENCE) && negb (mem s [MasterState.STOPPED; MasterState.FENCED])
  then Ret (mk_Transition s g MasterState.FENCED MasterEffect.STOP_RUNTIME)
  else if (g == MasterSignal.FAIL) && negb (mem s [MasterState.STOPPED; MasterState.FENCED])
  then Ret (mk_Transition s g MasterState.FAILED MasterEffect.NONE)
  else if (g == MasterSignal.ORPHAN) && negb (mem s [MasterState.STOPPED; MasterState.FENCED])
  then Ret (mk_Transition s g MasterState.ORPHANED MasterEffect.NONE)
  else if (g == MasterSignal.STOP)
          && mem s [MasterState.REQUESTED; MasterState.STARTING; MasterState.RESTORING; MasterState.REGISTERING;
                    MasterState.FAILED; MasterState.FENCED; MasterState.ORPHANED]
  then Ret (mk_Transition s g MasterState.STOPPED MasterEffect.STOP_RUNTIME)
  else match transitions s g with
       | Some (s', effect) => Ret (mk_Transition s g s' effect)
       | None => throw InvalidMasterTransition
                   ("invalid master transition: " +:+ MasterState.value s +:+ " + " +:+ MasterSignal.value g)
       end.

(** The state after a list of signals, if every one of them is valid. *)
Fixpoint signals (s : MasterState.t) (gs : list MasterSignal.t) : outcome MasterState.t :=
  match gs with
  | [] => Ret s
  | g :: gs' => t ← transition_master s g; signals (current t) gs'
  end.

(** ** Lemmas *)

Lemma signals_app s gs gs' : signals s (gs ++ gs') = (s' ← signals s gs; signals s' gs').
Proof. revert s. induction gs as [|g gs IH]; intros s; [done|]. cbn. by destruct (transition_master s g) as [t|e]; cbn. Qed.

Lemma of_value_value s : MasterState.of_value (MasterState.value s) = Ret s.
Proof. by destruct s. Qed.

(** The only way from [ABSENT] into each state of the start-up. *)
Definition startup (s : MasterState.t) : option (list MasterSignal.t) :=
  match s with
  | MasterState.ABSENT => Some []
  | MasterState.REQUESTED => Some [MasterSignal.REQUEST]
  | MasterState.STARTING => Some [MasterSignal.REQUEST; MasterSignal.DATASET_READY]
  | MasterState.RESTORING => Some [MasterSignal.REQUEST; MasterSignal.DATASET_READY; MasterSignal.SOURCE_PUSHED]
  | MasterState.REGISTERING =>
      Some [MasterSignal.REQUEST; MasterSignal.DATASET_READY; MasterSignal.SOURCE_PUSHED; MasterSignal.RUN_TRIGGERED]
  | MasterState.ACTIVE =>
      Some [MasterSignal.REQUEST; MasterSignal.DATASET_READY; MasterSignal.SOURCE_PUSHED; MasterSignal.RUN_TRIGGERED;
            MasterSignal.SERVICE_READY]
  | _ => None
  end.

Lemma startup_step s g t p :
  transition_master s g = Ret t → startup (current t) = Some p → ∃ p', startup s = Some p' ∧ p = (p' ++ [g])%list.
Proof. destruct s, g; cbn; intros [= <-] [= <-]; by eexists. Qed.

Lemma startup_unique gs s p : signals MasterState.ABSENT gs = Ret s → startup s = Some p → gs = p.
Proof.
  revert s p. induction gs as [|g gs IH] using rev_ind; intros s p; [by intros [= <-] [= <-]|].
  rewrite signals_app. destruct (signals MasterState.ABSENT gs) as [s'|] eqn:E; cbn; [|done].
  destruct (transition_master s' g) as [t|] eqn:Et; cbn; [|done]. intros [= <-] Hp.
  destruct (startup_step _ _ _ _ Et Hp) as (p' & Hp' & ->). by rewrite (IH s' p').
Qed.

(** [n] failed checkpoints, each followed by a retry. *)
Fixpoint retries (n : nat) : list MasterSignal.t :=
  match n with
  | O => []
  | S n' => MasterSignal.CHECKPOINT_FAILED :: MasterSignal.RETRY_CHECKPOINT :: retries n'
  end.

(** A signal that tears the master down. *)
Definition forced (g : MasterSignal.t) : bool := mem g [MasterSignal.FENCE; MasterSignal.FAIL; MasterSignal.ORPHAN].

Lemma checkpointing_stops gs :
  signals MasterState.CHECKPOINTING gs = Ret MasterState.STOPPED → Forall (λ g, forced g = false) gs →
  ∃ n, gs = (retries n ++ [MasterSignal.CHECKPOINT_VERIFIED])%list.
Proof.
  remember (length gs) as k eqn:Ek. revert gs Ek. induction k as [k IH] using lt_wf_ind. intros gs ->.
  destruct gs as [|g gs]; [done|]. intros H [Hg HF]%list.Forall_cons. destruct g; try discriminate H; try discriminate Hg; cbn in H.
  - destruct gs as [|g gs]; [by exists 0%nat|]. by destruct g.
  - destruct gs as [|g gs]; [done|]. apply list.Forall_cons in HF as [Hg' HF].
    destruct g; try discriminate H; try discriminate Hg'. cbn in H.
    destruct (IH (length gs) ltac:(cbn; lia) gs eq_refl H HF) as (n & ->). by exists (S n).
Qed.

(** ** Properties *)

(** A master becomes ACTIVE only by the exact start-up: from [ABSENT], a
    sequence of signals ends in [ACTIVE] if and only if it is request, dataset
    ready, source pushed, run triggered, service ready, in this order and with
    nothing in between. *)
Theorem active_only_after_startup gs :
  signals MasterState.ABSENT gs = Ret MasterState.ACTIVE ↔
  gs = [MasterSignal.REQUEST; MasterSignal.DATASET_READY; MasterSignal.SOURCE_PUSHED; MasterSignal.RUN_TRIGGERED;
        MasterSignal.SERVICE_READY].
Proof. split; [|by intros ->]. intros H. by apply (startup_unique _ _ _ H). Qed.

(** A graceful stop is a verified checkpoint: without a fence, failure or
    orphan signal, a sequence takes an active master to [STOPPED] if and only
    if it is drain, drained, any number of failed and retried checkpoints, and
    last a verified checkpoint. *)
Theorem graceful_stop_needs_verified_checkpoint gs :
  Forall (λ g, forced g = false) gs →
  (signals MasterState.ACTIVE gs = Ret MasterState.STOPPED ↔
   ∃ n, gs = ([MasterSignal.DRAIN; MasterSignal.DRAINED] ++ retries n ++ [MasterSignal.CHECKPOINT_VERIFIED])%list).
Proof.
  intros HF. split.
  - destruct gs as [|g gs]; [done|]. intros H. apply list.Forall_cons in HF as [Hg HF].
    destruct g; try discriminate H; try discriminate Hg. cbn in H.
    destruct gs as [|g gs]; [done|]. apply list.Forall_cons in HF as [Hg' HF].
    destruct g; try discriminate H; try discriminate Hg'. cbn in H.
    destruct (checkpointing_stops gs H HF) as (n & ->). by exists n.
  - intros (n & ->). rewrite signals_app. cbn. induction n as [|n IH]; [done|].
    apply IH. clear. apply list.Forall_forall. intros g. rewrite !elem_of_app.
    intros [Hg|[Hg|Hg]]; [set_solver| |set_solver].
    induction n as [|n IHn]; [by apply not_elem_of_nil in Hg|]. cbn in Hg. set_solver.
Qed.

(** [STOPPED] is final: every signal is refused with
    [InvalidMasterTransition]; and a fenced master can only be stopped. *)
Theorem stopped_is_final g :
  (∃ msg, transition_master MasterState.STOPPED g = Exc (Exn InvalidMasterTransition msg)) ∧
  (∀ t, transition_master MasterState.FENCED g = Ret t → g = MasterSignal.STOP ∧ current t = MasterState.STOPPED).
Proof. split; destruct g; cbn; try (by eexists); intros t [= <-]; done. Qed.

Lemma graceful_stop_needs_verified_checkpoint_witness :
  signals MasterState.ACTIVE
    [MasterSignal.DRAIN; MasterSignal.DRAINED; MasterSignal.CHECKPOINT_FAILED; MasterSignal.RETRY_CHECKPOINT;
     MasterSignal.CHECKPOINT_VERIFIED] = Ret MasterState.STOPPED.
Proof.
  apply (graceful_stop_needs_verified_checkpoint
    [MasterSignal.DRAIN; MasterSignal.DRAINED; MasterSignal.CHECKPOINT_FAILED; MasterSignal.RETRY_CHECKPOINT;
     MasterSignal.CHECKPOINT_VERIFIED]); [repeat constructor|by exists 1%nat].
Defined.
