(* ===== verification/Uuid.v ===== *)
(** * Uuid: the textual form of [uuid.UUID]

    Models what the code uses of the standard library's [uuid]: [UUID(text)]
    and [str(uuid)].  A UUID is the 128-bit integer it carries. *)

From S2P Require Import Prelude Json.

Abbreviation UUID := N.

(** ** [int(text, 16)] *)

(** Hexadecimal digits with single underscores between them, then only blanks. *)
Fixpoint read_hex (after_digit : bool) (acc : N) (s : string) : option N :=
  match s with
  | EmptyString => if after_digit then Some acc else None
  | String c s' =>
      match hex_value c with
      | Some v => read_hex true (16 * acc + N.of_nat v) s'
      | None => if (c == "_"%char) && after_digit then read_hex false acc s'
                else if after_digit && is_space c && (lstrip s' == "") then Some acc
                else None
      end
  end.

(** The digits may follow ["0x"], and one underscore may follow that. *)
Definition after_base_prefix (s : string) : option N :=
  match s with
  | String "0" (String x s') =>
      if (x == "x"%char) || (x == "X"%char)
      then match s' with String "_" s'' => read_hex false 0 s'' | _ => read_hex false 0 s' end
      else read_hex false 0 s
  | _ => read_hex false 0 s
  end.

(** A text without ["-"], which [UUID] has removed. *)
Definition int16_of_text (s : string) : option N :=
  match lstrip s with
  | String "+" s' => after_base_prefix s'
  | s' => after_base_prefix s'
  end.

(** ** [UUID(text)] *)

(** [s.replace(p, "")] *)
Fixpoint remove_all (fuel : nat) (p s : string) : string :=
  match fuel with
  | O => s
  | S fuel' =>
      match s with
      | EmptyString => ""
      | String c s' =>
          match strip_prefix p s with
          | Some rest => remove_all fuel' p rest
          | None => String c (remove_all fuel' p s')
          end
      end
  end.

Definition remove (p s : string) : string := remove_all (S (String.length s)) p s.

Definition is_brace (c : Ascii.ascii) : bool := (c == "{"%char) || (c == "}"%char).

Fixpoint lstrip_braces (s : string) : string :=
  match s with String c s' => if is_brace c then lstrip_braces s' else s | EmptyString => "" end.

Fixpoint rstrip_braces (s : string) : string :=
  match s with
  | EmptyString => ""
  | String c s' => let r := rstrip_braces s' in if (r == "") && is_brace c then "" else String c r
  end.

(** [None] is [ValueError]. *)
Definition uuid_of_text (s : string) : option UUID :=
  let hex := remove "-" (rstrip_braces (lstrip_braces (remove "uuid:" (remove "urn:" s)))) in
  if (String.length hex =? 32)%nat then int16_of_text hex else None.

(** ** [str(uuid)] *)

Definition hex_char (n : N) : Ascii.ascii := hex_digit (N.to_nat (n mod 16)).

(** The low [w] hexadecimal digits of a number. *)
Fixpoint hex_text (w : nat) (n : N) : string :=
  match w with
  | O => ""
  | S w' => hex_text w' (n / 16) +:+ String (hex_char n) ""
  end.

Definition uuid_str (u : UUID) : string :=
  hex_text 8 (u / 16 ^ 24) +:+ "-" +:+ hex_text 4 (u / 16 ^ 20) +:+ "-" +:+ hex_text 4 (u / 16 ^ 16) +:+ "-"
  +:+ hex_text 4 (u / 16 ^ 12) +:+ "-" +:+ hex_text 12 u.

Definition valid_uuid (u : UUID) : Prop := (u < 2 ^ 128)%N.

Example uuid_example :
  uuid_of_text "{urn:uuid:12345678-1234-5678-1234-567812345678}" = Some 0x12345678123456781234567812345678%N ∧
  uuid_str 0x12345678123456781234567812345678%N = "12345678-1234-5678-1234-567812345678".
Proof. vm_compute. split; reflexivity. Qed.

(** ** Round trip *)

Definition is_hex (c : Ascii.ascii) : bool := match hex_value c with Some _ => true | None => false end.

Lemma hex_digit_cases (P : nat → Prop) :
  P 0%nat → P 1%nat → P 2%nat → P 3%nat → P 4%nat → P 5%nat → P 6%nat → P 7%nat → P 8%nat → P 9%nat → P 10%nat →
  P 11%nat → P 12%nat → P 13%nat → P 14%nat → P 15%nat → ∀ n, (n < 16)%nat → P n.
Proof. intros. do 16 (destruct n as [|n]; [done|]). lia. Qed.

Lemma hex_value_char n : hex_value (hex_char n) = Some (N.to_nat (n mod 16)).
Proof.
  unfold hex_char. assert (N.to_nat (n mod 16) < 16)%nat as H by (assert (n mod 16 < 16)%N by (apply N.mod_lt; done); lia).
  revert H. generalize (N.to_nat (n mod 16)). apply hex_digit_cases; vm_compute; reflexivity.
Qed.

Lemma length_hex_text w n : String.length (hex_text w n) = w.
Proof. revert n. induction w as [|w IH]; intros n; [done|]. cbn. rewrite string_length_app, IH. cbn. lia. Qed.

Lemma hex_text_hex w n : string_forallb is_hex (hex_text w n) = true.
Proof.
  revert n. induction w as [|w IH]; intros n; [done|]. cbn. rewrite string_forallb_app, IH. cbn. unfold is_hex.
  by rewrite hex_value_char.
Qed.

Lemma hex_text_app w k n : hex_text (w + k) n = hex_text w (n / 16 ^ N.of_nat k) +:+ hex_text k n.
Proof.
  revert n. induction k as [|k IH]; intros n.
  - cbn. by rewrite N.div_1_r, Nat.add_0_r, string_app_nil_r.
  - rewrite Nat.add_succ_r. cbn [hex_text]. rewrite IH, string_app_assoc. do 2 f_equal.
    rewrite N.Div0.div_div, Nat2N.inj_succ, N.pow_succ_r'. done.
Qed.

Lemma read_hex_text w n acc b s :
  read_hex b acc (hex_text (S w) n +:+ s) = read_hex true (acc * 16 ^ N.of_nat (S w) + n mod 16 ^ N.of_nat (S w)) s.
Proof.
  revert n acc b s. induction w as [|w IH]; intros n acc b s.
  - cbn [hex_text]. rewrite string_app_nil_l, string_app_cons, string_app_nil_l. cbn [read_hex]. rewrite hex_value_char, N2Nat.id.
    f_equal. change (16 ^ N.of_nat 1)%N with 16%N. lia.
  - change (hex_text (S (S w)) n) with (hex_text (S w) (n / 16) +:+ String (hex_char n) "").
    rewrite string_app_assoc, IH, string_app_cons, string_app_nil_l. cbn [read_hex]. rewrite hex_value_char, N2Nat.id. f_equal.
    rewrite (Nat2N.inj_succ (S w)), N.pow_succ_r'. set (k := (16 ^ N.of_nat (S w))%N).
    rewrite (N.Div0.mod_mul_r n 16 k). lia.
Qed.

(** A text without a pattern's first character does not contain the pattern. *)
Lemma remove_all_absent fuel c p s :
  string_forallb (λ x, x != c) s = true → remove_all fuel (String c p) s = s.
Proof.
  revert s. induction fuel as [|fuel IH]; intros s; [done|]. destruct s as [|x s]; [done|]. cbn. intros H. b2p.
  destruct H as [H Hs]. rewrite bool_decide_eq_false_2 by congruence. by rewrite IH.
Qed.

Lemma remove_dash_app fuel a s :
  string_forallb (λ x, x != "-"%char) a = true → (String.length (a +:+ s) < fuel)%nat →
  remove_all fuel "-" (a +:+ s) = a +:+ remove_all (fuel - String.length a) "-" s.
Proof.
  revert fuel. induction a as [|x a IH]; intros fuel Ha Hf.
  - rewrite !string_app_nil_l. cbn. by rewrite Nat.sub_0_r.
  - rewrite !string_app_cons in *. cbn in Ha. b2p. destruct Ha as [Hx Ha]. cbn in Hf.
    destruct fuel as [|fuel]; [lia|]. cbn [remove_all strip_prefix].
    rewrite bool_decide_eq_false_2 by congruence. by rewrite IH by (done || lia).
Qed.

Lemma forallb_impl (f g : Ascii.ascii → bool) s :
  (∀ c, f c = true → g c = true) → string_forallb f s = true → string_forallb g s = true.
Proof. intros H. induction s as [|c s IH]; [done|]. cbn. intros [Hc Hs]%andb_true_iff. rewrite H, IH; done. Qed.

(** Characters of a UUID's text. *)
Definition uuid_char (c : Ascii.ascii) : bool := is_hex c || (c == "-"%char).

Lemma hex_not (c x : Ascii.ascii) : is_hex x = false → is_hex c = true → (c != x) = true.
Proof. intros Hx Hc. b2p. intros ->. congruence. Qed.

Lemma remove_dash_hex w n fuel s :
  (String.length (hex_text w n +:+ String "-" s) < fuel)%nat →
  remove_all fuel "-" (hex_text w n +:+ String "-" s) = hex_text w n +:+ remove_all (fuel - w - 1) "-" s.
Proof.
  intros Hf. rewrite remove_dash_app; [|apply (forallb_impl is_hex); [by intros c; apply hex_not|apply hex_text_hex]|done].
  rewrite string_length_app, length_hex_text in Hf. cbn in Hf. rewrite length_hex_text. f_equal.
  destruct (fuel - w)%nat as [|k] eqn:E; [lia|]. cbn. by rewrite Nat.sub_0_r.
Qed.

Lemma uuid_text_chars u : string_forallb uuid_char (uuid_str u) = true.
Proof.
  unfold uuid_str. assert (∀ w n, string_forallb uuid_char (hex_text w n) = true) as H.
  { intros w n. apply (forallb_impl is_hex); [|apply hex_text_hex]. intros c. unfold uuid_char. by intros ->. }
  rewrite !string_forallb_app, !H. done.
Qed.

Lemma remove_absent c p s : string_forallb (λ x, x != c) s = true → remove (String c p) s = s.
Proof. apply remove_all_absent. Qed.

Lemma no_braces s : string_forallb (λ c, negb (is_brace c)) s = true → rstrip_braces (lstrip_braces s) = s.
Proof.
  intros H. assert (∀ s, string_forallb (λ c, negb (is_brace c)) s = true → rstrip_braces s = s) as Hr.
  { clear. induction s as [|c s IH]; [done|]. cbn. intros [Hc Hs]%andb_true_iff. rewrite IH by done.
    apply negb_true_iff in Hc. by rewrite Hc, andb_false_r. }
  destruct s as [|c s]; [done|]. cbn. pose proof H as [Hc _]%andb_true_iff. apply negb_true_iff in Hc. rewrite Hc. by apply Hr.
Qed.

Lemma remove_dashes u :
  remove "-" (uuid_str u) = hex_text 32 u.
Proof.
  unfold remove, uuid_str. rewrite !string_length_app, !length_hex_text.
  rewrite !(string_app_cons "-"), !string_app_nil_l.
  do 4 (rewrite remove_dash_hex by (repeat (rewrite string_length_app || rewrite length_hex_text || cbn [String.length]); cbn; lia)).
  rewrite <-(string_app_nil_r (hex_text 12 u)), remove_dash_app, string_app_nil_r.
  - rewrite (hex_text_app 20 12), (hex_text_app 16 4), (hex_text_app 12 4), (hex_text_app 8 4 (_ / _ / _)).
    by rewrite !string_app_assoc, !N.Div0.div_div.
  - apply (forallb_impl is_hex); [by intros c; apply hex_not|apply hex_text_hex].
  - rewrite string_app_nil_r, length_hex_text. cbn. lia.
Qed.

Lemma read_hex_32 u : valid_uuid u → int16_of_text (hex_text 32 u) = Some u.
Proof.
  intros Hu. assert (read_hex false 0 (hex_text 32 u) = Some u) as Hr.
  { rewrite <-(string_app_nil_r (hex_text 32 u)), read_hex_text. cbn [read_hex]. f_equal.
    rewrite N.mul_0_l, N.add_0_l. apply N.mod_small. exact Hu. }
  assert (Hh := hex_text_hex 32 u). assert (Hl := length_hex_text 32 u).
  destruct (hex_text 32 u) as [|a [|b s]]; [done|done|]. cbn in Hh. apply andb_true_iff in Hh as [Ha [Hb _]%andb_true_iff].
  unfold int16_of_text.
  assert (lstrip (String a (String b s)) = String a (String b s)) as ->.
  { cbn. assert (is_space a = false) as ->; [|done]. clear -Ha. revert Ha. destruct a as [[] [] [] [] [] [] [] []]; vm_compute; congruence. }
  assert (after_base_prefix (String a (String b s)) = Some u) as Hp.
  { rewrite <-Hr. unfold after_base_prefix. assert ((b == "x"%char) || (b == "X"%char) = false) as Eb.
    { clear -Hb. revert Hb. destruct b as [[] [] [] [] [] [] [] []]; vm_compute; congruence. }
    destruct a as [[] [] [] [] [] [] [] []]; try reflexivity. by rewrite Eb. }
  destruct a as [[] [] [] [] [] [] [] []]; try exact Hp. vm_compute in Ha. congruence.
Qed.

Lemma uuid_of_uuid_str u : valid_uuid u → uuid_of_text (uuid_str u) = Some u.
Proof.
  intros Hu. unfold uuid_of_text. assert (Hc := uuid_text_chars u).
  assert (∀ x, uuid_char x = false → string_forallb (λ c, c != x) (uuid_str u) = true) as Hx.
  { intros x Ex. apply (forallb_impl uuid_char); [|done]. intros c Ec. b2p. intros ->. congruence. }
  rewrite (remove_absent "u" "rn:"), (remove_absent "u" "uid:") by (by apply Hx).
  rewrite no_braces; [|apply (forallb_impl uuid_char); [|done]].
  - rewrite remove_dashes, length_hex_text. by apply read_hex_32.
  - intros c. unfold uuid_char, is_brace. destruct c as [[] [] [] [] [] [] [] []]; vm_compute; congruence.
Qed.

(** What [UUID(text)] accepts fits in 128 bits: 32 characters give at most 32
    digits. *)
Lemma hex_value_bound c v : hex_value c = Some v → (v < 16)%nat.
Proof. destruct c as [[] [] [] [] [] [] [] []]; cbn; intros [= <-]; lia. Qed.

Lemma read_hex_bound s : ∀ b acc v, read_hex b acc s = Some v → (v < (acc + 1) * 16 ^ N.of_nat (String.length s))%N.
Proof.
  induction s as [|c s IH]; intros b acc v; cbn [read_hex].
  - destruct b; [|done]. intros [= <-]. cbn. lia.
  - replace (N.of_nat (String.length (String c s))) with (N.succ (N.of_nat (String.length s))) by (cbn [String.length]; lia).
    rewrite N.pow_succ_r by lia. assert (0 < 16 ^ N.of_nat (String.length s))%N by (apply N.neq_0_lt_0, N.pow_nonzero; lia).
    destruct (hex_value c) as [d|] eqn:Ed.
    + apply hex_value_bound in Ed. intros Hv%IH. nia.
    + destruct (_ && b); [intros Hv%IH; nia|]. destruct (b && _ && _); [|done]. intros [= <-]. nia.
Qed.

Lemma length_lstrip s : (String.length (lstrip s) ≤ String.length s)%nat.
Proof. induction s as [|c s IH]; cbn; [done|]. destruct (is_space c); cbn; lia. Qed.

Lemma read_hex_bound_le n s v : read_hex false 0 s = Some v → (String.length s ≤ n)%nat → (v < 16 ^ N.of_nat n)%N.
Proof.
  intros H%read_hex_bound Hn. eapply N.lt_le_trans; [exact H|]. rewrite N.add_0_l, N.mul_1_l.
  apply N.pow_le_mono_r; lia.
Qed.

Lemma after_base_prefix_bound n s v : after_base_prefix s = Some v → (String.length s ≤ n)%nat → (v < 16 ^ N.of_nat n)%N.
Proof.
  unfold after_base_prefix. intros H Hn. repeat match type of H with match ?x with _ => _ end = _ => destruct x end;
    cbn [String.length] in Hn; (eapply read_hex_bound_le; [exact H|cbn [String.length]; lia]).
Qed.

Lemma uuid_of_text_valid s u : uuid_of_text s = Some u → valid_uuid u.
Proof.
  unfold uuid_of_text. destruct (_ =? 32)%nat eqn:E; [|done]. apply Nat.eqb_eq in E. revert E.
  generalize (remove "-" (rstrip_braces (lstrip_braces (remove "uuid:" (remove "urn:" s))))). intros x E H.
  change (u < 16 ^ N.of_nat 32)%N. unfold int16_of_text in H. pose proof (length_lstrip x) as Hl.
  repeat match type of H with match ?x with _ => _ end = _ => destruct x end;
    cbn [String.length] in Hl; (eapply after_base_prefix_bound; [exact H|cbn [String.length]; lia]).
Qed.

Lemma uuid_str_inj u v : valid_uuid u → valid_uuid v → uuid_str u = uuid_str v → u = v.
Proof. intros Hu%uuid_of_uuid_str Hv%uuid_of_uuid_str E. rewrite E in Hu. congruence. Qed.

(** [UUID(str(u))] is [u], for every 128-bit value. *)
Theorem uuid_roundtrip u : valid_uuid u → uuid_of_text (uuid_str u) = Some u.
Proof. apply uuid_of_uuid_str. Qed.

Lemma uuid_roundtrip_witness :
  uuid_of_text (uuid_str 0x12345678123456781234567812345678%N) = Some 0x12345678123456781234567812345678%N.
Proof. apply (uuid_roundtrip 0x12345678123456781234567812345678%N). vm_compute. reflexivity. Defined.
