(* ===== verification/Provider.v ===== *)
(** * Provider: terminal evidence, the runtime provider port and its double

    Models orchestrator/master/evidence.py (terminal evidence and
    [decide_terminal]), orchestrator/master/provider.py (the effect and receipt
    records and the [MasterRuntimeProvider] port, here a type class) and
    orchestrator/master/fake_kaggle.py ([FakeKaggleRuntime], an instance). *)

From S2P Require Import Prelude Json Uuid.

(** ** evidence.py *)

Module PlatformStatus.
Inductive t : Set := QUEUED | RUNNING | COMPLETE | ERROR | UNKNOWN.

#[global] Instance eq_dec : EqDecision t.
Proof. solve_decision. Defined.

Definition value (s : t) : string :=
  match s with QUEUED => "queued" | RUNNING => "running" | COMPLETE => "complete" | ERROR => "error" | UNKNOWN => "unknown" end.
End PlatformStatus.

Module TerminalDecision.
Inductive t : Set := NONTERMINAL | SUCCEEDED | FAILED | AMBIGUOUS.

#[global] Instance eq_dec : EqDecision t.
Proof. solve_decision. Defined.
End TerminalDecision.

Record ExactOutput := mk_ExactOutput {
  xo_run : string; xo_attempt : string; xo_source : string; xo_version : string; xo_epoch : Z; xo_status : string;
}.

Record MasterTerminalOutput := mk_MasterTerminalOutput {
  to_run : string; to_attempt : string; to_service : string; to_master : string; to_source : string; to_version : string;
  to_executed_source_sha256 : string; to_epoch : Z; to_status : string; to_checkpoint : string;
  to_manifest_sha256 : string; to_current_checkpoint : string; to_recovered_events : list string;
  to_output_tree_sha256 : string; to_output_receipt_sha256 : string; to_blogger_receipt : option (list (string * json));
}.

(** [MasterTerminalOutput.__post_init__] *)
Definition MasterTerminalOutput_new (o : MasterTerminalOutput) : outcome MasterTerminalOutput :=
  throw_if (existsb (λ v, blank_or_longer v 500)
              [to_run o; to_attempt o; to_service o; to_master o; to_source o; to_version o; to_checkpoint o;
               to_current_checkpoint o]) ValueError "master terminal output identity is invalid" ;;
  throw_if (existsb (λ v, uuid_of_text v == None) [to_master o; to_checkpoint o; to_current_checkpoint o]) ValueError
    "master terminal UUID identity is invalid" ;;
  throw_if ((to_epoch o <? 1) || (to_status o != "succeeded")) ValueError "master terminal output state is invalid" ;;
  throw_if (to_checkpoint o != to_current_checkpoint o) ValueError "master terminal output checkpoint is not current" ;;
  throw_if (negb (is_sha256 (to_manifest_sha256 o))) ValueError "master terminal manifest hash is invalid" ;;
  throw_if (negb (is_sha256 (to_executed_source_sha256 o))) ValueError "master terminal executed source hash is invalid" ;;
  throw_if (negb (is_sha256 (to_output_tree_sha256 o))) ValueError "master terminal output-tree hash is invalid" ;;
  throw_if (negb (is_sha256 (to_output_receipt_sha256 o))) ValueError "master terminal output receipt hash is invalid" ;;
  let n := Z.of_nat (length (to_recovered_events o)) in
  throw_if (negb ((1 <=? n) && (n <=? 8))) ValueError "master terminal recovered event count is invalid" ;;
  throw_if (existsb (λ e, negb ((2 <=? slen e) && (slen e <=? 64 * 1024))) (to_recovered_events o)) ValueError
    "master terminal recovered event size is invalid" ;;
  Ret o.

Definition exact_output (o : MasterTerminalOutput) : ExactOutput :=
  mk_ExactOutput (to_run o) (to_attempt o) (to_source o) (to_version o) (to_epoch o) (to_status o).

(** The output names exactly this attempt. *)
Definition output_is_exact (o : ExactOutput) (run_id attempt_id source_identity source_version : string) (epoch : Z) : bool :=
  (xo_run o == run_id) && (xo_attempt o == attempt_id) && (xo_source o == source_identity) && (xo_version o == source_version)
  && (xo_epoch o == epoch).

Definition decide_terminal (platform_status : PlatformStatus.t) (output : option ExactOutput)
    (run_id attempt_id source_identity source_version : string) (epoch : Z) : TerminalDecision.t :=
  match output with
  | Some o =>
      if negb (output_is_exact o run_id attempt_id source_identity source_version epoch) then
        if platform_status == PlatformStatus.COMPLETE then TerminalDecision.AMBIGUOUS else TerminalDecision.NONTERMINAL
      else if xo_status o == "succeeded" then
        if platform_status == PlatformStatus.COMPLETE then TerminalDecision.SUCCEEDED else TerminalDecision.AMBIGUOUS
      else if xo_status o == "failed" then
        if mem platform_status [PlatformStatus.COMPLETE; PlatformStatus.ERROR] then TerminalDecision.FAILED
        else TerminalDecision.AMBIGUOUS
      else TerminalDecision.AMBIGUOUS
  | None =>
      if platform_status == PlatformStatus.ERROR then TerminalDecision.FAILED
      else if platform_status == PlatformStatus.COMPLETE then TerminalDecision.AMBIGUOUS
      else TerminalDecision.NONTERMINAL
  end.

(** ** provider.py *)

Record PlannedProviderEffect := mk_PlannedProviderEffect {
  pe_id : string; pe_key : string; pe_kind : string; pe_identity : list (string * json);
}.

Record ProviderEffectReceipt := mk_ProviderEffectReceipt {
  pr_provider : string; pr_kind : string; pr_exact_ref : string; pr_source : string; pr_version : string;
  pr_identity : option (list (string * json));
}.

(** [as_dict] *)
Definition receipt_as_dict (r : ProviderEffectReceipt) : list (string * json) :=
  ([("provider", JStr (pr_provider r)); ("effect_kind", JStr (pr_kind r)); ("exact_ref", JStr (pr_exact_ref r));
    ("source_identity", JStr (pr_source r)); ("source_version", JStr (pr_version r))]
   ++ match pr_identity r with Some i => [("exact_identity", JObj i)] | None => [] end)%list.

Inductive ReconciliationStatus : Set := FOUND | ABSENT | AMBIGUOUS.

#[global] Instance ReconciliationStatus_eq_dec : EqDecision ReconciliationStatus.
Proof. solve_decision. Defined.

Record EffectReconciliation := mk_EffectReconciliation { rec_status : ReconciliationStatus; rec_receipt : option ProviderEffectReceipt }.

(** [EffectReconciliation.__post_init__] *)
Definition EffectReconciliation_new (s : ReconciliationStatus) (r : option ProviderEffectReceipt) : outcome EffectReconciliation :=
  throw_if (negb (Bool.eqb (s == FOUND) (match r with Some _ => true | None => false end))) ValueError
    "found reconciliation requires exactly one provider receipt" ;;
  Ret (mk_EffectReconciliation s r).

Record MasterTerminalQuery := mk_MasterTerminalQuery {
  mq_operation : string; mq_run : string; mq_attempt : string; mq_service : string; mq_master : string; mq_source : string;
  mq_version : string; mq_epoch : Z; mq_checkpoint_ref : string; mq_provider_run : list (string * json);
}.

Record MasterTerminalEvidence := mk_MasterTerminalEvidence {
  te_platform_status : PlatformStatus.t; te_output : option MasterTerminalOutput;
}.

(** The port.  The method body of the protocol class is empty, so a provider
    that does not override [observe_terminal] returns [None]. *)
Class MasterRuntimeProvider (P : Type) := {
  execute : PlannedProviderEffect → M P ProviderEffectReceipt;
  reconcile : PlannedProviderEffect → M P EffectReconciliation;
  observe_terminal : MasterTerminalQuery → M P (option MasterTerminalEvidence);
}.

(** ** fake_kaggle.py *)

(** A fault script is a queue of values; only exceptions matter. *)
Record FakeKaggleRuntime := mk_FakeKaggle {
  fk_scripts : gmap string (list (option exn));
  fk_receipts : gmap string ProviderEffectReceipt;
  fk_counts : gmap string nat;
}.

Definition FakeKaggle_init (scripts : gmap string (list (option exn))) : FakeKaggleRuntime := mk_FakeKaggle scripts ∅ ∅.

(** [d[key]] of a Python dict. *)
Definition item {S} (d : list (string * json)) (key : string) : M S json :=
  match assoc key d with Some v => mret v | None => raise KeyError key end.

Definition is_crash (e : option exn) : bool :=
  match e with Some e => exn_cls e == SimulatedProcessCrash | None => false end.

(** [self._scripts[kind].popleft() if self._scripts[kind] else None] *)
Definition pop_script (kind : string) : M FakeKaggleRuntime (option exn) := λ s,
  match fk_scripts s !! kind with
  | Some (e :: rest) => (Ret e, mk_FakeKaggle (<[kind := rest]> (fk_scripts s)) (fk_receipts s) (fk_counts s))
  | _ => (Ret None, s)
  end.

(** The durable effect of an execution. *)
Definition record_receipt (key : string) (r : ProviderEffectReceipt) (s : FakeKaggleRuntime) : FakeKaggleRuntime :=
  mk_FakeKaggle (fk_scripts s) (<[key := r]> (fk_receipts s))
    (<[pr_kind r := S (default 0%nat (fk_counts s !! pr_kind r))]> (fk_counts s)).

Definition fake_execute (effect : PlannedProviderEffect) : M FakeKaggleRuntime ProviderEffectReceipt :=
  existing ← gets (λ s, fk_receipts s !! pe_key effect);
  match existing with
  | Some r => mret r
  | None =>
      scripted ← pop_script (pe_kind effect);
      match scripted with
      | Some e => if is_crash scripted then mret tt else lift (Exc e)
      | None => mret tt
      end ;;
      exact_ref ← item (pe_identity effect) "exact_ref";
      source_identity ← item (pe_identity effect) "source_identity";
      source_version ← item (pe_identity effect) "source_version";
      let receipt := mk_ProviderEffectReceipt "fake-kaggle" (pe_kind effect) (py_str exact_ref) (py_str source_identity)
                       (py_str source_version) None in
      modify (record_receipt (pe_key effect) receipt) ;;
      match scripted with
      | Some e => if is_crash scripted then lift (Exc e) else mret receipt
      | None => mret receipt
      end
  end.

Definition fake_reconcile (effect : PlannedProviderEffect) : M FakeKaggleRuntime EffectReconciliation :=
  receipt ← gets (λ s, fk_receipts s !! pe_key effect);
  match receipt with
  | None => lift (EffectReconciliation_new ABSENT None)
  | Some r => lift (EffectReconciliation_new FOUND (Some r))
  end.

#[global] Instance FakeKaggle_provider : MasterRuntimeProvider FakeKaggleRuntime := {|
  execute := fake_execute;
  reconcile := fake_reconcile;
  observe_terminal _ := mret None;
|}.

(** ** Properties of the evidence *)

Lemma decide_terminal_iff status output run_id attempt_id source version epoch :
  let exact o := output_is_exact o run_id attempt_id source version epoch = true in
  let decision := decide_terminal status output run_id attempt_id source version epoch in
  (decision = TerminalDecision.SUCCEEDED ↔
   status = PlatformStatus.COMPLETE ∧ ∃ o, output = Some o ∧ exact o ∧ xo_status o = "succeeded") ∧
  (decision = TerminalDecision.FAILED ↔
   (status = PlatformStatus.ERROR ∧ output = None) ∨
   ((status = PlatformStatus.COMPLETE ∨ status = PlatformStatus.ERROR) ∧
    ∃ o, output = Some o ∧ exact o ∧ xo_status o = "failed")).
Proof.
  cbn zeta. unfold decide_terminal. destruct output as [o|].
  - destruct (output_is_exact o _ _ _ _ _) eqn:E; cbn.
    + destruct (decide (xo_status o = "succeeded")) as [Es|Es]; [rewrite bool_decide_eq_true_2 by done|
        rewrite bool_decide_eq_false_2 by done; destruct (decide (xo_status o = "failed")) as [Ef|Ef];
        [rewrite bool_decide_eq_true_2 by done|rewrite bool_decide_eq_false_2 by done]];
      destruct status; cbn; naive_solver congruence.
    + destruct status; cbn; naive_solver congruence.
  - destruct status; cbn; naive_solver.
Qed.

(** What decides the end of a master.  The decision is SUCCEEDED exactly when
    the platform reports the run complete and its output names exactly this
    attempt (run, attempt, source, version, epoch) and reports success; it is
    FAILED exactly when the platform reports an error without any output, or the
    exact output reports failure and the platform reports the run over.  A stale
    output never completes nor fails an attempt. *)
Theorem decide_terminal_spec status output run_id attempt_id source version epoch :
  let exact o := output_is_exact o run_id attempt_id source version epoch = true in
  let decision := decide_terminal status output run_id attempt_id source version epoch in
  (decision = TerminalDecision.SUCCEEDED ↔
   status = PlatformStatus.COMPLETE ∧ ∃ o, output = Some o ∧ exact o ∧ xo_status o = "succeeded") ∧
  (decision = TerminalDecision.FAILED ↔
   (status = PlatformStatus.ERROR ∧ output = None) ∨
   ((status = PlatformStatus.COMPLETE ∨ status = PlatformStatus.ERROR) ∧
    ∃ o, output = Some o ∧ exact o ∧ xo_status o = "failed")).
Proof. apply decide_terminal_iff. Qed.

(** A terminal output that passes its own validation is a success for the
    attempt it names: on a completed run, and only there, it decides
    SUCCEEDED. *)
Theorem valid_terminal_output_decides o o' status :
  MasterTerminalOutput_new o = Ret o' →
  o' = o ∧ to_checkpoint o = to_current_checkpoint o ∧ is_sha256 (to_manifest_sha256 o) = true ∧
  (decide_terminal status (Some (exact_output o)) (to_run o) (to_attempt o) (to_source o) (to_version o) (to_epoch o)
     = TerminalDecision.SUCCEEDED ↔ status = PlatformStatus.COMPLETE).
Proof.
  unfold MasterTerminalOutput_new. intros H. py_cbn. repeat case_match; try discriminate. injection H as <-. b2p.
  split_and!; [done|naive_solver|naive_solver|].
  rewrite (proj1 (decide_terminal_iff _ _ _ _ _ _ _)). split; [by intros [-> _]|]. intros ->. split; [done|].
  eexists. split; [done|]. unfold output_is_exact, exact_output. cbn. rewrite !bool_decide_eq_true_2 by done. naive_solver.
Qed.

(** ** Properties of the double *)

Inductive fake_call : Type := FkExecute (e : PlannedProviderEffect) | FkReconcile (e : PlannedProviderEffect).

Definition fake_step (c : fake_call) (s : FakeKaggleRuntime) : FakeKaggleRuntime :=
  match c with FkExecute e => (fake_execute e s).2 | FkReconcile e => (fake_reconcile e s).2 end.

Definition fake_run (cs : list fake_call) (s : FakeKaggleRuntime) : FakeKaggleRuntime := fold_left (λ s c, fake_step c s) cs s.

(** Every way an execution can end. *)
Inductive executed (e : PlannedProviderEffect) (s : FakeKaggleRuntime) : outcome ProviderEffectReceipt * FakeKaggleRuntime → Prop :=
| executed_before r : fk_receipts s !! pe_key e = Some r → executed e s (Ret r, s)
| executed_refused x s' :
    exn_cls x ≠ SimulatedProcessCrash → fk_receipts s !! pe_key e = None → fk_receipts s' = fk_receipts s → fk_counts s' = fk_counts s →
    executed e s (Exc x, s')
| executed_now o s1 r :
    fk_receipts s !! pe_key e = None → fk_receipts s1 = fk_receipts s → fk_counts s1 = fk_counts s → pr_kind r = pe_kind e →
    (o = Ret r ∨ ∃ x, o = Exc x ∧ exn_cls x = SimulatedProcessCrash) →
    executed e s (o, record_receipt (pe_key e) r s1).

Lemma pop_script_ret kind s :
  ∃ x s1, pop_script kind s = (Ret x, s1) ∧ fk_receipts s1 = fk_receipts s ∧ fk_counts s1 = fk_counts s.
Proof. unfold pop_script. destruct (fk_scripts s !! kind) as [[|x rest]|]; by eexists _, _. Qed.

Lemma fake_execute_cases e s : executed e s (fake_execute e s).
Proof.
  unfold fake_execute. py_cbn. destruct (fk_receipts s !! pe_key e) as [r|] eqn:E; [by constructor|].
  destruct (pop_script_ret (pe_kind e) s) as (x & s1 & -> & Hr & Hc). unfold item. py_cbn.
  assert (∀ y, exn_cls y ≠ SimulatedProcessCrash → executed e s (Exc y, s1)) as Hno by (intros y ?; by apply executed_refused).
  destruct x as [x|]; [destruct (is_crash (Some x)) eqn:Ex|]; cbn; [|apply Hno; cbn in Ex; by b2p|].
  all: destruct (assoc "exact_ref" _); cbn; [|by apply Hno]; destruct (assoc "source_identity" _); cbn; [|by apply Hno];
    destruct (assoc "source_version" _); cbn; [|by apply Hno].
  - apply (executed_now _ _ _ s1); try done. right. exists x. cbn in Ex. by b2p.
  - apply (executed_now _ _ _ s1); try done. by left.
Qed.

Definition of_kind (kind : string) (kr : string * ProviderEffectReceipt) : Prop := pr_kind kr.2 = kind.

#[global] Instance of_kind_dec kind kr : Decision (of_kind kind kr).
Proof. unfold of_kind. apply _. Defined.

(** The counter of a kind counts the receipts of that kind. *)
Definition counts_ok (s : FakeKaggleRuntime) : Prop :=
  ∀ kind, default 0%nat (fk_counts s !! kind) = size (filter (of_kind kind) (fk_receipts s)).

Lemma counts_record key r s :
  fk_receipts s !! key = None → counts_ok s → counts_ok (record_receipt key r s).
Proof.
  intros Hnew H kind. unfold record_receipt. cbn. destruct (decide (pr_kind r = kind)) as [<-|Hne].
  - rewrite lookup_insert_eq. cbn. rewrite map_filter_insert_True by done.
    rewrite map_size_insert_None by (by apply map_lookup_filter_None; left). by rewrite H.
  - rewrite lookup_insert_ne by done. rewrite map_filter_insert_False by done.
    rewrite H. by rewrite delete_id.
Qed.

Lemma fake_step_ok c s :
  counts_ok s → counts_ok (fake_step c s) ∧ ∀ key r, fk_receipts s !! key = Some r → fk_receipts (fake_step c s) !! key = Some r.
Proof.
  intros H. destruct c as [e|e]; cbn.
  - assert (He := fake_execute_cases e s). inversion He as [r Hr Eo|x s' Hx Hr Er Ec Eo|o s1 r Hr Er Ec Hk Ho Eo].
    + done.
    + cbn. split; [intros kind; rewrite Ec, Er; apply H|congruence].
    + cbn [snd]. assert (counts_ok s1) as H1 by (intros kind; rewrite Ec, Er; apply H).
      split; [apply counts_record; [congruence|done]|].
      intros key r' Hr'. cbn. rewrite lookup_insert_ne by congruence. by rewrite Er.
  - unfold fake_reconcile. py_cbn. by destruct (fk_receipts s !! pe_key e).
Qed.

(** At most one physical effect per idempotency key.  Whatever executions and
    reconciliations are made, with whatever faults and simulated crashes, the
    counter of an effect kind equals the number of keys of that kind that ever
    got a receipt, and the receipt of a key never changes. *)
Theorem fake_effects_at_most_once scripts cs cs' :
  let s := fake_run cs (FakeKaggle_init scripts) in
  let s' := fake_run (cs ++ cs') (FakeKaggle_init scripts) in
  (∀ kind, default 0%nat (fk_counts s !! kind) = size (filter (of_kind kind) (fk_receipts s))) ∧
  (∀ key r, fk_receipts s !! key = Some r → fk_receipts s' !! key = Some r).
Proof.
  cbn zeta. unfold fake_run. rewrite fold_left_app.
  assert (∀ cs s, counts_ok s → counts_ok (fold_left (λ s c, fake_step c s) cs s) ∧
    ∀ key r, fk_receipts s !! key = Some r → fk_receipts (fold_left (λ s c, fake_step c s) cs s) !! key = Some r) as H.
  { clear. induction cs as [|c cs IH]; intros s Hs; [done|]. cbn. destruct (fake_step_ok c s Hs) as [H1 H2].
    destruct (IH _ H1) as [H3 H4]. auto. }
  destruct (H cs (FakeKaggle_init scripts)) as [H1 _]; [by intros kind|]. split; [apply H1|]. by apply H.
Qed.

(** A crash after the effect is recovered exactly.  If an execution dies with
    the simulated crash, reconciliation finds the receipt of the effect it did
    perform, and executing again returns that receipt and performs nothing. *)
Theorem crash_is_reconciled e s x s' :
  fake_execute e s = (Exc x, s') → exn_cls x = SimulatedProcessCrash →
  ∃ r, fk_receipts s' !! pe_key e = Some r ∧
    fake_reconcile e s' = (Ret (mk_EffectReconciliation FOUND (Some r)), s') ∧ fake_execute e s' = (Ret r, s').
Proof.
  intros H Hx. assert (He := fake_execute_cases e s). rewrite H in He.
  inversion He as [r Hr Eo|x' s1 Hx' Hr Er Ec Eo|o s1 r Hr Er Ec Hk Ho Eo]; subst; [done|].
  exists r. assert (fk_receipts (record_receipt (pe_key e) r s1) !! pe_key e = Some r) as Hl by (cbn; by rewrite lookup_insert_eq).
  split_and!; [done|..]; unfold fake_reconcile, fake_execute; py_cbn; by rewrite Hl.
Qed.

(** ** Witnesses *)

Definition crash : exn := Exn SimulatedProcessCrash "boom".

Definition trigger : PlannedProviderEffect :=
  mk_PlannedProviderEffect "effect-1" "op-1:trigger_run" "trigger_run"
    [("exact_ref", JStr "kernel/run/1"); ("source_identity", JStr "kernel"); ("source_version", JStr "v1")].

Definition crashing : FakeKaggleRuntime := FakeKaggle_init {["trigger_run" := [Some crash]]}.

Lemma crash_is_reconciled_witness :
  let s' := (fake_execute trigger crashing).2 in
  ∃ r, fk_receipts s' !! "op-1:trigger_run" = Some r ∧
    fake_reconcile trigger s' = (Ret (mk_EffectReconciliation FOUND (Some r)), s') ∧ fake_execute trigger s' = (Ret r, s').
Proof. apply (crash_is_reconciled trigger crashing crash); [vm_compute; reflexivity|reflexivity]. Defined.

Definition uuid_1 : string := "11111111-1111-1111-1111-111111111111".
Definition hash_1 : string := "aaaaaaaaaaaaaaaaaaaaaaaaaaaaaaaaaaaaaaaaaaaaaaaaaaaaaaaaaaaaaaaa".
Definition output_1 : MasterTerminalOutput :=
  mk_MasterTerminalOutput "run-1" "attempt-1" "service-1" uuid_1 "kernel" "v1" hash_1 1 "succeeded" uuid_1 hash_1 uuid_1
    ["{}"] hash_1 hash_1 None.

Lemma valid_terminal_output_decides_witness :
  output_1 = output_1 ∧ uuid_1 = uuid_1 ∧ is_sha256 hash_1 = true ∧
  (decide_terminal PlatformStatus.COMPLETE (Some (exact_output output_1)) "run-1" "attempt-1" "kernel" "v1" 1
     = TerminalDecision.SUCCEEDED ↔ PlatformStatus.COMPLETE = PlatformStatus.COMPLETE).
Proof. apply (valid_terminal_output_decides output_1 output_1 PlatformStatus.COMPLETE). vm_compute. reflexivity. Defined.
