(* ===== verification/Manifest.v ===== *)
(** * Manifest: checkpoint manifests and their self-hash

    Models checkpoints/manifest.py: [CheckpointFile], [RestoreProbe] and
    [CheckpointManifest] with their [validate], [unsigned_payload] and
    [payload].  Reading and hashing package files ([sha256_file],
    [load_and_verify], [build_manifest], [write_manifest]) is file-system work
    and is not modelled. *)

From S2P Require Import Prelude Time Json Uuid LedgerState.

Record CheckpointFile := mk_CheckpointFile { cf_path : string; cf_kind : string; cf_size : Z; cf_sha256 : string }.

(** [row_counts] is a dict: pairs in insertion order, keys unique. *)
Record RestoreProbe := mk_RestoreProbe {
  rp_schema : Z; rp_revision : Z; rp_hash : string; rp_counts : list (string * Z);
}.

Record CheckpointManifest := mk_CheckpointManifest {
  m_id : UUID; m_master : UUID; m_epoch : Z; m_parent : option UUID; m_postgres : string; m_pgvector : string;
  m_schema : Z; m_revision : Z; m_source_run : string; m_source_identity : string; m_created_at : datetime;
  m_lsn : string; m_files : list CheckpointFile; m_probe : RestoreProbe; m_sha256 : string; m_contract : string;
}.

Definition SCHEMA_VERSION : string := "my-data-hub-checkpoint-manifest.v1".

(** [_utc] *)
Definition manifest_utc (value : datetime) (field : string) : outcome Z :=
  match utcoffset value with
  | None => throw ManifestError (field +:+ " must be timezone-aware")
  | Some off => Ret (wall value - off)
  end.

(** ** Paths *)

(** The pieces of a text between slashes. *)
Fixpoint split_slash (s : string) : list string :=
  match s with
  | EmptyString => [""]
  | String c s' =>
      match split_slash s' with
      | piece :: rest => if c == "/"%char then "" :: piece :: rest else String c piece :: rest
      | [] => [String c ""]
      end
  end.

(** [PurePosixPath(s).parts] without the root; [is_absolute()]. *)
Definition path_parts (s : string) : list string := List.filter (λ p, negb ((p == "") || (p == "."))) (split_slash s).
Definition is_absolute (s : string) : bool := startswith "/" s.

Definition file_kinds : list string :=
  ["physical"; "postgres_backup_manifest"; "logical"; "verification_receipt"; "restore_smoke_receipt"].

Definition file_validate (f : CheckpointFile) : outcome unit :=
  throw_if (is_absolute (cf_path f) || mem ".." (path_parts (cf_path f)) || (path_parts (cf_path f) == [])) ManifestError
    "unsafe checkpoint path" ;;
  throw_if (negb (mem (cf_kind f) file_kinds)) ManifestError ("unsupported checkpoint file kind: " +:+ cf_kind f) ;;
  throw_if ((cf_size f <? 0) || negb (is_sha256 (cf_sha256 f))) ManifestError ("invalid size/hash for " +:+ cf_path f).

Definition probe_validate (p : RestoreProbe) : outcome unit :=
  throw_if ((rp_schema p <? 1) || (rp_revision p <? 0)) ManifestError "restore probe revisions are invalid" ;;
  throw_if (negb (is_sha256 (rp_hash p))) ManifestError "restore probe logical hash is invalid" ;;
  throw_if (existsb (λ '(name, count), (name == "") || (count <? 0)) (rp_counts p)) ManifestError
    "restore probe row counts are invalid".

(** ** Payload *)

Definition file_payload (f : CheckpointFile) : json :=
  JObj [("path", JStr (cf_path f)); ("kind", JStr (cf_kind f)); ("byte_size", JInt (cf_size f)); ("sha256", JStr (cf_sha256 f))].

Definition probe_payload (p : RestoreProbe) : json :=
  JObj [("schema_version", JInt (rp_schema p)); ("canonical_revision", JInt (rp_revision p));
        ("logical_hash_sha256", JStr (rp_hash p)); ("row_counts", JObj (map (λ '(k, n), (k, JInt n)) (rp_counts p)))].

(** [str(u) if u else None]; the UUID of value 0 is truthy like any object. *)
Definition uuid_payload (u : option UUID) : json := match u with Some u => JStr (uuid_str u) | None => JNull end.

(** [unsigned_payload]: raises for a naive creation time. *)
Definition unsigned_payload (m : CheckpointManifest) : outcome (list (string * json)) :=
  created ← manifest_utc (m_created_at m) "created_at";
  Ret [("contract", JStr (m_contract m)); ("checkpoint_id", JStr (uuid_str (m_id m)));
       ("master_instance_id", JStr (uuid_str (m_master m))); ("epoch", JInt (m_epoch m));
       ("parent_checkpoint_id", uuid_payload (m_parent m)); ("postgres_version", JStr (m_postgres m));
       ("pgvector_version", JStr (m_pgvector m)); ("schema_version", JInt (m_schema m));
       ("canonical_revision", JInt (m_revision m)); ("source_run_id", JStr (m_source_run m));
       ("source_identity", JStr (m_source_identity m)); ("created_at", JStr (time_text created));
       ("checkpoint_lsn", JStr (m_lsn m)); ("files", JArr (map file_payload (m_files m)));
       ("restore_probe", probe_payload (m_probe m))].

Definition manifest_payload (m : CheckpointManifest) : outcome (list (string * json)) :=
  p ← unsigned_payload m; Ret (p ++ [("manifest_sha256", JStr (m_sha256 m))])%list.

(** ** Validation *)

Definition is_upper_hex (c : Ascii.ascii) : bool := in_char_range "0"%char "9"%char c || in_char_range "A"%char "F"%char c.

(** [re.fullmatch(r"[0-9A-F]+/[0-9A-F]+", s)] *)
Definition is_lsn (s : string) : bool :=
  match split_slash s with
  | [a; b] => (a != "") && string_forallb is_upper_hex a && (b != "") && string_forallb is_upper_hex b
  | _ => false
  end.

(** Equality of the sets of a list's elements. *)
Definition same_set (a b : list string) : bool := forallb (λ x, mem x b) a && forallb (λ x, mem x a) b.

Fixpoint validate_files (fs : list CheckpointFile) : outcome unit :=
  match fs with [] => Ret tt | f :: fs' => file_validate f ;; validate_files fs' end.

Definition paths_of_kind (kind : string) (fs : list CheckpointFile) : list string :=
  map cf_path (List.filter (λ f, cf_kind f == kind) fs).

Section with_sha256.
Context (sha256 : string → string).

Definition digest_payload (value : json) : string := sha256 (canonical_json value).

Definition manifest_validate (m : CheckpointManifest) : outcome unit :=
  throw_if (m_contract m != SCHEMA_VERSION) ManifestError "unsupported checkpoint manifest contract" ;;
  throw_if ((m_epoch m <? 1) || (m_schema m <? 1) || (m_revision m <? 0)) ManifestError "checkpoint revision/epoch is invalid" ;;
  throw_if (negb (startswith "18." (m_postgres m))) ManifestError "checkpoint must originate from PostgreSQL 18" ;;
  throw_if (blank_or_longer (m_pgvector m) 64) ManifestError "pgvector version is missing" ;;
  throw_if ((m_source_run m == "") || (m_source_identity m == "")) ManifestError "source/run identities are required" ;;
  throw_if (negb (is_lsn (m_lsn m))) ManifestError "checkpoint LSN is invalid" ;;
  manifest_utc (m_created_at m) "created_at" ;;
  throw_if (length (m_files m) <? 5)%nat ManifestError "base, WAL, logical and verification artifacts are required" ;;
  let kinds := map cf_kind (m_files m) in
  throw_if (negb (forallb (λ k, mem k kinds) ["physical"; "postgres_backup_manifest"; "logical"; "verification_receipt"]))
    ManifestError "checkpoint file kinds missing" ;;
  let paths := map cf_path (m_files m) in
  throw_if ((length paths != length (remove_dups paths)) || (paths != order_by String.leb paths)) ManifestError
    "checkpoint file paths must be unique and sorted" ;;
  validate_files (m_files m) ;;
  throw_if (negb (same_set (paths_of_kind "physical" (m_files m)) ["physical/base.tar.gz"; "physical/pg_wal.tar.gz"]))
    ManifestError "manifest must bind exact base and streamed WAL archives" ;;
  throw_if (negb (same_set (paths_of_kind "postgres_backup_manifest" (m_files m)) ["physical/backup_manifest"]))
    ManifestError "manifest must bind the native PostgreSQL backup manifest" ;;
  probe_validate (m_probe m) ;;
  payload ← unsigned_payload m;
  throw_if (m_sha256 m != digest_payload (JObj payload)) ManifestError "manifest self-hash mismatch".

End with_sha256.

(** ** The self-hash binds the manifest *)

Lemma canonical_json_inj a b : canonical_json a = canonical_json b → canon a = canon b.
Proof. unfold canonical_json. intros H%(f_equal loads). rewrite !loads_print in H. congruence. Qed.

Lemma canon_file f :
  canon (file_payload f) =
  JObj [("byte_size", JInt (cf_size f)); ("kind", JStr (cf_kind f)); ("path", JStr (cf_path f)); ("sha256", JStr (cf_sha256 f))].
Proof. reflexivity. Qed.

Lemma canon_files_inj fs gs : map canon (map file_payload fs) = map canon (map file_payload gs) → fs = gs.
Proof.
  revert gs. induction fs as [|[] fs IH]; intros [|[] gs]; [done..|]. cbn [map]. rewrite !canon_file.
  intros [= -> -> -> -> H]. by rewrite (IH gs H).
Qed.

Lemma time_text_inj a b : valid_instant a → valid_instant b → time_text a = time_text b → a = b.
Proof. intros Ha%parse_time_text Hb%parse_time_text E. rewrite E in Ha. congruence. Qed.

Lemma manifest_validate_hash sha256 m :
  manifest_validate sha256 m = Ret tt →
  ∃ p, unsigned_payload m = Ret p ∧ m_sha256 m = sha256 (canonical_json (JObj p)).
Proof.
  unfold manifest_validate, digest_payload. intros H.
  destruct (unsigned_payload m) as [p|x].
  - exists p. split; [done|]. py_cbn. repeat (case_match; try discriminate). by b2p.
  - exfalso. py_cbn. repeat (case_match; try discriminate).
Qed.

(** What one manifest says, apart from its own hash: its creation time counts as
    an instant and its row counts as a mapping. *)
Definition same_content (m n : CheckpointManifest) : Prop :=
  m_contract m = m_contract n ∧ m_id m = m_id n ∧ m_master m = m_master n ∧ m_epoch m = m_epoch n ∧
  m_parent m = m_parent n ∧ m_postgres m = m_postgres n ∧ m_pgvector m = m_pgvector n ∧ m_schema m = m_schema n ∧
  m_revision m = m_revision n ∧ m_source_run m = m_source_run n ∧ m_source_identity m = m_source_identity n ∧
  manifest_utc (m_created_at m) "created_at" = manifest_utc (m_created_at n) "created_at" ∧ m_lsn m = m_lsn n ∧
  m_files m = m_files n ∧
  rp_schema (m_probe m) = rp_schema (m_probe n) ∧ rp_revision (m_probe m) = rp_revision (m_probe n) ∧
  rp_hash (m_probe m) = rp_hash (m_probe n) ∧
  canon (JObj (map (λ '(k, n), (k, JInt n)) (rp_counts (m_probe m)))) =
  canon (JObj (map (λ '(k, n), (k, JInt n)) (rp_counts (m_probe n)))).

(** Values the manifest's Python objects can hold: 128-bit UUIDs and an instant
    within the years a [datetime] covers. *)
Definition in_range (m : CheckpointManifest) : Prop :=
  valid_uuid (m_id m) ∧ valid_uuid (m_master m) ∧ (∀ u, m_parent m = Some u → valid_uuid u) ∧
  (∀ t, manifest_utc (m_created_at m) "created_at" = Ret t → valid_instant t).

Lemma uuid_payload_inj u v :
  (∀ x, u = Some x → valid_uuid x) → (∀ x, v = Some x → valid_uuid x) →
  canon (uuid_payload u) = canon (uuid_payload v) → u = v.
Proof.
  destruct u as [u|], v as [v|]; intros Hu Hv H; [|discriminate H..|done]. f_equal.
  apply uuid_str_inj; [auto..|]. exact (f_equal (λ j, match j with JStr s => s | _ => "" end) H).
Qed.

Lemma payload_content m n p q :
  in_range m → in_range n → unsigned_payload m = Ret p → unsigned_payload n = Ret q →
  canon (JObj p) = canon (JObj q) → same_content m n.
Proof.
  intros (I1 & I2 & I3 & I4) (J1 & J2 & J3 & J4). unfold unsigned_payload, mbind, outcome_bind.
  destruct (manifest_utc (m_created_at m) "created_at") as [t|] eqn:Et; [|done].
  destruct (manifest_utc (m_created_at n) "created_at") as [t'|] eqn:Et'; [|done].
  intros [= <-] [= <-]. unfold probe_payload.
  remember (map file_payload (m_files m)) as fm eqn:Efm. remember (map file_payload (m_files n)) as fn eqn:Efn.
  remember (JObj (map _ (rp_counts (m_probe m)))) as cm eqn:Ecm. remember (JObj (map _ (rp_counts (m_probe n)))) as cn eqn:Ecn.
  remember (uuid_str (m_id m)) as im eqn:Eim. remember (uuid_str (m_id n)) as ik eqn:Ein.
  remember (uuid_str (m_master m)) as mm eqn:Emm. remember (uuid_str (m_master n)) as mn eqn:Emn.
  remember (uuid_payload (m_parent m)) as pm eqn:Epm. remember (uuid_payload (m_parent n)) as pn eqn:Epn.
  remember (time_text t) as tm eqn:Etm. remember (time_text t') as tn eqn:Etn.
  intros H. cbn in H. injection H as ? Hid ? ? Ht ? Hf Hm Hp ? ? Hpr1 Hpr2 Hc Hpr3 ? ? ?.
  subst. apply uuid_str_inj in Hid; [|done..]. apply uuid_str_inj in Hm; [|done..]. apply canon_files_inj in Hf.
  apply time_text_inj in Ht; [|by auto..].
  assert (m_parent m = m_parent n) as Hpar.
  { by apply uuid_payload_inj. }
  unfold same_content. split_and!; try done. congruence.
Qed.

(** A manifest's hash identifies its content.  Two manifests that both pass
    validation and carry the same hash, where the hash function does not collide
    on their two texts, agree in every field: identities, epoch, parent,
    versions, source, creation instant, LSN, files and restore probe. *)
Theorem manifest_hash_binds_content sha256 m n p q :
  manifest_validate sha256 m = Ret tt → manifest_validate sha256 n = Ret tt → m_sha256 m = m_sha256 n →
  in_range m → in_range n → unsigned_payload m = Ret p → unsigned_payload n = Ret q →
  (sha256 (canonical_json (JObj p)) = sha256 (canonical_json (JObj q)) → canonical_json (JObj p) = canonical_json (JObj q)) →
  same_content m n.
Proof.
  intros (p' & Hp' & E)%manifest_validate_hash (q' & Hq' & E')%manifest_validate_hash Eh Hm Hn Hp Hq Hcol. simplify_eq.
  eapply payload_content; [done..|]. apply canonical_json_inj. apply Hcol. congruence.
Qed.

(** ** Witness *)

Definition sample_hash : string := "aaaaaaaaaaaaaaaaaaaaaaaaaaaaaaaaaaaaaaaaaaaaaaaaaaaaaaaaaaaaaaaa".
Definition sample_file (path kind : string) : CheckpointFile := mk_CheckpointFile path kind 10 sample_hash.

(** A valid manifest, [hash] being its self-hash. *)
Definition sample_manifest (id : UUID) (parent : option UUID) (hash : string) : CheckpointManifest :=
  mk_CheckpointManifest id 7%N 1 parent "18.1" "0.8" 3 5 "run-1" "kernel" (utc 63900000000250000) "0/1A2B"
    [sample_file "logical/dump.sql" "logical"; sample_file "physical/backup_manifest" "postgres_backup_manifest";
     sample_file "physical/base.tar.gz" "physical"; sample_file "physical/pg_wal.tar.gz" "physical";
     sample_file "verification/receipt.json" "verification_receipt"]
    (mk_RestoreProbe 3 5 sample_hash [("posts", 4)]) hash SCHEMA_VERSION.

(** A hash for examples: short, and different on texts of different length. *)
Definition sample_sha256 (s : string) : string := str_int (slen s).

Definition signed (id : UUID) (parent : option UUID) : CheckpointManifest :=
  match unsigned_payload (sample_manifest id parent "") with
  | Ret p => sample_manifest id parent (digest_payload sample_sha256 (JObj p))
  | Exc _ => sample_manifest id parent ""
  end.

Definition signed_payload : list (string * json) := match unsigned_payload (signed 1 None) with Ret p => p | Exc _ => [] end.

Lemma signed_in_range : in_range (signed 1 None).
Proof.
  split; [vm_compute; reflexivity|]. split; [vm_compute; reflexivity|]. split; [by intros u|].
  intros t H. vm_compute in H. injection H as <-. unfold valid_instant, MICRO, DAY. lia.
Qed.

Lemma manifest_hash_binds_content_witness : same_content (signed 1 None) (signed 1 None).
Proof.
  apply (manifest_hash_binds_content sample_sha256 (signed 1 None) (signed 1 None) signed_payload signed_payload).
  - vm_compute. reflexivity.
  - vm_compute. reflexivity.
  - exact eq_refl.
  - exact signed_in_range.
  - exact signed_in_range.
  - vm_compute. reflexivity.
  - vm_compute. reflexivity.
  - intros _. exact eq_refl.
Defined.
