(* ===== verification/Registry.v ===== *)
(** * Registry: checkpoint promotion, in memory and over the ledger

    Models checkpoints/registry.py: the contract [CheckpointRegistryContract]
    (a type class with the laws its client relies on), the in-memory
    [CheckpointRegistry] and the durable [ControlLedgerCheckpointRegistry],
    both instances of the contract. *)

From S2P Require Import Prelude Time Json Uuid Manifest LedgerState LedgerOperations LedgerEffects LedgerServices.
From S2P Require Import LedgerEvents LedgerLeases LedgerCheckpoints LedgerSafety LedgerEvolution LedgerHead.

Module CheckpointStatus.
Inductive t : Set := CANDIDATE | UPLOADED | READBACK_VERIFIED | RESTORE_VERIFIED | VERIFIED | REJECTED.

#[global] Instance eq_dec : EqDecision t.
Proof. solve_decision. Defined.

Definition value (s : t) : string :=
  match s with
  | CANDIDATE => "candidate" | UPLOADED => "uploaded" | READBACK_VERIFIED => "readback_verified"
  | RESTORE_VERIFIED => "restore_verified" | VERIFIED => "verified" | REJECTED => "rejected"
  end.
End CheckpointStatus.

Record CheckpointRecord := mk_CheckpointRecord {
  r_manifest : CheckpointManifest; r_status : CheckpointStatus.t; r_version : option string; r_reason : option string;
}.

Record CheckpointHead := mk_CheckpointHead { h_generation : Z; h_current : option UUID; h_previous : option UUID }.

Definition CheckpointHead_init : CheckpointHead := mk_CheckpointHead 0 None None.

#[global] Instance CheckpointHead_eq_dec : EqDecision CheckpointHead.
Proof. solve_decision. Defined.

(** ** The contract *)

Class CheckpointRegistryContract (S : Type) := {
  registry_head : M S CheckpointHead;
  registry_add_candidate : CheckpointManifest → M S unit;
  registry_uploaded : UUID → string → M S unit;
  registry_readback_verified : UUID → M S unit;
  registry_restore_verified : UUID → M S unit;
  registry_reject : UUID → string → M S unit;
  registry_promote : UUID → Z → M S CheckpointHead;
}.

(** [m] leaves what [registry_head] answers alone, whether it returns or raises. *)
Definition keeps_head {S A} `{CheckpointRegistryContract S} (m : M S A) : Prop :=
  ∀ s, (registry_head (m s).2).1 = (registry_head s).1.

(** What the publisher relies on: only a promotion that returns moves HEAD, it
    moves it to the checkpoint it was asked for, and reading HEAD changes
    nothing. *)
Class RegistryLaws (S : Type) `{CheckpointRegistryContract S} : Prop := {
  head_reads s : (registry_head s).2 = s;
  add_candidate_keeps m : keeps_head (registry_add_candidate m);
  uploaded_keeps id v : keeps_head (registry_uploaded id v);
  readback_keeps id : keeps_head (registry_readback_verified id);
  restore_keeps id : keeps_head (registry_restore_verified id);
  reject_keeps id why : keeps_head (registry_reject id why);
  promote_moves id g s h s' :
    valid_uuid id → registry_promote id g s = (Ret h, s') → (registry_head s').1 = Ret h ∧ h_current h = Some id;
  promote_fails id g s e s' :
    valid_uuid id → registry_promote id g s = (Exc e, s') → (registry_head s').1 = (registry_head s).1;
}.

(** ** In memory *)

Record CheckpointRegistry := mk_CheckpointRegistry {
  reg_head : CheckpointHead; reg_records : gmap UUID CheckpointRecord;
}.

Definition CheckpointRegistry_init : CheckpointRegistry := mk_CheckpointRegistry CheckpointHead_init ∅.

Definition set_record (id : UUID) (r : CheckpointRecord) : M CheckpointRegistry unit :=
  modify (λ s, mk_CheckpointRegistry (reg_head s) (<[id := r]> (reg_records s))).

(** [self._records[checkpoint_id]] *)
Definition get_record (id : UUID) : M CheckpointRegistry CheckpointRecord :=
  r ← gets (λ s, reg_records s !! id);
  match r with Some r => mret r | None => raise KeyError (uuid_str id) end.

Definition with_status (r : CheckpointRecord) (status : CheckpointStatus.t) : CheckpointRecord :=
  mk_CheckpointRecord (r_manifest r) status (r_version r) (r_reason r).

(** [_transition] *)
Definition memory_transition (id : UUID) (expected status : CheckpointStatus.t) (version : option string) :
    M CheckpointRegistry CheckpointRecord :=
  record ← get_record id;
  if r_status record == status then mret record
  else
    raise_if (r_status record != expected) ValueError
      ("invalid checkpoint transition " +:+ CheckpointStatus.value (r_status record) +:+ "->" +:+ CheckpointStatus.value status) ;;
    let updated := mk_CheckpointRecord (r_manifest record) status
                     (match truthy_text version with Some v => Some v | None => r_version record end) (r_reason record) in
    set_record id updated ;;
    mret updated.

Definition memory_head : M CheckpointRegistry CheckpointHead := gets reg_head.

Section with_sha256.
Context (sha256 : string → string).

Definition memory_add_candidate (m : CheckpointManifest) : M CheckpointRegistry CheckpointRecord :=
  lift (manifest_validate sha256 m) ;;
  existing ← gets (λ s, reg_records s !! m_id m);
  match existing with
  | Some r =>
      raise_if (m_sha256 (r_manifest r) != m_sha256 m) ValueError "checkpoint id reused with a different manifest" ;;
      mret r
  | None =>
      head ← gets reg_head;
      raise_if (m_parent m != h_current head) ValueError "candidate parent is not current HEAD" ;;
      let record := mk_CheckpointRecord m CheckpointStatus.CANDIDATE None None in
      set_record (m_id m) record ;;
      mret record
  end.

Definition memory_uploaded (id : UUID) (version : string) : M CheckpointRegistry CheckpointRecord :=
  raise_if (blank_or_longer version 512) ValueError "exact version ref is invalid" ;;
  memory_transition id CheckpointStatus.CANDIDATE CheckpointStatus.UPLOADED (Some version).

Definition memory_readback_verified (id : UUID) : M CheckpointRegistry CheckpointRecord :=
  memory_transition id CheckpointStatus.UPLOADED CheckpointStatus.READBACK_VERIFIED None.

Definition memory_restore_verified (id : UUID) : M CheckpointRegistry CheckpointRecord :=
  memory_transition id CheckpointStatus.READBACK_VERIFIED CheckpointStatus.RESTORE_VERIFIED None.

Definition memory_reject (id : UUID) (reason : string) : M CheckpointRegistry CheckpointRecord :=
  raise_if (blank_or_longer reason 512) ValueError "rejection reason is invalid" ;;
  record ← get_record id;
  raise_if (r_status record == CheckpointStatus.VERIFIED) ValueError "verified checkpoint cannot be rejected" ;;
  let rejected := mk_CheckpointRecord (r_manifest record) CheckpointStatus.REJECTED (r_version record) (Some reason) in
  set_record id rejected ;;
  mret rejected.

Definition memory_promote (id : UUID) (expected_generation : Z) : M CheckpointRegistry CheckpointHead :=
  record ← get_record id;
  head ← gets reg_head;
  if (h_current head == Some id) && (r_status record == CheckpointStatus.VERIFIED) then mret head
  else
    raise_if (expected_generation != h_generation head) ValueError "checkpoint HEAD generation changed concurrently" ;;
    raise_if (r_status record != CheckpointStatus.RESTORE_VERIFIED) ValueError
      "candidate has not passed independent restore verification" ;;
    raise_if (m_parent (r_manifest record) != h_current head) ValueError "candidate parent no longer matches current HEAD" ;;
    set_record id (with_status record CheckpointStatus.VERIFIED) ;;
    let head' := mk_CheckpointHead (h_generation head + 1) (Some id) (h_current head) in
    modify (λ s, mk_CheckpointRegistry head' (reg_records s)) ;;
    mret head'.

Definition ignore {S A} (m : M S A) : M S unit := m ;; mret tt.

#[local] Instance memory_contract : CheckpointRegistryContract CheckpointRegistry := {|
  registry_head := memory_head;
  registry_add_candidate m := ignore (memory_add_candidate m);
  registry_uploaded id v := ignore (memory_uploaded id v);
  registry_readback_verified id := ignore (memory_readback_verified id);
  registry_restore_verified id := ignore (memory_restore_verified id);
  registry_reject id why := ignore (memory_reject id why);
  registry_promote := memory_promote;
|}.

End with_sha256.

(** ** Over the ledger *)

(** [CheckpointRecordRow -> CheckpointHead]: a stored identifier that is no UUID
    raises [ValueError]. *)
Definition head_uuid (text : option string) : outcome (option UUID) :=
  match truthy_text text with
  | None => Ret None
  | Some t => match uuid_of_text t with
              | Some u => Ret (Some u)
              | None => throw ValueError "badly formed hexadecimal UUID string"
              end
  end.

Definition head_of_row (h : head_row) : outcome CheckpointHead :=
  current ← head_uuid (hd_current h);
  previous ← head_uuid (hd_previous h);
  Ret (mk_CheckpointHead (hd_generation h) current previous).

Definition parent_text (u : option UUID) : option string := uuid_str <$> u.

Section ledger_registry.
Context (sha256 : string → string).
(** The fields of [ControlLedgerCheckpointRegistry], and the clock. *)
Context (operation_id dataset_ref service_kind : string) (now : Z).

Definition durable_head : M ledger CheckpointHead :=
  durable ← checkpoint_head service_kind;
  match durable with
  | None => mret CheckpointHead_init
  | Some h => lift (head_of_row h)
  end.

Definition durable_add_candidate (m : CheckpointManifest) : M ledger unit :=
  lift (manifest_validate sha256 m) ;;
  existing ← checkpoint_candidate (uuid_str (m_id m));
  match existing with
  | Some (c, _) =>
      raise_if ((cc_operation c != operation_id) || (cc_dataset c != dataset_ref) || (cc_manifest_sha256 c != m_sha256 m)
                || (cc_source c != parent_text (m_parent m)) || (cc_master c != uuid_str (m_master m))
                || (cc_epoch c != m_epoch m)) ValueError "candidate replay differs from its immutable identity"
  | None =>
      initial ← durable_head;
      raise_if (m_parent m != h_current initial) ValueError "candidate parent is not current durable HEAD" ;;
      payload ← lift (manifest_payload m);
      add_checkpoint_candidate
        (mk_candidate_request (uuid_str (m_id m)) service_kind operation_id dataset_ref None (m_sha256 m)
           (parent_text (m_parent m)) (Some (h_generation initial)) (uuid_str (m_master m)) (m_epoch m) (Some payload)) now
  end.

Definition durable_package_uploaded (id : UUID) (package_sha256 : string) : M ledger unit :=
  record_checkpoint_package_sha256 (uuid_str id) package_sha256.

Definition durable_uploaded (id : UUID) (version : string) : M ledger unit := mark_checkpoint_uploaded (uuid_str id) version.
Definition durable_readback_verified (id : UUID) : M ledger unit := mark_checkpoint_readback_verified (uuid_str id).
Definition durable_restore_verified (id : UUID) : M ledger unit := mark_checkpoint_restore_verified (uuid_str id).
Definition durable_reject (id : UUID) (reason : string) : M ledger unit := fail_checkpoint (uuid_str id) reason.

Definition durable_promote (id : UUID) (expected_generation : Z) : M ledger CheckpointHead :=
  initial ← durable_head;
  candidate ← checkpoint_candidate (uuid_str id);
  let already_promoted :=
    (h_current initial == Some id) && (h_generation initial == expected_generation + 1)
    && match candidate with
       | Some (c, _) => (cc_status c == "VERIFIED") && (cc_generation c == expected_generation)
                        && (cc_source c == parent_text (h_previous initial))
       | None => false
       end in
  raise_if ((h_generation initial != expected_generation) && negb already_promoted) ValueError
    "checkpoint HEAD generation changed concurrently" ;;
  durable ← promote_checkpoint service_kind (uuid_str id) expected_generation (parent_text (h_current initial)) now;
  lift (head_of_row durable).

#[local] Instance durable_contract : CheckpointRegistryContract ledger := {|
  registry_head := durable_head;
  registry_add_candidate := durable_add_candidate;
  registry_uploaded := durable_uploaded;
  registry_readback_verified := durable_readback_verified;
  registry_restore_verified := durable_restore_verified;
  registry_reject := durable_reject;
  registry_promote := durable_promote;
|}.

End ledger_registry.

(** ** The laws, in memory *)

(** Computations that never change HEAD. *)
Definition head_stable {A} (m : M CheckpointRegistry A) : Prop := ∀ s, reg_head (m s).2 = reg_head s.

Lemma head_stable_bind {A B} (m : M CheckpointRegistry A) (k : A → M CheckpointRegistry B) :
  head_stable m → (∀ a, head_stable (k a)) → head_stable (mbind k m).
Proof.
  intros Hm Hk s. specialize (Hm s). unfold mbind, M_bind. destruct (m s) as [[a|e] s1]; cbn in *; [|done].
  rewrite <-Hm. apply Hk.
Qed.

Ltac head_stable :=
  repeat match goal with
  | |- head_stable (mbind _ _) => apply head_stable_bind; [|intros ?]
  | |- head_stable (raise_if ?b _ _) => destruct b; intros ?; reflexivity
  | |- head_stable (match ?x with _ => _ end) => destruct x
  | |- head_stable _ => intros ?; reflexivity
  end.

Lemma memory_transition_stable id expected status version : head_stable (memory_transition id expected status version).
Proof. unfold memory_transition, get_record, set_record. head_stable. Qed.

Lemma memory_add_stable sha256 m : head_stable (memory_add_candidate sha256 m).
Proof. unfold memory_add_candidate, set_record. head_stable. Qed.

Lemma memory_uploaded_stable id v : head_stable (memory_uploaded id v).
Proof. unfold memory_uploaded. apply head_stable_bind; [head_stable|]. intros. apply memory_transition_stable. Qed.

Lemma memory_reject_stable id why : head_stable (memory_reject id why).
Proof. unfold memory_reject, get_record, set_record. head_stable. Qed.

Lemma ignore_stable {A} (m : M CheckpointRegistry A) : head_stable m → head_stable (ignore m).
Proof. intros H. apply head_stable_bind; [done|]. by intros a s. Qed.

(** A promotion either answers from HEAD or moves it by one generation. *)
Lemma memory_promote_ret id g s h s' :
  memory_promote id g s = (Ret h, s') →
  (s' = s ∧ h = reg_head s ∧ h_current h = Some id ∧
   ∃ r, reg_records s !! id = Some r ∧ r_status r = CheckpointStatus.VERIFIED) ∨
  (∃ r, reg_records s !! id = Some r ∧ r_status r = CheckpointStatus.RESTORE_VERIFIED ∧ g = h_generation (reg_head s) ∧
   m_parent (r_manifest r) = h_current (reg_head s) ∧ h = mk_CheckpointHead (g + 1) (Some id) (h_current (reg_head s)) ∧
   s' = mk_CheckpointRegistry h (<[id := with_status r CheckpointStatus.VERIFIED]> (reg_records s))).
Proof.
  unfold memory_promote, get_record, set_record. intros H. run_inv.
  - left. b2p. naive_solver.
  - right. repeat match goal with H : modify _ _ = _ |- _ => injection H as _ <- end. b2p. subst. cbn in *. eauto 10.
Qed.

Lemma memory_promote_exc id g s e s' : memory_promote id g s = (Exc e, s') → s' = s.
Proof.
  unfold memory_promote, get_record, set_record. py_cbn.
  destruct (reg_records s !! id) as [r|]; cbn; [|by intros [= _ <-]].
  destruct (_ && _); cbn; [done|]. destruct (negb _); cbn; [by intros [= _ <-]|].
  destruct (negb _); cbn; [by intros [= _ <-]|]. destruct (negb _); cbn; [by intros [= _ <-]|done].
Qed.

Lemma memory_laws sha256 : @RegistryLaws CheckpointRegistry (memory_contract sha256).
Proof.
  split; unfold keeps_head; cbn [registry_head registry_add_candidate registry_uploaded registry_readback_verified
    registry_restore_verified registry_reject registry_promote memory_contract].
  - done.
  - intros m s. cbn. f_equal. apply ignore_stable, memory_add_stable.
  - intros id v s. cbn. f_equal. apply ignore_stable, memory_uploaded_stable.
  - intros id s. cbn. f_equal. apply ignore_stable, memory_transition_stable.
  - intros id s. cbn. f_equal. apply ignore_stable, memory_transition_stable.
  - intros id why s. cbn. f_equal. apply ignore_stable, memory_reject_stable.
  - intros id g s h s' _ [(-> & -> & Hc & _)|(r & _ & _ & _ & _ & -> & ->)]%memory_promote_ret; done.
  - intros id g s e s' _ ->%memory_promote_exc. done.
Qed.

(** ** The laws, over the ledger *)

(** What [registry_head] answers depends on the heads alone. *)
Lemma durable_head_eq kind l :
  (durable_head kind l).1 =
  match List.find (by_hd kind) (l_heads l) with None => Ret CheckpointHead_init | Some h => head_of_row h end.
Proof. unfold durable_head, checkpoint_head. py_cbn. cbn. by destruct (List.find _ _). Qed.

Lemma durable_head_reads kind l : (durable_head kind l).2 = l.
Proof. unfold durable_head, checkpoint_head. py_cbn. cbn. by destruct (List.find _ _). Qed.

Lemma durable_head_heads kind l l' : l_heads l' = l_heads l → (durable_head kind l').1 = (durable_head kind l).1.
Proof. intros E. by rewrite !durable_head_eq, E. Qed.

Lemma durable_keeps {A} kind (m : M ledger A) :
  keeps l_heads m → ∀ l, (durable_head kind (m l).2).1 = (durable_head kind l).1.
Proof. intros H l. apply durable_head_heads, H. Qed.

Lemma keeps_durable_head {X} (π : ledger → X) kind : keeps π (durable_head kind).
Proof. intros l. by rewrite durable_head_reads. Qed.

Lemma checkpoint_candidate_reads id l : (checkpoint_candidate id l).2 = l.
Proof. unfold checkpoint_candidate. py_cbn. cbn. repeat case_match; simplify_eq/=; done. Qed.

Lemma keeps_checkpoint_candidate {X} (π : ledger → X) id : keeps π (checkpoint_candidate id).
Proof. intros l. by rewrite checkpoint_candidate_reads. Qed.

#[local] Hint Resolve keeps_durable_head keeps_checkpoint_candidate : frame.

Lemma head_uuid_of id : valid_uuid id → head_uuid (Some (uuid_str id)) = Ret (Some id).
Proof.
  intros H. unfold head_uuid, truthy_text. rewrite bool_decide_eq_false_2.
  - by rewrite uuid_of_uuid_str.
  - intros E. pose proof (uuid_of_uuid_str id H) as E'. rewrite E in E'. discriminate E'.
Qed.

Lemma head_uuid_valid t u : head_uuid t = Ret (Some u) → valid_uuid u.
Proof.
  unfold head_uuid. destruct (truthy_text t) as [s|]; [|done].
  destruct (uuid_of_text s) eqn:E; [|done]. intros [= <-]. by apply (uuid_of_text_valid s).
Qed.

Lemma head_uuid_parent t : head_uuid (parent_text t) = Ret t ∨ (∃ u, t = Some u ∧ ¬ valid_uuid u).
Proof.
  destruct t as [u|]; [|by left]. destruct (decide (u < 2 ^ 128)%N) as [Hu|Hu]; [left|right; eauto].
  by apply head_uuid_of.
Qed.

Lemma head_of_row_inv h x :
  head_of_row h = Ret x →
  head_uuid (hd_current h) = Ret (h_current x) ∧ head_uuid (hd_previous h) = Ret (h_previous x) ∧ h_generation x = hd_generation h.
Proof.
  unfold head_of_row, mbind, outcome_bind.
  destruct (head_uuid (hd_current h)) eqn:E1; [|done]. destruct (head_uuid (hd_previous h)) eqn:E2; [|done].
  by intros [= <-].
Qed.

Lemma durable_head_valid kind l x l' u : durable_head kind l = (Ret x, l') → h_current x = Some u → valid_uuid u.
Proof.
  intros H Hu. pose proof (durable_head_eq kind l) as E. rewrite H in E. cbn in E.
  destruct (List.find _ _) as [h|]; [|by injection E as ->]. symmetry in E. apply head_of_row_inv in E as (E & _).
  rewrite Hu in E. by apply (head_uuid_valid (hd_current h)).
Qed.

(** HEAD as the adapter sees it after the ledger promoted. *)
Lemma durable_promoted kind id g parent now l h l' :
  promoted kind id g parent now l h l' → (durable_head kind l').1 = head_of_row h ∧ hd_current h = Some id.
Proof.
  rewrite durable_head_eq. intros [h0 Hf Hc|c h0 l0 -> Hf Hs Hst Hcg Hcs Hpos Hne Hheads Hv]; [by rewrite Hf|].
  split; [|done]. rewrite Hheads. unfold heads_after, head_position in *.
  destruct (List.find (by_hd kind) (l_heads l)) as [r|] eqn:Eh.
  - injection Hpos as Hg Hp. by rewrite (find_advanced _ _ _ _ _ _ r Eh Hg Hp).
  - rewrite find_app, Eh. cbn. unfold by_hd. cbn. by rewrite bool_decide_eq_true_2.
Qed.

Lemma durable_promote_ret kind now id g l h l' :
  durable_promote kind now id g l = (Ret h, l') →
  ∃ parent row, promoted kind (uuid_str id) g parent now l row l' ∧ head_of_row row = Ret h.
Proof.
  unfold durable_promote. intros H. run_inv.
  match goal with H0 : durable_head _ _ = (_, ?s) |- _ => pose proof (keeps_inv _ _ _ _ _ (keeps_durable_head (λ l, l) kind) H0) end.
  match goal with H0 : checkpoint_candidate _ _ = (_, ?s) |- _ =>
    pose proof (keeps_inv _ _ _ _ _ (keeps_checkpoint_candidate (λ l, l) (uuid_str id)) H0) end.
  cbn in *. subst. eexists _, _. split; [by apply promote_cases|done].
Qed.

Lemma durable_promote_exc kind now id g l e l' :
  valid_uuid id → durable_promote kind now id g l = (Exc e, l') → (durable_head kind l').1 = (durable_head kind l).1.
Proof.
  intros Hid. unfold durable_promote, mbind, M_bind.
  pose proof (durable_head_reads kind l) as Hr. destruct (durable_head kind l) as [[x|?] l0] eqn:Eh; cbn in Hr; subst l0;
    [|by intros [= _ <-]; rewrite Eh].
  pose proof (checkpoint_candidate_reads (uuid_str id) l) as Hr.
  destruct (checkpoint_candidate (uuid_str id) l) as [[c|?] l0]; cbn in Hr; subst l0; [|by intros [= _ <-]; rewrite Eh].
  unfold raise_if. destruct (_ && _); [by intros [= _ <-]; rewrite Eh|]. cbn.
  destruct (promote_checkpoint _ _ _ _ _ l) as [[row|?] l0] eqn:Ep; [|apply atomically_exc in Ep as ->; by intros [= _ <-]; rewrite Eh].
  intros [E <-]%pair_eq. apply promote_cases in Ep. destruct Ep as [h0 Hf Hc|? h0 l1 Er _ _ _ _ _ _ _ _ _]; [by rewrite Eh|exfalso].
  rewrite Er in E. unfold head_of_row in E. cbn [hd_current hd_previous] in E. rewrite head_uuid_of in E by done. cbn in E.
  destruct (head_uuid_parent (h_current x)) as [Ep|(u & Hu & Hn)]; [by rewrite Ep in E|].
  by apply Hn, (durable_head_valid kind l x l).
Qed.

Lemma durable_laws sha256 operation_id dataset_ref service_kind now :
  @RegistryLaws ledger (durable_contract sha256 operation_id dataset_ref service_kind now).
Proof.
  split; unfold keeps_head; cbn [registry_head registry_add_candidate registry_uploaded registry_readback_verified
    registry_restore_verified registry_reject registry_promote durable_contract].
  - apply durable_head_reads.
  - intros m. apply durable_keeps. unfold durable_add_candidate, add_checkpoint_candidate, insert_candidate. frame.
  - intros id v. apply durable_keeps. unfold durable_uploaded, mark_checkpoint_uploaded. frame.
  - intros id. apply durable_keeps. unfold durable_readback_verified, mark_checkpoint_readback_verified, checkpoint_transition. frame.
  - intros id. apply durable_keeps. unfold durable_restore_verified, mark_checkpoint_restore_verified, checkpoint_transition. frame.
  - intros id why. apply durable_keeps. unfold durable_reject, fail_checkpoint. frame.
  - intros id g s h s' Hid (parent & row & Hp & Hrow)%durable_promote_ret. apply durable_promoted in Hp as [-> Hc].
    rewrite Hrow. split; [done|]. apply head_of_row_inv in Hrow as (E & _). rewrite Hc, head_uuid_of in E by done.
    by injection E.
  - intros id g s e s' Hid. by apply durable_promote_exc.
Qed.

(** The ledger-backed registry keeps the contract the publisher relies on.
    Reading HEAD changes nothing; adding a candidate, recording its upload, its
    read-back and its restore, and rejecting it never move HEAD, whether they
    return or raise; a promotion that returns leaves HEAD at the checkpoint it
    was asked for, and one that raises leaves HEAD where it was. *)
Theorem durable_registry_laws sha256 operation_id dataset_ref service_kind now :
  @RegistryLaws ledger (durable_contract sha256 operation_id dataset_ref service_kind now).
Proof. apply durable_laws. Qed.

(** ** Executions of the in-memory registry *)

Inductive registry_call : Type :=
| RAdd (m : CheckpointManifest) | RUploaded (id : UUID) (version : string) | RReadback (id : UUID) | RRestore (id : UUID)
| RReject (id : UUID) (reason : string) | RPromote (id : UUID) (expected_generation : Z).

Definition registry_step (sha256 : string → string) (c : registry_call) : M CheckpointRegistry unit :=
  match c with
  | RAdd m => ignore (memory_add_candidate sha256 m)
  | RUploaded id v => ignore (memory_uploaded id v)
  | RReadback id => ignore (memory_readback_verified id)
  | RRestore id => ignore (memory_restore_verified id)
  | RReject id why => ignore (memory_reject id why)
  | RPromote id g => ignore (memory_promote id g)
  end.

Definition registry_run (sha256 : string → string) (cs : list registry_call) (s : CheckpointRegistry) : CheckpointRegistry :=
  fold_left (λ s c, (registry_step sha256 c s).2) cs s.

(** The verified checkpoints from [head] back through the parents of their
    manifests to the first one. *)
Inductive lineage (records : gmap UUID CheckpointRecord) : option UUID → list UUID → Prop :=
| lineage_root : lineage records None []
| lineage_link id r chain :
    records !! id = Some r → r_status r = CheckpointStatus.VERIFIED → lineage records (m_parent (r_manifest r)) chain →
    lineage records (Some id) (id :: chain).

Definition registry_ok (s : CheckpointRegistry) : Prop :=
  ∃ chain, lineage (reg_records s) (h_current (reg_head s)) chain ∧ NoDup chain ∧
    h_generation (reg_head s) = Z.of_nat (length chain) ∧ h_previous (reg_head s) = list.head (tail chain) ∧
    ∀ id r, reg_records s !! id = Some r → r_status r = CheckpointStatus.VERIFIED → id ∈ chain.

Lemma lineage_verified records h chain id :
  lineage records h chain → id ∈ chain → ∃ r, records !! id = Some r ∧ r_status r = CheckpointStatus.VERIFIED.
Proof. induction 1 as [|? r ? ? ? ? IH]; [by intros ?%not_elem_of_nil|]. intros [->|?]%elem_of_cons; eauto. Qed.

Lemma lineage_head records h chain : lineage records h chain → h = list.head chain.
Proof. by destruct 1. Qed.

(** A record that is not VERIFIED is not part of the lineage. *)
Lemma lineage_insert records h chain id r :
  lineage records h chain → id ∉ chain → lineage (<[id := r]> records) h chain.
Proof.
  induction 1 as [|i ri ch Hi Hs _ IH]; [constructor|]. intros [Hne Hch]%not_elem_of_cons.
  apply (lineage_link _ _ ri); [by rewrite lookup_insert_ne|done|by apply IH].
Qed.

(** Writing an unverified record over one that is not VERIFIED, or over none. *)
Lemma registry_ok_write s id r :
  registry_ok s → r_status r ≠ CheckpointStatus.VERIFIED →
  (∀ r0, reg_records s !! id = Some r0 → r_status r0 ≠ CheckpointStatus.VERIFIED) →
  registry_ok (mk_CheckpointRegistry (reg_head s) (<[id := r]> (reg_records s))).
Proof.
  intros (chain & Hl & Hnd & Hg & Hp & Hv) Hr Hold. exists chain. split_and!; cbn; try done.
  - apply lineage_insert; [done|]. intros Hin. destruct (lineage_verified _ _ _ _ Hl Hin) as (r0 & H0 & Hs). by apply (Hold r0).
  - intros i ri. destruct (decide (i = id)) as [->|Hne]; [rewrite lookup_insert_eq; by intros [= <-]|].
    rewrite lookup_insert_ne by done. apply Hv.
Qed.

Lemma ok_ignore {A} (m : M CheckpointRegistry A) : preserves registry_ok m → preserves registry_ok (ignore m).
Proof. intros H. apply preserves_bind; [done|]. intros. apply preserves_ret. Qed.

Lemma ok_transition id expected status version :
  expected ≠ CheckpointStatus.VERIFIED → status ≠ CheckpointStatus.VERIFIED →
  preserves registry_ok (memory_transition id expected status version).
Proof.
  intros He Hs s Hok. unfold memory_transition, get_record, set_record. py_cbn.
  destruct (reg_records s !! id) as [r|] eqn:Er; cbn; [|done]. case_bool_decide; [done|].
  case_bool_decide as E; cbn; [|done]. apply registry_ok_write; [done|done|]. rewrite Er. intros r0 [= <-]. by rewrite E.
Qed.

Lemma ok_add sha256 m : preserves registry_ok (memory_add_candidate sha256 m).
Proof.
  intros s Hok. unfold memory_add_candidate, set_record. py_cbn. destruct (manifest_validate sha256 m); [|done].
  destruct (reg_records s !! m_id m) as [r|] eqn:Er; cbn; [by destruct (negb _)|]. destruct (negb _); [done|].
  apply registry_ok_write; [done|done|]. by rewrite Er.
Qed.

Lemma ok_reject id why : preserves registry_ok (memory_reject id why).
Proof.
  intros s Hok. unfold memory_reject, get_record, set_record. py_cbn. destruct (blank_or_longer _ _); [done|]. cbn.
  destruct (reg_records s !! id) as [r|] eqn:Er; cbn; [|done]. case_bool_decide; [done|].
  apply registry_ok_write; [done|done|]. rewrite Er. by intros r0 [= <-].
Qed.

Lemma ok_promote id g : preserves registry_ok (memory_promote id g).
Proof.
  intros s Hok. destruct (memory_promote id g s) as [[h|e] s'] eqn:E; cbn; [|by apply memory_promote_exc in E as ->].
  apply memory_promote_ret in E as [(-> & _)|(r & Hr & Hs & -> & Hp & -> & ->)]; [done|].
  destruct Hok as (chain & Hl & Hnd & Hg & Hprev & Hv).
  assert (id ∉ chain) as Hid.
  { intros Hin. destruct (lineage_verified _ _ _ _ Hl Hin) as (r0 & H0 & H1). congruence. }
  exists (id :: chain). split_and!; cbn.
  - apply (lineage_link _ _ (with_status r CheckpointStatus.VERIFIED)); [apply lookup_insert_eq|done|].
    cbn. rewrite Hp. by apply lineage_insert.
  - by constructor.
  - rewrite Hg. lia.
  - by rewrite (lineage_head _ _ _ Hl).
  - intros i ri. destruct (decide (i = id)) as [->|Hne]; [intros; apply list_elem_of_here|].
    rewrite lookup_insert_ne by done. intros. apply list_elem_of_further. by apply (Hv i ri).
Qed.

Lemma registry_step_ok sha256 c : preserves registry_ok (registry_step sha256 c).
Proof.
  destruct c; cbn; apply ok_ignore; [apply ok_add| |by apply ok_transition..|apply ok_reject|apply ok_promote].
  apply preserves_bind; [apply preserves_raise_if|]. intros. by apply ok_transition.
Qed.

(** In the in-memory registry, after any calls, HEAD is the top of one
    unbroken lineage: following the manifests' parents from HEAD runs through
    pairwise different VERIFIED checkpoints down to one without a parent, as
    many as the generation, the second of them is what HEAD keeps as previous,
    and no checkpoint outside it is VERIFIED. *)
Theorem verified_checkpoints_are_one_lineage sha256 cs :
  let s := registry_run sha256 cs CheckpointRegistry_init in
  ∃ chain, lineage (reg_records s) (h_current (reg_head s)) chain ∧ NoDup chain ∧
    h_generation (reg_head s) = Z.of_nat (length chain) ∧ h_previous (reg_head s) = list.head (tail chain) ∧
    ∀ id r, reg_records s !! id = Some r → r_status r = CheckpointStatus.VERIFIED → id ∈ chain.
Proof.
  cbn zeta. change (registry_ok (registry_run sha256 cs CheckpointRegistry_init)).
  assert (registry_ok CheckpointRegistry_init) as H.
  { exists []. split_and!; [constructor..|]. intros id r. cbn. by rewrite lookup_empty. }
  revert H. generalize CheckpointRegistry_init. induction cs as [|c cs IH]; intros s H; [done|].
  apply IH. by apply registry_step_ok.
Qed.

(** A run in which every call is accepted, and the lineage it leaves. *)
Example two_checkpoints :
  let s := registry_run sample_sha256
    [RAdd (signed 1 None); RUploaded 1%N "v1"; RReadback 1%N; RRestore 1%N; RPromote 1%N 0;
     RAdd (signed 2 (Some 1%N)); RUploaded 2%N "v2"; RReadback 2%N; RRestore 2%N; RPromote 2%N 1] CheckpointRegistry_init in
  reg_head s = mk_CheckpointHead 2 (Some 2%N) (Some 1%N).
Proof. vm_compute. reflexivity. Qed.
