(* ===== verification/Publisher.v ===== *)
(** * Publisher: upload, read-back, restore and promotion of a checkpoint

    Models checkpoints/publisher.py over any registry that keeps the contract of
    Registry ([RegistryLaws]).  The state is the registry's and the rest of the
    world's: the files, the provider's storage and the verifier are reached
    through the operations of the protocols the publisher is given. *)

From S2P Require Import Prelude Time Json Uuid Manifest LedgerState LedgerCheckpoints Registry.

(** [path.name] and [path / name] on path texts. *)
Definition path_name (p : string) : string := default "" (list.last (path_parts p)).
Definition path_join (p q : string) : string := if is_absolute q then q else p +:+ "/" +:+ q.

Record PublishReceipt {Seconds : Type} := mk_PublishReceipt {
  pr_checkpoint : string; pr_version : string; pr_manifest_sha256 : string; pr_current : string; pr_previous : option string;
  pr_upload_seconds : Seconds; pr_readback_seconds : Seconds; pr_restore_seconds : Seconds; pr_bytes : Z;
  pr_restore : list (string * json);
}.
Arguments PublishReceipt : clear implicits.

(** [str(head.current)] *)
Definition str_uuid_option (u : option UUID) : string := match u with Some u => uuid_str u | None => "None" end.

Section publisher.
Context {R W : Type} `{CheckpointRegistryContract R}.
(** The clock: [monotonic()] and the difference of two readings. *)
Context {Seconds : Type} (monotonic : M W Seconds) (elapsed : Seconds → Seconds → Seconds).
(** [load_and_verify] reads the manifest and hashes the package's files. *)
Context (load_and_verify : string → string → M W CheckpointManifest).
(** [PrivateCheckpointProvider] and [IndependentRestoreVerifier]. *)
Context (upload_candidate : string → CheckpointManifest → M W string).
Context (exact_readback : string → string → M W string).
Context (verify_restore : string → CheckpointManifest → M W (list (string * json))).

Definition on_registry {A} (m : M R A) : M (R * W) A := λ s, let '(o, r) := m s.1 in (o, (r, s.2)).
Definition on_world {A} (m : M W A) : M (R * W) A := λ s, let '(o, w) := m s.2 in (o, (s.1, w)).

(** [with suppress(ValueError): m] *)
Definition suppress_value_error (m : M (R * W) unit) : M (R * W) unit :=
  try_except m (λ e, if is_value_error e then mret tt else reraise e).

Record progress := mk_progress {
  pg_ref : string; pg_upload : Seconds; pg_readback : Seconds; pg_restored : Seconds; pg_receipt : list (string * json);
  pg_head : CheckpointHead;
}.

(** The body of the [try]. *)
Definition publish_body (package manifest_path readback_directory : string) (manifest : CheckpointManifest)
    (initial_head : CheckpointHead) : M (R * W) progress :=
  started ← on_world monotonic;
  exact_ref ← on_world (upload_candidate package manifest);
  stopped ← on_world monotonic;
  on_registry (registry_uploaded (m_id manifest) exact_ref) ;;
  started' ← on_world monotonic;
  readback_package ← on_world (exact_readback exact_ref readback_directory);
  readback_manifest ← on_world (load_and_verify (path_join readback_package (path_name manifest_path)) readback_package);
  raise_if (m_sha256 readback_manifest != m_sha256 manifest) PublishError "exact readback manifest differs from candidate" ;;
  stopped' ← on_world monotonic;
  on_registry (registry_readback_verified (m_id manifest)) ;;
  started'' ← on_world monotonic;
  restore_receipt ← on_world (verify_restore readback_package readback_manifest);
  raise_if (assoc "ok" restore_receipt != Some (JBool true)) PublishError "independent restore smoke did not pass" ;;
  stopped'' ← on_world monotonic;
  on_registry (registry_restore_verified (m_id manifest)) ;;
  head ← on_registry (registry_promote (m_id manifest) (h_generation initial_head));
  mret (mk_progress exact_ref (elapsed stopped started) (elapsed stopped' started') (elapsed stopped'' started'')
          restore_receipt head).

(** The [except Exception as exc] clause, which always raises.  [PublishError]
    stands for itself and its subclasses. *)
Definition publish_failed (manifest : CheckpointManifest) (exc : exn) : M (R * W) progress :=
  suppress_value_error (on_registry (registry_reject (m_id manifest) (class_name exc))) ;;
  head ← on_registry registry_head;
  raise_if (h_current head == Some (m_id manifest)) AssertionError "failed candidate advanced checkpoint HEAD" ;;
  if exn_cls exc == PublishError then reraise exc
  else raise PublishError "checkpoint candidate failed verification".

(** [publish] once the manifest is loaded. *)
Definition publish_loaded (package manifest_path readback_directory : string) (manifest : CheckpointManifest) :
    M (R * W) (PublishReceipt Seconds) :=
  initial_head ← on_registry registry_head;
  on_registry (registry_add_candidate manifest) ;;
  p ← try_except (publish_body package manifest_path readback_directory manifest initial_head) (publish_failed manifest);
  mret (mk_PublishReceipt Seconds (uuid_str (m_id manifest)) (pg_ref p) (m_sha256 manifest) (str_uuid_option (h_current (pg_head p)))
          (uuid_str <$> h_previous (pg_head p)) (pg_upload p) (pg_readback p) (pg_restored p)
          (foldr Z.add 0 (map cf_size (m_files manifest))) (pg_receipt p)).

Definition publish (package manifest_path readback_directory : string) : M (R * W) (PublishReceipt Seconds) :=
  manifest ← on_world (load_and_verify manifest_path package);
  publish_loaded package manifest_path readback_directory manifest.

End publisher.

(** ** [assert_restore_equality] *)

Definition assert_restore_equality (manifest : CheckpointManifest) (observed : list (string * json)) : outcome unit :=
  let expected := m_probe manifest in
  throw_if (negb (py_eq (assoc "schema_version" observed) (JInt (rp_schema expected)))) PublishError
    "restore schema version differs" ;;
  throw_if (negb (py_eq (assoc "canonical_revision" observed) (JInt (rp_revision expected)))) PublishError
    "restore canonical revision differs" ;;
  throw_if (negb (py_eq (assoc "logical_hash_sha256" observed) (JStr (rp_hash expected)))) PublishError
    "restore logical hash differs" ;;
  throw_if (negb (py_eq (assoc "row_counts" observed) (JObj (map (λ '(k, n), (k, JInt n)) (rp_counts expected))))) PublishError
    "restore row counts differ".

(** ** HEAD and publication *)

Section head.
Context {R W : Type} `{RegistryLaws R}.

(** What HEAD reads as, in the publisher's state. *)
Definition head_of (s : R * W) : outcome CheckpointHead := (registry_head s.1).1.

Definition stable {A} (m : M (R * W) A) : Prop := ∀ s, head_of (m s).2 = head_of s.
(** HEAD is where it was whenever [m] raises. *)
Definition stable_on_raise {A} (m : M (R * W) A) : Prop := ∀ s e s', m s = (Exc e, s') → head_of s' = head_of s.

Lemma stable_bind {A B} (m : M (R * W) A) (k : A → M (R * W) B) : stable m → (∀ a, stable (k a)) → stable (mbind k m).
Proof.
  intros Hm Hk s. specialize (Hm s). unfold mbind, M_bind. destruct (m s) as [[a|e] s1]; cbn in *; [|done].
  rewrite <-Hm. apply Hk.
Qed.

Lemma stable_on_raise_bind {A B} (m : M (R * W) A) (k : A → M (R * W) B) :
  stable m → (∀ a, stable_on_raise (k a)) → stable_on_raise (mbind k m).
Proof.
  intros Hm Hk s e s'. specialize (Hm s). unfold mbind, M_bind. destruct (m s) as [[a|e1] s1]; cbn in *.
  - intros E. rewrite <-Hm. by apply (Hk a s1 e).
  - by intros [= _ <-].
Qed.

Lemma stable_raises {A} (m : M (R * W) A) : stable m → stable_on_raise m.
Proof. intros Hm s e s' E. specialize (Hm s). by rewrite E in Hm. Qed.

Lemma stable_on_world {A} (m : M W A) : stable (on_world m).
Proof. intros s. unfold on_world. by destruct (m s.2). Qed.

Lemma stable_on_registry {A} (m : M R A) : keeps_head m → stable (on_registry m).
Proof. intros Hm s. specialize (Hm s.1). unfold on_registry. by destruct (m s.1). Qed.

Lemma stable_head : stable (on_registry registry_head).
Proof. apply stable_on_registry. intros s. by rewrite head_reads. Qed.

Lemma stable_raise_if b c msg : stable (raise_if b c msg).
Proof. intros s. by destruct b. Qed.

Lemma stable_suppress m : stable m → stable (suppress_value_error m).
Proof.
  intros Hm s. specialize (Hm s). unfold suppress_value_error, try_except. destruct (m s) as [[a|e] s1]; [done|].
  by destruct (is_value_error e).
Qed.

Lemma promote_on_raise id g : valid_uuid id → stable_on_raise (on_registry (registry_promote id g)).
Proof.
  intros Hid s e s'. unfold on_registry. destruct (registry_promote id g s.1) as [[h|e1] r] eqn:E; [done|].
  intros [= _ <-]. by apply (promote_fails id g s.1 e1).
Qed.

Lemma on_registry_inv {A} (m : M R A) (s s' : R * W) a :
  on_registry m s = (Ret a, s') → m s.1 = (Ret a, s'.1) ∧ s'.2 = s.2.
Proof. unfold on_registry. destruct (m s.1) as [o r]. by intros [= -> <-]. Qed.

Lemma on_world_inv {A} (m : M W A) (s s' : R * W) a :
  on_world m s = (Ret a, s') → m s.2 = (Ret a, s'.2) ∧ s'.1 = s.1.
Proof. unfold on_world. destruct (m s.2) as [o w]. by intros [= -> <-]. Qed.

End head.

Create HintDb publish.
#[export] Hint Resolve stable_on_world stable_on_registry stable_head stable_raise_if stable_raises
  add_candidate_keeps uploaded_keeps readback_keeps restore_keeps reject_keeps : publish.

Section publication.
Context {R W : Type} `{RegistryLaws R}.
Context {Seconds : Type} (monotonic : M W Seconds) (elapsed : Seconds → Seconds → Seconds).
Context (load_and_verify : string → string → M W CheckpointManifest).
Context (upload_candidate : string → CheckpointManifest → M W string).
Context (exact_readback : string → string → M W string).
Context (verify_restore : string → CheckpointManifest → M W (list (string * json))).
Abbreviation body := (publish_body monotonic elapsed load_and_verify upload_candidate exact_readback verify_restore).
Abbreviation publish_ := (publish monotonic elapsed load_and_verify upload_candidate exact_readback verify_restore).
Abbreviation loaded := (publish_loaded monotonic elapsed load_and_verify upload_candidate exact_readback verify_restore).

Lemma body_on_raise package path dir m h : valid_uuid (m_id m) → stable_on_raise (W:=W) (body package path dir m h).
Proof.
  intros Hid. unfold publish_body.
  do 15 (apply stable_on_raise_bind; [auto with publish|intros ?]).
  intros s e s'. unfold mbind, M_bind. destruct (on_registry (registry_promote (m_id m) (h_generation h)) s) as [[x|e1] s1] eqn:E; [done|].
  intros [= _ <-]. exact (promote_on_raise (m_id m) (h_generation h) Hid s e1 s1 E).
Qed.

Lemma failed_stable m e : stable (W:=W) (publish_failed (Seconds:=Seconds) m e).
Proof.
  unfold publish_failed. apply stable_bind; [apply stable_suppress; auto with publish|intros _].
  apply stable_bind; [apply stable_head|intros h]. apply stable_bind; [apply stable_raise_if|intros _].
  by case_bool_decide; intros s.
Qed.

(** The [try] statement: HEAD stays where it was when it raises. *)
Lemma try_on_raise package path dir m h :
  valid_uuid (m_id m) → stable_on_raise (W:=W) (try_except (body package path dir m h) (publish_failed m)).
Proof.
  intros Hid s e s'. unfold try_except. destruct (body package path dir m h s) as [[p|e1] s1] eqn:E; [done|].
  intros E'. rewrite <-(body_on_raise _ _ _ _ _ Hid _ _ _ E). exact (stable_raises _ (failed_stable m e1) s1 e s' E').
Qed.

Lemma failed_raises m e s p s' : publish_failed (R:=R) (W:=W) (Seconds:=Seconds) m e s = (Ret p, s') → False.
Proof.
  unfold publish_failed. intros E. apply bind_ret_inv in E as (? & ? & _ & E). apply bind_ret_inv in E as (? & ? & _ & E).
  apply bind_ret_inv in E as (? & ? & _ & E). by case_bool_decide.
Qed.

Lemma loaded_on_raise package path dir m :
  valid_uuid (m_id m) → stable_on_raise (W:=W) (loaded package path dir m).
Proof.
  intros Hid. unfold publish_loaded. do 2 (apply stable_on_raise_bind; [auto with publish|intros ?]).
  intros s e s'. unfold mbind, M_bind. destruct (try_except _ _ s) as [[p|e1] s1] eqn:Et; [done|].
  intros [= _ <-]. by apply (try_on_raise package path dir m a Hid s e1).
Qed.

Lemma body_inv package path dir m h0 s p s' :
  body package path dir m h0 s = (Ret p, s') →
  ∃ m' pkg w1 w2 w3 w4 w5 w6 w7 r1 r2 r3,
    upload_candidate package m w1 = (Ret (pg_ref p), w2) ∧
    registry_uploaded (m_id m) (pg_ref p) s.1 = (Ret tt, r1) ∧
    exact_readback (pg_ref p) dir w3 = (Ret pkg, w4) ∧
    load_and_verify (path_join pkg (path_name path)) pkg w4 = (Ret m', w5) ∧ m_sha256 m' = m_sha256 m ∧
    registry_readback_verified (m_id m) r1 = (Ret tt, r2) ∧
    verify_restore pkg m' w6 = (Ret (pg_receipt p), w7) ∧ assoc "ok" (pg_receipt p) = Some (JBool true) ∧
    registry_restore_verified (m_id m) r2 = (Ret tt, r3) ∧
    registry_promote (m_id m) (h_generation h0) r3 = (Ret (pg_head p), s'.1).
Proof.
  unfold publish_body. intros E.
  repeat match goal with
  | E : mbind _ _ _ = (Ret _, _) |- _ => apply bind_ret_inv in E as (? & ? & ? & E)
  | E : on_world _ _ = (Ret _, _) |- _ => apply on_world_inv in E as [? ?]
  | E : on_registry _ _ = (Ret _, _) |- _ => apply on_registry_inv in E as [? ?]
  | E : raise_if _ _ _ _ = (Ret _, _) |- _ => apply raise_if_inv in E as [? ->]
  | E : mret _ _ = (Ret _, _) |- _ => apply mret_inv in E as [<- ->]
  | u : unit |- _ => destruct u
  | E : @eq R _ _ |- _ => rewrite E in *; clear E
  end.
  b2p. cbn. eauto 30.
Qed.

(** A publication that raises leaves checkpoint HEAD where it was, whatever
    failed: loading the package, the upload, the read-back and its comparison,
    the independent restore, the registry itself or the promotion. *)
Theorem failed_publication_keeps_head package path dir s e s' :
  (∀ p q w m w', load_and_verify p q w = (Ret m, w') → valid_uuid (m_id m)) →
  publish_ package path dir s = (Exc e, s') → head_of s' = head_of s.
Proof.
  intros Hload. unfold publish, mbind, M_bind.
  destruct (on_world (load_and_verify path package) s) as [[m|e1] s1] eqn:E.
  - apply on_world_inv in E as [El Es]. intros E. unfold head_of in *. rewrite <-Es.
    by apply (loaded_on_raise package path dir m (Hload _ _ _ _ _ El) s1 e).
  - intros [= _ <-]. by apply (stable_raises _ (stable_on_world (load_and_verify path package)) s e1).
Qed.

(** A publication that returns did all of its work, in order, and moved HEAD.
    The package was loaded and verified; the registry accepted the candidate;
    the provider stored it as the version the receipt names, which was recorded;
    that very version was read back and its manifest verified and found to have
    the candidate's hash; the independent restore of what was read back reported
    success; each gate was recorded in turn, the promotion from the generation
    HEAD had at the start returned, and HEAD now is the published checkpoint. *)
Theorem successful_publication package path dir s receipt s' :
  (∀ p q w m w', load_and_verify p q w = (Ret m, w') → valid_uuid (m_id m)) →
  publish_ package path dir s = (Ret receipt, s') →
  ∃ m m' h0 h pkg ref w0 w1 w2 w3 w4 w5 w6 w7 r0 r1 r2 r3,
    load_and_verify path package s.2 = (Ret m, w0) ∧ head_of s = Ret h0 ∧
    registry_add_candidate m s.1 = (Ret tt, r0) ∧
    upload_candidate package m w1 = (Ret ref, w2) ∧ registry_uploaded (m_id m) ref r0 = (Ret tt, r1) ∧
    exact_readback ref dir w3 = (Ret pkg, w4) ∧
    load_and_verify (path_join pkg (path_name path)) pkg w4 = (Ret m', w5) ∧ m_sha256 m' = m_sha256 m ∧
    registry_readback_verified (m_id m) r1 = (Ret tt, r2) ∧
    verify_restore pkg m' w6 = (Ret (pr_restore receipt), w7) ∧ assoc "ok" (pr_restore receipt) = Some (JBool true) ∧
    registry_restore_verified (m_id m) r2 = (Ret tt, r3) ∧
    registry_promote (m_id m) (h_generation h0) r3 = (Ret h, s'.1) ∧
    head_of s' = Ret h ∧ h_current h = Some (m_id m) ∧
    pr_checkpoint receipt = uuid_str (m_id m) ∧ pr_version receipt = ref ∧ pr_manifest_sha256 receipt = m_sha256 m ∧
    pr_current receipt = uuid_str (m_id m) ∧ pr_previous receipt = uuid_str <$> h_previous h.
Proof.
  intros Hload E. unfold publish, publish_loaded in E.
  apply bind_ret_inv in E as (m & s1 & El%on_world_inv & E). destruct El as [El Es].
  apply bind_ret_inv in E as (h0 & s2 & Eh%on_registry_inv & E). destruct Eh as [Eh _].
  apply bind_ret_inv in E as ([] & s3 & Ea%on_registry_inv & E). destruct Ea as [Ea _].
  apply bind_ret_inv in E as (p & s4 & Et & E). apply mret_inv in E as [<- ->].
  unfold try_except in Et. destruct (body package path dir m h0 s3) as [[p'|e] s5] eqn:Eb; [|by apply failed_raises in Et].
  injection Et as <- <-. apply body_inv in Eb as (m' & pkg & w1 & w2 & w3 & w4 & w5 & w6 & w7 & r1 & r2 & r3 & Hb).
  destruct Hb as (? & ? & ? & ? & ? & ? & ? & ? & ? & Hp). pose proof (Hload _ _ _ _ _ El) as Hid.
  destruct (promote_moves _ _ _ _ _ Hid Hp) as [Hhead Hc].
  pose proof (head_reads s1.1) as Hr. rewrite Eh in Hr. cbn in Hr. rewrite Es in *. rewrite Hr in Ea. cbn. rewrite Hc.
  exists m, m', h0, (pg_head p'), pkg, (pg_ref p'), s1.2, w1, w2, w3, w4, w5, w6, w7, s3.1, r1, r2, r3.
  split_and!; try done. unfold head_of. by rewrite Eh.
Qed.

End publication.

Lemma py_eq_int o n : py_eq o (JInt n) = true ↔ ∃ v, o = Some v ∧ numeric v = JInt n.
Proof.
  unfold py_eq. destruct o as [v|]; [|naive_solver]. rewrite bool_decide_eq_true. cbn.
  split; [|intros (v' & [= <-] & ->); done]. intros E. exists v. split; [done|]. by destruct v; simplify_eq/=.
Qed.

Lemma py_eq_str o s : py_eq o (JStr s) = true ↔ o = Some (JStr s).
Proof.
  unfold py_eq. destruct o as [v|]; [|naive_solver]. rewrite bool_decide_eq_true. cbn.
  split; [|by intros [= ->]]. by destruct v; intros [= ->].
Qed.

Lemma py_eq_counts o (counts : list (string * Z)) :
  py_eq o (JObj (map (λ '(k, n), (k, JInt n)) counts)) = true ↔
  ∃ v, o = Some v ∧ canon (numeric v) = JObj (sort_keys (map (λ '(k, n), (k, JInt n)) counts)).
Proof.
  assert (canon (numeric (JObj (map (λ '(k, n), (k, JInt n)) counts)))
          = JObj (sort_keys (map (λ '(k, n), (k, JInt n)) counts))) as E.
  { cbn. rewrite !map_map. do 2 f_equal. apply map_ext. by intros [k n]. }
  unfold py_eq. destruct o as [v|]; [|naive_solver]. rewrite E, bool_decide_eq_true. naive_solver.
Qed.

Lemma throw_if_ret b c msg : throw_if b c msg = Ret tt ↔ b = false.
Proof. by destruct b. Qed.

Lemma outcome_bind_unit (m : outcome unit) k : (m ;; k) = Ret tt ↔ m = Ret tt ∧ k = Ret tt.
Proof. destruct m as [[]|]; cbn; naive_solver. Qed.

(** The restore check passes exactly when the probe's observations equal the
    manifest's: schema version, canonical revision, logical hash and, up to
    order, the row counts; any missing or different one raises [PublishError]. *)
Theorem restore_equality_is_exact m observed :
  (assert_restore_equality m observed = Ret tt ↔
   (∃ v, assoc "schema_version" observed = Some v ∧ numeric v = JInt (rp_schema (m_probe m))) ∧
   (∃ v, assoc "canonical_revision" observed = Some v ∧ numeric v = JInt (rp_revision (m_probe m))) ∧
   assoc "logical_hash_sha256" observed = Some (JStr (rp_hash (m_probe m))) ∧
   (∃ v, assoc "row_counts" observed = Some v ∧
      canon (numeric v) = JObj (sort_keys (map (λ '(k, n), (k, JInt n)) (rp_counts (m_probe m)))))) ∧
  (∀ e, assert_restore_equality m observed = Exc e → exn_cls e = PublishError).
Proof.
  unfold assert_restore_equality. split.
  - rewrite !outcome_bind_unit, !throw_if_ret, !negb_false_iff, !py_eq_int, py_eq_str, py_eq_counts. naive_solver.
  - intros e. unfold throw_if, mbind, outcome_bind. repeat (destruct (negb _); [by intros [= <-]|]). done.
Qed.

(** ** A world to publish in

    The package holds a valid manifest, the provider stores it as version
    ["v1"] and reads it back; the restore passes or not. *)
Module PublishScenario.
Definition clock : M Z Z := λ w, (Ret w, w + 1).
Definition load (path package : string) : M Z CheckpointManifest := mret (signed 1 None).
Definition upload (package : string) (m : CheckpointManifest) : M Z string := mret "v1".
Definition readback (version dir : string) : M Z string := mret (path_join dir version).
Definition restore (ok : bool) (package : string) (m : CheckpointManifest) : M Z (list (string * json)) :=
  mret [("ok", JBool ok)].

#[local] Instance contract : CheckpointRegistryContract CheckpointRegistry := memory_contract sample_sha256.
#[local] Instance laws : RegistryLaws CheckpointRegistry := memory_laws sample_sha256.

Definition attempt (ok : bool) : M (CheckpointRegistry * Z) (PublishReceipt Z) :=
  publish clock Z.sub load upload readback (restore ok) "/package" "/package/manifest.json" "/readback".

Lemma load_valid p q w m w' : load p q w = (Ret m, w') → valid_uuid (m_id m).
Proof. intros [= <- _]. done. Qed.
End PublishScenario.

Lemma failed_publication_keeps_head_witness :
  (PublishScenario.attempt false (CheckpointRegistry_init, 0)).1
    = Exc (Exn PublishError "independent restore smoke did not pass") ∧
  head_of (H:=PublishScenario.contract) (PublishScenario.attempt false (CheckpointRegistry_init, 0)).2 = Ret CheckpointHead_init.
Proof.
  split; [vm_compute; reflexivity|].
  apply (failed_publication_keeps_head (H0:=PublishScenario.laws) PublishScenario.clock Z.sub PublishScenario.load
    PublishScenario.upload PublishScenario.readback (PublishScenario.restore false) "/package" "/package/manifest.json"
    "/readback" (CheckpointRegistry_init, 0) (Exn PublishError "independent restore smoke did not pass")
    _ PublishScenario.load_valid).
  vm_compute. reflexivity.
Defined.

Lemma successful_publication_witness :
  ∃ receipt s' h, PublishScenario.attempt true (CheckpointRegistry_init, 0) = (Ret receipt, s') ∧
    head_of (H:=PublishScenario.contract) s' = Ret h ∧ pr_version receipt = "v1".
Proof.
  assert (∃ receipt s', PublishScenario.attempt true (CheckpointRegistry_init, 0) = (Ret receipt, s')) as (receipt & s' & E)
    by (eexists _, _; vm_compute; reflexivity).
  destruct (successful_publication (H0:=PublishScenario.laws) PublishScenario.clock Z.sub PublishScenario.load
    PublishScenario.upload PublishScenario.readback (PublishScenario.restore true) "/package" "/package/manifest.json"
    "/readback" (CheckpointRegistry_init, 0) receipt s' PublishScenario.load_valid E)
    as (m & m' & h0 & h & pkg & ref & ? & ? & ? & ? & ? & ? & ? & ? & ? & ? & ? & ? & _ & _ & _ & Hup & _ & _ & _ & _ & _ & _ & _ & _ & _ & Hh & _ & _ & Hv & _).
  exists receipt, s', h. split_and!; [done..|]. rewrite Hv. by injection Hup.
Defined.
