(* ===== verification/Coordinator.v ===== *)
(** * Coordinator: launching, observing and recovering the master

    Models orchestrator/master/coordinator.py: [MasterCoordinator] over the
    control ledger, a runtime provider (the port of Provider) and an optional
    tunnel authority.  The state is a [world]: the ledger, the provider's and
    the authority's states, and how often the clock was read; [clock] gives the
    readings in order. *)

From S2P Require Import Prelude Time Json Uuid LedgerState LedgerOperations LedgerEffects LedgerServices.
From S2P Require Import LedgerEvents LedgerLeases LedgerCheckpoints LedgerStatus Lifecycle Provider Manifest.

Record MasterIntent := mk_MasterIntent {
  mi_key : string; mi_source : string; mi_version : string; mi_checkpoint_ref : string; mi_dataset_ref : string;
  mi_notebook_ref : string;
}.

(** [MasterIntent.as_dict] *)
Definition intent_as_dict (i : MasterIntent) : list (string * json) :=
  [("source_identity", JStr (mi_source i)); ("source_version", JStr (mi_version i)); ("checkpoint_ref", JStr (mi_checkpoint_ref i));
   ("dataset_ref", JStr (mi_dataset_ref i)); ("notebook_ref", JStr (mi_notebook_ref i))].

Record MasterHandle := mk_MasterHandle {
  mh_operation : string; mh_run : string; mh_attempt : string; mh_service : string; mh_master : string; mh_epoch : Z;
  mh_state : MasterState.t;
}.

(** The methods of the tunnel authority: master, run, attempt, epoch, and then
    the deadline, the port and the time ([activate]), the deadline and the time
    ([renew]) or the reason ([deactivate]). *)
Record MasterTunnelAuthority (T : Type) := mk_MasterTunnelAuthority {
  tunnel_activate : string → string → string → Z → Z → Z → Z → M T unit;
  tunnel_renew : string → string → string → Z → datetime → Z → M T unit;
  tunnel_deactivate : string → string → string → Z → string → M T unit;
}.
Arguments tunnel_activate {T} _.
Arguments tunnel_renew {T} _.
Arguments tunnel_deactivate {T} _.

Record world (P T : Type) := mk_world { w_ledger : ledger; w_provider : P; w_tunnel : T; w_reads : nat }.
Arguments mk_world {P T} _ _ _ _.
Arguments w_ledger {P T} _.
Arguments w_provider {P T} _.
Arguments w_tunnel {P T} _.
Arguments w_reads {P T} _.

(** What the recovery uses of a validated [BloggerImportStageReceipt]. *)
Record BloggerReceipt := mk_BloggerReceipt {
  br_request : string; br_operation : string; br_run : string; br_epoch : Z; br_master : string; br_sha256 : string;
  br_dump : list (string * json);
}.

(** ** Decoded documents *)

(** [d[key]], [str(d[key])] and [int(d[key])] of a decoded identity. *)
Definition identity_item (identity : json) (key : string) : outcome json :=
  match identity with
  | JObj kvs => match assoc key kvs with Some v => Ret v | None => throw KeyError key end
  | _ => throw TypeError "indices"
  end.

Definition identity_str (identity : json) (key : string) : outcome string := v ← identity_item identity key; Ret (py_str v).

Definition to_int (j : json) : outcome Z :=
  match py_int j with
  | Some n => Ret n
  | None => match j with
            | JStr _ => throw ValueError "invalid literal for int()"
            | _ => throw TypeError "int() argument"
            end
  end.

Definition identity_int (identity : json) (key : string) : outcome Z := v ← identity_item identity key; to_int v.

(** [d.get(key)] of a decoded document. *)
Definition dict_get (d : json) (key : string) : outcome json :=
  match d with JObj kvs => Ret (default JNull (assoc key kvs)) | _ => throw AttributeError "get" end.

(** [str(d.get(key, ""))] *)
Definition text_of (kvs : list (string * json)) (key : string) : string := py_str (default (JStr "") (assoc key kvs)).

Definition items (j : json) : list (string * json) := match j with JObj kvs => kvs | _ => [] end.

(** [hmac.compare_digest] of two texts: [TypeError] unless both are ASCII. *)
Definition is_ascii (s : string) : bool := string_forallb (λ c, (Ascii.nat_of_ascii c <? 128)%nat) s.
Definition compare_digest (a b : string) : outcome bool :=
  throw_if (negb (is_ascii a && is_ascii b)) TypeError "comparing strings with non-ASCII characters is not supported" ;;
  Ret (a == b).

(** [ProviderEffectReceipt( **receipt)]: exactly the fields of the record, the
    last one optional. *)
Definition receipt_of_json (j : json) : outcome ProviderEffectReceipt :=
  match j with
  | JObj kvs =>
      throw_if (negb (forallb (λ k, mem k ["provider"; "effect_kind"; "exact_ref"; "source_identity"; "source_version"; "exact_identity"])
                        (keys kvs))) TypeError "unexpected keyword argument" ;;
      match assoc "provider" kvs, assoc "effect_kind" kvs, assoc "exact_ref" kvs, assoc "source_identity" kvs,
            assoc "source_version" kvs, default JNull (assoc "exact_identity" kvs) with
      | Some (JStr p), Some (JStr k), Some (JStr r), Some (JStr s), Some (JStr v), JNull =>
          Ret (mk_ProviderEffectReceipt p k r s v None)
      | Some (JStr p), Some (JStr k), Some (JStr r), Some (JStr s), Some (JStr v), JObj i =>
          Ret (mk_ProviderEffectReceipt p k r s v (Some i))
      | _, _, _, _, _, _ => throw TypeError "missing required argument"
      end
  | _ => throw TypeError "argument after ** must be a mapping"
  end.

(** [_handle] *)
Definition handle (o : OperationRecord) : outcome MasterHandle :=
  run ← identity_str (or_identity o) "run_id";
  attempt ← identity_str (or_identity o) "attempt_id";
  service ← identity_str (or_identity o) "service_instance_id";
  master ← identity_str (or_identity o) "master_instance_id";
  epoch ← identity_int (or_identity o) "epoch";
  state ← MasterState.of_value (or_state o);
  Ret (mk_MasterHandle (or_id o) run attempt service master epoch state).

(** The table [step] of [reconcile_operation]: effect, signal and reference. *)
Definition launch_step (state : MasterState.t) (intent : MasterIntent) (run_id : json) :
    option (string * MasterSignal.t * string) :=
  match state with
  | MasterState.REQUESTED => Some ("ensure_dataset", MasterSignal.DATASET_READY, mi_dataset_ref intent)
  | MasterState.STARTING => Some ("push_notebook", MasterSignal.SOURCE_PUSHED, mi_notebook_ref intent)
  | MasterState.RESTORING => Some ("trigger_run", MasterSignal.RUN_TRIGGERED, mi_notebook_ref intent +:+ "/run/" +:+ py_str run_id)
  | _ => None
  end.

(** The identity [_apply_effect] plans an effect with. *)
Definition effect_identity (o : OperationRecord) (exact_ref : string) (intent : MasterIntent) (identity : json) :
    outcome (list (string * json)) :=
  run ← identity_item identity "run_id";
  attempt ← identity_item identity "attempt_id";
  epoch ← identity_item identity "epoch";
  service ← identity_item identity "service_instance_id";
  master ← identity_item identity "master_instance_id";
  Ret [("operation_id", JStr (or_id o)); ("operation_requested_at", JStr (isoformat (or_created_at o)));
       ("exact_ref", JStr exact_ref); ("run_id", run); ("attempt_id", attempt); ("source_identity", JStr (mi_source intent));
       ("source_version", JStr (mi_version intent)); ("epoch", epoch); ("service_instance_id", service);
       ("master_instance_id", master); ("checkpoint_ref", JStr (mi_checkpoint_ref intent))].

Section coordinator.
Context {P T : Type} `{MasterRuntimeProvider P}.
Abbreviation W := (world P T).
(** [hashlib.sha256(...).hexdigest()] and [str(uuid5(NAMESPACE_URL, name))]. *)
Context (sha256 uuid5 : string → string).
(** The readings of [self.ledger.clock]. *)
Context (clock : nat → Z).
(** [self.lease_ttl] in microseconds, [self.tunnel_authority], [self.tunnel_listen_port]. *)
Context (lease_ttl : Z) (tunnel_authority : option (MasterTunnelAuthority T)) (tunnel_listen_port : Z).
(** Pydantic: [RuntimeEvent.model_validate_json], [model_dump],
    [BloggerImportStageReceipt.model_validate]. *)
Context (validate_json : string → option RuntimeEvent) (model_dump : RuntimeEvent → list (string * json)).
Context (heartbeat_coalesce : Z) (validate_blogger : list (string * json) → option BloggerReceipt).
(** [datetime.fromisoformat]; [None] is [ValueError]. *)
Context (fromisoformat : string → option datetime).

(** ** Reaching the parts of the world *)

(** A read of the ledger. *)
Definition reader {A} (m : M ledger A) : M W A := λ w,
  let '(o, l) := m (w_ledger w) in (o, mk_world l (w_provider w) (w_tunnel w) (w_reads w)).

Definition read_clock : M W Z := λ w,
  (Ret (clock (w_reads w)), mk_world (w_ledger w) (w_provider w) (w_tunnel w) (S (w_reads w))).

(** A method of the ledger that reads the clock. *)
Definition ledger_method {A} (m : Z → M ledger A) : M W A := now ← read_clock; reader (m now).

Definition on_provider {A} (m : M P A) : M W A := λ w,
  let '(o, p) := m (w_provider w) in (o, mk_world (w_ledger w) p (w_tunnel w) (w_reads w)).

Definition on_tunnel {A} (m : M T A) : M W A := λ w,
  let '(o, t) := m (w_tunnel w) in (o, mk_world (w_ledger w) (w_provider w) t (w_reads w)).

(** ** Tunnel authority *)

(** [_activate_tunnel_authority] *)
Definition activate_tunnel_authority (identity : json) : M W unit :=
  match tunnel_authority with
  | None => mret tt
  | Some authority =>
      now ← read_clock;
      master ← lift (identity_str identity "master_instance_id");
      run ← lift (identity_str identity "run_id");
      attempt ← lift (identity_str identity "attempt_id");
      epoch ← lift (identity_int identity "epoch");
      on_tunnel (tunnel_activate authority master run attempt epoch (now + lease_ttl) tunnel_listen_port now)
  end.

(** [_renew_tunnel_authority] *)
Definition renew_tunnel_authority (event : RuntimeEvent) (identity : json) (lease_until : datetime) : M W unit :=
  match tunnel_authority with
  | None => mret tt
  | Some authority =>
      master ← lift (identity_str identity "master_instance_id");
      now ← read_clock;
      on_tunnel (tunnel_renew authority master (e_run event) (e_attempt event) (e_epoch event) lease_until now)
  end.

(** [_deactivate_tunnel_authority] *)
Definition deactivate_tunnel_authority (identity : json) (reason : string) : M W unit :=
  match tunnel_authority with
  | None => mret tt
  | Some authority =>
      master ← lift (identity_str identity "master_instance_id");
      run ← lift (identity_str identity "run_id");
      attempt ← lift (identity_str identity "attempt_id");
      epoch ← lift (identity_int identity "epoch");
      on_tunnel (tunnel_deactivate authority master run attempt epoch reason)
  end.

Definition deactivate_terminal_operation (operation_id reason : string) : M W unit :=
  raise_if (reason != "fm08_abrupt_master_terminated") ValueError "terminal tunnel deactivation reason is not task-owned" ;;
  operation ← reader (get_operation operation_id);
  let refused {A} : M W A := raise ValueError "tunnel authority cannot be revoked before durable terminal fencing" in
  match operation with
  | None => refused
  | Some o =>
      state ← lift (MasterState.of_value (or_state o));
      if mem state [MasterState.FENCED; MasterState.FAILED; MasterState.ORPHANED; MasterState.STOPPED]
      then deactivate_tunnel_authority (or_identity o) reason else refused
  end.

(** ** Effects *)

Definition is_trigger (effect_kind : string) : bool := effect_kind == "trigger_run".

(** The receipt of an earlier effect: [None] unless it is applied. *)
Definition upstream (operation_id effect_kind : string) : M W (option json) :=
  effect ← reader (get_effect_by_idempotency_key (operation_id +:+ ":" +:+ effect_kind));
  match effect with
  | Some e =>
      if er_state e == APPLIED then
        receipt ← assert_some (er_receipt e);
        exact ← lift (dict_get receipt "exact_identity");
        mret (Some exact)
      else mret None
  | None => mret None
  end.

(** The identity with what it takes from the effect before. *)
Definition chained_identity (operation_id effect_kind : string) (base : list (string * json)) :
    M W (option (list (string * json))) :=
  if is_trigger effect_kind then
    launch ← upstream operation_id "push_notebook";
    mret ((λ x, assoc_set "notebook_launch" x base) <$> launch)
  else if effect_kind == "push_notebook" then
    dataset ← upstream operation_id "ensure_dataset";
    mret ((λ x, assoc_set "asset_dataset" x base) <$> dataset)
  else mret (Some base).

(** Record the receipt and, for the run itself, the provider's reference. *)
Definition finish_effect (effect_kind : string) (identity : json) (effect_id : string) (receipt : ProviderEffectReceipt) :
    M W (option ProviderEffectReceipt) :=
  ledger_method (complete_effect effect_id (receipt_as_dict receipt)) ;;
  (if is_trigger effect_kind then
     attempt ← lift (identity_str identity "attempt_id");
     ledger_method (set_attempt_provider_run attempt (pr_exact_ref receipt) (MasterState.value MasterState.REGISTERING))
   else mret tt) ;;
  mret (Some receipt).

Definition activate_if_trigger (effect_kind : string) (identity : json) : M W unit :=
  if is_trigger effect_kind then activate_tunnel_authority identity else mret tt.

(** [with suppress(Exception): ...] *)
Definition suppress_all (m : M W unit) : M W unit := try_except m (λ _, mret tt).

Definition planned_effect (e : EffectRecord) : PlannedProviderEffect :=
  mk_PlannedProviderEffect (er_id e) (er_key e) (er_kind e) (items (er_identity e)).

(** An effect claimed earlier whose outcome is not known. *)
Definition resume_effect (operation_id effect_kind : string) (identity : json) (effect : EffectRecord) :
    M W (option ProviderEffectReceipt) :=
  reconciliation ← on_provider (reconcile (planned_effect effect));
  match rec_status reconciliation with
  | AMBIGUOUS => mret None
  | ABSENT =>
      expired ← (if is_trigger effect_kind
                 then now ← read_clock; mret (er_updated_at effect + lease_ttl <=? now)
                 else mret false);
      if expired : bool then
        suppress_all (deactivate_tunnel_authority identity "trigger_absent_after_lease_expiry") ;;
        run ← lift (identity_str identity "run_id");
        attempt ← lift (identity_str identity "attempt_id");
        service ← lift (identity_str identity "service_instance_id");
        epoch ← lift (identity_int identity "epoch");
        ledger_method (fail_unstarted_master_after_tunnel_expiry operation_id (er_id effect) run attempt service epoch) ;;
        mret None
      else
        activate_if_trigger effect_kind identity ;;
        receipt ← on_provider (execute (planned_effect effect));
        finish_effect effect_kind identity (er_id effect) receipt
  | FOUND =>
      receipt ← assert_some (rec_receipt reconciliation);
      finish_effect effect_kind identity (er_id effect) receipt
  end.

(** The planned effect, by the state the ledger has it in. *)
Definition run_effect (operation_id effect_kind : string) (identity : json) (effect : EffectRecord) :
    M W (option ProviderEffectReceipt) :=
  match er_state effect with
  | APPLIED =>
      receipt ← assert_some (er_receipt effect);
      receipt ← lift (receipt_of_json receipt);
      mret (Some receipt)
  | PLANNED =>
      claimed ← ledger_method (claim_effect (er_id effect));
      match claimed with
      | None => mret None
      | Some _ =>
          activate_if_trigger effect_kind identity ;;
          receipt ← on_provider (execute (planned_effect effect));
          finish_effect effect_kind identity (er_id effect) receipt
      end
  | IN_PROGRESS => resume_effect operation_id effect_kind identity effect
  | FAILED => mret None
  end.

(** [_apply_effect] *)
Definition apply_effect (operation_id effect_kind exact_ref : string) (intent : MasterIntent) (identity : json) :
    M W (option ProviderEffectReceipt) :=
  let key := operation_id +:+ ":" +:+ effect_kind in
  operation ← reader (get_operation operation_id);
  match operation with
  | None => raise KeyError operation_id
  | Some o =>
      base ← lift (effect_identity o exact_ref intent identity);
      exact ← chained_identity operation_id effect_kind base;
      match exact with
      | None => mret None
      | Some exact_identity =>
          planned ← ledger_method (plan_effect (uuid5 key) operation_id key effect_kind exact_identity);
          run_effect operation_id effect_kind identity planned.1
      end
  end.

(** ** Terminal recovery *)

(** [_observe_terminal]; every provider has an [observe_terminal]. *)
Definition observe_terminal_of (o : OperationRecord) (intent : MasterIntent) : M W (option MasterTerminalEvidence) :=
  state ← lift (MasterState.of_value (or_state o));
  if negb (mem state [MasterState.REGISTERING; MasterState.ACTIVE; MasterState.DRAINING; MasterState.CHECKPOINTING;
                      MasterState.CHECKPOINT_FAILED; MasterState.STOPPED]) then mret None
  else
    trigger ← reader (get_effect_by_idempotency_key (or_id o +:+ ":trigger_run"));
    match trigger with
    | None => mret None
    | Some e =>
        match (if er_state e == APPLIED then er_receipt e else None) with
        | None => mret None
        | Some receipt =>
            exact ← lift (dict_get receipt "exact_identity");
            match exact with
            | JObj provider_run =>
                run ← lift (identity_str (or_identity o) "run_id");
                attempt ← lift (identity_str (or_identity o) "attempt_id");
                service ← lift (identity_str (or_identity o) "service_instance_id");
                master ← lift (identity_str (or_identity o) "master_instance_id");
                epoch ← lift (identity_int (or_identity o) "epoch");
                on_provider (observe_terminal
                  (mk_MasterTerminalQuery (or_id o) run attempt service master (mi_source intent) (mi_version intent) epoch
                     (mi_checkpoint_ref intent) provider_run))
            | _ => mret None
            end
        end
    end.

(** [_require_verified_terminal_checkpoint] *)
Definition require_verified_terminal_checkpoint (o : OperationRecord) (intent : MasterIntent) (output : MasterTerminalOutput) :
    M W unit :=
  head ← reader (checkpoint_head MASTER_SERVICE_KIND);
  candidate ← reader (checkpoint_candidate (to_checkpoint output));
  raise_if (match head, candidate with
            | Some h, Some (c, _) =>
                (hd_current h != Some (to_current_checkpoint output)) || (cc_status c != "VERIFIED")
                || (cc_operation c != or_id o) || (cc_dataset c != mi_checkpoint_ref intent)
                || (cc_master c != to_master output) || (cc_epoch c != to_epoch output)
                || (cc_manifest_sha256 c != to_manifest_sha256 output)
            | _, _ => true
            end) ValueError "recovered terminal output is not bound to the durable verified HEAD".

(** [tuple(RuntimeEvent.model_validate_json(raw) for raw in ...)] *)
Fixpoint validate_all (raws : list string) : outcome (list RuntimeEvent) :=
  match raws with
  | [] => Ret []
  | raw :: raws' =>
      match validate_json raw with
      | Some e => es ← validate_all raws'; Ret (e :: es)
      | None => throw ValueError "validation error for RuntimeEvent"
      end
  end.

(** The event belongs to the output's attempt. *)
Definition event_of_output (output : MasterTerminalOutput) (e : RuntimeEvent) : bool :=
  (e_run e == to_run output) && (e_attempt e == to_attempt output) && (e_service e == to_service output)
  && (e_source e == to_source output) && (e_version e == to_version output) && (e_epoch e == to_epoch output).

(** ... and the sequence numbers rise from [previous]. *)
Fixpoint events_in_order (output : MasterTerminalOutput) (previous : Z) (es : list RuntimeEvent) : bool :=
  match es with
  | [] => true
  | e :: es' => event_of_output output e && (previous <? local_sequence e) && events_in_order output (local_sequence e) es'
  end.

Definition recovered_types : list string := ["runtime.draining"; "checkpoint.started"; "checkpoint.verified"; "runtime.terminal"].

Definition nothing_attached (e : RuntimeEvent) : bool := (e_artifact_refs e == []) && (e_metrics e == []).

(** The contents of the four events agree with the output. *)
Definition recovered_contents (output : MasterTerminalOutput) (draining started verified terminal : RuntimeEvent) : bool :=
  (phase draining == Some "draining") && (status draining == Some "closed") && (e_data draining == [])
  && (phase started == Some "checkpointing") && (status started == Some "started") && (e_data started == [])
  && forallb nothing_attached [draining; started; verified; terminal]
  && (phase verified == Some "checkpointing") && (status verified == Some "verified")
  && (assoc "checkpoint_id" (e_data verified) == Some (JStr (to_checkpoint output)))
  && (assoc "manifest_sha256" (e_data verified) == Some (JStr (to_manifest_sha256 output)))
  && (assoc "current_checkpoint_id" (e_data verified) == Some (JStr (to_current_checkpoint output)))
  && same_set (keys (e_data verified)) ["checkpoint_id"; "manifest_sha256"; "current_checkpoint_id"]
  && (phase terminal == Some "stopped") && (status terminal == Some "succeeded")
  && (assoc "checkpoint_id" (e_data terminal) == Some (JStr (to_current_checkpoint output)))
  && (assoc "executed_source_sha256" (e_data terminal) == Some (JStr (to_executed_source_sha256 output)))
  && same_set (keys (e_data terminal)) ["checkpoint_id"; "executed_source_sha256"].

(** The events of an output, checked. *)
Definition recovered_events (output : MasterTerminalOutput) : outcome (list RuntimeEvent) :=
  events ← validate_all (to_recovered_events output);
  throw_if (map event_type events != recovered_types) ValueError "recovered master terminal events are incomplete or out of order" ;;
  throw_if (negb (events_in_order output 0 events)) ValueError "recovered master terminal event identity is stale or reordered" ;;
  throw_if (length (remove_dups (map event_id events)) != length events) ValueError
    "recovered master terminal event IDs are not unique" ;;
  match events with
  | [draining; started; verified; terminal] =>
      throw_if (negb (recovered_contents output draining started verified terminal)) ValueError
        "recovered terminal events disagree with exact checkpoint output" ;;
      Ret events
  | _ => throw ValueError "not enough values to unpack"
  end.

(** The metadata of the audit row. *)
Definition recovery_metadata (evidence : MasterTerminalEvidence) (output : MasterTerminalOutput) (events : list RuntimeEvent)
    (blogger_sha256 : option string) : list (string * json) :=
  [("schema_version", JStr "my-data-hub-master-terminal-recovery-evidence.v1"); ("run_id", JStr (to_run output));
   ("attempt_id", JStr (to_attempt output)); ("service_instance_id", JStr (to_service output));
   ("master_instance_id", JStr (to_master output)); ("source_identity", JStr (to_source output));
   ("source_version", JStr (to_version output)); ("checkpoint_id", JStr (to_checkpoint output));
   ("manifest_sha256", JStr (to_manifest_sha256 output)); ("output_tree_sha256", JStr (to_output_tree_sha256 output));
   ("output_receipt_sha256", JStr (to_output_receipt_sha256 output));
   ("provider_status", JStr (PlatformStatus.value (te_platform_status evidence)));
   ("blogger_import_receipt_sha256", of_option_text blogger_sha256);
   ("events", JArr (zip_with (λ e raw, JObj [("event_id", JStr (event_id e)); ("body_sha256", JStr (sha256 raw))])
                      events (to_recovered_events output)))].

(** The import receipt the output carries, recorded before the events are read;
    the result is its hash. *)
Definition recover_blogger_receipt (o : OperationRecord) (output : MasterTerminalOutput) : M W (option string) :=
  match to_blogger_receipt output with
  | None => mret None
  | Some raw =>
      match validate_blogger raw with
      | None => raise ValueError "validation error for BloggerImportStageReceipt"
      | Some b =>
          raise_if ((br_operation b != or_id o) || (br_run b != to_run output) || (br_epoch b != to_epoch output)
                    || (br_master b != to_master output)) ValueError
            "recovered blogger receipt differs from the exact master operation" ;;
          ledger_method (record_blogger_import_receipt (br_request b) (to_run output) (to_attempt output) (br_dump b)) ;;
          mret (Some (br_sha256 b))
      end
  end.

(** The state change a recovered event asks for: [None] when the operation is
    already past it, otherwise the states expected and aimed at. *)
Definition recovered_target (state : MasterState.t) (event_type : string) : outcome (option (MasterState.t * MasterState.t)) :=
  if event_type == "runtime.draining" then
    if state != MasterState.ACTIVE then
      if mem state [MasterState.DRAINING; MasterState.CHECKPOINTING; MasterState.CHECKPOINT_FAILED; MasterState.STOPPED]
      then Ret None
      else throw ValueError "recovered drain evidence cannot advance this master state"
    else Ret (Some (MasterState.ACTIVE, MasterState.DRAINING))
  else if event_type == "checkpoint.started" then
    if (state == MasterState.CHECKPOINTING) || (state == MasterState.STOPPED) then Ret None
    else
      throw_if (negb (mem state [MasterState.DRAINING; MasterState.CHECKPOINT_FAILED])) ValueError
        "recovered checkpoint evidence cannot advance this master state" ;;
      Ret (Some (state, MasterState.CHECKPOINTING))
  else if event_type == "checkpoint.verified" then
    if state == MasterState.STOPPED then Ret None
    else
      throw_if (state != MasterState.CHECKPOINTING) ValueError
        "recovered verified evidence cannot advance this master state" ;;
      Ret (Some (MasterState.CHECKPOINTING, MasterState.STOPPED))
  else if event_type == "runtime.terminal" then
    throw_if (state != MasterState.STOPPED) ValueError "recovered terminal event requires a stopped operation" ;;
    Ret (Some (MasterState.STOPPED, MasterState.STOPPED))
  else throw ValueError "unsupported recovered terminal event".

(** [_project_recovered_terminal_event] *)
Definition project_recovered_terminal_event (operation_id : string) (event : RuntimeEvent) : M W unit :=
  operation ← reader (get_operation operation_id);
  match operation with
  | None => raise KeyError operation_id
  | Some o =>
      state ← lift (MasterState.of_value (or_state o));
      target ← lift (recovered_target state (event_type event));
      match target with
      | None => mret tt
      | Some (expected, aimed) =>
          let service_state := if event_type event == "runtime.terminal" then MasterState.STOPPED else MasterState.DRAINING in
          ledger_method (project_master_lifecycle operation_id (e_service event) (e_epoch event) (MasterState.value expected)
                           (MasterState.value aimed) (MasterState.value service_state) (event_id event))
      end
  end.

Fixpoint project_recovered_events (operation_id : string) (events : list RuntimeEvent) : M W unit :=
  match events with
  | [] => mret tt
  | e :: es => project_recovered_terminal_event operation_id e ;; project_recovered_events operation_id es
  end.

(** The failed branch of [_recover_terminal]. *)
Definition recover_failed (o : OperationRecord) : M W bool :=
  state ← lift (MasterState.of_value (or_state o));
  if mem state [MasterState.FAILED; MasterState.FENCED; MasterState.ORPHANED] then mret true
  else
    deactivate_tunnel_authority (or_identity o) "provider_terminal_failed" ;;
    run ← lift (identity_str (or_identity o) "run_id");
    attempt ← lift (identity_str (or_identity o) "attempt_id");
    service ← lift (identity_str (or_identity o) "service_instance_id");
    epoch ← lift (identity_int (or_identity o) "epoch");
    ledger_method (project_master_terminal_failure (or_id o) run attempt service epoch (or_state o)
                     (uuid5 ("provider-terminal-error:" +:+ or_id o))) ;;
    mret true.

(** The succeeded branch, for the output of this service and master. *)
Definition recover_succeeded (o : OperationRecord) (intent : MasterIntent) (evidence : MasterTerminalEvidence)
    (output : MasterTerminalOutput) : M W bool :=
  require_verified_terminal_checkpoint o intent output ;;
  blogger_sha256 ← recover_blogger_receipt o output;
  events ← lift (recovered_events output);
  ledger_method (record_master_terminal_recovery_evidence sha256 (or_id o) (to_epoch output) (to_output_receipt_sha256 output)
                   (PlatformStatus.value (te_platform_status evidence))
                   (recovery_metadata evidence output events blogger_sha256)) ;;
  deactivate_tunnel_authority (or_identity o) "provider_terminal_recovered" ;;
  project_recovered_events (or_id o) events ;;
  ledger_method (revoke_runtime_token (to_run output) (to_attempt output)) ;;
  mret true.

(** [_recover_terminal] *)
Definition recover_terminal (o : OperationRecord) (intent : MasterIntent) (evidence : MasterTerminalEvidence) : M W bool :=
  run ← lift (identity_str (or_identity o) "run_id");
  attempt ← lift (identity_str (or_identity o) "attempt_id");
  epoch ← lift (identity_int (or_identity o) "epoch");
  match decide_terminal (te_platform_status evidence) (exact_output <$> te_output evidence) run attempt (mi_source intent)
          (mi_version intent) epoch, te_output evidence with
  | TerminalDecision.FAILED, _ => recover_failed o
  | TerminalDecision.SUCCEEDED, Some output =>
      service ← lift (identity_str (or_identity o) "service_instance_id");
      if to_service output != service then mret false
      else
        master ← lift (identity_str (or_identity o) "master_instance_id");
        if to_master output != master then mret false else recover_succeeded o intent evidence output
  | _, _ => mret false
  end.

(** ** Reconciliation *)

(** [self.ledger.get_operation(id)], asserted to exist, as a handle. *)
Definition current_handle (operation_id : string) : M W MasterHandle :=
  latest ← reader (get_operation operation_id);
  latest ← assert_some latest;
  lift (handle latest).

(** The [try] around the transition: a failure is forgotten when the operation
    has moved on meanwhile. *)
Definition advance_operation (operation_id : string) (state next : MasterState.t) (receipt : ProviderEffectReceipt) : M W unit :=
  try_except
    (ledger_method (transition_operation operation_id (MasterState.value state) (MasterState.value next)
       (Some [("provider", JStr (pr_provider receipt)); ("effect_kind", JStr (pr_kind receipt))])) ;;
     mret tt)
    (λ exc, latest ← reader (get_operation operation_id);
            match latest with
            | Some l => if or_state l == MasterState.value state then reraise exc else mret tt
            | None => reraise exc
            end).

(** The loop of [reconcile_operation], [n] passes left. *)
Fixpoint reconcile_loop (n : nat) (operation_id : string) (intent : MasterIntent) : M W MasterHandle :=
  match n with
  | O => current_handle operation_id
  | S n' =>
      operation ← reader (get_operation operation_id);
      match operation with
      | None => raise KeyError operation_id
      | Some o =>
          state ← lift (MasterState.of_value (or_state o));
          run_id ← lift (identity_item (or_identity o) "run_id");
          match launch_step state intent run_id with
          | None =>
              evidence ← observe_terminal_of o intent;
              match evidence with
              | None => lift (handle o)
              | Some e =>
                  recovered ← recover_terminal o intent e;
                  if recovered : bool then current_handle operation_id else lift (handle o)
              end
          | Some (effect_kind, signal, exact_ref) =>
              receipt ← apply_effect operation_id effect_kind exact_ref intent (or_identity o);
              match receipt with
              | None => current_handle operation_id
              | Some r =>
                  transition ← lift (transition_master state signal);
                  advance_operation operation_id state (current transition) r ;;
                  reconcile_loop n' operation_id intent
              end
          end
      end
  end.

Definition reconcile_operation (operation_id : string) (intent : MasterIntent) : M W MasterHandle :=
  reconcile_loop 3 operation_id intent.

(** [identity_for] *)
Definition identity_for (key : string) : list (string * json) :=
  [("operation_id", JStr (uuid5 ("mdh:operation:" +:+ key))); ("run_id", JStr (uuid5 ("mdh:run:" +:+ key)));
   ("attempt_id", JStr (uuid5 ("mdh:attempt:" +:+ key +:+ ":1")));
   ("service_instance_id", JStr (uuid5 ("mdh:service:" +:+ key +:+ ":1")));
   ("master_instance_id", JStr (uuid5 ("mdh:master:" +:+ key +:+ ":1")))].

Definition ensure_master (intent : MasterIntent) (runtime_secret : option string) : M W MasterHandle :=
  record ← ledger_method (ensure_master_operation sha256 (uuid5 ("mdh:operation:" +:+ mi_key intent)) (mi_key intent)
             (intent_as_dict intent) (identity_for (mi_key intent)) MASTER_SERVICE_KIND);
  let operation_id := or_id record.1 in
  let durable := or_identity record.1 in
  attempt ← lift (identity_str durable "attempt_id");
  run ← lift (identity_str durable "run_id");
  service ← lift (identity_str durable "service_instance_id");
  master ← lift (identity_str durable "master_instance_id");
  epoch ← lift (identity_int durable "epoch");
  ledger_method (record_attempt attempt run operation_id (mi_source intent) (mi_version intent) service (Some master) epoch
                   (MasterState.value MasterState.REQUESTED)) ;;
  (match runtime_secret with
   | Some secret => ledger_method (store_runtime_token_hash sha256 run attempt secret)
   | None => mret tt
   end) ;;
  reconcile_operation operation_id intent ;;
  current_handle operation_id.

(** One operation of [reconcile_all]: a failure is recorded without changing the
    operation's state. *)
Definition reconcile_recording (operation_id : string) (intent : MasterIntent) : M W MasterHandle :=
  try_except (reconcile_operation operation_id intent)
    (λ exc, current ← reader (get_operation operation_id);
            match current with
            | None => reraise exc
            | Some c =>
                ledger_method (transition_operation operation_id (or_state c) (or_state c)
                  (Some [("schema_version", JStr "my-data-hub-master-reconciliation-failure.v1");
                         ("code", JStr "MASTER_RECONCILIATION_EXCEPTION"); ("exception_type", JStr (class_name exc));
                         ("recovery", JStr "EXACT_EFFECT_RECONCILIATION_REQUIRED")])) ;;
                current_handle operation_id
            end).

Fixpoint reconcile_each (intents : gmap string MasterIntent) (operations : list OperationRecord) : M W (list MasterHandle) :=
  match operations with
  | [] => mret []
  | o :: os =>
      match intents !! or_key o with
      | None => reconcile_each intents os
      | Some intent =>
          h ← reconcile_recording (or_id o) intent;
          hs ← reconcile_each intents os;
          mret (h :: hs)
      end
  end.

Definition reconcile_all (intents : gmap string MasterIntent) : M W (list MasterHandle) :=
  operations ← reader (incomplete_operations (Some "ensure_master"));
  reconcile_each intents operations.

(** ** Runtime events *)

(** [_parse_time] *)
Definition parse_runtime_time (s : string) : outcome datetime :=
  match fromisoformat (replace_z s) with Some d => Ret d | None => throw ValueError "Invalid isoformat string" end.

(** [_operation_for_attempt] *)
Definition operation_of_attempt (run_id attempt_id : string) : M W OperationRecord :=
  operation ← reader (operation_for_attempt run_id attempt_id);
  match operation with Some o => mret o | None => raise KeyError run_id end.

(** [_expected_executed_source_sha256] *)
Definition expected_executed_source_sha256 (operation_id : string) : M W (option string) :=
  trigger ← reader (get_effect_by_idempotency_key (operation_id +:+ ":trigger_run"));
  match (e ← trigger; er_receipt e) with
  | None => raise ValueError "runtime callback has no durable trigger receipt"
  | Some receipt =>
      identity ← lift (dict_get receipt "exact_identity");
      let expected := match identity with JObj kvs => assoc "source_sha256" kvs | _ => None end in
      match (match expected with Some (JStr s) => if is_sha256 s then Some s else None | _ => None end) with
      | Some s => mret (Some s)
      | None =>
          provider ← lift (dict_get receipt "provider");
          raise_if (provider == JStr "kaggle") ValueError "official Kaggle trigger lacks exact source attestation" ;;
          mret None
      end
  end.

(** The attestation of the source a callback reports. *)
Definition check_executed_source (expected : option string) (data : list (string * json)) (message : string) : outcome unit :=
  match expected with
  | None => Ret tt
  | Some e => same ← compare_digest e (text_of data "executed_source_sha256"); throw_if (negb same) ValueError message
  end.

(** [_require_admitted_boot_checkpoint], for the status Dataset's boot
    checkpoint. *)
Definition require_current_checkpoint (expected : list (string * json)) : M W unit :=
  head ← reader (checkpoint_head MASTER_SERVICE_KIND);
  if assoc "kind" expected == Some (JStr "EMPTY") then
    raise_if (negb (py_eq (Some (JObj expected)) (JObj [("kind", JStr "EMPTY"); ("generation", JInt 0)]))
              || match head with Some h => hd_current h != None | None => false end) ValueError
      "service.ready EMPTY checkpoint is no longer current"
  else
    let checkpoint_id := text_of expected "checkpoint_id" in
    candidate ← reader (checkpoint_candidate checkpoint_id);
    let refused {A} : M W A := raise ValueError "service.ready verified checkpoint is no longer current" in
    if assoc "kind" expected != Some (JStr "VERIFIED") then refused
    else match head with
         | None => refused
         | Some h =>
             generation ← lift (to_int (default (JInt (-1)) (assoc "generation" expected)));
             match candidate with
             | None => refused
             | Some (c, _) =>
                 if (hd_generation h != generation) || (hd_current h != Some checkpoint_id) || (cc_status c != "VERIFIED")
                    || negb (py_eq (Some (of_option_text (cc_version c))) (default JNull (assoc "exact_version_ref" expected)))
                    || negb (py_eq (Some (JStr (cc_manifest_sha256 c))) (default JNull (assoc "manifest_sha256" expected)))
                 then refused else mret tt
             end
         end.

Definition require_admitted_boot_checkpoint (operation_id : string) (data : list (string * json)) : M W unit :=
  authority ← reader (master_status_dataset_authority operation_id);
  match authority with
  | None => mret tt
  | Some a =>
      let status := match sa_status_dataset a with Some (JObj kvs) => Some kvs | _ => None end in
      let expected := match status with Some kvs => assoc "boot_checkpoint" kvs | None => None end in
      let expected_tls := match status with Some kvs => text_of kvs "tls_certificate_sha256" | None => "" end in
      let observed_tls := removeprefix "sha256:" (text_of data "tls_fingerprint") in
      let refused : M W unit := raise ValueError "service.ready TLS certificate differs from admitted status Dataset" in
      (if (slen expected_tls != 64) || (slen observed_tls != 64) then refused
       else same ← lift (compare_digest expected_tls observed_tls); if same : bool then mret tt else refused) ;;
      match expected with
      | Some (JObj kvs) =>
          raise_if (negb (py_eq (Some (default JNull (assoc "boot_checkpoint" data))) (JObj kvs))) ValueError
            "service.ready boot checkpoint differs from admitted status Dataset" ;;
          require_current_checkpoint kvs
      | _ => raise ValueError "service.ready boot checkpoint differs from admitted status Dataset"
      end
  end.

(** [_exact_status_resource_lease]: the lease as the authority has it. *)
Definition exact_status_resource_lease (operation_id : string) (event : RuntimeEvent) : M W json :=
  authority ← reader (master_status_dataset_authority operation_id);
  match assoc "resource" (e_data event), authority with
  | Some (JObj resource), Some a =>
      match sa_resource_lease a with
      | JObj expected =>
          raise_if (existsb (λ key, text_of resource key != text_of expected key)
                      ["lease_id"; "resource_kind"; "resource_ref"; "holder_id"]) ValueError
            "runtime resource event differs from the owner-task lease" ;;
          match py_int (default JNull (assoc "epoch" resource)), py_int (default JNull (assoc "epoch" expected)) with
          | Some observed_epoch, Some expected_epoch =>
              raise_if (observed_epoch != expected_epoch) ValueError "runtime resource event is stale or cross-task" ;;
              holder ← lift (identity_str (JObj expected) "holder_id");
              raise_if (holder != e_run event) ValueError "runtime resource event is stale or cross-task" ;;
              mret (JObj expected)
          | _, _ => raise ValueError "runtime resource event has an invalid fencing epoch"
          end
      | _ => raise ValueError "runtime resource event lacks a durable resource lease"
      end
  | _, _ => raise ValueError "runtime resource event lacks a durable status authority"
  end.

(** [str(lease["lease_id"]), str(lease["holder_id"]), int(lease["epoch"])] *)
Definition lease_key (lease : json) : outcome (string * string * Z) :=
  lease_id ← identity_str lease "lease_id";
  holder ← identity_str lease "holder_id";
  epoch ← identity_int lease "epoch";
  Ret (lease_id, holder, epoch).

Definition ready_fields : list string :=
  ["service_kind"; "endpoint"; "protocol"; "tls_fingerprint"; "capabilities"; "canonical_revision"; "schema_version";
   "lease_until"; "master_instance_id"; "epoch"].

(** What [service.ready] announces, read from its data. *)
Definition announcement_of (event : RuntimeEvent) : outcome announcement :=
  let data := JObj (e_data event) in
  master ← identity_str data "master_instance_id";
  endpoint ← identity_str data "endpoint";
  protocol ← identity_str data "protocol";
  tls ← identity_str data "tls_fingerprint";
  capabilities ← identity_item data "capabilities";
  capabilities ← match py_iter capabilities with Some l => Ret (map py_str l) | None => throw TypeError "not iterable" end;
  revision ← identity_int data "canonical_revision";
  schema ← identity_str data "schema_version";
  until ← identity_str data "lease_until";
  until ← parse_runtime_time until;
  Ret (mk_announcement (e_service event) MASTER_SERVICE_KIND (e_run event) (e_attempt event) (Some master) (e_epoch event)
         endpoint protocol (Some tls) capabilities (Some revision) (Some schema) until (event_id event)).

(** [service.ready] *)
Definition accept_service_ready (o : OperationRecord) (event : RuntimeEvent) : M W unit :=
  expected ← expected_executed_source_sha256 (or_id o);
  if or_state o != MasterState.value MasterState.REGISTERING then mret tt
  else
    let data := e_data event in
    raise_if (negb (forallb (λ k, mem k (keys data)) ready_fields)) ValueError
      "service.ready is missing required master announcement fields" ;;
    raise_if (assoc "service_kind" data != Some (JStr MASTER_SERVICE_KIND)) ValueError
      "service.ready identity disagrees with its envelope" ;;
    epoch ← lift (identity_int (JObj data) "epoch");
    raise_if (epoch != e_epoch event) ValueError "service.ready identity disagrees with its envelope" ;;
    lift (check_executed_source expected data "service.ready executed source differs from exact provider push") ;;
    require_admitted_boot_checkpoint (or_id o) data ;;
    a ← lift (announcement_of event);
    ledger_method (activate_service_operation (or_id o) (MasterState.value MasterState.REGISTERING) a) ;;
    mret tt.

(** [runtime.heartbeat] *)
Definition accept_heartbeat (o : OperationRecord) (event : RuntimeEvent) : M W unit :=
  match assoc "lease_until" (e_data event) with
  | None => mret tt
  | Some raw =>
      if negb (py_truthy raw) then mret tt
      else
        until ← lift (parse_runtime_time (py_str raw));
        ledger_method (renew_service (e_service event) (e_epoch event) until (event_id event)) ;;
        renew_tunnel_authority event (or_identity o) until ;;
        if default JNull (assoc "resource" (e_data event)) == JNull then mret tt
        else
          lease ← exact_status_resource_lease (or_id o) event;
          key ← lift (lease_key lease);
          ledger_method (renew_resource_lease key.1.1 key.1.2 key.2 until)
  end.

(** [resource.acquire], [resource.renew] and [resource.release] *)
Definition accept_resource (o : OperationRecord) (event : RuntimeEvent) : M W unit :=
  lease ← exact_status_resource_lease (or_id o) event;
  if event_type event == "resource.renew" then
    match assoc "lease_until" (e_data event) with
    | Some (JStr raw) =>
        key ← lift (lease_key lease);
        until ← lift (parse_runtime_time raw);
        ledger_method (renew_resource_lease key.1.1 key.1.2 key.2 until)
    | _ => raise ValueError "resource renewal lacks an exact deadline"
    end
  else if event_type event == "resource.release" then
    key ← lift (lease_key lease);
    ledger_method (release_resource_lease_exact key.1.1 key.1.2 key.2)
  else mret tt.

(** The lifecycle change of an event. *)
Definition project_event (o : OperationRecord) (event : RuntimeEvent) (expected state service : MasterState.t) : M W unit :=
  ledger_method (project_master_lifecycle (or_id o) (e_service event) (e_epoch event) (MasterState.value expected)
                   (MasterState.value state) (MasterState.value service) (event_id event)).

(** [checkpoint.verified]: only for the checkpoint that is the durable HEAD. *)
Definition accept_checkpoint_verified (o : OperationRecord) (event : RuntimeEvent) : M W unit :=
  let checkpoint_id := text_of (e_data event) "checkpoint_id" in
  let manifest_sha256 := text_of (e_data event) "manifest_sha256" in
  head ← reader (checkpoint_head MASTER_SERVICE_KIND);
  candidate ← reader (checkpoint_candidate checkpoint_id);
  let refused {A} : M W A := raise ValueError "checkpoint.verified is not bound to the durable verified HEAD" in
  match head, candidate with
  | Some h, Some (c, _) =>
      if (hd_current h != Some checkpoint_id) || (cc_status c != "VERIFIED") || (cc_operation c != or_id o) then refused
      else
        master ← lift (identity_str (or_identity o) "master_instance_id");
        if (cc_master c != master) || (cc_epoch c != e_epoch event) || (cc_manifest_sha256 c != manifest_sha256)
           || (assoc "current_checkpoint_id" (e_data event) != Some (JStr checkpoint_id)) then refused
        else project_event o event MasterState.CHECKPOINTING MasterState.STOPPED MasterState.DRAINING
  | _, _ => refused
  end.

(** [runtime.terminal] *)
Definition accept_terminal (o : OperationRecord) (event : RuntimeEvent) : M W unit :=
  expected ← expected_executed_source_sha256 (or_id o);
  lift (check_executed_source expected (e_data event) "runtime.terminal executed source differs from exact provider push") ;;
  deactivate_tunnel_authority (or_identity o) "runtime_terminal" ;;
  project_event o event MasterState.STOPPED MasterState.STOPPED MasterState.STOPPED ;;
  ledger_method (revoke_runtime_token (e_run event) (e_attempt event)).

Definition projected_events : list string :=
  ["service.ready"; "runtime.heartbeat"; "resource.acquire"; "resource.renew"; "resource.release"; "runtime.draining";
   "checkpoint.started"; "checkpoint.verified"; "checkpoint.failed"; "runtime.terminal"].

(** The branch of [accept_runtime_event] for the event's type. *)
Definition accept_event (o : OperationRecord) (event : RuntimeEvent) : M W unit :=
  let kind := event_type event in
  if kind == "service.ready" then accept_service_ready o event
  else if kind == "runtime.heartbeat" then accept_heartbeat o event
  else if mem kind ["resource.acquire"; "resource.renew"; "resource.release"] then accept_resource o event
  else if kind == "runtime.draining" then project_event o event MasterState.ACTIVE MasterState.DRAINING MasterState.DRAINING
  else if kind == "checkpoint.started" then
    project_event o event
      (if or_state o == MasterState.value MasterState.CHECKPOINT_FAILED then MasterState.CHECKPOINT_FAILED
       else MasterState.DRAINING) MasterState.CHECKPOINTING MasterState.DRAINING
  else if kind == "checkpoint.verified" then accept_checkpoint_verified o event
  else if kind == "checkpoint.failed" then
    project_event o event MasterState.CHECKPOINTING MasterState.CHECKPOINT_FAILED MasterState.DRAINING
  else if kind == "runtime.terminal" then accept_terminal o event
  else mret tt.

Definition accept_runtime_event (raw_body header_token : string) : M W EventReceipt :=
  receipt ← ledger_method (ingest_runtime_event sha256 validate_json model_dump heartbeat_coalesce raw_body header_token);
  match rc_disposition receipt with
  | COALESCED | FENCED => mret receipt
  | disposition =>
      match validate_json raw_body with
      | None => raise ValueError "validation error for RuntimeEvent"
      | Some event =>
          let duplicate := match disposition with DUPLICATE => true | _ => false end in
          if duplicate && negb (mem (event_type event) projected_events) then mret receipt
          else
            acknowledged ← (if duplicate && (event_type event == "runtime.terminal")
                            then valid ← reader (runtime_token_valid sha256 (e_run event) (e_attempt event) header_token);
                                 mret (negb valid)
                            else mret false);
            if acknowledged : bool then mret receipt
            else
              o ← operation_of_attempt (e_run event) (e_attempt event);
              accept_event o event ;;
              mret receipt
      end
  end.

End coordinator.
