(* ===== verification/CoordinatorSafety.v ===== *)
(** * CoordinatorSafety: what the coordinator can do to the ledger and the provider

    Every call of [MasterCoordinator] is walked statement by statement against a
    preorder on worlds ([respects]).  With the preorder of legal operation moves
    it shows that the coordinator follows the state machine; with an invariant
    of ledger and provider together, that no provider effect happens twice. *)

From stdpp Require Import relations.
From S2P Require Import Prelude Time Json LedgerState LedgerOperations LedgerEffects LedgerServices LedgerEvents.
From S2P Require Import LedgerLeases LedgerCheckpoints LedgerStatus LedgerSafety LedgerHistory Lifecycle Provider Coordinator.


(** ** Walking a computation *)

Section respects.
Context {P T : Type}.
Abbreviation W := (world P T).
Context (R : W → W → Prop) `{!PreOrder R}.
(** The relation sees the ledger, the provider and that the clock is read. *)
Context (Hsame : ∀ w w', w_ledger w' = w_ledger w → w_provider w' = w_provider w → (w_reads w ≤ w_reads w')%nat → R w w').

Definition respects {A} (m : M W A) : Prop := ∀ w, R w (m w).2.

Lemma respects_ret {A} (a : A) : respects (mret a).
Proof using PreOrder0. intros w. reflexivity. Qed.

Lemma respects_raise {A} c msg : respects (raise (A:=A) c msg).
Proof using PreOrder0. intros w. reflexivity. Qed.

Lemma respects_reraise {A} e : respects (reraise (A:=A) e).
Proof using PreOrder0. intros w. reflexivity. Qed.

Lemma respects_lift {A} (o : outcome A) : respects (lift o).
Proof using PreOrder0. intros w. reflexivity. Qed.

Lemma respects_raise_if b c msg : respects (raise_if b c msg).
Proof using PreOrder0. intros w. destruct b; reflexivity. Qed.

Lemma respects_assert_some {A} (o : option A) : respects (assert_some o).
Proof using PreOrder0. intros w. destruct o; reflexivity. Qed.

Lemma respects_bind_at {A B} (m : M W A) (k : A → M W B) w :
  R w (m w).2 → (∀ a w1, m w = (Ret a, w1) → R w1 (k a w1).2) → R w (mbind k m w).2.
Proof using PreOrder0.
  intros Hm Hk. unfold mbind, M_bind. destruct (m w) as [[a|e] w1] eqn:E; [|done].
  etransitivity; [exact Hm|]. by apply Hk.
Qed.

Lemma respects_bind {A B} (m : M W A) (k : A → M W B) : respects m → (∀ a, respects (k a)) → respects (mbind k m).
Proof using PreOrder0. intros Hm Hk w. apply respects_bind_at; [apply Hm|]. intros a w1 _. apply Hk. Qed.

Lemma respects_bind_lift {A B} (o : outcome A) (k : A → M W B) : (∀ a, o = Ret a → respects (k a)) → respects (mbind k (lift o)).
Proof using PreOrder0. intros Hk w. apply respects_bind_at; [reflexivity|]. intros a w1 [= -> <-]. by apply Hk. Qed.

Lemma respects_try {A} (m : M W A) h : respects m → (∀ e, respects (h e)) → respects (try_except m h).
Proof using PreOrder0.
  intros Hm Hh w. specialize (Hm w). unfold try_except. destruct (m w) as [[a|e] w1]; [done|].
  etransitivity; [exact Hm|apply Hh].
Qed.

Lemma reader_reads {A} (m : M ledger A) (w : W) : keeps (λ l, l) m → (reader m w).2 = w.
Proof. intros Hm. specialize (Hm (w_ledger w)). unfold reader. destruct (m (w_ledger w)) as [o l]. cbn in *. subst. by destruct w. Qed.

Lemma respects_reader {A} (m : M ledger A) : keeps (λ l, l) m → respects (reader m).
Proof using PreOrder0. intros Hm w. rewrite reader_reads by done. reflexivity. Qed.

Lemma respects_clock clock : respects (read_clock clock).
Proof using Hsame. intros w. apply Hsame; cbn; [done|done|lia]. Qed.

Lemma respects_tunnel {A} (m : M T A) : respects (on_tunnel m).
Proof using Hsame. intros w. unfold on_tunnel. destruct (m _) as [o t]. by apply Hsame. Qed.

End respects.

(** Reads leave the ledger as it is. *)
Create HintDb reads.

Lemma find_operation_reads p : keeps (λ l, l) (find_operation p).
Proof. unfold find_operation. frame. Qed.

Lemma get_operation_reads i : keeps (λ l, l) (get_operation i).
Proof. apply find_operation_reads. Qed.

Lemma get_effect_reads k : keeps (λ l, l) (get_effect_by_idempotency_key k).
Proof. unfold get_effect_by_idempotency_key. frame. Qed.

Lemma operation_for_attempt_reads r a : keeps (λ l, l) (operation_for_attempt r a).
Proof. unfold operation_for_attempt, get_operation, find_operation. frame. Qed.

Lemma incomplete_operations_reads k : keeps (λ l, l) (incomplete_operations k).
Proof. unfold incomplete_operations. apply keeps_bind; [by intros l|]. by intros l l1. Qed.

Lemma checkpoint_head_reads k : keeps (λ l, l) (checkpoint_head k).
Proof. unfold checkpoint_head. frame. Qed.

Lemma candidate_reads i : keeps (λ l, l) (checkpoint_candidate i).
Proof. unfold checkpoint_candidate. frame. Qed.

Lemma status_authority_reads i : keeps (λ l, l) (master_status_dataset_authority i).
Proof. unfold master_status_dataset_authority. frame. Qed.

Lemma token_valid_reads sha256 r a t : keeps (λ l, l) (runtime_token_valid sha256 r a t).
Proof. unfold runtime_token_valid. frame. Qed.

#[export] Hint Resolve get_operation_reads get_effect_reads operation_for_attempt_reads incomplete_operations_reads
  checkpoint_head_reads candidate_reads status_authority_reads token_valid_reads : reads.

(** Decompose a computation into its statements. *)
Ltac walk :=
  repeat match goal with
  | |- respects _ (mbind _ (lift _)) => apply respects_bind_lift; [exact _|intros ? ?]
  | |- respects _ (mbind _ _) => apply respects_bind; [exact _| |intros ?]
  | |- respects _ (mret _) => apply respects_ret; exact _
  | |- respects _ (raise _ _) => apply respects_raise; exact _
  | |- respects _ (reraise _) => apply respects_reraise; exact _
  | |- respects _ (lift _) => apply respects_lift; exact _
  | |- respects _ (raise_if _ _ _) => apply respects_raise_if; exact _
  | |- respects _ (assert_some _) => apply respects_assert_some; exact _
  | |- respects _ (try_except _ _) => apply respects_try; [exact _| |intros ?]
  | |- respects _ (reader _) => apply respects_reader; [exact _|auto with reads]
  | |- respects _ (match ?x with _ => _ end) => destruct x eqn:?
  | |- respects _ ((match ?x with _ => _ end) _) => destruct x eqn:?
  | |- respects _ _ => progress cbv beta zeta
  end.

Lemma discard_state {A} (m : M ledger A) l : (discard m l).2 = (m l).2.
Proof. unfold discard, mbind, M_bind. by destruct (m l) as [[a|e] l1]. Qed.

Lemma op_step_mono (C C' : operation_row → Prop) (Q Q' : string → string → Prop) x y :
  op_step C Q x y → (∀ o, C o → C' o) → (∀ s t, Q s t → Q' s t) → op_step C' Q' x y.
Proof. intros [| |] HC HQ; [apply op_same|apply op_created; auto|apply op_moved; auto]. Qed.

(** ** Executions of the coordinator *)

(** The public methods of [MasterCoordinator]. *)
Inductive coordinator_call : Type :=
| EnsureMasterCall (intent : MasterIntent) (secret : option string)
| ReconcileCall (operation_id : string) (intent : MasterIntent)
| ReconcileAllCall (intents : gmap string MasterIntent)
| AcceptEventCall (raw_body header_token : string)
| DeactivateCall (operation_id reason : string).

Section executions.
Context {P T : Type} `{MasterRuntimeProvider P}.
Abbreviation W := (world P T).
Context (sha256 uuid5 : string → string) (clock : nat → Z) (lease_ttl : Z).
Context (tunnel_authority : option (MasterTunnelAuthority T)) (tunnel_listen_port : Z).
Context (validate_json : string → option RuntimeEvent) (model_dump : RuntimeEvent → list (string * json)).
Context (heartbeat_coalesce : Z) (validate_blogger : list (string * json) → option BloggerReceipt).
Context (fromisoformat : string → option datetime).
Abbreviation accept_ := (accept_runtime_event sha256 clock tunnel_authority validate_json model_dump heartbeat_coalesce fromisoformat).

Definition then_done {A} (m : M W A) : M W unit := m ;; mret tt.

Definition coordinator_step (c : coordinator_call) : M W unit :=
  match c with
  | EnsureMasterCall it secret =>
      then_done (ensure_master sha256 uuid5 clock lease_ttl tunnel_authority tunnel_listen_port validate_json validate_blogger it secret)
  | ReconcileCall i it =>
      then_done (reconcile_operation sha256 uuid5 clock lease_ttl tunnel_authority tunnel_listen_port validate_json validate_blogger i it)
  | ReconcileAllCall its =>
      then_done (reconcile_all sha256 uuid5 clock lease_ttl tunnel_authority tunnel_listen_port validate_json validate_blogger its)
  | AcceptEventCall raw token => then_done (accept_ raw token)
  | DeactivateCall i r => deactivate_terminal_operation tunnel_authority i r
  end.

Definition coordinator_run (cs : list coordinator_call) (w : W) : W := fold_left (λ w c, (coordinator_step c w).2) cs w.

End executions.

(** The calls the coordinator makes of the ledger, at a reading of the clock. *)
Definition coordinator_makes (now : Z) (c : ledger_call) : Prop :=
  match c with
  | EnsureMaster _ _ _ _ _ t | TransitionOperation _ _ _ _ t | PlanEffect _ _ _ _ _ t | ClaimEffect _ t | CompleteEffect _ _ t
  | FailUnstarted _ _ _ _ _ _ t | RecordAttempt _ _ _ _ _ _ _ _ _ t | SetProviderRun _ _ _ t | StoreToken _ _ _ t | RevokeToken _ _ t
  | ActivateService _ _ _ t | ProjectLifecycle _ _ _ _ _ _ _ t | ProjectFailure _ _ _ _ _ _ _ t | RenewService _ _ _ _ t
  | IngestEvent _ _ t | RenewLease _ _ _ _ t | ReleaseLeaseExact _ _ _ t | RecordRecovery _ _ _ _ _ t
  | RecordBloggerImport _ _ _ _ t => t = now
  | _ => False
  end.

(** ** Every statement of the coordinator

    A relation on worlds that the coordinator's calls of the ledger respect, as
    long as they make only moves of an operation's state that [Q] allows, and that observing the
    provider respects. *)
Section walks.
Context {P T : Type} `{MasterRuntimeProvider P}.
Abbreviation W := (world P T).
Context (sha256 uuid5 : string → string) (clock : nat → Z) (lease_ttl : Z).
Context (tunnel_authority : option (MasterTunnelAuthority T)) (tunnel_listen_port : Z).
Context (validate_json : string → option RuntimeEvent) (model_dump : RuntimeEvent → list (string * json)).
Context (heartbeat_coalesce : Z) (validate_blogger : list (string * json) → option BloggerReceipt).
Context (fromisoformat : string → option datetime).
Abbreviation step := (ledger_step sha256 validate_json model_dump heartbeat_coalesce).
Abbreviation coordinator_step_ := (coordinator_step sha256 uuid5 clock lease_ttl tunnel_authority tunnel_listen_port
  validate_json model_dump heartbeat_coalesce validate_blogger fromisoformat).
Abbreviation coordinator_run_ := (coordinator_run sha256 uuid5 clock lease_ttl tunnel_authority tunnel_listen_port
  validate_json model_dump heartbeat_coalesce validate_blogger fromisoformat).

Class respectful (R : W → W → Prop) (Q : string → string → Prop) := {
  rsp_preorder :: PreOrder R;
  rsp_same w w' : w_ledger w' = w_ledger w → w_provider w' = w_provider w → (w_reads w ≤ w_reads w')%nat → R w w';
  rsp_call c w :
    coordinator_makes (clock (w_reads w)) c → (∀ s t, call_leaves c s t → Q s t) →
    R w (mk_world (step c (w_ledger w)).2 (w_provider w) (w_tunnel w) (S (w_reads w)));
  rsp_observe q : respects R (on_provider (observe_terminal q));
}.

Context (R : W → W → Prop) (Q : string → string → Prop) `{!respectful R Q}.

Lemma walk_tunnel {A} (m : M T A) : respects R (on_tunnel m).
Proof. apply respects_tunnel, rsp_same. Qed.

Lemma walk_clock : respects R (read_clock clock).
Proof. apply respects_clock, rsp_same. Qed.

Lemma walk_query q : respects R (on_provider (observe_terminal q)).
Proof. apply rsp_observe. Qed.

(** A ledger method reads the clock and makes the moves of its call. *)
Lemma walk_call {A} (m : Z → M ledger A) (c : Z → ledger_call) :
  (∀ now l, (m now l).2 = (step (c now) l).2) → (∀ now, coordinator_makes now (c now)) → (∀ now s t, call_leaves (c now) s t → Q s t) →
  respects R (ledger_method clock m).
Proof.
  intros Hm Hc HQ w. unfold ledger_method, mbind, M_bind, read_clock, reader. cbn. pose proof (Hm (clock (w_reads w)) (w_ledger w)) as E.
  destruct (m (clock (w_reads w)) (w_ledger w)) as [o l]. cbn in E |- *. subst l. apply rsp_call; [apply Hc|apply HQ].
Qed.

Ltac call c := apply (walk_call _ c); [intros; first [reflexivity | symmetry; apply discard_state]|done|try (by intros ? ? ? [])].

Lemma walk_plan e o k d i : respects R (ledger_method clock (plan_effect e o k d i)).
Proof. call (PlanEffect e o k d i). Qed.
Lemma walk_claim e : respects R (ledger_method clock (claim_effect e)).
Proof. call (ClaimEffect e). Qed.
Lemma walk_complete e r : respects R (ledger_method clock (complete_effect e r)).
Proof. call (CompleteEffect e r). Qed.
Lemma walk_set_run a r s : respects R (ledger_method clock (set_attempt_provider_run a r s)).
Proof. call (SetProviderRun a r s). Qed.
Lemma walk_record_attempt a r o s v i m e st : respects R (ledger_method clock (record_attempt a r o s v i m e st)).
Proof. call (RecordAttempt a r o s v i m e st). Qed.
Lemma walk_store_token r a t : respects R (ledger_method clock (store_runtime_token_hash sha256 r a t)).
Proof. call (StoreToken r a t). Qed.
Lemma walk_revoke r a : respects R (ledger_method clock (revoke_runtime_token r a)).
Proof. call (RevokeToken r a). Qed.
Lemma walk_blogger q r a m : respects R (ledger_method clock (record_blogger_import_receipt q r a m)).
Proof. call (RecordBloggerImport q r a m). Qed.
Lemma walk_recovery o e h s m : respects R (ledger_method clock (record_master_terminal_recovery_evidence sha256 o e h s m)).
Proof. call (RecordRecovery o e h s m). Qed.
Lemma walk_renew_service s e u ev : respects R (ledger_method clock (renew_service s e u ev)).
Proof. call (RenewService s e u ev). Qed.
Lemma walk_renew_lease i h e u : respects R (ledger_method clock (renew_resource_lease i h e u)).
Proof. call (RenewLease i h e u). Qed.
Lemma walk_release i h e : respects R (ledger_method clock (release_resource_lease_exact i h e)).
Proof. call (ReleaseLeaseExact i h e). Qed.
Lemma walk_ingest b t : respects R (ledger_method clock (ingest_runtime_event sha256 validate_json model_dump heartbeat_coalesce b t)).
Proof. call (IngestEvent b t). Qed.
Lemma walk_ensure i k intent ident d : respects R (ledger_method clock (ensure_master_operation sha256 i k intent ident d)).
Proof. call (EnsureMaster i k intent ident d). Qed.

Lemma walk_transition i e n m : Q e n → respects R (ledger_method clock (transition_operation i e n m)).
Proof. intros HQ. call (TransitionOperation i e n m). by intros now s t [-> ->]. Qed.
Lemma walk_lifecycle o s e ex st ss ev : Q ex st → respects R (ledger_method clock (project_master_lifecycle o s e ex st ss ev)).
Proof. intros HQ. call (ProjectLifecycle o s e ex st ss ev). by intros now a b [-> ->]. Qed.
Lemma walk_failure o r a s e ex ev : Q ex "FAILED" → respects R (ledger_method clock (project_master_terminal_failure o r a s e ex ev)).
Proof. intros HQ. call (ProjectFailure o r a s e ex ev). by intros now x y [-> ->]. Qed.
Lemma walk_unstarted o ef r a s e :
  Q "RESTORING" "FAILED" → respects R (ledger_method clock (fail_unstarted_master_after_tunnel_expiry o ef r a s e)).
Proof. intros HQ. call (FailUnstarted o ef r a s e). by intros now x y [-> ->]. Qed.
Lemma walk_activate o e a : Q e "ACTIVE" → respects R (ledger_method clock (activate_service_operation o e a)).
Proof. intros HQ. call (ActivateService o e a). by intros now x y [-> ->]. Qed.

Create HintDb walks.
#[local] Hint Resolve walk_query walk_tunnel walk_clock walk_plan walk_claim walk_complete walk_set_run
  walk_record_attempt walk_store_token walk_revoke walk_blogger walk_recovery walk_renew_service walk_renew_lease
  walk_release walk_ingest walk_ensure walk_transition walk_lifecycle walk_failure walk_unstarted walk_activate : walks.

Ltac walk_all := walk; eauto with walks.
(** ... and the lifecycle moves of events, whose states are constants. *)
Ltac projects := first [progress eauto with walks | apply walk_lifecycle; by repeat case_match].

Lemma walk_activate_tunnel i : respects R (activate_tunnel_authority clock lease_ttl tunnel_authority tunnel_listen_port i).
Proof. unfold activate_tunnel_authority. walk_all. Qed.
Lemma walk_renew_tunnel ev i u : respects R (renew_tunnel_authority clock tunnel_authority ev i u).
Proof. unfold renew_tunnel_authority. walk_all. Qed.
Lemma walk_deactivate i r : respects R (deactivate_tunnel_authority tunnel_authority i r).
Proof. unfold deactivate_tunnel_authority. walk_all. Qed.
#[local] Hint Resolve walk_activate_tunnel walk_renew_tunnel walk_deactivate : walks.

Lemma walk_handle i : respects R (current_handle i).
Proof. unfold current_handle. walk_all. Qed.
#[local] Hint Resolve walk_handle : walks.

(** *** Launching *)

Lemma walk_finish k i e r : respects R (finish_effect clock k i e r).
Proof. unfold finish_effect. walk_all. Qed.
#[local] Hint Resolve walk_finish : walks.

(** Where nothing depends on what the provider does. *)
Lemma walk_run_effect o k i e :
  (∀ A (m : M P A), respects R (on_provider m)) → Q "RESTORING" "FAILED" →
  respects R (run_effect clock lease_ttl tunnel_authority tunnel_listen_port o k i e).
Proof. intros HP HQ. unfold run_effect, resume_effect, activate_if_trigger, suppress_all. walk_all. Qed.
#[local] Hint Resolve walk_run_effect : walks.

Lemma walk_apply o k r it i :
  (∀ A (m : M P A), respects R (on_provider m)) → Q "RESTORING" "FAILED" →
  respects R (apply_effect uuid5 clock lease_ttl tunnel_authority tunnel_listen_port o k r it i).
Proof. intros HP HQ. unfold apply_effect, chained_identity, upstream. walk_all. Qed.

(** *** Recovery *)

Lemma of_value_inv text s : MasterState.of_value text = Ret s → text = MasterState.value s.
Proof.
  unfold MasterState.of_value. destruct (List.find _ _) as [x|] eqn:E; [|done]. intros [= <-].
  apply find_some_iff in E as [_ E]. by b2p.
Qed.

Lemma recovered_target_moves s e a b : recovered_target s e = Ret (Some (a, b)) → transitions a MasterSignal.DRAIN = Some (b, MasterEffect.BEGIN_DRAIN) ∨ b = MasterState.CHECKPOINTING ∧ (a = MasterState.DRAINING ∨ a = MasterState.CHECKPOINT_FAILED) ∨ b = MasterState.STOPPED ∧ (a = MasterState.CHECKPOINTING ∨ a = MasterState.STOPPED).
Proof.
  unfold recovered_target, throw_if, throw. intros E.
  repeat match type of E with context [if ?b then _ else _] => destruct b eqn:? end;
    cbn in E; simplify_eq; b2p; subst; auto 10.
  match goal with H : mem ?x _ = true |- _ => apply mem_true in H; set_solver end.
Qed.

Lemma walk_observe o i : respects R (observe_terminal_of o i).
Proof. unfold observe_terminal_of. walk_all. Qed.

Lemma walk_recovered_events o es :
  Q "ACTIVE" "DRAINING" → Q "DRAINING" "CHECKPOINTING" → Q "CHECKPOINT_FAILED" "CHECKPOINTING" → Q "CHECKPOINTING" "STOPPED" →
  Q "STOPPED" "STOPPED" → respects R (project_recovered_events clock o es).
Proof.
  intros H1 H2 H3 H4 H5. induction es as [|e es IH]; [apply respects_ret; exact _|]. cbn [project_recovered_events].
  apply respects_bind; [exact _| |intros _; exact IH]. unfold project_recovered_terminal_event. walk; apply walk_lifecycle.
  all: match goal with H : recovered_target _ _ = Ret _ |- _ => apply recovered_target_moves in H end.
  all: destruct_or?; destruct_and?; destruct_or?; subst; try done; match goal with H : transitions ?x _ = _ |- _ => destruct x; try discriminate H end; by simplify_eq/=.
Qed.

Lemma walk_recover o it ev :
  (∀ s, s ≠ MasterState.FENCED → Q (MasterState.value s) "FAILED") →
  Q "ACTIVE" "DRAINING" → Q "DRAINING" "CHECKPOINTING" → Q "CHECKPOINT_FAILED" "CHECKPOINTING" → Q "CHECKPOINTING" "STOPPED" →
  Q "STOPPED" "STOPPED" →
  respects R (recover_terminal sha256 uuid5 clock tunnel_authority validate_json validate_blogger o it ev).
Proof.
  intros H0 H1 H2 H3 H4 H5. unfold recover_terminal, recover_succeeded, require_verified_terminal_checkpoint,
    recover_blogger_receipt, recover_failed. walk; eauto using walk_recovered_events with walks.
  all: apply walk_failure.
  match goal with H : MasterState.of_value _ = Ret _ |- _ => rewrite (of_value_inv _ _ H) end. apply H0. intros ->. done.
Qed.

(** *** Events *)

Lemma walk_project o ev a b c :
  Q (MasterState.value a) (MasterState.value b) → respects R (project_event clock o ev a b c).
Proof. apply walk_lifecycle. Qed.
#[local] Hint Resolve walk_project : walks.

Lemma walk_service_ready o ev :
  Q "REGISTERING" "ACTIVE" → respects R (accept_service_ready clock fromisoformat o ev).
Proof.
  intros HQ. unfold accept_service_ready, expected_executed_source_sha256, require_admitted_boot_checkpoint,
    require_current_checkpoint. walk_all.
Qed.

Lemma walk_heartbeat o ev : respects R (accept_heartbeat clock tunnel_authority fromisoformat o ev).
Proof. unfold accept_heartbeat, exact_status_resource_lease. walk_all. Qed.

Lemma walk_resource o ev : respects R (accept_resource clock fromisoformat o ev).
Proof. unfold accept_resource, exact_status_resource_lease. walk_all. Qed.

Lemma walk_checkpoint_verified o ev :
  Q "CHECKPOINTING" "STOPPED" → respects R (accept_checkpoint_verified clock o ev).
Proof. intros HQ. unfold accept_checkpoint_verified. walk; projects. Qed.

Lemma walk_terminal o ev : Q "STOPPED" "STOPPED" → respects R (accept_terminal clock tunnel_authority o ev).
Proof. intros HQ. unfold accept_terminal, expected_executed_source_sha256. walk; projects. Qed.
#[local] Hint Resolve walk_service_ready walk_heartbeat walk_resource walk_checkpoint_verified walk_terminal : walks.

(** An event can make the moves its type stands for, and no other. *)
Lemma walk_event o ev :
  Q "REGISTERING" "ACTIVE" → Q "ACTIVE" "DRAINING" → Q "DRAINING" "CHECKPOINTING" → Q "CHECKPOINT_FAILED" "CHECKPOINTING" →
  (event_type ev = "checkpoint.verified" → Q "CHECKPOINTING" "STOPPED") → Q "CHECKPOINTING" "CHECKPOINT_FAILED" →
  Q "STOPPED" "STOPPED" → respects R (accept_event clock tunnel_authority fromisoformat o ev).
Proof. intros ? ? ? ? HV ? ?. unfold accept_event. walk; b2p; projects. Qed.

(** What acknowledging or replaying an event comes down to. *)
Lemma walk_accept raw token :
  (∀ o ev, validate_json raw = Some ev → respects R (accept_event clock tunnel_authority fromisoformat o ev)) →
  respects R (accept_runtime_event sha256 clock tunnel_authority validate_json model_dump heartbeat_coalesce fromisoformat raw token).
Proof. intros He. unfold accept_runtime_event, operation_of_attempt. walk; eauto with walks. Qed.

Lemma walk_deactivate_terminal i r : respects R (deactivate_terminal_operation tunnel_authority i r).
Proof. unfold deactivate_terminal_operation. walk_all. Qed.

(** *** The whole coordinator, for moves that allow the state machine *)

(** A step of the state machine between the texts of its states. *)
Definition machine_step (s t : string) : Prop :=
  ∃ a g x, transition_master a g = Ret x ∧ s = MasterState.value a ∧ t = MasterState.value (current x).

Section whole.
Hypothesis Hmachine : ∀ s t, machine_step s t → Q s t.
Hypothesis Hstay : ∀ s, Q s s.
Hypothesis Hstopped : Q "STOPPED" "FAILED".
Hypothesis Happly : ∀ o k r it i, respects R (apply_effect uuid5 clock lease_ttl tunnel_authority tunnel_listen_port o k r it i).

Ltac machine a g := apply Hmachine; eexists a, g, _; split_and!; reflexivity.

Lemma allow_failed s : s ≠ MasterState.FENCED → Q (MasterState.value s) "FAILED".
Proof. intros Hs. destruct s; try done; match goal with |- Q (MasterState.value ?a) _ => machine a MasterSignal.FAIL end. Qed.
Lemma allow_drain : Q "ACTIVE" "DRAINING".
Proof. machine MasterState.ACTIVE MasterSignal.DRAIN. Qed.
Lemma allow_drained : Q "DRAINING" "CHECKPOINTING".
Proof. machine MasterState.DRAINING MasterSignal.DRAINED. Qed.
Lemma allow_retry : Q "CHECKPOINT_FAILED" "CHECKPOINTING".
Proof. machine MasterState.CHECKPOINT_FAILED MasterSignal.RETRY_CHECKPOINT. Qed.
Lemma allow_verified : Q "CHECKPOINTING" "STOPPED".
Proof. machine MasterState.CHECKPOINTING MasterSignal.CHECKPOINT_VERIFIED. Qed.
Lemma allow_checkpoint_failed : Q "CHECKPOINTING" "CHECKPOINT_FAILED".
Proof. machine MasterState.CHECKPOINTING MasterSignal.CHECKPOINT_FAILED. Qed.
Lemma allow_ready : Q "REGISTERING" "ACTIVE".
Proof. machine MasterState.REGISTERING MasterSignal.SERVICE_READY. Qed.
Lemma allow_unstarted : Q "RESTORING" "FAILED".
Proof. machine MasterState.RESTORING MasterSignal.FAIL. Qed.
#[local] Hint Resolve allow_failed allow_drain allow_drained allow_retry allow_verified allow_checkpoint_failed allow_ready
  allow_unstarted : walks.

Lemma walk_advance o s g t r :
  transition_master s g = Ret t → respects R (advance_operation clock o s (current t) r).
Proof.
  intros Ht. unfold advance_operation. walk. apply walk_transition, Hmachine. by exists s, g, t.
Qed.

Lemma walk_reconcile_loop n o it :
  respects R (reconcile_loop sha256 uuid5 clock lease_ttl tunnel_authority tunnel_listen_port validate_json
                    validate_blogger n o it).
Proof.
  induction n as [|n IH]; [apply walk_handle|]. cbn [reconcile_loop]. walk;
    eauto using walk_observe, walk_recover, walk_advance with walks.
Qed.

Lemma walk_reconcile_each its os :
  respects R (reconcile_each sha256 uuid5 clock lease_ttl tunnel_authority tunnel_listen_port validate_json
                    validate_blogger its os).
Proof.
  induction os as [|o os IH]; [apply respects_ret; exact _|]. cbn [reconcile_each]. unfold reconcile_recording. walk;
    eauto using walk_reconcile_loop with walks.
Qed.

Lemma walk_reconcile_all its :
  respects R (reconcile_all sha256 uuid5 clock lease_ttl tunnel_authority tunnel_listen_port validate_json
                    validate_blogger its).
Proof. unfold reconcile_all. walk. apply walk_reconcile_each. Qed.

Lemma walk_ensure_master it secret :
  respects R (ensure_master sha256 uuid5 clock lease_ttl tunnel_authority tunnel_listen_port validate_json
                    validate_blogger it secret).
Proof. unfold ensure_master. walk; eauto using walk_reconcile_loop with walks. Qed.

Lemma walk_step c : respects R (coordinator_step_ c).
Proof.
  destruct c; cbn [coordinator_step]; unfold then_done; try (apply respects_bind; [exact _| |intros ?; apply respects_ret; exact _]).
  - apply walk_ensure_master.
  - apply walk_reconcile_loop.
  - apply walk_reconcile_all.
  - apply walk_accept. intros o ev _. apply walk_event; auto with walks.
  - apply walk_deactivate_terminal.
Qed.

Lemma walk_run cs w : R w (coordinator_run_ cs w).
Proof. revert w. induction cs as [|c cs IH]; intros w; [reflexivity|]. etransitivity; [apply (walk_step c)|apply IH]. Qed.

End whole.

End walks.

(** The state of one operation under such moves. *)
Lemma op_step_state C Q x y id s :
  op_step C Q x y → NoDup (map op_id x.1) → state_of id x.1 = Some s →
  ∃ s', state_of id y.1 = Some s' ∧ (s' = s ∨ Q s s').
Proof.
  intros [?|ops log o now m HC Hnew|ops log o from to now t m p Ho Hst HQ Hp Hone] Hid Hs; cbn [fst] in *; [by eauto|..].
  - exists s. split; [|by left]. unfold state_of in *. rewrite find_app. by destruct (List.find _ ops).
  - rewrite state_of_update. unfold state_of in Hs. destruct (List.find (by_op_id id) ops) as [r|] eqn:Er; [|done].
    injection Hs as <-. cbn. destruct (p r) eqn:Epr; [|by eauto]. exists to. split; [done|right].
    assert (r = o) as ->; [|by rewrite Hst]. apply (key_unique op_id ops); [done|by apply find_some_iff in Er as [? _]|done|by apply Hone].
Qed.

Lemma op_step_ids C Q x y : op_step C Q x y → NoDup (map op_id x.1) → NoDup (map op_id y.1).
Proof.
  intros [?|ops log o now m HC Hnew|ops log o from to now t m p Ho Hst HQ Hp Hone] Hid; cbn [fst] in *; [done|..].
  - apply NoDup_map_snoc; [done|naive_solver].
  - by rewrite map_key_update.
Qed.

(** The log rows such moves write. *)
Definition row_ok (C : operation_row → Prop) (Q : string → string → Prop) (e : operation_log_row) : Prop :=
  match ol_from e with Some s => Q s (ol_to e) | None => ∃ o, C o ∧ ol_to e = op_state o end.

Lemma rtc_op_log C Q x y : rtc (op_step C Q) x y → ∃ new, y.2 = (x.2 ++ new)%list ∧ Forall (row_ok C Q) new.
Proof.
  induction 1 as [x|x y z Hxy _ (new & E & Hnew)]; [exists []; by rewrite app_nil_r|].
  destruct Hxy as [x|ops log o now m HC _|ops log o from to now t m p _ _ HQ _ _]; cbn [snd] in *; [by exists new|..];
    eexists; (split; [by rewrite E, <-app_assoc|]); constructor; try done. by exists o.
Qed.

Lemma rtc_op_ok C Q x y : rtc (op_step C Q) x y → ops_ok x → ops_ok y.
Proof. induction 1; eauto using op_step_ok. Qed.

Lemma rtc_op_state C Q x y id s :
  rtc (op_step C Q) x y → NoDup (map op_id x.1) → state_of id x.1 = Some s →
  ∃ s', state_of id y.1 = Some s' ∧ rtc Q s s'.
Proof.
  intros Hr. revert s. induction Hr as [x|x y z Hxy _ IH]; intros s Hid Hs; [eauto using rtc_refl|].
  destruct (op_step_state _ _ _ _ _ _ Hxy Hid Hs) as (s1 & Hs1 & Hq).
  destruct (IH s1 (op_step_ids _ _ _ _ Hxy Hid) Hs1) as (s' & Hs' & Hr). exists s'. split; [done|].
  destruct Hq as [->|Hq]; [done|]. by apply (rtc_l _ _ s1).
Qed.
