(* ===== verification/CoordinatorLifecycle.v ===== *)
(** * CoordinatorLifecycle: the coordinator follows the state machine

    Executions of [MasterCoordinator] ([coordinator_call], [coordinator_run]):
    which calls they make of the ledger and when, that there is one live master,
    how they move the state of an operation, and what has to be durable before an
    event can stop one. *)

From stdpp Require Import relations.
From S2P Require Import Prelude Time Json LedgerState LedgerOperations LedgerEffects LedgerServices LedgerEvents.
From S2P Require Import LedgerLeases LedgerCheckpoints LedgerStatus LedgerSafety LedgerHistory Lifecycle Provider Coordinator.
From S2P Require Import LedgerAdmission LedgerMutex CoordinatorSafety.

Section lifecycle.
Context {P T : Type} `{MasterRuntimeProvider P}.
Abbreviation W := (world P T).
Context (sha256 uuid5 : string → string) (clock : nat → Z) (lease_ttl : Z).
Context (tunnel_authority : option (MasterTunnelAuthority T)) (tunnel_listen_port : Z).
Context (validate_json : string → option RuntimeEvent) (model_dump : RuntimeEvent → list (string * json)).
Context (heartbeat_coalesce : Z) (validate_blogger : list (string * json) → option BloggerReceipt).
Context (fromisoformat : string → option datetime).
Abbreviation ledger_run_ := (ledger_run sha256 validate_json model_dump heartbeat_coalesce).
Abbreviation coordinator_run_ := (coordinator_run sha256 uuid5 clock lease_ttl tunnel_authority tunnel_listen_port
  validate_json model_dump heartbeat_coalesce validate_blogger fromisoformat).
Abbreviation accept_ := (accept_runtime_event sha256 clock tunnel_authority validate_json model_dump heartbeat_coalesce fromisoformat).

(** ** Every execution is an execution of the ledger *)

(** The one move the state machine does not have: a provider that reports an
    error for a master that stopped makes it FAILED. *)
Definition late_failure (s t : string) : Prop := s = "STOPPED" ∧ t = "FAILED".

Definition allowed_move (s t : string) : Prop := s = t ∨ machine_step s t ∨ late_failure s t.

Lemma machine_allowed s t : machine_step s t → allowed_move s t.
Proof. intros Hm. right. by left. Qed.

(** The calls are made at readings of the clock, one after the other, from the
    [n]-th to before the [m]-th; each is one the coordinator makes and moves
    operations as the state machine allows. *)
Fixpoint at_readings (n : nat) (ls : list ledger_call) (m : nat) : Prop :=
  match ls with
  | [] => (n ≤ m)%nat
  | c :: ls' => ∃ k, (n ≤ k)%nat ∧ coordinator_makes (clock k) c ∧ (∀ s t, call_leaves c s t → allowed_move s t) ∧ at_readings (S k) ls' m
  end.

Lemma at_readings_le n ls m : at_readings n ls m → (n ≤ m)%nat.
Proof. revert n. induction ls as [|c ls IH]; intros n; [done|]. intros (k & ? & _ & _ & Hk%IH). lia. Qed.

Lemma at_readings_app n ls m ls' p : at_readings n ls m → at_readings m ls' p → at_readings n (ls ++ ls') p.
Proof.
  revert n. induction ls as [|c ls IH]; intros n.
  - cbn. intros Hn. destruct ls' as [|c ls']; cbn; [lia|]. intros (k & ? & ? & ? & ?). exists k. split_and!; [lia|done..].
  - intros (k & ? & ? & ? & R1) R2. exists k. split_and!; [done..|]. by apply IH.
Qed.

(** A terminal state is only left for a terminal state. *)
Lemma allowed_terminal s t : allowed_move s t → terminal s = true → terminal t = true.
Proof.
  intros [->|[(a & g & x & Ht & -> & ->)|[-> ->]]]; [done| |done]. intros Hs. destruct a; try discriminate Hs; destruct g; try discriminate Ht;
    vm_compute in Ht; by injection Ht as <-.
Qed.

Lemma made_disciplined now c : coordinator_makes now c → (∀ s t, call_leaves c s t → allowed_move s t) → disciplined c = true.
Proof.
  intros Hm Hl. assert (∀ s t, allowed_move s t → negb (terminal s) || terminal t = true) as Hd.
  { intros s t Ha. pose proof (allowed_terminal s t Ha) as Ht. destruct (terminal s); [|done]. by rewrite Ht. }
  destruct c; cbn in Hm |- *; try done; try (apply Hd, Hl; done).
  specialize (Hd expected "ACTIVE"). cbn in Hd. rewrite orb_false_r in Hd. apply Hd, Hl. done.
Qed.

Lemma at_readings_disciplined n ls m : at_readings n ls m → Forall (λ c, disciplined c = true) ls.
Proof.
  revert n. induction ls as [|c ls IH]; intros n; [constructor|]. intros (k & _ & Hc & Hl & Hr). constructor; [by eapply made_disciplined|by eapply IH].
Qed.



Definition ledger_grows (w w' : W) : Prop :=
  ∃ ls, w_ledger w' = ledger_run_ ls (w_ledger w) ∧ at_readings (w_reads w) ls (w_reads w').

#[local] Instance grows_respectful : respectful sha256 clock validate_json model_dump heartbeat_coalesce ledger_grows allowed_move.
Proof.
  split.
  - split; [intros w; exists []; split; [done|cbn; lia]|]. intros a b c (ls & Hb & R1) (ls' & Hc & R2). exists (ls ++ ls')%list.
    split; [|by eapply at_readings_app]. unfold ledger_run in *. by rewrite fold_left_app, <-Hb.
  - intros w w' E _ Hr. by exists [].
  - intros c w Hc Hl. exists [c]. split; [done|]. exists (w_reads w). split_and!; [lia|done|done|cbn; lia].
  - intros q w. exists []. unfold on_provider. destruct (observe_terminal q _). split; [done|cbn; lia].
Qed.

Lemma grows_provider {A} (m : M P A) : respects ledger_grows (on_provider m).
Proof. intros w. exists []. unfold on_provider. destruct (m _). split; [done|cbn; lia]. Qed.

Lemma allowed_unstarted : allowed_move "RESTORING" "FAILED".
Proof. apply machine_allowed. by eexists MasterState.RESTORING, MasterSignal.FAIL, _. Qed.

Lemma coordinator_run_grows cs w : ledger_grows w (coordinator_run_ cs w).
Proof.
  apply (walk_run sha256 _ _ _ _ _ _ _ _ _ _ _ allowed_move); [exact machine_allowed|intros; by left|right; by right|].
  intros. apply (walk_apply sha256 _ _ _ _ _ validate_json model_dump heartbeat_coalesce ledger_grows allowed_move); [|exact allowed_unstarted].
  intros ? ?. apply grows_provider.
Qed.


(** ** One live master

    The coordinator shares the ledger with the rest of the program. *)

(** [reconcile_acceptance_once] ends acceptance operations that are not settled. *)
Definition runtime_transition (expected new : string) : bool :=
  negb (mem expected ["ACTIVE"; "STOPPED"; "FAILED"; "FENCED"; "ORPHANED"; "DURABLE_COMPLETE"]) && mem new ["FAILED"; "DURABLE_COMPLETE"].

(** The kinds of operation a request for an acceptance run creates. *)
Definition acceptance_kind (kind : string) : bool := mem kind ["checkpoint_restore_smoke"; "forced_master_rotation"].

(** The checkpoint acceptance journal creates operations of its own kinds, and
    runs, completes and fails them. *)
Definition journal_kind (kind : string) : bool := startswith "checkpoint_acceptance." kind.
Definition journal_transition (expected new : string) : bool :=
  (new == "FAILED") || ((expected == "INTENT_COMMITTED") && (new == "RUNNING"))
  || (mem expected ["INTENT_COMMITTED"; "RUNNING"] && (new == "DURABLE_COMPLETE")).

(** What else creates and moves operations; masters are admitted by
    control_plane/runtime.py too. *)
Definition other_caller (c : ledger_call) : bool :=
  match c with
  | EnsureOperation _ _ kind _ _ _ _ _ => acceptance_kind kind || journal_kind kind
  | TransitionOperation _ expected new _ _ => runtime_transition expected new || journal_transition expected new
  | ActivateService _ _ _ _ | ProjectLifecycle _ _ _ _ _ _ _ _ | ProjectFailure _ _ _ _ _ _ _ _ | FailUnstarted _ _ _ _ _ _ _ => false
  | _ => true
  end.

Lemma other_disciplined c : other_caller c = true → disciplined c = true.
Proof.
  destruct c; cbn; try done.
  - intros Hk. apply negb_true_iff, bool_decide_eq_false_2. intros ->. discriminate Hk.
  - unfold runtime_transition, journal_transition, terminal. intros Ht. apply orb_true_iff. destruct (decide (new = "FAILED")) as [->|Hn]; [by right|left].
    apply negb_true_iff, mem_false. intros He. unfold terminal_states in He. rewrite !elem_of_cons in He.
    rewrite (bool_decide_eq_false_2 (new = "FAILED")) in Ht by done.
    destruct He as [->|[->|[->|[->|He%not_elem_of_nil]]]]; try done; discriminate Ht.
Qed.

(** A call of the coordinator, or one that is made of the ledger elsewhere. *)
Inductive program_step := Coordinates (c : coordinator_call) | Elsewhere (c : ledger_call).

Definition take_step (w : W) (p : program_step) : W :=
  match p with
  | Coordinates c => (coordinator_step sha256 uuid5 clock lease_ttl tunnel_authority tunnel_listen_port validate_json model_dump
                        heartbeat_coalesce validate_blogger fromisoformat c w).2
  | Elsewhere c => mk_world (ledger_step sha256 validate_json model_dump heartbeat_coalesce c (w_ledger w)).2 (w_provider w) (w_tunnel w) (w_reads w)
  end.

Definition program_run (ps : list program_step) (w : W) : W := fold_left take_step ps w.

Lemma program_runs_the_ledger ps w : (∀ c, Elsewhere c ∈ ps → other_caller c = true) →
  ∃ ls, w_ledger (program_run ps w) = ledger_run_ ls (w_ledger w) ∧ Forall (λ c, disciplined c = true) ls.
Proof.
  revert w. induction ps as [|p ps IH]; intros w Hp; [by exists []|].
  assert (∃ ls, w_ledger (take_step w p) = ledger_run_ ls (w_ledger w) ∧ Forall (λ c, disciplined c = true) ls) as (ls & E & Hd).
  { destruct p as [c|c].
    - destruct (coordinator_run_grows [c] w) as (ls & Hl & Hr). exists ls. split; [exact Hl|by eapply at_readings_disciplined].
    - exists [c]. split; [done|]. constructor; [|constructor]. apply other_disciplined, Hp. by left. }
  destruct (IH (take_step w p)) as (ls' & E' & Hd'); [intros c Hc; apply Hp; by right|]. exists (ls ++ ls')%list.
  split; [|by apply Forall_app]. change (program_run (p :: ps) w) with (program_run ps (take_step w p)). rewrite E', E.
  unfold ledger_run. by rewrite fold_left_app.
Qed.

(** C4: at most one live master.  From the empty ledger, whatever calls are made of
    the coordinator, with whatever provider, tunnel authority and faults, and
    whatever calls the rest of the program makes of the ledger in between, at
    most one master operation is in a non-terminal state. *)
Theorem at_most_one_live_master ps (w : W) :
  w_ledger w = empty_ledger → (∀ c, Elsewhere c ∈ ps → other_caller c = true) →
  (length (List.filter live_master (l_operations (w_ledger (program_run ps w)))) ≤ 1)%nat.
Proof.
  intros Hw Hp. destruct (program_runs_the_ledger ps w Hp) as (ls & -> & Hd). rewrite Hw. by apply disciplined_one_live.
Qed.

(** ** Moves of the operations *)

(** The moves a world can make, as steps of the operations table. *)
Definition moves (Q : string → string → Prop) (w w' : W) : Prop :=
  rtc (op_step (λ o, op_state o = "REQUESTED") Q) (op_tables (w_ledger w)) (op_tables (w_ledger w')).

#[local] Instance moves_respectful Q : respectful sha256 clock validate_json model_dump heartbeat_coalesce (moves Q) Q.
Proof.
  split.
  - split; [intros w; apply rtc_refl|intros a b c; unfold moves; by transitivity (op_tables (w_ledger b))].
  - unfold moves. intros w w' -> _ _. apply rtc_refl.
  - intros c w Hc HQ. unfold moves. cbn.
    destruct (step_cases sha256 validate_json model_dump heartbeat_coalesce c (w_ledger w)) as [E| ->]; [|apply rtc_refl].
    apply rtc_once, (op_step_mono _ _ _ _ _ _ (step_op_step _ _ _ _ _ _ _ E)); [|apply HQ].
    intros o Ho. destruct c; cbn in Hc, Ho; try done. by destruct Ho as (_ & Ho & _).
  - intros q w. unfold on_provider, moves. destruct (observe_terminal q _). apply rtc_refl.
Qed.

Lemma moves_provider Q {A} (m : M P A) : respects (moves Q) (on_provider m).
Proof. intros w. unfold on_provider, moves. destruct (m _) as [o p]. apply rtc_refl. Qed.

Lemma coordinator_run_moves cs w : moves allowed_move w (coordinator_run_ cs w).
Proof.
  apply (walk_run sha256 _ _ _ _ _ _ _ _ _ _ _ allowed_move); [exact machine_allowed|intros; by left|right; by right|].
  intros. apply (walk_apply sha256 _ _ _ _ _ validate_json model_dump heartbeat_coalesce (moves allowed_move) allowed_move); [|exact allowed_unstarted].
  intros ? ?. apply moves_provider.
Qed.

(** A row of the log that the state machine allows: an operation begins as
    REQUESTED, and moves as [allowed_move] says. *)
Definition machine_row (e : operation_log_row) : Prop :=
  match ol_from e with Some s => allowed_move s (ol_to e) | None => ol_to e = "REQUESTED" end.

(** C8: The coordinator follows the master's state machine.  Whatever calls are
    made of it (admission, reconciliation with any provider, faults and tunnel
    authority, runtime events), it only adds to the log of operations, and every
    row it adds records a creation as REQUESTED, one transition of the state
    machine, no change, or the move from STOPPED to FAILED, which the machine
    refuses and the recovery of a terminal error makes.  The rows of an operation
    that existed form an unbroken chain from the state it had to the one it has,
    so no state is skipped. *)
Theorem coordinator_follows_state_machine ls cs w id s :
  w_ledger w = ledger_run_ ls empty_ledger → state_of id (l_operations (w_ledger w)) = Some s →
  ∃ new s', l_operation_log (w_ledger (coordinator_run_ cs w)) = (l_operation_log (w_ledger w) ++ new)%list ∧ Forall machine_row new ∧
    state_of id (l_operations (w_ledger (coordinator_run_ cs w))) = Some s' ∧ replay (Some s) (log_of id new) = Some (Some s').
Proof.
  intros Hw Hs. pose proof (run_ops_ok sha256 validate_json model_dump heartbeat_coalesce ls) as Hok. rewrite <-Hw in Hok.
  pose proof (coordinator_run_moves cs w) as Hm. destruct (rtc_op_log _ _ _ _ Hm) as (new & Hlog & Hnew). cbn in Hlog.
  destruct (rtc_op_state _ _ _ _ _ _ Hm (proj1 Hok) Hs) as (s' & Hs' & _). exists new, s'. split_and!; [done| |done|].
  - revert Hnew. apply Forall_impl. intros e. unfold row_ok, machine_row. destruct (ol_from e); [done|]. by intros (o & <- & ->).
  - apply rtc_op_ok in Hm; [|done]. destruct Hok as (_ & _ & R0), Hm as (_ & _ & R1). specialize (R0 id). specialize (R1 id). unfold op_tables in *. cbn [fst snd] in *.
    rewrite Hlog, log_of_app, replay_app, R0, Hs, Hs' in R1. exact R1.
Qed.

(** ** What an event needs to stop a master *)

(** An operation that was not STOPPED stays so. *)
Definition never_stops (s t : string) : Prop := t = "STOPPED" → s = "STOPPED".

Lemma rtc_never_stops s s' : rtc never_stops s s' → never_stops s s'.
Proof. induction 1 as [|a b c Hab _ IH]; [by intros ->|]. intros E. auto. Qed.

(** The lifecycle projection touches one operation. *)
Lemma lifecycle_other o s e ex st ss ev now l id :
  id ≠ o → state_of id (l_operations (project_master_lifecycle o s e ex st ss ev now l).2) = state_of id (l_operations l).
Proof.
  intros Hne. destruct (project_master_lifecycle o s e ex st ss ev now l) as [[[]|x] l'] eqn:E; cbn.
  - unfold project_master_lifecycle, log_operation in E. run_inv; [done|]. tables. rewrite state_of_update. unfold state_of.
    destruct (List.find (by_op_id id) (l_operations l)) as [r|] eqn:Er; [|done]. cbn. f_equal.
    apply find_op_id in Er. rewrite bool_decide_eq_false_2 by congruence. done.
  - by apply atomically_exc in E as ->.
Qed.

(** HEAD is a verified checkpoint of the operation, as the event reports it. *)
Definition durable_verified_head (l : ledger) (id : string) (event : RuntimeEvent) : Prop :=
  ∃ h c, List.find (by_hd MASTER_SERVICE_KIND) (l_heads l) = Some h ∧ hd_current h = Some (cc_id c) ∧ c ∈ l_candidates l ∧
    cc_status c = "VERIFIED" ∧ cc_operation c = id ∧ cc_epoch c = e_epoch event ∧
    cc_id c = text_of (e_data event) "checkpoint_id" ∧ cc_manifest_sha256 c = text_of (e_data event) "manifest_sha256".

(** The operation exists and has not stopped. *)
Definition unstopped (id : string) (w : W) : Prop :=
  NoDup (map op_id (l_operations (w_ledger w))) ∧ ∃ s, state_of id (l_operations (w_ledger w)) = Some s ∧ s ≠ "STOPPED".

Lemma moves_ids Q (w w' : W) :
  moves Q w w' → NoDup (map op_id (l_operations (w_ledger w))) → NoDup (map op_id (l_operations (w_ledger w'))).
Proof.
  unfold moves. change (l_operations (w_ledger w)) with (op_tables (w_ledger w)).1.
  change (l_operations (w_ledger w')) with (op_tables (w_ledger w')).1. induction 1; eauto using op_step_ids.
Qed.

Lemma moves_unstopped id w w' : moves never_stops w w' → unstopped id w → unstopped id w'.
Proof.
  intros Hm (Hid & s & Hs & Hne). split; [by apply (moves_ids _ _ _ Hm)|].
  destruct (rtc_op_state _ _ _ _ _ _ Hm Hid Hs) as (s' & Hs' & Hr). exists s'. split; [done|].
  intros ->. by apply Hne, (rtc_never_stops _ _ Hr).
Qed.

(** Statements that read only. *)
Lemma bind_reads {A B} (Ψ : W → Prop) (m : M W A) (k : A → M W B) w :
  respects eq m → Ψ w → (∀ a, m w = (Ret a, w) → Ψ (k a w).2) → Ψ (mbind k m w).2.
Proof.
  intros Hm Hw Hk. specialize (Hm w). unfold mbind, M_bind. destruct (m w) as [[a|e] w1]; cbn in *; subst; [by apply Hk|done].
Qed.

Lemma reader_ret {A} (m : M ledger A) (w w' : W) a : reader m w = (Ret a, w') → (m (w_ledger w)).1 = Ret a.
Proof. unfold reader. destruct (m (w_ledger w)). by intros [= -> _]. Qed.

Lemma candidate_found i l c m : (checkpoint_candidate i l).1 = Ret (Some (c, m)) → c ∈ l_candidates l ∧ cc_id c = i.
Proof.
  destruct (checkpoint_candidate i l) as [o l'] eqn:E. cbn. intros ->. unfold checkpoint_candidate in E. run_inv; tables; simplify_eq.
  all: match goal with H : List.find _ _ = Some _ |- _ => apply find_some_iff in H as [? H]; unfold by_cc_id in H; by b2p end.
Qed.

Lemma verified_stops (o : OperationRecord) ev id w :
  unstopped id w → unstopped id (accept_checkpoint_verified clock o ev w).2 ∨ durable_verified_head (w_ledger w) id ev.
Proof.
  intros Hu. unfold accept_checkpoint_verified. set (Ψ := λ w', unstopped id w' ∨ durable_verified_head (w_ledger w) id ev).
  match goal with |- unstopped id ?x.2 ∨ _ => change (Ψ x.2) end. assert (Ψ w) as Hw by by left.
  apply bind_reads; [walk|done|intros h Hh]. apply reader_ret in Hh. apply bind_reads; [walk|done|intros c Hc].
  apply reader_ret in Hc. destruct h as [h|]; [|done]. destruct c as [[c m]|]; [|done]. injection Hh as Hh.
  apply candidate_found in Hc as [Hc Hci]. destruct (_ || _) eqn:Hb; [done|]. apply bind_reads; [walk|done|intros master _].
  destruct (_ || _ || _ || _) eqn:Hb' at 1; [done|]. b2p. destruct (decide (id = or_id o)) as [->|Hne].
  - right. exists h, c. destruct_and?. split_and!; congruence.
  - left. destruct Hu as (Hid & s & Hs & Hst). split.
    + refine (moves_ids (λ _ _, True) _ _ _ Hid). by apply (walk_project sha256 clock validate_json model_dump heartbeat_coalesce _ (λ _ _, True)).
    + exists s. split; [|done]. unfold project_event, ledger_method, mbind, M_bind, reader, read_clock. cbn.
      rewrite (surjective_pairing (project_master_lifecycle _ _ _ _ _ _ _ _ _)). cbn. by rewrite lifecycle_other.
Qed.

Lemma event_stops (o : OperationRecord) ev id w :
  unstopped id w →
  unstopped id (accept_event clock tunnel_authority fromisoformat o ev w).2 ∨
  event_type ev = "checkpoint.verified" ∧ durable_verified_head (w_ledger w) id ev.
Proof.
  intros Hu. destruct (decide (event_type ev = "checkpoint.verified")) as [He|He].
  - unfold accept_event. rewrite He. cbn -[accept_checkpoint_verified]. destruct (verified_stops o ev id w Hu); auto.
  - left. refine (moves_unstopped _ _ _ _ Hu).
    by apply (walk_event sha256 clock tunnel_authority validate_json model_dump heartbeat_coalesce _ _ never_stops).
Qed.

(** Ingestion changes neither the heads nor the candidates. *)
Lemma ingest_heads raw token (w : W) :
  let w' := (ledger_method clock (ingest_runtime_event sha256 validate_json model_dump heartbeat_coalesce raw token) w).2 in
  l_heads (w_ledger w') = l_heads (w_ledger w) ∧ l_candidates (w_ledger w') = l_candidates (w_ledger w).
Proof.
  unfold ledger_method, mbind, M_bind, reader, read_clock. cbn. set (now := clock _).
  assert (keeps (λ l, (l_heads l, l_candidates l)) (ingest_runtime_event sha256 validate_json model_dump heartbeat_coalesce raw token now)) as Hk
    by (unfold_call; frame).
  specialize (Hk (w_ledger w)). destruct (ingest_runtime_event _ _ _ _ _ _ _ _) as [r l']. cbn in *. by simplify_eq.
Qed.

Lemma accept_stops raw token w id :
  unstopped id w →
  unstopped id (accept_ raw token w).2 ∨
  ∃ ev, validate_json raw = Some ev ∧ event_type ev = "checkpoint.verified" ∧ durable_verified_head (w_ledger w) id ev.
Proof.
  intros Hu. unfold accept_runtime_event, mbind at 1, M_bind at 1. pose proof (ingest_heads raw token w) as Hh. cbn in Hh.
  assert (moves never_stops w (ledger_method clock (ingest_runtime_event sha256 validate_json model_dump heartbeat_coalesce raw token) w).2) as Hm
    by apply (walk_ingest sha256 clock validate_json model_dump heartbeat_coalesce _ never_stops).
  destruct (ledger_method _ _ _) as [[r|e] w1]; [|left; by apply (moves_unstopped _ _ _ Hm)]. cbn in Hh, Hm.
  apply (moves_unstopped _ _ _ Hm) in Hu. clear Hm. destruct Hh as [Hh Hc].
  assert (∀ ev, durable_verified_head (w_ledger w1) id ev → durable_verified_head (w_ledger w) id ev) as Hd
    by (unfold durable_verified_head; by rewrite Hh, Hc).
  set (Ψ := λ w', unstopped id w' ∨ ∃ ev, validate_json raw = Some ev ∧ event_type ev = "checkpoint.verified" ∧ durable_verified_head (w_ledger w) id ev).
  match goal with |- unstopped id ?x.2 ∨ _ => change (Ψ x.2) end. assert (Ψ w1) as Hw1 by by left.
  destruct (rc_disposition r); try done; destruct (validate_json raw) as [ev|] eqn:Hv; try done;
    (destruct (_ && negb _); [done|]); (apply bind_reads; [walk|done|intros ack _]); (destruct ack; [done|]);
    (apply bind_reads; [unfold operation_of_attempt; walk|done|intros o _]).
  all: unfold mbind, M_bind; destruct (event_stops o ev id w1 Hu) as [|[]]; [left; by destruct (accept_event _ _ _ _ _ _) as [[]]|right; eauto].
Qed.

(** C9: An event can stop a master only when its checkpoint is durable.  If
    accepting a runtime event, genuine or not, takes an operation of any
    reachable ledger into STOPPED, then the event is a checkpoint.verified one,
    and before it the HEAD of the master service already was a VERIFIED
    checkpoint of that very operation, of the event's epoch and with the
    manifest digest the event reports. *)
Theorem stopping_needs_verified_head ls raw token (w : W) id s :
  w_ledger w = ledger_run_ ls empty_ledger → state_of id (l_operations (w_ledger w)) = Some s → s ≠ "STOPPED" →
  state_of id (l_operations (w_ledger (accept_ raw token w).2)) = Some "STOPPED" →
  ∃ ev, validate_json raw = Some ev ∧ event_type ev = "checkpoint.verified" ∧ durable_verified_head (w_ledger w) id ev.
Proof.
  intros Hw Hs Hne Hstop. destruct (run_ops_ok sha256 validate_json model_dump heartbeat_coalesce ls) as (Hid & _).
  rewrite <-Hw in Hid. destruct (accept_stops raw token w id) as [(_ & t & Ht & ?)|]; [split; eauto|naive_solver|done].
Qed.

End lifecycle.

(** ** Witnesses *)

Module Stopping.

(** The master of [Scenario] after its checkpoint became HEAD, being drained. *)
Definition calls : list ledger_call :=
  (Scenario.promoted ++
   [ProjectLifecycle "op-1" "service-1" 1 "ACTIVE" "DRAINING" "DRAINING" "event-6" 5600000;
    ProjectLifecycle "op-1" "service-1" 1 "DRAINING" "CHECKPOINTING" "DRAINING" "event-7" 5700000])%list.

Definition decode_event (body : string) : option RuntimeEvent :=
  if body == "verified" then
    Some (mk_RuntimeEvent body "content-runtime-event/v1" "run-1" "attempt-1" "service-1" "kernel" "v1" "checkpoint.verified" 6250000
            2 1 None None
            [("checkpoint_id", JStr "cp-1"); ("manifest_sha256", JStr Scenario.hash64); ("current_checkpoint_id", JStr "cp-1")] [] [])
  else Scenario.decode_event body.

Definition clock (n : nat) : Z := 6250000 + 1000000 * Z.of_nat n.
Definition before : world FakeKaggleRuntime unit :=
  mk_world (ledger_run Scenario.plain decode_event Scenario.dump_event 60000000 calls empty_ledger) (FakeKaggle_init ∅) tt 0.

End Stopping.

Lemma stopping_needs_verified_head_witness :
  ∃ ev, Stopping.decode_event "verified" = Some ev ∧ event_type ev = "checkpoint.verified" ∧
        durable_verified_head (w_ledger Stopping.before) "op-1" ev.
Proof.
  apply (stopping_needs_verified_head Scenario.plain Scenario.plain Stopping.clock None Stopping.decode_event Scenario.dump_event 60000000 (λ _, None)
           Stopping.calls "verified" "secret" Stopping.before "op-1" "CHECKPOINTING");
    [reflexivity|vm_compute; reflexivity|done|vm_compute; reflexivity].
Defined.

(** A master that stopped, and a provider that then reports its run as failed. *)
Module LateFailure.

Definition identity : list (string * json) :=
  [("run_id", JStr "run-1"); ("attempt_id", JStr "attempt-1"); ("service_instance_id", JStr "service-1");
   ("master_instance_id", JStr "master-1")].

Definition calls : list ledger_call :=
  [EnsureMaster "op-1" "key-1" Scenario.intent identity MASTER_SERVICE_KIND 1250000;
   PlanEffect "effect-1" "op-1" "op-1:trigger_run" "trigger_run" identity 1500000;
   ClaimEffect "effect-1" 1750000;
   CompleteEffect "effect-1" [("exact_identity", JObj [("run", JStr "r")])] 2250000;
   RecordAttempt "attempt-1" "run-1" "op-1" "kernel" "v1" "service-1" (Some "master-1") 1 "STARTING" 2500000;
   ActivateService "op-1" "REQUESTED" Scenario.hello 3250000;
   ProjectLifecycle "op-1" "service-1" 1 "ACTIVE" "DRAINING" "DRAINING" "event-6" 5600000;
   ProjectLifecycle "op-1" "service-1" 1 "DRAINING" "CHECKPOINTING" "DRAINING" "event-7" 5700000;
   ProjectLifecycle "op-1" "service-1" 1 "CHECKPOINTING" "STOPPED" "STOPPED" "event-8" 5800000].

(** A provider that only reports. *)
#[local] Instance reporting : MasterRuntimeProvider MasterTerminalEvidence := {|
  execute _ := raise ProviderError "unavailable";
  reconcile _ := raise ProviderError "unavailable";
  observe_terminal _ := λ p, (Ret (Some p), p);
|}.

Definition before : world MasterTerminalEvidence unit :=
  mk_world (Scenario.run calls) (mk_MasterTerminalEvidence PlatformStatus.ERROR None) tt 0.

Definition intent : MasterIntent := mk_MasterIntent "key-1" "kernel" "v1" "checkpoint" "owner/dataset" "owner/notebook".

Definition after : world MasterTerminalEvidence unit :=
  coordinator_run Scenario.plain Scenario.plain Stopping.clock 60000000 None 5432 Scenario.decode_event Scenario.dump_event 60000000
    (λ _, None) (λ _, None) [ReconcileCall "op-1" intent] before.

End LateFailure.

(** A stopped master can still fail.  The state machine refuses FAIL in
    STOPPED, but reconciliation also observes stopped operations, and when the
    provider reports an error for the run it writes FAILED over STOPPED: an
    operation whose lifecycle had ended leaves its terminal state. *)
Theorem stopped_master_can_fail :
  transition_master MasterState.STOPPED MasterSignal.FAIL = throw InvalidMasterTransition "invalid master transition: STOPPED + fail" ∧
  state_of "op-1" (l_operations (w_ledger LateFailure.before)) = Some "STOPPED" ∧
  state_of "op-1" (l_operations (w_ledger LateFailure.after)) = Some "FAILED".
Proof. vm_compute. split_and!; reflexivity. Qed.

Lemma coordinator_follows_state_machine_witness :
  ∃ new s', l_operation_log (w_ledger LateFailure.after) = (l_operation_log (w_ledger LateFailure.before) ++ new)%list ∧ Forall machine_row new ∧
    state_of "op-1" (l_operations (w_ledger LateFailure.after)) = Some s' ∧ replay (Some "STOPPED") (log_of "op-1" new) = Some (Some s').
Proof.
  refine (coordinator_follows_state_machine Scenario.plain Scenario.plain Stopping.clock 60000000 None 5432 Scenario.decode_event
    Scenario.dump_event 60000000 (λ _, None) (λ _, None) LateFailure.calls [ReconcileCall "op-1" LateFailure.intent]
    LateFailure.before "op-1" "STOPPED" _ _); [reflexivity|vm_compute; reflexivity].
Defined.

#[local] Existing Instance LateFailure.reporting.

(** Two masters are asked for, one of them by the rest of the program, which also
    runs an acceptance operation; the second is refused while the first lives. *)
Module TwoMasters.
Definition second : MasterIntent := mk_MasterIntent "key-2" "kernel" "v1" "checkpoint" "owner/dataset" "owner/notebook".
Definition steps : list program_step :=
  [Elsewhere (EnsureMaster "op-1" "key-1" (intent_as_dict LateFailure.intent) LateFailure.identity MASTER_SERVICE_KIND 1250000);
   Coordinates (EnsureMasterCall second (Some "secret"));
   Elsewhere (EnsureOperation "op-3" "key-3" "checkpoint_restore_smoke" [] "REQUESTED" [] None 1500000);
   Elsewhere (TransitionOperation "op-3" "REQUESTED" "DURABLE_COMPLETE" None 1750000)].
Definition before : world MasterTerminalEvidence unit := mk_world empty_ledger (mk_MasterTerminalEvidence PlatformStatus.ERROR None) tt 0.
Definition after : world MasterTerminalEvidence unit :=
  program_run Scenario.plain Scenario.plain Stopping.clock 60000000 None 5432 Scenario.decode_event Scenario.dump_event 60000000
    (λ _, None) (λ _, None) steps before.

Example one_is_admitted : map (λ o, (op_id o, op_state o)) (l_operations (w_ledger after)) = [("op-1", "REQUESTED"); ("op-3", "DURABLE_COMPLETE")].
Proof. vm_compute. reflexivity. Qed.
End TwoMasters.

Lemma at_most_one_live_master_witness :
  (length (List.filter live_master (l_operations (w_ledger TwoMasters.after))) ≤ 1)%nat.
Proof.
  apply (at_most_one_live_master Scenario.plain Scenario.plain Stopping.clock 60000000 None 5432 Scenario.decode_event
    Scenario.dump_event 60000000 (λ _, None) (λ _, None) TwoMasters.steps TwoMasters.before); [reflexivity|].
  intros c Hc. unfold TwoMasters.steps in Hc. rewrite !elem_of_cons in Hc. destruct Hc as [[= ->]|[[=]|[[= ->]|[[= ->]|Hc]]]]; try reflexivity.
  by apply not_elem_of_nil in Hc.
Defined.
