(* ===== verification/CoordinatorEffects.v ===== *)
(** * CoordinatorEffects: no provider effect happens twice

    What the coordinator relies on from a provider ([HonestProvider]), and that
    with such a provider, whatever calls are made and wherever they fail, every
    idempotency key has at most one effect at the provider, although the
    provider itself need not notice repetitions.  [FakeKaggleRuntime] is such a
    provider. *)

From stdpp Require Import relations.
From S2P Require Import Prelude Time Json LedgerState LedgerOperations LedgerEffects LedgerServices LedgerEvents.
From S2P Require Import LedgerLeases LedgerCheckpoints LedgerStatus LedgerSafety LedgerHistory Lifecycle Provider Coordinator.
From S2P Require Import CoordinatorSafety.

(** The effects a provider has performed, by idempotency key.  One execution
    performs its effect at most once, also when it raises; reconciliation and
    observation perform none; and a reconciliation that says ABSENT is right. *)
Class HonestProvider (P : Type) `{MasterRuntimeProvider P} (performed : P → list string) := {
  execute_performs e p :
    performed (execute e p).2 ≡ₚ performed p ∨ performed (execute e p).2 ≡ₚ pe_key e :: performed p;
  reconcile_performs e p : performed (reconcile e p).2 ≡ₚ performed p;
  reconcile_absent e p r p' : reconcile e p = (Ret r, p') → rec_status r = ABSENT → pe_key e ∉ performed p;
  observe_performs q p : performed (observe_terminal q p).2 ≡ₚ performed p;
}.

(** ** The ledger's part *)

(** The effect of a key has been claimed. *)
Definition claimed (efs : list effect_row) (key : string) : Prop :=
  ∃ e, e ∈ efs ∧ ef_key e = key ∧ ef_state e ≠ PLANNED.

(** The record is a row of the table. *)
Definition recorded (efs : list effect_row) (r : EffectRecord) : Prop :=
  ∃ e, e ∈ efs ∧ ef_id e = er_id r ∧ ef_key e = er_key r ∧ ef_state e = er_state r.

Lemma ef_step_claimed x y key : ef_step x y → NoDup (map ef_id x.1) → claimed x.1 key → claimed y.1 key.
Proof.
  intros [?|efs log e now m Hst Hnew|efs log e to op now m p f He Hp Hnext Hone Hf Hto Hsame] Hid (r & Hr & Hk & Hs);
    cbn [fst] in *; [by exists r|..].
  - exists r. set_solver.
  - exists (if p r then f r else r). split; [apply elem_of_update; by exists r|].
    destruct (p r) eqn:Ep; [|done]. split; [by rewrite (proj2 (Hf r))|].
    assert (r = e) as -> by (apply (key_unique ef_id efs); auto). rewrite Hto. intros ->. by destruct (ef_state e).
Qed.

Lemma effect_from_row_inv e r : effect_from_row e = Ret r → ef_id e = er_id r ∧ ef_key e = er_key r ∧ ef_state e = er_state r.
Proof. unfold effect_from_row. intros E. py_cbn. repeat case_match; by simplify_eq. Qed.

Lemma plan_records ef o k d i now l r b l' : plan_effect ef o k d i now l = (Ret (r, b), l') → recorded (l_effects l') r.
Proof.
  unfold plan_effect. intros H. run_inv. tables. clear Hrun0.
  match goal with H : List.find _ _ = Some ?e, H' : effect_from_row ?e = _ |- _ =>
    apply find_some_iff in H as [? _]; exists e; split; [done|by apply effect_from_row_inv] end.
Qed.

Lemma claim_claims r now l r' l' :
  NoDup (map ef_id (l_effects l)) → recorded (l_effects l) r → claim_effect (er_id r) now l = (Ret (Some r'), l') →
  (∃ e, e ∈ l_effects l ∧ ef_key e = er_key r ∧ ef_state e = PLANNED) ∧ claimed (l_effects l') (er_key r).
Proof.
  unfold claim_effect, log_effect. intros Hid (e & He & Hi & Hk & Hs) H. run_inv. tables.
  match goal with H : (length _ == _) = true |- _ => apply filter_one in H as (x & Hx & Hp) end. b2p. destruct Hp as [Hxi Hxp].
  assert (x = e) as -> by (apply (key_unique ef_id (l_effects l)); congruence). split; [by exists e|].
  exists (ef_set_state IN_PROGRESS now e). split; [|done].
  apply (elem_of_update (λ e, (ef_id e == er_id r) && (ef_state e == PLANNED))). exists e. split; [done|].
  by rewrite !bool_decide_eq_true_2 by done.
Qed.

(** ** The coordinator *)

Section once.
Context {P T : Type} `{MasterRuntimeProvider P} (performed : P → list string) `{!HonestProvider P performed}.
Abbreviation W := (world P T).
Context (sha256 uuid5 : string → string) (clock : nat → Z) (lease_ttl : Z).
Context (tunnel_authority : option (MasterTunnelAuthority T)) (tunnel_listen_port : Z).
Context (validate_json : string → option RuntimeEvent) (model_dump : RuntimeEvent → list (string * json)).
Context (heartbeat_coalesce : Z) (validate_blogger : list (string * json) → option BloggerReceipt).
Context (fromisoformat : string → option datetime).
Abbreviation ledger_run_ := (ledger_run sha256 validate_json model_dump heartbeat_coalesce).
Abbreviation coordinator_run_ := (coordinator_run sha256 uuid5 clock lease_ttl tunnel_authority tunnel_listen_port
  validate_json model_dump heartbeat_coalesce validate_blogger fromisoformat).

(** Every effect at the provider happened once and was claimed first. *)
Definition once (w : W) : Prop :=
  efs_ok (ef_tables (w_ledger w)) ∧ NoDup (performed (w_provider w)) ∧
  ∀ k, k ∈ performed (w_provider w) → claimed (l_effects (w_ledger w)) k.

Definition keeps_once (w w' : W) : Prop := once w → once w'.

(** Nothing is performed and the effects make one step. *)
Lemma once_step (w w' : W) :
  ef_step (ef_tables (w_ledger w)) (ef_tables (w_ledger w')) → performed (w_provider w') ≡ₚ performed (w_provider w) →
  keeps_once w w'.
Proof.
  intros Hs Hp (He & Hn & Hc). split_and!; [by apply (ef_step_ok _ _ Hs)|by rewrite Hp|]. intros k. rewrite Hp. intros Hk%Hc.
  by apply (ef_step_claimed _ _ _ Hs (proj1 He)).
Qed.

Lemma once_provider {A} (m : M P A) : (∀ p, performed (m p).2 ≡ₚ performed p) → respects keeps_once (on_provider m).
Proof.
  intros Hm w. specialize (Hm (w_provider w)). unfold on_provider. destruct (m _) as [o p]. apply once_step; [apply ef_same|done].
Qed.

#[local] Instance once_respectful : respectful sha256 clock validate_json model_dump heartbeat_coalesce keeps_once (λ _ _, True).
Proof.
  split.
  - split; [intros w Hw; exact Hw|]. intros a b c Hab Hbc Ha. auto.
  - unfold keeps_once, once. by intros w w' -> -> _.
  - intros c w _ _. intros Hw.
    destruct (step_cases sha256 validate_json model_dump heartbeat_coalesce c (w_ledger w)) as [E|E].
    + refine (once_step w _ _ _ Hw); [|done]. cbn. apply (step_ef_step sha256 validate_json model_dump heartbeat_coalesce c _ _ (proj1 (proj1 Hw)) E).
    + unfold once in *. cbn. by rewrite E.
  - intros q. apply once_provider, observe_performs.
Qed.

(** Executing an effect that was claimed and has not been performed. *)
Lemma once_execute e w :
  once w → claimed (l_effects (w_ledger w)) (pe_key e) → pe_key e ∉ performed (w_provider w) →
  once (on_provider (execute e) w).2.
Proof.
  intros (He & Hn & Hc) Hcl Hnew. pose proof (execute_performs e (w_provider w)) as Hx. unfold on_provider.
  destruct (execute e (w_provider w)) as [o p]. cbn in *. split_and!; cbn; [done|..].
  - destruct Hx as [-> | ->]; [done|]. by apply list.NoDup_cons.
  - intros k. destruct Hx as [-> | ->]; [by apply Hc|]. intros [->|?]%elem_of_cons; auto.
Qed.

(** What touches neither the ledger nor the provider. *)
Definition aside (w w' : W) : Prop := w_ledger w' = w_ledger w ∧ w_provider w' = w_provider w.

#[local] Instance aside_preorder : PreOrder aside.
Proof. split; [done|]. intros a b c [? ?] [? ?]. split; congruence. Qed.

Lemma aside_activate k i : respects aside (activate_if_trigger clock lease_ttl tunnel_authority tunnel_listen_port k i).
Proof.
  unfold activate_if_trigger, activate_tunnel_authority. walk.
  - by intros w.
  - intros w. unfold on_tunnel. by destruct (tunnel_activate _ _ _ _ _ _ _ _ _).
Qed.

Abbreviation walks lem := (lem sha256 clock validate_json model_dump heartbeat_coalesce keeps_once (λ _ _, True) _).

Lemma bind_once {A B} (m : M W A) (k : A → M W B) w :
  once (m w).2 → (∀ a, once (m w).2 → once (k a (m w).2).2) → once (mbind k m w).2.
Proof. intros Hm Hk. unfold mbind, M_bind. destruct (m w) as [[a|e] w1]; [by apply Hk|done]. Qed.

Lemma once_finish k i e r : respects keeps_once (finish_effect clock k i e r).
Proof. exact (walks walk_finish _ _ _ _). Qed.

(** Activation, execution, completion. *)
Lemma once_launch k i e w :
  once w → claimed (l_effects (w_ledger w)) (er_key e) → er_key e ∉ performed (w_provider w) →
  once ((activate_if_trigger clock lease_ttl tunnel_authority tunnel_listen_port k i ;;
         receipt ← on_provider (execute (planned_effect e)); finish_effect clock k i (er_id e) receipt) w).2.
Proof.
  intros Hw Hc Hp. destruct (aside_activate k i w) as [El Ep].
  assert (once (activate_if_trigger clock lease_ttl tunnel_authority tunnel_listen_port k i w).2) as Hw1
    by (unfold once in *; by rewrite El, Ep).
  apply bind_once; [done|]. intros _ _. apply bind_once.
  - apply once_execute; [done|by rewrite El|by rewrite Ep].
  - intros r. by apply once_finish.
Qed.

Lemma once_resume o k i e w :
  recorded (l_effects (w_ledger w)) e → er_state e = IN_PROGRESS → once w →
  once (resume_effect clock lease_ttl tunnel_authority tunnel_listen_port o k i e w).2.
Proof.
  intros (r & Hr & _ & Hk & Hs) He Hw. unfold resume_effect.
  assert (claimed (l_effects (w_ledger w)) (er_key e)) as Hc by (exists r; split_and!; congruence).
  pose proof (once_provider _ (reconcile_performs (planned_effect e)) w Hw) as Hw1.
  pose proof (reconcile_performs (planned_effect e) (w_provider w)) as Hp.
  unfold mbind at 1, M_bind at 1. unfold on_provider in Hw1 |- * at 1.
  destruct (reconcile (planned_effect e) (w_provider w)) as [[rec|x] p] eqn:Er; [|done]. cbn in Hw1, Hp.
  destruct (rec_status rec) eqn:Est; [|apply bind_once|by apply Hw1].
  - refine ((_ : respects keeps_once _) _ Hw1). walk. apply once_finish.
  - by destruct (is_trigger k).
  - intros expired Hw2. pose proof (reconcile_absent _ _ _ _ Er Est) as Hnew.
    match goal with |- once ((if expired then _ else _) ?x).2 => set (w2 := x) in * end.
    assert (w_ledger w2 = w_ledger w ∧ w_provider w2 = p) as [El Ep] by (subst w2; by destruct (is_trigger k)).
    destruct expired.
    + refine ((_ : respects keeps_once _) _ Hw2). unfold suppress_all. walk; [exact (walks (λ s c, walk_deactivate s c tunnel_authority) _ _)|].
      by apply (walks walk_unstarted).
    + apply once_launch; [done|by rewrite El|rewrite Ep, Hp; done].
Qed.

Lemma once_run o k i e w :
  recorded (l_effects (w_ledger w)) e → once w →
  once (run_effect clock lease_ttl tunnel_authority tunnel_listen_port o k i e w).2.
Proof.
  intros Hr Hw. unfold run_effect. destruct (er_state e) eqn:Es; [|by apply once_resume| |done].
  - pose proof (walks walk_claim (er_id e) w Hw) as Hw1. unfold mbind at 1, M_bind at 1.
    destruct (ledger_method clock (claim_effect (er_id e)) w) as [[[r|]|x] w1] eqn:Ec; [|done..]. cbn in Hw1.
    unfold ledger_method, mbind, M_bind, read_clock, reader in Ec. cbn in Ec.
    destruct (claim_effect (er_id e) _ _) as [out l1] eqn:Ecl. simplify_eq.
    apply claim_claims in Ecl as [(x & Hx & Hk & Hst) Hc]; [|apply Hw|done].
    apply once_launch; [done|done|]. cbn. intros (y & Hy & Hyk & Hyst)%Hw.
    assert (x = y) as -> by (apply (key_unique ef_key (l_effects (w_ledger w))); [apply Hw|congruence..]). done.
  - refine ((_ : respects keeps_once _) _ Hw). walk.
Qed.

Lemma once_planned ef o key k ex i :
  respects keeps_once (planned ← ledger_method clock (plan_effect ef o key k ex);
                       run_effect clock lease_ttl tunnel_authority tunnel_listen_port o k i planned.1).
Proof.
  intros w Hw. pose proof (walks walk_plan ef o key k ex w Hw) as Hw1. unfold mbind at 1, M_bind at 1.
  destruct (ledger_method clock (plan_effect ef o key k ex) w) as [[[r b]|x] w1] eqn:Ep; [|done]. apply once_run; [|done].
  unfold ledger_method, mbind, M_bind, read_clock, reader in Ep. cbn in Ep.
  destruct (plan_effect ef o key k ex _ _) as [out l1] eqn:Epl. simplify_eq. by apply plan_records in Epl.
Qed.

Lemma once_apply o k r it i :
  respects keeps_once (apply_effect uuid5 clock lease_ttl tunnel_authority tunnel_listen_port o k r it i).
Proof.
  unfold apply_effect. apply respects_bind; [exact _|walk|]. intros [o'|]; [|walk]. apply respects_bind; [exact _|walk|].
  intros base. apply respects_bind; [exact _|unfold chained_identity, upstream; walk|].
  intros [ex|]; [apply once_planned|walk].
Qed.

Lemma once_execution cs (w : W) : once w → once (coordinator_run_ cs w).
Proof. apply (walk_run sha256 _ _ _ _ _ _ _ _ _ _ keeps_once (λ _ _, True)); [done..|exact once_apply]. Qed.

(** C6: No provider effect happens twice.  Start the coordinator on any reachable
    ledger with a provider that has performed nothing yet, and make whatever
    calls: admissions and reconciliations that fail anywhere and are repeated,
    lost responses, provider errors, events.  At the end every idempotency key
    has been performed at most once at the provider, and each performed effect
    is one the ledger holds as claimed.  The provider is assumed to perform at
    most one effect per execution and to say ABSENT only for what it has not
    performed; it is not assumed to recognise a repeated execution. *)
Theorem provider_effects_at_most_once ls cs (w : W) :
  w_ledger w = ledger_run_ ls empty_ledger → performed (w_provider w) = [] →
  let w' := coordinator_run_ cs w in
  NoDup (performed (w_provider w')) ∧ ∀ k, k ∈ performed (w_provider w') → claimed (l_effects (w_ledger w')) k.
Proof.
  intros Hl Hp. apply (once_execution cs w). unfold once. rewrite Hl, Hp. split_and!; [|constructor|by intros k ?%not_elem_of_nil].
  apply run_efs_ok, empty_efs_ok.
Qed.

End once.

(** ** The double is such a provider *)

Definition fake_performed (p : FakeKaggleRuntime) : list string := (map_to_list (fk_receipts p)).*1.

#[export] Instance fake_honest : HonestProvider FakeKaggleRuntime fake_performed.
Proof.
  unfold fake_performed. split.
  - intros e p. cbn. pose proof (fake_execute_cases e p) as He.
    inversion He as [r Hr Eo|x s' Hx Hr Er Ec Eo|o s1 r Hr Er Ec Hk Ho Eo]; cbn; [by left|by left; rewrite Er|].
    right. rewrite (map_to_list_insert (fk_receipts s1) (pe_key e) r) by congruence. by rewrite Er.
  - intros e p. cbn. unfold fake_reconcile. py_cbn. by destruct (fk_receipts p !! pe_key e).
  - intros e p r p'. cbn. unfold fake_reconcile. py_cbn. destruct (fk_receipts p !! pe_key e) as [x|] eqn:E; intros [= <- <-]; [done|].
    intros _ ([k v] & Hk & Hin)%list_elem_of_fmap. apply elem_of_map_to_list in Hin. cbn in *. congruence.
  - by intros q p.
Qed.

(** ** A launch that is interrupted twice

    The process dies after the Notebook was pushed and before its receipt was
    written; then the provider refuses to trigger the run.  Each reconciliation
    takes up the launch where it was left. *)
Module Launch.

Definition clock (n : nat) : Z := 1250000 + 1000000 * Z.of_nat n.
Definition intent : MasterIntent := mk_MasterIntent "key-1" "kernel" "v1" "checkpoint" "owner/dataset" "owner/notebook".
Definition faults : gmap string (list (option exn)) :=
  {["push_notebook" := [Some crash]; "trigger_run" := [Some (Exn RuntimeError "unavailable")]]}.
Definition before : world FakeKaggleRuntime unit := mk_world empty_ledger (FakeKaggle_init faults) tt 0.

Definition calls : list coordinator_call :=
  [EnsureMasterCall intent (Some "secret"); ReconcileCall "mdh:operation:key-1" intent; ReconcileCall "mdh:operation:key-1" intent].

Definition after (n : nat) : world FakeKaggleRuntime unit :=
  coordinator_run Scenario.plain Scenario.plain clock 60000000 None 5432 Scenario.decode_event Scenario.dump_event 60000000
    (λ _, None) (λ _, None) (take n calls) before.

Definition summary (w : world FakeKaggleRuntime unit) :=
  (map op_state (l_operations (w_ledger w)), map ef_state (l_effects (w_ledger w)),
   (λ k, fk_counts (w_provider w) !! k) <$> ["ensure_dataset"; "push_notebook"; "trigger_run"]).

Example interrupted :
  summary (after 1) = (["STARTING"], [APPLIED; IN_PROGRESS], [Some 1%nat; Some 1%nat; None]) ∧
  summary (after 2) = (["RESTORING"], [APPLIED; APPLIED; IN_PROGRESS], [Some 1%nat; Some 1%nat; None]) ∧
  summary (after 3) = (["REGISTERING"], [APPLIED; APPLIED; APPLIED], [Some 1%nat; Some 1%nat; Some 1%nat]).
Proof. vm_compute. split_and!; reflexivity. Qed.

End Launch.

Lemma provider_effects_at_most_once_witness :
  let w' := Launch.after 3 in
  NoDup (fake_performed (w_provider w')) ∧ ∀ k, k ∈ fake_performed (w_provider w') → claimed (l_effects (w_ledger w')) k.
Proof.
  refine (provider_effects_at_most_once fake_performed Scenario.plain Scenario.plain Launch.clock 60000000 None 5432
    Scenario.decode_event Scenario.dump_event 60000000 (λ _, None) (λ _, None) [] Launch.calls Launch.before _ _); reflexivity.
Defined.
