(* ===== verification/Tunnel.v ===== *)
(** * Tunnel: the broker of SSH tunnel certificates

    Models tunnel_broker.py: the lease and the durable state of [TunnelBroker]
    with their JSON form and its validation, and every method that changes the
    state or the files sshd reads.  The state of a broker is its directory:
    state.json as the document it holds, the two principals files, the key
    revocation list, and the sessions that were terminated.  Every access to the
    operating system may fail: [fault] says how the n-th one ends, and
    [ProcessKilled] stands for a process that dies there.  ssh-keygen is the
    parameter [sign]. *)

From S2P Require Import Prelude Time Json Uuid.

Definition SCHEMA_VERSION : string := "my-data-hub-master-tunnel-broker.v2".
Definition LEGACY_SCHEMA_VERSION : string := "my-data-hub-master-tunnel-broker.v1".
Definition DEFAULT_LISTEN_HOST : string := "127.0.0.1".
Definition SECOND : Z := MICRO.
Definition MAX_LEASE : Z := 600 * SECOND.
Definition MIN_CERTIFICATE_LIFETIME : Z := 15 * SECOND.
Definition MAX_ISSUED_CERTIFICATES : Z := 4096.

(** ** Texts *)

(** [_RUNTIME_ID.fullmatch], [_REASON.fullmatch] *)
Definition is_runtime_id (s : string) : bool :=
  match s with
  | EmptyString => false
  | String c s' =>
      is_alnum c && string_forallb (λ c, is_alnum c || mem c ["."; "_"; ":"; "-"]%char) s' && (slen s' <=? 127)
  end.

Definition is_reason (s : string) : bool :=
  match s with
  | EmptyString => false
  | String c s' =>
      is_lower_letter c && string_forallb (λ c, is_lower_letter c || is_digit c || mem c ["_"; "."; "-"]%char) s' && (slen s' <=? 63)
  end.

(** The first word of a text, and the rest. *)
Fixpoint split_at_space (s : string) : string * string :=
  match s with
  | EmptyString => ("", "")
  | String c s' => if is_space c then ("", s') else let '(w, r) := split_at_space s' in (String c w, r)
  end.

Definition has_newline (s : string) : bool := negb (string_forallb (λ c, c != "010"%char) s).

(** One Ed25519 public key: two fields at least, the first the key type. *)
Definition is_ed25519_key (key_text : string) : bool :=
  let '(kind, rest) := split_at_space key_text in
  (kind == "ssh-ed25519") && (lstrip rest != "") && negb (has_newline key_text).

(** [strftime("%Y%m%d%H%M%SZ")] *)
Definition certificate_time (t : Z) : string :=
  let sec := t / MICRO in
  let '(y, m, d) := civil_of_days (sec / DAY) in
  let sod := sec mod DAY in
  digits 4 y +:+ digits 2 m +:+ digits 2 d +:+ digits 2 (sod / 3600) +:+ digits 2 (sod / 60 mod 60) +:+ digits 2 (sod mod 60) +:+ "Z".

Definition validate_identity (instance_id : string) (epoch : Z) : outcome (string * Z) :=
  match uuid_of_text instance_id with
  | None => throw TunnelBrokerError "master_instance_id must be a UUID"
  | Some u =>
      throw_if (epoch <? 1) TunnelBrokerError "epoch must be a positive integer" ;;
      Ret (uuid_str u, epoch)
  end.

Definition validate_runtime_ids (run_id attempt_id : string) : outcome (string * string) :=
  throw_if (negb (is_runtime_id run_id) || negb (is_runtime_id attempt_id)) TunnelBrokerError
    "run_id and attempt_id must be bounded opaque identifiers" ;;
  Ret (run_id, attempt_id).

(** [_uuid] *)
Definition uuid_field (value label : string) : outcome string :=
  match uuid_of_text value with
  | None => throw TunnelBrokerError (label +:+ " must be a UUID")
  | Some u => Ret (uuid_str u)
  end.

(** [UUID(value).hex] *)
Definition uuid_hex (value : string) : outcome string :=
  match uuid_of_text value with
  | None => throw ValueError "badly formed hexadecimal UUID string"
  | Some u => Ret (hex_text 32 u)
  end.

(** ** Sets of serials, as the sorted lists the state file holds *)

Fixpoint insert_serial (x : Z) (l : list Z) : list Z :=
  match l with
  | [] => [x]
  | y :: l' => if x <? y then x :: l else if x =? y then l else y :: insert_serial x l'
  end.

(** [sorted(set(l))] and [sorted({*a, *b})] *)
Definition sorted_set (l : list Z) : list Z := foldr insert_serial [] l.
Definition sorted_union (a b : list Z) : list Z := sorted_set (a ++ b).

Fixpoint insert_text (x : string) (l : list string) : list string :=
  match l with [] => [x] | y :: l' => if String.leb x y then x :: l else y :: insert_text x l' end.
Definition sorted_texts (l : list string) : list string := foldr insert_text [] l.

(** ** The durable records *)

Record ActiveTunnelLease := mk_ActiveTunnelLease {
  tl_master : string; tl_run : string; tl_attempt : string; tl_epoch : Z; tl_until : Z; tl_host : string; tl_port : Z;
  tl_principal : string;
}.

#[global] Instance ActiveTunnelLease_eq_dec : EqDecision ActiveTunnelLease.
Proof. solve_decision. Defined.

(** Metadata of a certificate issued to a master ... *)
Record issued_row := mk_issued {
  ic_serial : Z; ic_master : string; ic_run : string; ic_attempt : string; ic_epoch : Z; ic_key_id : string;
  ic_principal : string; ic_valid_before : string; ic_public_key : string;
}.

(** ... and to a worker. *)
Record worker_row := mk_worker {
  wc_serial : Z; wc_master : string; wc_epoch : Z; wc_task : string; wc_credential : string; wc_key_id : string;
  wc_principal : string; wc_valid_before : string; wc_public_key : string; wc_certificate : string;
}.

Record BrokerState := mk_BrokerState {
  bs_highest : Z; bs_next : Z; bs_active : option ActiveTunnelLease; bs_issued : list issued_row; bs_workers : list worker_row;
  bs_revoked : list Z;
}.

Definition BrokerState_empty : BrokerState := mk_BrokerState 0 1 None [] [] [].

Definition set_active (a : option ActiveTunnelLease) (s : BrokerState) : BrokerState :=
  mk_BrokerState (bs_highest s) (bs_next s) a (bs_issued s) (bs_workers s) (bs_revoked s).
Definition set_highest (h : Z) (s : BrokerState) : BrokerState :=
  mk_BrokerState h (bs_next s) (bs_active s) (bs_issued s) (bs_workers s) (bs_revoked s).
Definition set_revoked (r : list Z) (s : BrokerState) : BrokerState :=
  mk_BrokerState (bs_highest s) (bs_next s) (bs_active s) (bs_issued s) (bs_workers s) r.
Definition add_issued (c : issued_row) (s : BrokerState) : BrokerState :=
  mk_BrokerState (bs_highest s) (bs_next s + 1) (bs_active s) (bs_issued s ++ [c]) (bs_workers s) (bs_revoked s).
Definition add_worker (c : worker_row) (s : BrokerState) : BrokerState :=
  mk_BrokerState (bs_highest s) (bs_next s + 1) (bs_active s) (bs_issued s) (bs_workers s ++ [c]) (bs_revoked s).
(** [metadata["certificate"] = certificate] of the row appended last. *)
Definition set_certificate (serial : Z) (text : string) (s : BrokerState) : BrokerState :=
  mk_BrokerState (bs_highest s) (bs_next s) (bs_active s) (bs_issued s)
    (map (λ w, if wc_serial w =? serial then
                 mk_worker (wc_serial w) (wc_master w) (wc_epoch w) (wc_task w) (wc_credential w) (wc_key_id w) (wc_principal w)
                   (wc_valid_before w) (wc_public_key w) text
               else w) (bs_workers s)) (bs_revoked s).

Record TunnelCertificate := mk_TunnelCertificate {
  tc_certificate : string; tc_serial : Z; tc_principal : string; tc_valid_before : Z; tc_host : string; tc_port : Z;
}.

Record WorkerTunnelCertificate := mk_WorkerTunnelCertificate {
  wt_certificate : string; wt_serial : Z; wt_principal : string; wt_valid_before : Z; wt_task : string; wt_credential : string;
  wt_port : Z; wt_account : string;
}.

Section tunnel.
(** [hashlib.sha256(...).hexdigest()] and [datetime.fromisoformat]; [None] is
    [ValueError]. *)
Context (sha256 : string → string) (fromisoformat : string → option datetime).

(** [_parse_time] *)
Definition parse_time_field (value label : string) : outcome Z :=
  match fromisoformat (replace_z value) with
  | Some d => match require_utc d label with
              | Ret t => Ret t
              | Exc _ => throw TunnelBrokerError (label +:+ " is not an ISO-8601 UTC time")
              end
  | None => throw TunnelBrokerError (label +:+ " is not an ISO-8601 UTC time")
  end.

Definition runtime_digest (run_id attempt_id : string) : string :=
  String.substring 0 12 (sha256 (run_id +:+ String "000"%char attempt_id)).

(** [_principal], [_worker_principal] *)
Definition principal_of (instance_id : string) (epoch : Z) (run_id attempt_id : string) : outcome string :=
  compact ← uuid_hex instance_id;
  Ret ("mdh-master-e" +:+ str_int epoch +:+ "-" +:+ compact +:+ "-" +:+ runtime_digest run_id attempt_id).

Definition worker_principal_of (instance_id : string) (epoch : Z) (task_run_id credential_id : string) : outcome string :=
  compact ← uuid_hex instance_id;
  task ← uuid_hex task_run_id;
  credential ← uuid_hex credential_id;
  Ret ("mdh-worker-e" +:+ str_int epoch +:+ "-" +:+ compact +:+ "-" +:+ task +:+ "-" +:+ credential).

Definition key_id_of (instance : string) (epoch : Z) (run_id attempt_id : string) (serial : Z) : string :=
  "mdh:" +:+ instance +:+ ":" +:+ str_int epoch +:+ ":" +:+ runtime_digest run_id attempt_id +:+ ":" +:+ str_int serial.

Definition worker_key_id_of (instance : string) (epoch : Z) (task_run_id credential_id : string) (serial : Z) : string :=
  "mdh-worker:" +:+ instance +:+ ":" +:+ str_int epoch +:+ ":" +:+ task_run_id +:+ ":" +:+ credential_id +:+ ":" +:+ str_int serial.

(** [ActiveTunnelLease.create] *)
Definition lease_create (master_instance_id run_id attempt_id : string) (epoch : Z) (lease_until : datetime) (listen_host : string)
    (listen_port : Z) : outcome ActiveTunnelLease :=
  ie ← validate_identity master_instance_id epoch;
  ra ← validate_runtime_ids run_id attempt_id;
  throw_if (listen_host != DEFAULT_LISTEN_HOST) TunnelBrokerError "master tunnel listen host must be exact IPv4 loopback" ;;
  throw_if (negb ((1024 <=? listen_port) && (listen_port <=? 65535))) TunnelBrokerError
    "master tunnel listen port must be within 1024..65535" ;;
  until ← require_utc lease_until "lease_until";
  principal ← principal_of ie.1 ie.2 ra.1 ra.2;
  Ret (mk_ActiveTunnelLease ie.1 ra.1 ra.2 ie.2 until listen_host listen_port principal).

(** *** JSON *)

Definition lease_to_json (l : ActiveTunnelLease) : json :=
  JObj [("master_instance_id", JStr (tl_master l)); ("run_id", JStr (tl_run l)); ("attempt_id", JStr (tl_attempt l));
        ("epoch", JInt (tl_epoch l)); ("lease_until", JStr (time_text (tl_until l))); ("listen_host", JStr (tl_host l));
        ("listen_port", JInt (tl_port l)); ("principal", JStr (tl_principal l))].

(** [set(value) == required] *)
Definition same_keys (kvs : list (string * json)) (required : list string) : bool :=
  forallb (λ k, mem k required) (keys kvs) && forallb (λ k, mem k (keys kvs)) required.

Definition text_field (kvs : list (string * json)) (key : string) : option string :=
  match assoc key kvs with Some (JStr s) => Some s | _ => None end.
Definition int_field (kvs : list (string * json)) (key : string) : option Z :=
  match assoc key kvs with Some (JInt n) => Some n | _ => None end.

Definition or_throw {A} (o : option A) (message : string) : outcome A :=
  match o with Some a => Ret a | None => throw TunnelBrokerError message end.

Definition lease_fields : list string :=
  ["master_instance_id"; "run_id"; "attempt_id"; "epoch"; "lease_until"; "listen_host"; "listen_port"; "principal"].

(** [ActiveTunnelLease.from_json] *)
Definition lease_from_json (value : json) : outcome ActiveTunnelLease :=
  match value with
  | JObj kvs =>
      throw_if (negb (same_keys kvs lease_fields)) TunnelBrokerError "active tunnel lease fields differ from the contract" ;;
      '(master, run, attempt, epoch, port, until, host, principal) ← or_throw (
        master ← text_field kvs "master_instance_id"; run ← text_field kvs "run_id"; attempt ← text_field kvs "attempt_id";
        epoch ← int_field kvs "epoch"; port ← int_field kvs "listen_port"; until ← text_field kvs "lease_until";
        host ← text_field kvs "listen_host"; principal ← text_field kvs "principal";
        Some (master, run, attempt, epoch, port, until, host, principal)) "active tunnel lease values are invalid";
      until ← parse_time_field until "lease_until";
      lease ← lease_create master run attempt epoch (utc until) host port;
      throw_if (principal != tl_principal lease) TunnelBrokerError "active tunnel principal does not match its epoch identity" ;;
      Ret lease
  | _ => throw TunnelBrokerError "active tunnel lease fields differ from the contract"
  end.

Definition issued_to_json (c : issued_row) : json :=
  JObj [("serial", JInt (ic_serial c)); ("master_instance_id", JStr (ic_master c)); ("run_id", JStr (ic_run c));
        ("attempt_id", JStr (ic_attempt c)); ("epoch", JInt (ic_epoch c)); ("key_id", JStr (ic_key_id c));
        ("principal", JStr (ic_principal c)); ("valid_before", JStr (ic_valid_before c));
        ("public_key_sha256", JStr (ic_public_key c))].

Definition issued_fields : list string :=
  ["serial"; "master_instance_id"; "run_id"; "attempt_id"; "epoch"; "key_id"; "principal"; "valid_before"; "public_key_sha256"].

(** One item of [issued]; [seen] holds the serials before it. *)
Definition issued_from_json (seen : list Z) (value : json) : outcome issued_row :=
  match value with
  | JObj kvs =>
      throw_if (negb (same_keys kvs issued_fields)) TunnelBrokerError "issued certificate metadata differs from the contract" ;;
      c ← or_throw (
        master ← text_field kvs "master_instance_id"; run ← text_field kvs "run_id"; attempt ← text_field kvs "attempt_id";
        epoch ← int_field kvs "epoch"; serial ← int_field kvs "serial"; key_id ← text_field kvs "key_id";
        principal ← text_field kvs "principal"; valid_before ← text_field kvs "valid_before";
        public_key ← text_field kvs "public_key_sha256";
        if (serial <? 1) || mem serial seen || negb (is_sha256 public_key) then None
        else Some (mk_issued serial master run attempt epoch key_id principal valid_before public_key))
        "issued certificate metadata is invalid";
      ie ← validate_identity (ic_master c) (ic_epoch c);
      ra ← validate_runtime_ids (ic_run c) (ic_attempt c);
      principal ← principal_of ie.1 ie.2 ra.1 ra.2;
      throw_if ((ic_principal c != principal) || (ic_key_id c != key_id_of ie.1 ie.2 ra.1 ra.2 (ic_serial c))) TunnelBrokerError
        "issued certificate identity is invalid" ;;
      parse_time_field (ic_valid_before c) "valid_before" ;;
      Ret c
  | _ => throw TunnelBrokerError "issued certificate metadata differs from the contract"
  end.

Definition worker_to_json (c : worker_row) : json :=
  JObj [("serial", JInt (wc_serial c)); ("master_instance_id", JStr (wc_master c)); ("epoch", JInt (wc_epoch c));
        ("task_run_id", JStr (wc_task c)); ("credential_id", JStr (wc_credential c)); ("key_id", JStr (wc_key_id c));
        ("principal", JStr (wc_principal c)); ("valid_before", JStr (wc_valid_before c));
        ("public_key_sha256", JStr (wc_public_key c)); ("certificate", JStr (wc_certificate c))].

Definition worker_fields : list string :=
  ["serial"; "master_instance_id"; "epoch"; "task_run_id"; "credential_id"; "key_id"; "principal"; "valid_before";
   "public_key_sha256"; "certificate"].

Definition certificate_prefix : string := "ssh-ed25519-cert-v01@openssh.com ".

Definition worker_from_json (seen : list Z) (value : json) : outcome worker_row :=
  match value with
  | JObj kvs =>
      throw_if (negb (same_keys kvs worker_fields)) TunnelBrokerError "worker certificate metadata differs from the contract" ;;
      c ← or_throw (
        serial ← int_field kvs "serial"; master ← text_field kvs "master_instance_id"; epoch ← int_field kvs "epoch";
        task ← text_field kvs "task_run_id"; credential ← text_field kvs "credential_id"; key_id ← text_field kvs "key_id";
        principal ← text_field kvs "principal"; valid_before ← text_field kvs "valid_before";
        public_key ← text_field kvs "public_key_sha256"; certificate ← text_field kvs "certificate";
        if (serial <? 1) || mem serial seen || negb (is_sha256 public_key)
           || ((certificate != "") && negb (startswith certificate_prefix certificate)) then None
        else Some (mk_worker serial master epoch task credential key_id principal valid_before public_key certificate))
        "worker certificate metadata is invalid";
      ie ← validate_identity (wc_master c) (wc_epoch c);
      task ← uuid_field (wc_task c) "task_run_id";
      credential ← uuid_field (wc_credential c) "credential_id";
      principal ← worker_principal_of ie.1 ie.2 task credential;
      throw_if ((wc_principal c != principal) || (wc_key_id c != worker_key_id_of ie.1 ie.2 task credential (wc_serial c)))
        TunnelBrokerError "worker certificate identity is invalid" ;;
      parse_time_field (wc_valid_before c) "valid_before" ;;
      Ret c
  | _ => throw TunnelBrokerError "worker certificate metadata differs from the contract"
  end.

(** The loops over the items, threading the serials seen. *)
Fixpoint items_from_json {R} (parse : list Z → json → outcome R) (serial : R → Z) (seen : list Z) (values : list json) :
    outcome (list R * list Z) :=
  match values with
  | [] => Ret ([], seen)
  | v :: vs =>
      c ← parse seen v;
      r ← items_from_json parse serial (serial c :: seen) vs;
      Ret (c :: r.1, r.2)
  end.

Definition int_of (j : json) : option Z := match j with JInt n => Some n | _ => None end.

Definition state_fields : list string :=
  ["schema_version"; "highest_epoch"; "next_serial"; "active"; "issued"; "revoked_serials"].

(** The counters, the two lists of items and the revocations. *)
Definition state_counters (legacy : bool) (kvs : list (string * json)) : option (Z * Z * list json * list json * list Z) :=
  highest ← int_field kvs "highest_epoch";
  next ← int_field kvs "next_serial";
  issued ← match assoc "issued" kvs with Some (JArr l) => Some l | _ => None end;
  workers ← (if legacy then Some [] else match assoc "worker_issued" kvs with Some (JArr l) => Some l | _ => None end);
  revoked ← match assoc "revoked_serials" kvs with Some (JArr l) => mapM int_of l | _ => None end;
  if (highest <? 0) || negb ((1 <=? next) && (next <? 2 ^ 63)) || (MAX_ISSUED_CERTIFICATES <? Z.of_nat (length issued))
     || (MAX_ISSUED_CERTIFICATES <? Z.of_nat (length workers)) || existsb (λ s, s <? 1) revoked
     || (revoked != sorted_set revoked) then None
  else Some (highest, next, issued, workers, revoked).

(** [BrokerState.from_json] *)
Definition state_from_json (value : json) : outcome BrokerState :=
  match value with
  | JObj kvs =>
      legacy ← (if assoc "schema_version" kvs == Some (JStr SCHEMA_VERSION) then Ret false
                else if assoc "schema_version" kvs == Some (JStr LEGACY_SCHEMA_VERSION) then Ret true
                else throw TunnelBrokerError "tunnel broker state fields differ from the contract");
      throw_if (negb (same_keys kvs (if legacy : bool then state_fields else "worker_issued" :: state_fields))) TunnelBrokerError
        "tunnel broker state fields differ from the contract" ;;
      '(highest, next, issued, workers, revoked) ← or_throw (state_counters legacy kvs)
        "tunnel broker counters or revocations are invalid";
      i ← items_from_json issued_from_json ic_serial [] issued;
      w ← items_from_json worker_from_json wc_serial i.2 workers;
      throw_if (existsb (λ s, next <=? s) w.2) TunnelBrokerError "issued certificate serial exceeds the durable counter" ;;
      throw_if (existsb (λ s, next <=? s) revoked) TunnelBrokerError "revocation serial exceeds the durable counter" ;;
      active ← match default JNull (assoc "active" kvs) with
               | JNull => Ret None
               | v => l ← lease_from_json v; Ret (Some l)
               end;
      throw_if (match active with Some l => (tl_epoch l != highest) || (tl_epoch l <? 1) | None => false end) TunnelBrokerError
        "active tunnel epoch is not the highest durable epoch" ;;
      Ret (mk_BrokerState highest next active i.1 w.1 revoked)
  | _ => throw TunnelBrokerError "tunnel broker state fields differ from the contract"
  end.

(** [BrokerState.to_json] *)
Definition state_to_json (s : BrokerState) : json :=
  JObj [("schema_version", JStr SCHEMA_VERSION); ("highest_epoch", JInt (bs_highest s)); ("next_serial", JInt (bs_next s));
        ("active", match bs_active s with Some l => lease_to_json l | None => JNull end);
        ("issued", JArr (map issued_to_json (bs_issued s))); ("worker_issued", JArr (map worker_to_json (bs_workers s)));
        ("revoked_serials", JArr (map JInt (bs_revoked s)))].

(** ** The broker's directory *)

Inductive revocation_list : Type := Serials (revoked : list Z) | WholeAuthority.

(** The files ([None]: absent or unreadable), the accounts whose sessions were
    terminated, and how often the operating system was asked. *)
Record broker := mk_broker {
  bk_state : option json; bk_principals : option string; bk_worker_principals : option string; bk_krl : option revocation_list;
  bk_terminated : list string; bk_accesses : nat;
}.

(** How the n-th access to the operating system ends, the time [datetime.now]
    would give then, and ssh-keygen: the certificate it makes of a key, a
    serial, a key identifier, a principal and a validity. *)
Context (fault : nat → option exn) (system_time : nat → Z) (sign : string → Z → string → string → string → string → string).
Context (account worker_account : string).

(** An access that does [f] or fails. *)
Definition access (f : broker → broker) : M broker unit := λ b,
  let b' := mk_broker (bk_state b) (bk_principals b) (bk_worker_principals b) (bk_krl b) (bk_terminated b) (S (bk_accesses b)) in
  match fault (bk_accesses b) with Some e => (Exc e, b') | None => (Ret tt, f b') end.

(** A check of a file: nothing changes. *)
Definition probe : M broker unit := access (λ b, b).

Definition put_state (d : json) (b : broker) : broker :=
  mk_broker (Some d) (bk_principals b) (bk_worker_principals b) (bk_krl b) (bk_terminated b) (bk_accesses b).
Definition put_principals (text : string) (b : broker) : broker :=
  mk_broker (bk_state b) (Some text) (bk_worker_principals b) (bk_krl b) (bk_terminated b) (bk_accesses b).
Definition put_worker_principals (text : string) (b : broker) : broker :=
  mk_broker (bk_state b) (bk_principals b) (Some text) (bk_krl b) (bk_terminated b) (bk_accesses b).
Definition put_krl (k : revocation_list) (b : broker) : broker :=
  mk_broker (bk_state b) (bk_principals b) (bk_worker_principals b) (Some k) (bk_terminated b) (bk_accesses b).
Definition put_terminated (name : string) (b : broker) : broker :=
  mk_broker (bk_state b) (bk_principals b) (bk_worker_principals b) (bk_krl b) (bk_terminated b ++ [name]) (bk_accesses b).

(** [except Exception]: a process that dies runs no handler. *)
Definition killed (e : exn) : bool := exn_cls e == ProcessKilled.

Definition except_exception {S A} (m : M S A) (h : exn → M S A) : M S A :=
  try_except m (λ e, if killed e then reraise e else h e).

Definition newline : string := String "010"%char "".
Definition double_quote : string := String "034"%char "".

Definition principal_line (active : option ActiveTunnelLease) : string :=
  match active with Some l => tl_principal l +:+ newline | None => "" end.

(** [_write_principal] *)
Definition write_principal (active : option ActiveTunnelLease) : M broker unit := access (put_principals (principal_line active)).

(** The bytes of state.json: its text and the newline. *)
Definition document_size (d : json) : Z := utf8_length (canonical_json d) + 1.

(** [_load] *)
Definition load : M broker BrokerState :=
  probe ;;
  d ← gets bk_state;
  match d with
  | None => raise TunnelBrokerError "tunnel broker state is unreadable"
  | Some doc =>
      raise_if (8 * 1024 * 1024 <? document_size doc) TunnelBrokerError "tunnel broker state is oversized" ;;
      lift (state_from_json doc)
  end.

(** [_write_krl] *)
Definition write_krl (k : revocation_list) : M broker unit := access (put_krl k).

(** [self.session_terminator(account)] *)
Definition terminate (name : string) : M broker unit := access (put_terminated name).

(** The lines of authorized_worker_principals. *)
Fixpoint worker_principals (active : ActiveTunnelLease) (revoked : list Z) (observed : Z) (ws : list worker_row) :
    outcome (list string) :=
  match ws with
  | [] => Ret []
  | w :: ws' =>
      if (wc_master w == tl_master active) && (wc_epoch w =? tl_epoch active) && negb (mem (wc_serial w) revoked)
         && (wc_certificate w != "") then
        valid_before ← parse_time_field (wc_valid_before w) "valid_before";
        rest ← worker_principals active revoked observed ws';
        Ret (if observed <? valid_before then wc_principal w :: rest else rest)
      else worker_principals active revoked observed ws'
  end.

Definition worker_line (port : Z) (principal : string) : string :=
  "restrict,port-forwarding,permitopen=" +:+ double_quote +:+ DEFAULT_LISTEN_HOST +:+ ":" +:+ str_int port +:+ double_quote
  +:+ " " +:+ principal +:+ newline.

Definition worker_file (s : BrokerState) (observed : Z) : outcome string :=
  match bs_active s with
  | None => Ret ""
  | Some active =>
      principals ← (if observed <? tl_until active then worker_principals active (bs_revoked s) observed (bs_workers s) else Ret []);
      Ret (String.concat "" (map (worker_line (tl_port active)) (sorted_texts principals)))
  end.

(** [_write_worker_principals]; without [now] it asks the system. *)
Definition write_worker_principals (s : BrokerState) (now : option Z) : M broker unit :=
  observed ← (match now with Some t => mret t | None => gets (λ b, system_time (bk_accesses b)) end);
  content ← lift (worker_file s observed);
  access (put_worker_principals content).

(** ** Methods

    A method works on the directory and on the [BrokerState] object it loaded,
    which it mutates before it saves it. *)
Abbreviation session := (broker * BrokerState)%type.

Definition on_files {A} (m : M broker A) : M session A := λ w, let '(o, b) := m w.1 in (o, (b, w.2)).
Definition mutate (f : BrokerState → BrokerState) : M session unit := modify (λ w, (w.1, f w.2)).

(** [_save] *)
Definition save : M session unit :=
  s ← gets snd;
  on_files (access (put_state (state_to_json s))).

Definition write_workers (now : option Z) : M session unit :=
  s ← gets snd;
  on_files (write_worker_principals s now).

Definition write_revocations : M session unit :=
  s ← gets snd;
  on_files (write_krl (Serials (bs_revoked s))).

(** [_terminate_workers_if_issued] *)
Definition terminate_workers_if_issued : M session unit :=
  s ← gets snd;
  if bs_workers s == [] then mret tt else on_files (terminate worker_account).

(** [try: ... except Exception as exc: first_failure = ...]: whether it failed. *)
Definition attempt {S} (m : M S unit) : M S bool := except_exception (m ;; mret false) (λ _, mret true).

Definition all_serials (s : BrokerState) : list Z := map ic_serial (bs_issued s) ++ map wc_serial (bs_workers s).

(** [state.active = None] and every serial revoked. *)
Definition close_all (s : BrokerState) : BrokerState :=
  set_revoked (sorted_union (bs_revoked s) (all_serials s)) (set_active None s).

Definition denial_failed (failures : list bool) : bool := existsb id failures.

(** [_fail_closed(state)] *)
Definition fail_closed : M session unit :=
  f1 ← attempt (on_files (write_principal None));
  f2 ← attempt (on_files (access (put_worker_principals "")));
  f3 ← attempt (mutate close_all ;; save);
  f4 ← attempt (on_files (write_krl WholeAuthority));
  f5 ← attempt (on_files (terminate account));
  f6 ← attempt (on_files (terminate worker_account));
  raise_if (denial_failed [f1; f2; f3; f4; f5; f6]) TunnelBrokerError "one or more fail-closed tunnel denial actions failed".

(** [_fail_closed()], without a state *)
Definition fail_closed_files : M broker unit :=
  f1 ← attempt (write_principal None);
  f2 ← attempt (access (put_worker_principals ""));
  f4 ← attempt (write_krl WholeAuthority);
  f5 ← attempt (terminate account);
  f6 ← attempt (terminate worker_account);
  raise_if (denial_failed [f1; f2; f4; f5; f6]) TunnelBrokerError "one or more fail-closed tunnel denial actions failed".

(** [_load_or_fail_closed] *)
Definition load_or_fail_closed : M broker BrokerState := except_exception load (λ e, fail_closed_files ;; reraise e).

(** Take the lock, load, run the rest of the method. *)
Definition run_session {A} (m : M session A) (s : BrokerState) : M broker A := λ b, let '(o, w) := m (b, s) in (o, w.1).

Definition with_state {A} (m : M session A) : M broker A :=
  probe ;;
  s ← load_or_fail_closed;
  run_session m s.

(** [try: ... except Exception: self._fail_closed(state); raise] *)
Definition guarded {A} (m : M session A) : M session A := except_exception m (λ e, fail_closed ;; reraise e).

Definition the_state : M session BrokerState := gets snd.

Definition same_master (l : ActiveTunnelLease) (master run attempt : string) (epoch : Z) : bool :=
  (tl_master l == master) && (tl_run l == run) && (tl_attempt l == attempt) && (tl_epoch l =? epoch).

Definition issued_to (c : issued_row) (master run attempt : string) (epoch : Z) : bool :=
  (ic_master c == master) && (ic_run c == run) && (ic_attempt c == attempt) && (ic_epoch c =? epoch).

(** [_worker_serials] *)
Definition worker_serials (s : BrokerState) (master : string) (epoch : Z) : list Z :=
  map wc_serial (List.filter (λ w, (wc_master w == master) && (wc_epoch w =? epoch)) (bs_workers s)).

(** Every certificate of one master, its workers' included. *)
Definition serials_of (s : BrokerState) (master run attempt : string) (epoch : Z) : list Z :=
  map ic_serial (List.filter (λ c, issued_to c master run attempt epoch) (bs_issued s)) ++ worker_serials s master epoch.

Definition revoke_of (master run attempt : string) (epoch : Z) (s : BrokerState) : BrokerState :=
  set_revoked (sorted_union (bs_revoked s) (serials_of s master run attempt epoch)) s.

Definition initialize : M broker unit :=
  probe ;; probe ;; probe ;;
  b ← get;
  match bk_state b, bk_principals b, bk_worker_principals b, bk_krl b with
  | None, None, None, None =>
      access (put_state (state_to_json BrokerState_empty)) ;;
      write_principal None ;;
      write_worker_principals BrokerState_empty None ;;
      write_krl (Serials [])
  | _, _, _, _ => raise TunnelBrokerError "refusing to replace existing tunnel broker state"
  end.

(** [activate], the same identity again *)
Definition activate_replay (current active : ActiveTunnelLease) (observed : Z) : M session ActiveTunnelLease :=
  raise_if ((tl_host current != tl_host active) || (tl_port current != tl_port active)) TunnelBrokerError
    "activation replay cannot widen or change the tunnel listener" ;;
  if tl_until current <=? observed then
    guarded (
      on_files (write_principal None) ;;
      mutate (revoke_of (tl_master current) (tl_run current) (tl_attempt current) (tl_epoch current)) ;;
      write_revocations ;;
      mutate (set_active None) ;;
      save ;;
      on_files (terminate account) ;;
      terminate_workers_if_issued) ;;
    raise TunnelBrokerError "expired tunnel activation cannot be revived at the same epoch"
  else
    raise_if ((tl_until current <? tl_until active) && (MAX_LEASE <? tl_until active - observed)) TunnelBrokerError
      "extended activation lease exceeds the 10 minute bound" ;;
    let replay := if tl_until active <=? tl_until current then current else active in
    guarded (
      (if replay == current then mret tt else mutate (set_active (Some replay)) ;; save) ;;
      write_revocations ;;
      on_files (write_principal (Some replay)) ;;
      write_workers (Some observed) ;;
      mret replay).

(** [activate], a new epoch *)
Definition activate_new (active : ActiveTunnelLease) (observed : Z) : M session ActiveTunnelLease :=
  raise_if ((tl_until active <=? observed) || (MAX_LEASE <? tl_until active - observed)) TunnelBrokerError
    "tunnel lease must be positive and no more than 10 minutes" ;;
  s ← the_state;
  raise_if (tl_epoch active <=? bs_highest s) TunnelBrokerError "activation epoch must advance the durable high-water mark" ;;
  guarded (
    on_files (write_principal None) ;;
    write_workers (Some observed) ;;
    on_files (terminate account) ;;
    terminate_workers_if_issued ;;
    mutate (λ s, set_revoked (sorted_union (bs_revoked s) (List.filter (λ n, negb (mem n (bs_revoked s))) (all_serials s))) s) ;;
    write_revocations ;;
    mutate (λ s, set_active (Some active) (set_highest (tl_epoch active) s)) ;;
    save ;;
    on_files (write_principal (Some active)) ;;
    write_workers (Some observed) ;;
    mret active).

Definition activate (master run attempt : string) (epoch : Z) (lease_until : datetime) (listen_port : Z) (now : datetime) :
    M broker ActiveTunnelLease :=
  observed ← lift (require_utc now "now");
  active ← lift (lease_create master run attempt epoch lease_until DEFAULT_LISTEN_HOST listen_port);
  with_state (
    s ← the_state;
    match bs_active s with
    | Some current =>
        if same_master current (tl_master active) (tl_run active) (tl_attempt active) (tl_epoch active)
        then activate_replay current active observed else activate_new active observed
    | None => activate_new active observed
    end).

(** The guard that the caller is the current, unexpired master. *)
Definition current_lease (s : BrokerState) (master run attempt : string) (epoch observed : Z) (message : string) :
    outcome ActiveTunnelLease :=
  match bs_active s with
  | Some l =>
      throw_if (negb (same_master l master run attempt epoch) || (tl_until l <=? observed)) TunnelBrokerError message ;; Ret l
  | None => throw TunnelBrokerError message
  end.

(** [renew] under the lock *)
Definition renew_session (master run attempt : string) (epoch requested observed : Z) : M session ActiveTunnelLease :=
  s ← the_state;
  active ← lift (current_lease s master run attempt epoch observed "only the current unexpired tunnel epoch may renew");
  if requested <=? tl_until active then
    guarded (
      write_revocations ;;
      on_files (write_principal (Some active)) ;;
      write_workers (Some observed) ;;
      mret active)
  else
    raise_if (MAX_LEASE <? requested - observed) TunnelBrokerError "renewed lease must advance within the 10 minute bound" ;;
    renewed ← lift (lease_create master run attempt epoch (utc requested) (tl_host active) (tl_port active));
    guarded (
      mutate (set_active (Some renewed)) ;;
      save ;;
      on_files (write_principal (Some renewed)) ;;
      write_workers (Some observed) ;;
      mret renewed).

Definition renew (master run attempt : string) (epoch : Z) (lease_until now : datetime) : M broker ActiveTunnelLease :=
  ie ← lift (validate_identity master epoch);
  ra ← lift (validate_runtime_ids run attempt);
  observed ← lift (require_utc now "now");
  requested ← lift (require_utc lease_until "lease_until");
  with_state (renew_session ie.1 ra.1 ra.2 ie.2 requested observed).

(** The key as it is certified. *)
Definition certified_key (public_key what one_key : string) : outcome string :=
  throw_if (16 * 1024 <? utf8_length public_key) TunnelBrokerError ("ephemeral " +:+ what +:+ " public key is oversized") ;;
  throw_if (negb (string_forallb (λ c, (Ascii.nat_of_ascii c <? 128)%nat) public_key)) TunnelBrokerError
    ("ephemeral " +:+ what +:+ " public key must be ASCII") ;;
  throw_if (negb (is_ed25519_key (strip public_key))) TunnelBrokerError one_key ;;
  Ret (strip public_key).

Definition check_validity (expiry observed : Z) (active : ActiveTunnelLease) (message : string) : outcome unit :=
  throw_if ((expiry - observed <? MIN_CERTIFICATE_LIFETIME) || (tl_until active <? expiry) || (MAX_LEASE <? expiry - observed))
    TunnelBrokerError message.

(** The temporary directory, two runs of ssh-keygen and the file it writes. *)
Definition sign_certificate (key_text : string) (serial : Z) (key_id principal : string) (observed expiry : Z) : M broker string :=
  probe ;; probe ;; probe ;; probe ;;
  mret (strip (sign key_text serial key_id principal (certificate_time (observed - 5 * SECOND)) (certificate_time expiry))).

(** [issue_public_key] under the lock *)
Definition issue_public_key_session (master run attempt : string) (epoch : Z) (key_text : string) (expiry observed : Z) : M session TunnelCertificate :=
  s ← the_state;
  (if match bs_active s with None => epoch <=? bs_highest s | Some _ => false end then
     on_files (write_principal None) ;;
     write_revocations ;;
     on_files (terminate account) ;;
     raise TunnelBrokerError "certificate request targets a fenced tunnel epoch"
   else mret tt) ;;
  active ← lift (current_lease s master run attempt epoch observed "certificate request does not match the current unexpired epoch");
  lift (check_validity expiry observed active "certificate validity must be 15 seconds..10 minutes within the lease") ;;
  raise_if (MAX_ISSUED_CERTIFICATES <=? Z.of_nat (length (bs_issued s))) TunnelBrokerError "tunnel certificate metadata limit reached" ;;
  let serial := bs_next s in
  let key_id := key_id_of master epoch run attempt serial in
  guarded (
    mutate (add_issued (mk_issued serial master run attempt epoch key_id (tl_principal active) (time_text expiry) (sha256 key_text))) ;;
    save ;;
    certificate ← on_files (sign_certificate key_text serial key_id (tl_principal active) observed expiry);
    mret (mk_TunnelCertificate certificate serial (tl_principal active) expiry (tl_host active) (tl_port active))).

Definition issue_public_key (master run attempt : string) (epoch : Z) (public_key : string) (valid_before now : datetime) :
    M broker TunnelCertificate :=
  ie ← lift (validate_identity master epoch);
  ra ← lift (validate_runtime_ids run attempt);
  observed ← lift (require_utc now "now");
  expiry ← lift (require_utc valid_before "valid_before");
  probe ;; probe ;;
  key_text ← lift (certified_key public_key "tunnel" "only one Ed25519 public key may be certified");
  with_state (issue_public_key_session ie.1 ra.1 ra.2 ie.2 key_text expiry observed).

(** [issue]: the key read from a file ([key_file]) and the certificate written
    to another. *)
Definition issue (master run attempt : string) (epoch : Z) (key_file : outcome string) (valid_before now : datetime) : M broker Z :=
  probe ;; probe ;; probe ;;
  key_text ← lift key_file;
  certificate ← issue_public_key master run attempt epoch key_text valid_before now;
  probe ;;
  mret (tc_serial certificate).

Definition replayed_worker (s : BrokerState) (w : worker_row) (master : string) (epoch : Z) (valid_before digest : string) : bool :=
  (wc_master w == master) && (wc_epoch w =? epoch) && (wc_valid_before w == valid_before) && (wc_public_key w == digest)
  && negb (mem (wc_serial w) (bs_revoked s)) && (wc_certificate w != "").

(** [issue_worker_public_key] under the lock *)
Definition issue_worker_public_key_session (master : string) (epoch : Z) (task credential key_text : string) (expiry observed : Z) : M session WorkerTunnelCertificate :=
  s ← the_state;
  let digest := sha256 key_text in
  let refused := TunnelBrokerError in
  match bs_active s with
  | None => raise refused "worker certificate requires the current unexpired tunnel epoch"
  | Some active =>
      raise_if ((tl_master active != master) || negb (tl_epoch active =? epoch) || (tl_until active <=? observed)) refused
        "worker certificate requires the current unexpired tunnel epoch" ;;
      lift (check_validity expiry observed active "worker certificate validity must be within the active lease") ;;
      match List.find (λ w, (wc_task w == task) && (wc_credential w == credential)) (bs_workers s) with
      | Some w =>
          raise_if (negb (replayed_worker s w master epoch (time_text expiry) digest)) refused
            "worker certificate identity conflicts with its exact replay" ;;
          write_workers (Some observed) ;;
          mret (mk_WorkerTunnelCertificate (wc_certificate w) (wc_serial w) (wc_principal w) expiry task credential
                  (tl_port active) worker_account)
      | None =>
          raise_if (MAX_ISSUED_CERTIFICATES <=? Z.of_nat (length (bs_issued s)) + Z.of_nat (length (bs_workers s))) refused
            "tunnel certificate metadata limit reached" ;;
          let serial := bs_next s in
          principal ← lift (worker_principal_of master epoch task credential);
          let key_id := worker_key_id_of master epoch task credential serial in
          mutate (add_worker (mk_worker serial master epoch task credential key_id principal (time_text expiry) digest "")) ;;
          guarded (
            save ;;
            certificate ← on_files (sign_certificate key_text serial key_id principal observed expiry);
            mutate (set_certificate serial certificate) ;;
            save ;;
            write_revocations ;;
            write_workers (Some observed) ;;
            mret (mk_WorkerTunnelCertificate certificate serial principal expiry task credential (tl_port active) worker_account))
      end
  end.

Definition issue_worker_public_key (master : string) (epoch : Z) (task_run_id credential_id public_key : string)
    (valid_before now : datetime) : M broker WorkerTunnelCertificate :=
  ie ← lift (validate_identity master epoch);
  task ← lift (uuid_field task_run_id "task_run_id");
  credential ← lift (uuid_field credential_id "credential_id");
  observed ← lift (require_utc now "now");
  expiry ← lift (require_utc valid_before "valid_before");
  probe ;; probe ;;
  key_text ← lift (certified_key public_key "worker" "only one Ed25519 worker public key may be certified");
  with_state (issue_worker_public_key_session ie.1 ie.2 task credential key_text expiry observed).

(** [revoke_worker_certificate] under the lock *)
Definition revoke_worker_certificate_session (master : string) (epoch : Z) (task credential : string) (serial : Z) : M session unit :=
  s ← the_state;
  raise_if (negb (existsb (λ w, (wc_serial w =? serial) && (wc_master w == master) && (wc_epoch w =? epoch) && (wc_task w == task)
                                && (wc_credential w == credential)) (bs_workers s))) TunnelBrokerError
    "worker certificate is not bound to the requested task" ;;
  guarded (
    mutate (λ s, set_revoked (sorted_union (bs_revoked s) [serial]) s) ;;
    write_revocations ;;
    save ;;
    write_workers None ;;
    terminate_workers_if_issued).

Definition revoke_worker_certificate (master : string) (epoch : Z) (task_run_id credential_id : string) (serial : Z) (reason : string) :
    M broker unit :=
  ie ← lift (validate_identity master epoch);
  task ← lift (uuid_field task_run_id "task_run_id");
  credential ← lift (uuid_field credential_id "credential_id");
  raise_if ((serial <? 1) || negb (is_reason reason)) TunnelBrokerError "worker revocation identity is invalid" ;;
  with_state (revoke_worker_certificate_session ie.1 ie.2 task credential serial).

(** [revoke] under the lock *)
Definition revoke_session (master run attempt : string) (epoch serial : Z) : M session unit :=
  s ← the_state;
  raise_if (negb (existsb (λ c, (ic_serial c =? serial) && issued_to c master run attempt epoch) (bs_issued s))) TunnelBrokerError
    "certificate serial is not bound to the requested epoch" ;;
  guarded (
    mutate (λ s, set_revoked (sorted_union (bs_revoked s) [serial]) s) ;;
    write_revocations ;;
    save ;;
    on_files (terminate account)).

Definition revoke (master run attempt : string) (epoch serial : Z) (reason : string) : M broker unit :=
  ie ← lift (validate_identity master epoch);
  ra ← lift (validate_runtime_ids run attempt);
  raise_if ((serial <? 1) || negb (is_reason reason)) TunnelBrokerError "revocation serial or reason is invalid" ;;
  with_state (revoke_session ie.1 ra.1 ra.2 ie.2 serial).

(** [deactivate] under the lock *)
Definition deactivate_session (master run attempt : string) (epoch : Z) : M session unit :=
  s ← the_state;
  match bs_active s with
  | None =>
      on_files (write_principal None) ;;
      write_workers None ;;
      write_revocations ;;
      on_files (terminate account) ;;
      terminate_workers_if_issued
  | Some active =>
      raise_if (negb (same_master active master run attempt epoch)) TunnelBrokerError
        "deactivation does not match the current tunnel epoch" ;;
      guarded (
        on_files (write_principal None) ;;
        write_workers None ;;
        mutate (revoke_of master run attempt epoch) ;;
        write_revocations ;;
        mutate (set_active None) ;;
        save ;;
        on_files (terminate account) ;;
        terminate_workers_if_issued)
  end.

Definition deactivate (master run attempt : string) (epoch : Z) (reason : string) : M broker unit :=
  ie ← lift (validate_identity master epoch);
  ra ← lift (validate_runtime_ids run attempt);
  raise_if (negb (is_reason reason)) TunnelBrokerError "deactivation reason is invalid" ;;
  with_state (deactivate_session ie.1 ra.1 ra.2 ie.2).

(** [reconcile] under the lock *)
Definition reconcile_session (observed : Z) : M session bool :=
  guarded (
    s ← the_state;
    match bs_active s with
    | Some active =>
        if tl_until active <=? observed then
          on_files (write_principal None) ;;
          write_workers (Some observed) ;;
          mutate (revoke_of (tl_master active) (tl_run active) (tl_attempt active) (tl_epoch active)) ;;
          mutate (set_active None) ;;
          save ;;
          write_revocations ;;
          on_files (terminate account) ;;
          terminate_workers_if_issued ;;
          mret false
        else
          write_revocations ;;
          on_files (write_principal (Some active)) ;;
          write_workers (Some observed) ;;
          mret true
    | None =>
        on_files (write_principal None) ;;
        write_workers (Some observed) ;;
        write_revocations ;;
        on_files (terminate account) ;;
        terminate_workers_if_issued ;;
        mret false
    end).

(** [reconcile]: whether a lease is in force. *)
Definition reconcile (now : datetime) : M broker bool :=
  observed ← lift (require_utc now "now");
  with_state (reconcile_session observed).

(** [acceptance_identity_snapshot]: serial and key digest of the newest
    certificate in force, and the digest of its principal. *)
Definition newest (cs : list issued_row) : option issued_row :=
  foldl (λ best c, match best with Some b => if ic_serial b <? ic_serial c then Some c else best | None => Some c end) None cs.

Definition acceptance_identity_snapshot (master run attempt : string) (epoch : Z) (now : datetime) : M broker (Z * string * string) :=
  ie ← lift (validate_identity master epoch);
  ra ← lift (validate_runtime_ids run attempt);
  observed ← lift (require_utc now "now");
  with_state (
    s ← the_state;
    lift (current_lease s ie.1 ra.1 ra.2 ie.2 observed "FM11 capture requires the current unexpired tunnel epoch") ;;
    match newest (List.filter (λ c, issued_to c ie.1 ra.1 ra.2 ie.2 && negb (mem (ic_serial c) (bs_revoked s))) (bs_issued s)) with
    | None => raise TunnelBrokerError "FM11 capture requires an issued current certificate"
    | Some c => mret (ic_serial c, sha256 (ic_principal c), ic_public_key c)
    end).

(** [acceptance_retired_denial]: proof that an old certificate is denied. *)
Definition acceptance_retired_denial (master run attempt : string) (epoch certificate_serial : Z)
    (principal_sha256 public_key_sha256 replacement_master : string) (replacement_epoch : Z) (now : datetime) : M broker (Z * string) :=
  ie ← lift (validate_identity master epoch);
  ra ← lift (validate_runtime_ids run attempt);
  re ← lift (validate_identity replacement_master replacement_epoch);
  lift (require_utc now "now") ;;
  raise_if ((certificate_serial <? 1) || negb (is_sha256 principal_sha256) || negb (is_sha256 public_key_sha256)
            || negb (re.2 =? ie.2 + 1)) TunnelBrokerError "FM11 retired tunnel proof identity is invalid" ;;
  with_state (
    s ← the_state;
    match bs_active s, List.find (λ c, (ic_serial c =? certificate_serial) && issued_to c ie.1 ra.1 ra.2 ie.2) (bs_issued s) with
    | Some active, Some c =>
        raise_if ((tl_master active != re.1) || negb (tl_epoch active =? re.2) || negb (mem certificate_serial (bs_revoked s))
                  || (sha256 (ic_principal c) != principal_sha256) || (ic_public_key c != public_key_sha256)) TunnelBrokerError
          "FM11 retired tunnel denial is not durably proven" ;;
        mret (certificate_serial, principal_sha256)
    | _, _ => raise TunnelBrokerError "FM11 retired tunnel denial is not durably proven"
    end).

End tunnel.
