(* ===== verification/TunnelState.v ===== *)
(** * TunnelState: the broker's durable state reads back

    The well-formed states of the tunnel broker, what their JSON form gives when
    it is read back, and that the name of a principal determines its epoch. *)

From S2P Require Import Prelude Time Json Uuid Tunnel.

(** ** Sets of serials *)

Lemma elem_of_insert_serial x y l : y ∈ insert_serial x l ↔ y = x ∨ y ∈ l.
Proof.
  induction l as [|z l IH]; cbn; [set_solver|]. destruct (Z.ltb_spec x z); [set_solver|].
  destruct (Z.eqb_spec x z) as [->|]; [set_solver|]. rewrite !elem_of_cons, IH. tauto.
Qed.

Lemma elem_of_sorted_set y l : y ∈ sorted_set l ↔ y ∈ l.
Proof. induction l as [|x l IH]; [done|]. cbn. rewrite elem_of_insert_serial, elem_of_cons, IH. done. Qed.

Lemma elem_of_sorted_union y a b : y ∈ sorted_union a b ↔ y ∈ a ∨ y ∈ b.
Proof. unfold sorted_union. by rewrite elem_of_sorted_set, elem_of_app. Qed.

(** Strictly increasing. *)
Fixpoint increasing (l : list Z) : Prop :=
  match l with [] => True | x :: l' => (∀ y, y ∈ l' → x < y) ∧ increasing l' end.

Lemma insert_serial_increasing x l : increasing l → increasing (insert_serial x l).
Proof.
  induction l as [|z l IH]; cbn; [intros _; split; [set_solver|done]|]. intros [Hz Hl].
  destruct (Z.ltb_spec x z); [split; [|done]; intros y [->|Hy]%elem_of_cons; [done|specialize (Hz y Hy); lia]|].
  destruct (Z.eqb_spec x z) as [->|]; [done|]. split; [|by apply IH].
  intros y [->|Hy]%elem_of_insert_serial; [lia|by apply Hz].
Qed.

Lemma sorted_set_increasing l : increasing (sorted_set l).
Proof. induction l as [|x l IH]; [done|]. by apply insert_serial_increasing. Qed.

Lemma sorted_set_fixed l : increasing l → sorted_set l = l.
Proof.
  induction l as [|x l IH]; [done|]. intros [Hx Hl]. change (insert_serial x (sorted_set l) = x :: l). rewrite IH by done.
  destruct l as [|y l]; [done|]. cbn. destruct (Z.ltb_spec x y); [done|]. assert (x < y) by (apply Hx; by left). lia.
Qed.

(** ** Principals *)

Lemma split_first (c : Ascii.ascii) a1 r1 a2 r2 :
  string_forallb (λ x, x != c) a1 = true → string_forallb (λ x, x != c) a2 = true →
  a1 +:+ String c r1 = a2 +:+ String c r2 → a1 = a2 ∧ r1 = r2.
Proof.
  revert a2. induction a1 as [|x a1 IH]; intros [|y a2]; cbn; intros H1 H2 E; b2p.
  - by injection E.
  - injection E as -> _. naive_solver.
  - injection E as -> _. naive_solver.
  - injection E as -> E. destruct (IH a2) as [-> ->]; [naive_solver..|done].
Qed.

Lemma uint_no_dash d : string_forallb (λ x, x != "-"%char) (DecimalString.NilEmpty.string_of_uint d) = true.
Proof. induction d; cbn; done. Qed.

Lemma str_int_no_dash n : 0 ≤ n → string_forallb (λ x, x != "-"%char) (str_int n) = true.
Proof.
  intros Hn. unfold str_int. destruct n as [|p|p]; [done| |lia]. cbn. unfold DecimalString.NilZero.string_of_uint.
  destruct (Pos.to_uint p) eqn:E; [done|rewrite <-E; apply uint_no_dash..].
Qed.

Lemma str_int_inj n m : str_int n = str_int m → n = m.
Proof.
  intros E. assert (H := int_of_str_int n). rewrite E, int_of_str_int in H. injection H as H.
  rewrite <-(DecimalZ.of_to n), <-(DecimalZ.of_to m). congruence.
Qed.

Lemma string_app_inj (a b c : string) : a +:+ b = a +:+ c → b = c.
Proof. induction a as [|x a IH]; cbn; [done|]. intros [= E]. auto. Qed.

(** The name of a principal determines its epoch. *)
Lemma principal_epoch sha256 m e r a m' e' r' a' p :
  0 ≤ e → 0 ≤ e' → principal_of sha256 m e r a = Ret p → principal_of sha256 m' e' r' a' = Ret p → e = e'.
Proof.
  unfold principal_of. intros He He'. destruct (uuid_hex m); [|done]. destruct (uuid_hex m'); [|done]. cbn. intros [= <-] [= E].
  apply split_first in E as [E _]; [|by apply str_int_no_dash..]. by apply str_int_inj in E.
Qed.

(** ** Well-formed states *)

Section state.
Context (sha256 : string → string) (fromisoformat : string → option datetime).
Hypothesis Hiso : ∀ t, valid_instant t → fromisoformat (isoformat t) = Some (utc t).

Abbreviation principal := (principal_of sha256).
Abbreviation from_json := (state_from_json sha256 fromisoformat).

Definition master_ok (master : string) (epoch : Z) : Prop := validate_identity master epoch = Ret (master, epoch).
Definition runtime_ok (run attempt : string) : Prop := validate_runtime_ids run attempt = Ret (run, attempt).
Definition stored_time (text : string) : Prop := ∃ t, valid_instant t ∧ text = time_text t.

Definition lease_ok (l : ActiveTunnelLease) : Prop :=
  master_ok (tl_master l) (tl_epoch l) ∧ runtime_ok (tl_run l) (tl_attempt l) ∧ tl_host l = DEFAULT_LISTEN_HOST ∧
  1024 ≤ tl_port l ≤ 65535 ∧ valid_instant (tl_until l) ∧
  principal (tl_master l) (tl_epoch l) (tl_run l) (tl_attempt l) = Ret (tl_principal l).

Definition issued_ok (c : issued_row) : Prop :=
  1 ≤ ic_serial c ∧ is_sha256 (ic_public_key c) = true ∧ master_ok (ic_master c) (ic_epoch c) ∧
  runtime_ok (ic_run c) (ic_attempt c) ∧ principal (ic_master c) (ic_epoch c) (ic_run c) (ic_attempt c) = Ret (ic_principal c) ∧
  ic_key_id c = key_id_of sha256 (ic_master c) (ic_epoch c) (ic_run c) (ic_attempt c) (ic_serial c) ∧
  stored_time (ic_valid_before c).

Definition worker_ok (c : worker_row) : Prop :=
  1 ≤ wc_serial c ∧ is_sha256 (wc_public_key c) = true ∧ master_ok (wc_master c) (wc_epoch c) ∧
  (∀ label, uuid_field (wc_task c) label = Ret (wc_task c)) ∧ (∀ label, uuid_field (wc_credential c) label = Ret (wc_credential c)) ∧
  worker_principal_of (wc_master c) (wc_epoch c) (wc_task c) (wc_credential c) = Ret (wc_principal c) ∧
  wc_key_id c = worker_key_id_of (wc_master c) (wc_epoch c) (wc_task c) (wc_credential c) (wc_serial c) ∧
  stored_time (wc_valid_before c) ∧ (wc_certificate c = "" ∨ startswith certificate_prefix (wc_certificate c) = true).

(** The active lease has the highest epoch, serials are distinct and below the
    counter, and every certificate that is not revoked belongs to the active
    lease. *)
Definition owned (s : BrokerState) : Prop :=
  (∀ c, c ∈ bs_issued s → ic_serial c ∉ bs_revoked s →
    ∃ l, bs_active s = Some l ∧ issued_to c (tl_master l) (tl_run l) (tl_attempt l) (tl_epoch l) = true) ∧
  (∀ w, w ∈ bs_workers s → wc_serial w ∉ bs_revoked s →
    ∃ l, bs_active s = Some l ∧ wc_master w = tl_master l ∧ wc_epoch w = tl_epoch l).

Definition wf (s : BrokerState) : Prop :=
  0 ≤ bs_highest s ∧ (∀ l, bs_active s = Some l → lease_ok l ∧ tl_epoch l = bs_highest s) ∧
  Forall issued_ok (bs_issued s) ∧ Forall worker_ok (bs_workers s) ∧
  NoDup (all_serials s) ∧ (∀ n, n ∈ all_serials s ∨ n ∈ bs_revoked s → 1 ≤ n < bs_next s) ∧
  (Z.of_nat (length (bs_issued s)) ≤ MAX_ISSUED_CERTIFICATES) ∧ (Z.of_nat (length (bs_workers s)) ≤ MAX_ISSUED_CERTIFICATES) ∧
  bs_next s = 1 + Z.of_nat (length (all_serials s)) ∧ increasing (bs_revoked s) ∧ owned s.

Lemma empty_wf : wf BrokerState_empty.
Proof using. clear Hiso. split_and!; cbn; try done; try constructor; set_solver. Qed.

Lemma parse_stored text label : stored_time text → ∃ t, valid_instant t ∧ text = time_text t ∧ parse_time_field fromisoformat text label = Ret t.
Proof.
  intros (t & Ht & ->). exists t. split_and!; [done..|]. unfold parse_time_field. rewrite replace_z_text, Hiso by done.
  cbn. f_equal. lia.
Qed.

Lemma lease_create_ok l : lease_ok l →
  lease_create sha256 (tl_master l) (tl_run l) (tl_attempt l) (tl_epoch l) (utc (tl_until l)) (tl_host l) (tl_port l) = Ret l.
Proof.
  intros (Hm & Hr & Hh & Hp & Ht & Hn). unfold lease_create. rewrite Hm, Hr. cbn [mbind outcome_bind fst snd].
  rewrite Hh, bool_decide_eq_true_2 by done. cbn. rewrite !(proj2 (Z.leb_le _ _)) by lia. cbn. rewrite Hn. cbn.
  rewrite <-Hh. replace (tl_until l - 0) with (tl_until l) by lia. by destruct l.
Qed.

(** ** Reading back *)

Lemma lease_roundtrip l : lease_ok l → lease_from_json sha256 fromisoformat (lease_to_json l) = Ret l.
Proof.
  intros Hl.
  change (lease_from_json sha256 fromisoformat (lease_to_json l)) with
    (until ← parse_time_field fromisoformat (time_text (tl_until l)) "lease_until";
     lease ← lease_create sha256 (tl_master l) (tl_run l) (tl_attempt l) (tl_epoch l) (utc until) (tl_host l) (tl_port l);
     throw_if (tl_principal l != tl_principal lease) TunnelBrokerError "active tunnel principal does not match its epoch identity" ;;
     Ret lease).
  destruct (parse_stored (time_text (tl_until l)) "lease_until") as (t & Ht & Et & ->); [exists (tl_until l); split; [apply Hl|done]|].
  assert (t = tl_until l) as ->.
  { pose proof (Hiso t Ht) as H1. rewrite <-replace_z_text, <-Et, replace_z_text, Hiso in H1 by apply Hl. by injection H1. }
  cbn [mbind outcome_bind]. rewrite lease_create_ok by done. cbn. by rewrite bool_decide_eq_true_2.
Qed.

Lemma issued_roundtrip seen c : issued_ok c → ic_serial c ∉ seen → issued_from_json sha256 fromisoformat seen (issued_to_json c) = Ret c.
Proof.
  intros (H1 & H2 & H3 & H4 & H5 & H6 & H7) Hs.
  change (issued_from_json sha256 fromisoformat seen (issued_to_json c)) with
    (c' ← or_throw (if (ic_serial c <? 1) || mem (ic_serial c) seen || negb (is_sha256 (ic_public_key c)) then None
                    else Some (mk_issued (ic_serial c) (ic_master c) (ic_run c) (ic_attempt c) (ic_epoch c) (ic_key_id c)
                                 (ic_principal c) (ic_valid_before c) (ic_public_key c)))
            "issued certificate metadata is invalid";
     ie ← validate_identity (ic_master c') (ic_epoch c');
     ra ← validate_runtime_ids (ic_run c') (ic_attempt c');
     p ← principal ie.1 ie.2 ra.1 ra.2;
     throw_if ((ic_principal c' != p) || (ic_key_id c' != key_id_of sha256 ie.1 ie.2 ra.1 ra.2 (ic_serial c'))) TunnelBrokerError
       "issued certificate identity is invalid" ;;
     parse_time_field fromisoformat (ic_valid_before c') "valid_before" ;;
     Ret c').
  rewrite (proj2 (Z.ltb_ge _ _)), (proj2 (mem_false _ _) Hs), H2 by lia.
  replace (mk_issued _ _ _ _ _ _ _ _ _) with c by by destruct c. cbn [orb negb or_throw mbind outcome_bind].
  rewrite H3, H4. cbn [mbind outcome_bind fst snd]. rewrite H5. cbn [mbind outcome_bind]. rewrite <-H6, !bool_decide_eq_true_2 by done.
  destruct (parse_stored _ "valid_before" H7) as (t & _ & _ & ->). done.
Qed.

Lemma worker_roundtrip seen c : worker_ok c → wc_serial c ∉ seen → worker_from_json fromisoformat seen (worker_to_json c) = Ret c.
Proof.
  intros (H1 & H2 & H3 & H4 & H5 & H6 & H7 & H8 & H9) Hs.
  change (worker_from_json fromisoformat seen (worker_to_json c)) with
    (c' ← or_throw (if (wc_serial c <? 1) || mem (wc_serial c) seen || negb (is_sha256 (wc_public_key c))
                       || ((wc_certificate c != "") && negb (startswith certificate_prefix (wc_certificate c))) then None
                    else Some (mk_worker (wc_serial c) (wc_master c) (wc_epoch c) (wc_task c) (wc_credential c) (wc_key_id c)
                                 (wc_principal c) (wc_valid_before c) (wc_public_key c) (wc_certificate c)))
            "worker certificate metadata is invalid";
     ie ← validate_identity (wc_master c') (wc_epoch c');
     task ← uuid_field (wc_task c') "task_run_id";
     credential ← uuid_field (wc_credential c') "credential_id";
     p ← worker_principal_of ie.1 ie.2 task credential;
     throw_if ((wc_principal c' != p) || (wc_key_id c' != worker_key_id_of ie.1 ie.2 task credential (wc_serial c')))
       TunnelBrokerError "worker certificate identity is invalid" ;;
     parse_time_field fromisoformat (wc_valid_before c') "valid_before" ;;
     Ret c').
  rewrite (proj2 (Z.ltb_ge _ _)), (proj2 (mem_false _ _) Hs), H2 by lia.
  assert ((wc_certificate c != "") && negb (startswith certificate_prefix (wc_certificate c)) = false) as ->.
  { destruct H9 as [->|H9]; [done|]. rewrite H9. apply andb_false_r. }
  replace (mk_worker _ _ _ _ _ _ _ _ _ _) with c by by destruct c. cbn [orb negb or_throw mbind outcome_bind].
  rewrite H3, H4, H5. cbn [mbind outcome_bind fst snd]. rewrite H6. cbn [mbind outcome_bind].
  rewrite <-H7, !bool_decide_eq_true_2 by done. destruct (parse_stored _ "valid_before" H8) as (t & _ & _ & ->). done.
Qed.

Lemma items_roundtrip {R} parse (to_json : R → json) (serial : R → Z) rows seen :
  (∀ seen r, r ∈ rows → serial r ∉ seen → parse seen (to_json r) = Ret r) → NoDup (map serial rows ++ seen)%list →
  items_from_json parse serial seen (map to_json rows) = Ret (rows, (rev (map serial rows) ++ seen)%list).
Proof.
  revert seen. induction rows as [|r rows IH]; intros seen Hp Hn; [done|]. cbn in Hn |- *.
  apply list.NoDup_cons in Hn as [Hr Hn]. rewrite Hp; [|by left|set_solver]. cbn [mbind outcome_bind]. rewrite IH.
  - cbn. by rewrite <-app_assoc.
  - intros; apply Hp; [by right|done].
  - rewrite <-Permutation_middle. by apply list.NoDup_cons.
Qed.

Lemma mapM_ints l : mapM int_of (map JInt l) = Some l.
Proof. induction l as [|x l IH]; [done|]. cbn. by rewrite IH. Qed.

Lemma existsb_none {A} (p : A → bool) l : (∀ x, x ∈ l → p x = false) → existsb p l = false.
Proof. induction l as [|x l IH]; [done|]. intros H. cbn. rewrite H, IH; [done|intros; apply H; by right|by left]. Qed.

Lemma state_reads_back s : wf s → from_json (state_to_json s) = Ret s.
Proof.
  intros (H0 & Ha & Hi & Hw & Hn & Hb & Hli & Hlw & Hx & Hr & _).
  change (from_json (state_to_json s)) with
    ('(highest, next, issued, workers, revoked) ← or_throw (
        revoked ← mapM int_of (map JInt (bs_revoked s));
        if (bs_highest s <? 0) || negb ((1 <=? bs_next s) && (bs_next s <? 2 ^ 63))
           || (MAX_ISSUED_CERTIFICATES <? Z.of_nat (length (map issued_to_json (bs_issued s))))
           || (MAX_ISSUED_CERTIFICATES <? Z.of_nat (length (map worker_to_json (bs_workers s))))
           || existsb (λ s, s <? 1) revoked || (revoked != sorted_set revoked) then None
        else Some (bs_highest s, bs_next s, map issued_to_json (bs_issued s), map worker_to_json (bs_workers s), revoked))
        "tunnel broker counters or revocations are invalid";
      i ← items_from_json (issued_from_json sha256 fromisoformat) ic_serial [] issued;
      w ← items_from_json (worker_from_json fromisoformat) wc_serial i.2 workers;
      throw_if (existsb (λ s, next <=? s) w.2) TunnelBrokerError "issued certificate serial exceeds the durable counter" ;;
      throw_if (existsb (λ s, next <=? s) revoked) TunnelBrokerError "revocation serial exceeds the durable counter" ;;
      active ← match (match bs_active s with Some l => lease_to_json l | None => JNull end) with
               | JNull => Ret None
               | v => l ← lease_from_json sha256 fromisoformat v; Ret (Some l)
               end;
      throw_if (match active with Some l => (tl_epoch l != highest) || (tl_epoch l <? 1) | None => false end) TunnelBrokerError
        "active tunnel epoch is not the highest durable epoch" ;;
      Ret (mk_BrokerState highest next active i.1 w.1 revoked)).
  rewrite mapM_ints. cbn [mbind option_bind]. rewrite !length_map, (proj2 (Z.ltb_ge (bs_highest s) 0)) by lia.
  unfold all_serials in *. rewrite length_app, !length_map in Hx. unfold MAX_ISSUED_CERTIFICATES in *.
  rewrite (proj2 (Z.leb_le 1 _)), (proj2 (Z.ltb_lt _ (2 ^ 63))), !(proj2 (Z.ltb_ge 4096 _)) by lia.
  rewrite existsb_none by (intros x Hxr; apply Z.ltb_ge; specialize (Hb x (or_intror Hxr)); lia).
  rewrite bool_decide_eq_true_2 by by rewrite sorted_set_fixed. cbn [orb negb andb or_throw mbind outcome_bind].
  rewrite list.Forall_forall in Hi. rewrite list.Forall_forall in Hw. pose proof Hn as (Hn1 & Hn2 & Hn3)%list.NoDup_app.
  rewrite (items_roundtrip _ issued_to_json); [|intros; apply issued_roundtrip; auto|by rewrite app_nil_r].
  cbn [mbind outcome_bind fst snd]. rewrite app_nil_r, (items_roundtrip _ worker_to_json);
    [|intros; apply worker_roundtrip; auto|by rewrite <-Permutation_rev, Permutation_app_comm].
  cbn [mbind outcome_bind fst snd].
  assert (∀ l, (∀ x, x ∈ l → x ∈ (map ic_serial (bs_issued s) ++ map wc_serial (bs_workers s))%list ∨ x ∈ bs_revoked s) →
    existsb (λ x, bs_next s <=? x) l = false) as Hlow.
  { intros l Hl. apply existsb_none. intros x Hxl. apply Z.leb_gt. apply Hb, Hl, Hxl. }
  rewrite !Hlow; [|intros x Hxs; first [by right | left; rewrite elem_of_app in Hxs |- *; rewrite <-!Permutation_rev in Hxs; tauto]..].
  cbn [throw_if mbind outcome_bind].
  destruct (bs_active s) as [l|] eqn:El; [|destruct s; cbn in *; by subst].
  destruct (Ha l eq_refl) as [Hl He]. unfold lease_to_json. cbn iota. fold (lease_to_json l).
  rewrite lease_roundtrip by done. cbn. rewrite He, bool_decide_eq_true_2 by done.
  rewrite (proj2 (Z.ltb_ge _ _)); [destruct s; cbn in *; by subst|].
  destruct Hl as (Hm & _). unfold master_ok, validate_identity in Hm. destruct (uuid_of_text _); [|done].
  unfold throw_if in Hm. destruct (Z.ltb_spec (tl_epoch l) 1); [done|lia].
Qed.

End state.
