(* ===== verification/TunnelSafety.v ===== *)
(** * TunnelSafety: executions of the tunnel broker

    What every call of [TunnelBroker] keeps, whatever the operating system
    refuses and wherever the process dies: the durable state stays readable, no
    older master's principal is written again, and a revoked serial stays
    revoked. *)

From S2P Require Import Prelude Time Json Uuid Tunnel TunnelState.

(** ** One session *)

Section session.
Context (sha256 : string → string) (fromisoformat : string → option datetime).
Hypothesis Hiso : ∀ t, valid_instant t → fromisoformat (isoformat t) = Some (utc t).
Hypothesis Hsha : ∀ s, is_sha256 (sha256 s) = true.
Context (fault : nat → option exn) (system_time : nat → Z) (sign : string → Z → string → string → string → string → string).
Hypothesis Hsign : ∀ key serial key_id principal from until,
  startswith certificate_prefix (strip (sign key serial key_id principal from until)) = true.
Context (account worker_account : string).
Abbreviation session := (broker * BrokerState)%type.
Abbreviation wf := (wf sha256).
Abbreviation lease_ok := (lease_ok sha256).
Abbreviation access := (access fault).

(** The least epoch whose principal may still be written. *)
Definition floor (s : BrokerState) : Z := match bs_active s with Some _ => bs_highest s | None => bs_highest s + 1 end.

Definition extends (s s' : BrokerState) : Prop :=
  floor s ≤ floor s' ∧ (∀ n, n ∈ bs_revoked s → n ∈ bs_revoked s') ∧ (∀ c, c ∈ bs_issued s → c ∈ bs_issued s').

#[local] Instance extends_preorder : PreOrder extends.
Proof. split; [by intros s|]. intros a b c (?&?&?) (?&?&?). split_and!; [lia|auto..]. Qed.

(** *** Changes of the object *)

Definition all_revoked (s : BrokerState) : Prop := ∀ n, n ∈ all_serials s → n ∈ bs_revoked s.

Lemma wf_revoke xs s :
  wf s → (∀ n, n ∈ xs → n ∈ all_serials s) →
  let s' := set_revoked (sorted_union (bs_revoked s) xs) s in wf s' ∧ extends s s'.
Proof.
  intros (H0 & Ha & Hi & Hw & Hn & Hb & Hli & Hlw & Hx & Hr & Ho1 & Ho2) Hxs. split.
  - split_and!; try done.
    + intros n [Hn'|Hn']; [by apply Hb; left|]. cbn in Hn'. apply elem_of_sorted_union in Hn' as [?|?%Hxs]; apply Hb; auto.
    + apply sorted_set_increasing.
    + split; intros c Hc Hs; [apply (Ho1 c Hc)|apply (Ho2 c Hc)]; cbn in Hs; rewrite elem_of_sorted_union in Hs; tauto.
  - split_and!; [done| |done]. intros n ?. cbn. apply elem_of_sorted_union. by left.
Qed.

Lemma all_revoked_owned s : all_revoked s → ∀ h a, owned (set_active a (set_highest h s)).
Proof.
  intros Hall h a. split; intros c Hc Hs; exfalso; apply Hs, Hall; unfold all_serials; apply elem_of_app;
    [left|right]; by apply list_elem_of_fmap_2.
Qed.

Lemma wf_set_none s : wf s → all_revoked s → wf (set_active None s) ∧ extends s (set_active None s).
Proof.
  intros (H0 & Ha & Hi & Hw & Hn & Hb & Hli & Hlw & Hx & Hr & Ho) Hall. split.
  - split_and!; try done; apply (all_revoked_owned s Hall (bs_highest s)).
  - split_and!; [unfold floor; cbn; destruct (bs_active s); lia|done|done].
Qed.

Lemma wf_new s l :
  wf s → all_revoked s → lease_ok l → floor s ≤ tl_epoch l →
  let s' := set_active (Some l) (set_highest (tl_epoch l) s) in wf s' ∧ extends s s'.
Proof.
  intros (H0 & Ha & Hi & Hw & Hn & Hb & Hli & Hlw & Hx & Hr & Ho) Hall Hl Hf.
  assert (0 ≤ tl_epoch l) by (unfold floor in Hf; destruct (bs_active s); lia). split.
  - split_and!; try done; [by intros l' [= <-]|apply (all_revoked_owned s Hall)..].
  - split_and!; done.
Qed.

Definition same_identity (l l' : ActiveTunnelLease) : Prop :=
  tl_master l' = tl_master l ∧ tl_run l' = tl_run l ∧ tl_attempt l' = tl_attempt l ∧ tl_epoch l' = tl_epoch l.

Lemma wf_same_identity s l l' :
  wf s → bs_active s = Some l → lease_ok l' → same_identity l l' →
  let s' := set_active (Some l') s in wf s' ∧ extends s s'.
Proof.
  intros (H0 & Ha & Hi & Hw & Hn & Hb & Hli & Hlw & Hx & Hr & Ho1 & Ho2) El Hl (E1 & E2 & E3 & E4). split.
  - split_and!; try done.
    + intros x [= <-]. split; [done|]. cbn. rewrite E4. by apply Ha.
    + split; intros c Hc Hs; [destruct (Ho1 c Hc Hs) as (x & E & Hx')|destruct (Ho2 c Hc Hs) as (x & E & Hx')];
        exists l'; rewrite El in E; injection E as <-; (split; [done|]); by rewrite E1, ?E2, ?E3, E4.
  - split_and!; [unfold floor; cbn; by rewrite El|done|done].
Qed.

Lemma wf_fresh s n : wf s → n = bs_next s → n ∉ all_serials s ∧ n ∉ bs_revoked s.
Proof. intros (_ & _ & _ & _ & _ & Hb & _) ->. split; intros H; [destruct (Hb _ (or_introl H))|destruct (Hb _ (or_intror H))]; lia. Qed.

Lemma wf_add_issued s l c :
  wf s → bs_active s = Some l → issued_ok sha256 c → ic_serial c = bs_next s →
  issued_to c (tl_master l) (tl_run l) (tl_attempt l) (tl_epoch l) = true →
  Z.of_nat (length (bs_issued s)) < MAX_ISSUED_CERTIFICATES →
  wf (add_issued c s) ∧ extends s (add_issued c s).
Proof.
  intros Hwf El Hc En Ht Hlen. destruct (wf_fresh s _ Hwf En) as [Hf1 Hf2].
  destruct Hwf as (H0 & Ha & Hi & Hw & Hn & Hb & Hli & Hlw & Hx & Hr & Ho1 & Ho2).
  assert (all_serials (add_issued c s) ≡ₚ ic_serial c :: all_serials s) as Hp.
  { unfold all_serials. cbn. rewrite map_app. cbn. rewrite <-app_assoc. cbn. by rewrite <-Permutation_middle. }
  split; [split_and!; try done|].
  - apply Forall_app. split; [done|]. by constructor.
  - rewrite Hp. by apply list.NoDup_cons.
  - intros n. rewrite Hp, elem_of_cons. cbn. intros [[->|H]|H]; [destruct Hc; lia|destruct (Hb n (or_introl H)); lia|
      destruct (Hb n (or_intror H)); lia].
  - cbn. rewrite length_app. cbn. lia.
  - rewrite (Permutation_length Hp). cbn. lia.
  - split; [|done]. cbn. intros x [Hx'|Hx']%elem_of_app Hs; [by apply Ho1|]. apply list_elem_of_singleton in Hx' as ->. by exists l.
  - split_and!; [done|done|]. intros x Hx'. cbn. apply elem_of_app. by left.
Qed.

Lemma wf_add_worker s l c :
  wf s → bs_active s = Some l → worker_ok c → wc_serial c = bs_next s → wc_master c = tl_master l → wc_epoch c = tl_epoch l →
  Z.of_nat (length (bs_workers s)) < MAX_ISSUED_CERTIFICATES →
  wf (add_worker c s) ∧ extends s (add_worker c s).
Proof.
  intros Hwf El Hc En Ht Ht' Hlen. destruct (wf_fresh s _ Hwf En) as [Hf1 Hf2].
  destruct Hwf as (H0 & Ha & Hi & Hw & Hn & Hb & Hli & Hlw & Hx & Hr & Ho1 & Ho2).
  assert (all_serials (add_worker c s) ≡ₚ wc_serial c :: all_serials s) as Hp.
  { unfold all_serials. cbn. rewrite map_app. cbn. rewrite app_assoc. by rewrite <-Permutation_cons_append. }
  split; [split_and!; try done|].
  - apply Forall_app. split; [done|]. by constructor.
  - rewrite Hp. by apply list.NoDup_cons.
  - intros n. rewrite Hp, elem_of_cons. cbn. intros [[->|H]|H]; [destruct Hc; lia|destruct (Hb n (or_introl H)); lia|
      destruct (Hb n (or_intror H)); lia].
  - cbn. rewrite length_app. cbn. lia.
  - rewrite (Permutation_length Hp). cbn. lia.
  - split; [done|]. cbn. intros x [Hx'|Hx']%elem_of_app Hs; [by apply Ho2|]. apply list_elem_of_singleton in Hx' as ->. by exists l.
  - by split_and!.
Qed.

Lemma wf_set_certificate s n text :
  wf s → startswith certificate_prefix text = true → wf (set_certificate n text s) ∧ extends s (set_certificate n text s).
Proof.
  intros (H0 & Ha & Hi & Hw & Hn & Hb & Hli & Hlw & Hx & Hr & Ho1 & Ho2) Ht.
  assert (all_serials (set_certificate n text s) = all_serials s) as Es.
  { unfold all_serials. cbn. f_equal. rewrite map_map. apply map_ext. intros w. by destruct (_ =? _). }
  split; [split_and!; try done|done].
  - cbn. rewrite list.Forall_forall in Hw |- *. intros w (x & -> & Hx')%list_elem_of_fmap. specialize (Hw x Hx').
    destruct (_ =? _); [|done]. destruct Hw as (?&?&?&?&?&?&?&?&_). split_and!; try done. by right.
  - by rewrite Es.
  - intros m. rewrite Es. apply Hb.
  - cbn. by rewrite length_map.
  - by rewrite Es.
  - split; [done|]. cbn. intros w (x & -> & Hx')%list_elem_of_fmap Hs. specialize (Ho2 x Hx').
    destruct (_ =? _); by apply Ho2.
Qed.

Lemma close_all_wf s : wf s → wf (close_all s) ∧ extends s (close_all s).
Proof.
  intros Hs. destruct (wf_revoke (all_serials s) s Hs) as [H1 E1]; [done|].
  destruct (wf_set_none _ H1) as [H2 E2]; [intros n Hn; cbn; apply elem_of_sorted_union; by right|].
  split; [exact H2|]. by etransitivity.
Qed.

(** What a session may do to the files, starting from [b0] with the state [s0]. *)
Definition state_written (b0 : broker) (s0 : BrokerState) (b : broker) : Prop :=
  bk_state b = bk_state b0 ∨ ∃ s, bk_state b = Some (state_to_json s) ∧ wf s ∧ extends s0 s.

Definition principal_written (b0 : broker) (s0 : BrokerState) (b : broker) : Prop :=
  bk_principals b = bk_principals b0 ∨ bk_principals b = Some "" ∨
  ∃ l, bk_principals b = Some (principal_line (Some l)) ∧ lease_ok l ∧ floor s0 ≤ tl_epoch l.

Definition krl_written (b0 : broker) (s0 : BrokerState) (b : broker) : Prop :=
  bk_krl b = bk_krl b0 ∨ bk_krl b = Some WholeAuthority ∨
  ∃ r, bk_krl b = Some (Serials r) ∧ ∀ n, n ∈ bs_revoked s0 → n ∈ r.

Definition files_ok (b0 : broker) (s0 : BrokerState) (b : broker) : Prop :=
  state_written b0 s0 b ∧ principal_written b0 s0 b ∧ krl_written b0 s0 b.

Section walk.
Context (b0 : broker) (s0 : BrokerState).

Definition inv (w : session) : Prop := wf w.2 ∧ extends s0 w.2 ∧ files_ok b0 s0 w.1.

(** [hoare F m Q]: from a session that has [inv] and [F], [m] keeps [inv]
    however it ends, and leaves [Q] when it returns. *)
Definition hoare {A} (F : session → Prop) (m : M session A) (Q : A → session → Prop) : Prop := ∀ w,
  inv w → F w → match m w with (Ret a, w') => inv w' ∧ Q a w' | (Exc _, w') => inv w' end.

Lemma hoare_bind {A B} F (m : M session A) (k : A → M session B) Q R :
  hoare F m Q → (∀ a, hoare (Q a) (k a) R) → hoare F (mbind k m) R.
Proof.
  intros Hm Hk w Hi Hf. specialize (Hm w Hi Hf). unfold mbind, M_bind. destruct (m w) as [[a|e] w']; [|done].
  destruct Hm as [Hi' Hq]. by apply Hk.
Qed.

Lemma hoare_conseq {A} F F' (m : M session A) (Q Q' : A → session → Prop) :
  hoare F m Q → (∀ w, F' w → F w) → (∀ a w, Q a w → Q' a w) → hoare F' m Q'.
Proof. intros Hm Hf Hq w Hi Hw. specialize (Hm w Hi (Hf w Hw)). destruct (m w) as [[a|e] w']; naive_solver. Qed.

Lemma hoare_ret {A} (a : A) F : hoare F (mret a) (λ x w, x = a ∧ F w).
Proof. by intros w Hi Hf. Qed.

Lemma hoare_raise {A} c msg F (Q : A → session → Prop) : hoare F (raise c msg) Q.
Proof. by intros w Hi Hf. Qed.

Lemma hoare_reraise {A} e F (Q : A → session → Prop) : hoare F (reraise e) Q.
Proof. by intros w Hi Hf. Qed.

Lemma hoare_raise_if c cls msg F : hoare F (raise_if c cls msg) (λ _ w, c = false ∧ F w).
Proof. by intros w Hi Hf; destruct c. Qed.

Lemma hoare_lift {A} (o : outcome A) F : hoare F (lift o) (λ a w, o = Ret a ∧ F w).
Proof. intros w Hi Hf. by destruct o. Qed.

Lemma hoare_state F : hoare F the_state (λ s w, s = w.2 ∧ F w).
Proof. by intros w Hi Hf. Qed.

Lemma hoare_mutate (f : BrokerState → BrokerState) F :
  (∀ w, inv w → F w → wf (f w.2) ∧ extends w.2 (f w.2)) → hoare F (mutate f) (λ _ w, ∃ s, F (w.1, s) ∧ w.2 = f s).
Proof.
  intros Hf [b s] Hi HF. destruct (Hf _ Hi HF) as [H1 H2]. cbn. split; [|by exists s].
  destruct Hi as (_ & He & Hw). split_and!; [done|by etransitivity|done].
Qed.

(** An access that writes what may be written. *)
Lemma hoare_access (f : broker → broker) (F : BrokerState → Prop) :
  (∀ b s, inv (b, s) → F s → files_ok b0 s0 (f b)) →
  hoare (λ w, F w.2) (on_files (access f)) (λ _ w, F w.2).
Proof.
  intros Hf [b s] Hi HF. unfold on_files, access. cbn. destruct Hi as (H1 & H2 & H3).
  assert (inv (mk_broker (bk_state b) (bk_principals b) (bk_worker_principals b) (bk_krl b) (bk_terminated b) (S (bk_accesses b)), s)) as Hi
    by by split_and!.
  destruct (fault (bk_accesses b)); [done|]. split; [|done]. split_and!; [done..|]. by apply (Hf _ s).
Qed.

(** *** What the statements write *)

Lemma inv_files b s : inv (b, s) → files_ok b0 s0 b.
Proof. by intros (_ & _ & H). Qed.

Lemma hoare_no_principal F : hoare (λ w, F w.2) (on_files (write_principal fault None)) (λ _ w, F w.2).
Proof.
  apply hoare_access. intros b s (Hs & _ & Hk)%inv_files _. split_and!; [done| |done]. right. by left.
Qed.

Lemma hoare_principal l F :
  lease_ok l → floor s0 ≤ tl_epoch l → hoare (λ w, F w.2) (on_files (write_principal fault (Some l))) (λ _ w, F w.2).
Proof.
  intros Hl Hf. apply hoare_access. intros b s (Hs & _ & Hk)%inv_files _. split_and!; [done| |done]. right. right. eauto.
Qed.

Lemma hoare_terminate a F : hoare (λ w, F w.2) (on_files (terminate fault a)) (λ _ w, F w.2).
Proof. apply hoare_access. by intros b s (Hs & Hp & Hk)%inv_files _. Qed.

Lemma hoare_whole_authority F : hoare (λ w, F w.2) (on_files (write_krl fault WholeAuthority)) (λ _ w, F w.2).
Proof.
  apply hoare_access. intros b s (Hs & Hp & _)%inv_files _. split_and!; [done|done|]. right. by left.
Qed.

Lemma hoare_workers_empty F : hoare (λ w, F w.2) (on_files (access (put_worker_principals ""))) (λ _ w, F w.2).
Proof. apply hoare_access. by intros b s (Hs & Hp & Hk)%inv_files _. Qed.

Lemma hoare_probe F : hoare (λ w, F w.2) (on_files (probe fault)) (λ _ w, F w.2).
Proof. apply hoare_access. by intros b s H%inv_files _. Qed.

(** A statement that looks at the object first. *)
Lemma hoare_with_object {A} (m : BrokerState → M session A) F Q :
  (∀ s, hoare (λ w, w.2 = s ∧ F s) (m s) Q) → hoare (λ w, F w.2) (s ← gets snd; m s) Q.
Proof. intros Hm [b s] Hi HF. exact (Hm s (b, s) Hi (conj eq_refl HF)). Qed.

Lemma hoare_save F : hoare (λ w, F w.2) (save fault) (λ _ w, F w.2).
Proof.
  apply hoare_with_object. intros s. eapply (hoare_conseq (λ w, w.2 = s ∧ F s)); [|done|].
  - apply (hoare_access _ (λ x, x = s ∧ F s)). intros b s' Hi [-> _]. pose proof Hi as (H1 & H2 & _).
    destruct (inv_files _ _ Hi) as (_ & Hp & Hk). split_and!; [|done|done]. right. eauto.
  - by intros _ w [-> HF].
Qed.

Lemma hoare_revocations F : hoare (λ w, F w.2) (write_revocations fault) (λ _ w, F w.2).
Proof.
  apply hoare_with_object. intros s. eapply (hoare_conseq (λ w, w.2 = s ∧ F s)); [|done|].
  - apply (hoare_access _ (λ x, x = s ∧ F s)). intros b s' Hi [-> _]. pose proof Hi as (_ & (_ & H2 & _) & _).
    destruct (inv_files _ _ Hi) as (Hs & Hp & _). split_and!; [done|done|]. right. right. eauto.
  - by intros _ w [-> HF].
Qed.

Lemma hoare_workers now F : hoare (λ w, F w.2) (write_workers fromisoformat fault system_time now) (λ _ w, F w.2).
Proof.
  apply hoare_with_object. intros s [b s'] Hi [[= ->] HF]. unfold on_files.
  assert (∀ observed, let r := (content ← lift (worker_file fromisoformat s observed); access (put_worker_principals content)) b in
    inv (r.2, s)) as Hw.
  { intros observed. unfold lift, mbind, M_bind. destruct (worker_file _ _ _) as [c|e]; [|done].
    pose proof (hoare_access (put_worker_principals c) (λ _, True)) as Ha.
    specialize (Ha ltac:(by intros b1 s1 (?&?&?)%inv_files _) (b, s) Hi I).
    unfold on_files in Ha. cbn in Ha |- *. destruct (access _ b) as [[] b1]; naive_solver. }
  assert (inv ((write_worker_principals fromisoformat fault system_time s now b).2, s)) as Hr by (destruct now; apply Hw).
  cbn [fst snd]. by destruct (write_worker_principals _ _ _ _ _ b) as [[] b1].
Qed.

Lemma hoare_terminate_workers F : hoare (λ w, F w.2) (terminate_workers_if_issued fault worker_account) (λ _ w, F w.2).
Proof.
  apply hoare_with_object. intros s. case_bool_decide.
  - eapply hoare_conseq; [apply (hoare_ret tt (λ w, w.2 = s ∧ F s))|done|]. by intros _ w (_ & -> & ?).
  - eapply hoare_conseq; [apply (hoare_terminate worker_account (λ x, x = s ∧ F s))|done|]. by intros _ w [-> ?].
Qed.

(** *** Failing closed *)

(** *** Failing closed *)

Definition safe {A} (m : M session A) : Prop := hoare (λ _, True) m (λ _ _, True).
Definition safe_at {A} (s : BrokerState) (m : M session A) : Prop := hoare (λ w, w.2 = s) m (λ _ _, True).

Lemma safe_at_safe {A} s (m : M session A) : safe m → safe_at s m.
Proof. intros Hm. by apply (hoare_conseq _ _ _ _ _ Hm). Qed.

Lemma safe_bind {A B} (m : M session A) (k : A → M session B) : safe m → (∀ a, safe (k a)) → safe (mbind k m).
Proof. intros Hm Hk. by apply (hoare_bind _ _ _ _ _ Hm). Qed.

Lemma safe_except {A} F (m : M session A) h (Q : A → session → Prop) :
  hoare F m Q → (∀ e, hoare (λ _, True) (h e) Q) → hoare F (except_exception m h) Q.
Proof.
  intros Hm Hh w Hi HF. specialize (Hm w Hi HF). unfold except_exception, try_except.
  destruct (m w) as [[a|e] w']; [done|]. destruct (killed e); [done|]. by apply Hh.
Qed.

Lemma safe_attempt (m : M session unit) : safe m → safe (attempt m).
Proof.
  intros Hm. apply safe_except; [|by intros e w Hi _]. apply safe_bind; [done|]. by intros _ w Hi _.
Qed.

Lemma safe_fail_closed : safe (fail_closed fault account worker_account).
Proof.
  unfold fail_closed. repeat (apply safe_bind; [apply safe_attempt|intros ?]).
  - apply (hoare_no_principal (λ _, True)).
  - apply (hoare_workers_empty (λ _, True)).
  - apply safe_bind; [|intros _; apply (hoare_save (λ _, True))].
    eapply hoare_conseq; [apply (hoare_mutate _ (λ _, True))|done|done]. intros w (Hw & _) _. by apply close_all_wf.
  - apply (hoare_whole_authority (λ _, True)).
  - apply (hoare_terminate _ (λ _, True)).
  - apply (hoare_terminate _ (λ _, True)).
  - by apply (hoare_conseq _ _ _ _ _ (hoare_raise_if _ _ _ (λ _, True))).
Qed.

Abbreviation guarded := (guarded fault account worker_account).

Lemma safe_guarded {A} s (m : M session A) : safe_at s m → safe_at s (guarded m).
Proof.
  intros Hm. apply safe_except; [done|]. intros e. apply safe_bind; [apply safe_fail_closed|]. by intros _ w Hi _.
Qed.

(** *** Sequences of statements, with the object known *)

Definition keeps_object {A} (m : M session A) : Prop := ∀ s, hoare (λ w, w.2 = s) m (λ _ w, w.2 = s).

Lemma at_bind {A B} s (m : M session A) (k : A → M session B) : keeps_object m → (∀ a, safe_at s (k a)) → safe_at s (mbind k m).
Proof. intros Hm Hk. apply (hoare_bind _ _ _ _ _ (Hm s)). intros a. apply Hk. Qed.

Lemma at_mutate {B} s f (k : unit → M session B) :
  (wf s → wf (f s) ∧ extends s (f s)) → safe_at (f s) (k tt) → safe_at s (mbind k (mutate f)).
Proof.
  intros Hf Hk. apply (hoare_bind _ _ _ (λ _ w, w.2 = f s)); [|by intros []].
  eapply hoare_conseq; [apply (hoare_mutate f (λ w, w.2 = s))|done|].
  - intros w (Hw & _) E. rewrite E in *. auto.
  - by intros _ w (x & E & ->); cbn in E; subst.
Qed.

Lemma at_mutate_last s f : (wf s → wf (f s) ∧ extends s (f s)) → safe_at s (mutate f).
Proof.
  intros Hf. eapply hoare_conseq; [apply (hoare_mutate f (λ w, w.2 = s))|done|done].
  intros w (Hw & _) E. rewrite E in *. auto.
Qed.

Lemma at_state {A} s (k : BrokerState → M session A) : safe_at s (k s) → safe_at s (mbind k (the_state : M session BrokerState)).
Proof. intros Hk [b x] Hi E. cbn in E. subst x. exact (Hk (b, s) Hi eq_refl). Qed.

Lemma at_lift {A B} s (o : outcome A) (k : A → M session B) : (∀ a, o = Ret a → safe_at s (k a)) → safe_at s (mbind k (lift o)).
Proof. intros Hk. apply (hoare_bind _ _ _ _ _ (hoare_lift o _)). intros a w Hi [E Hw]. by apply Hk. Qed.

Lemma at_raise_if {B} s c cls msg (k : unit → M session B) : (c = false → safe_at s (k tt)) → safe_at s (mbind k (raise_if c cls msg)).
Proof. intros Hk. apply (hoare_bind _ _ _ _ _ (hoare_raise_if c cls msg _)). intros [] w Hi [E Hw]. by apply Hk. Qed.

Lemma at_assoc {A B C} s (m : M session A) (k : A → M session B) (k' : B → M session C) :
  safe_at s (x ← m; mbind k' (k x)) → safe_at s (mbind k' (mbind k m)).
Proof. intros H w Hi Hw. specialize (H w Hi Hw). unfold mbind, M_bind in *. by destruct (m w) as [[a|e] w1]. Qed.

Lemma bind_never {A} (m : M session A) (k : A → M session unit) :
  (∀ a w, (k a w).1 ≠ Ret tt) → ∀ w, (mbind k m w).1 ≠ Ret tt.
Proof. intros Hk w. unfold mbind, M_bind. destruct (m w) as [[a|e] w']; [apply Hk|done]. Qed.

(** [if c: ... raise]: the rest runs when the condition does not hold. *)
Lemma at_bind_cond {B} s (c : bool) (m : M session unit) (k : unit → M session B) :
  (c = true → safe_at s m) → (c = false → safe_at s (k tt)) → (∀ w, (m w).1 ≠ Ret tt) →
  safe_at s (mbind k (if c then m else mret tt)).
Proof.
  intros Hm Hk Hr. destruct c; [|intros w; apply (Hk eq_refl w)]. intros w Hi Hw. specialize (Hm eq_refl w Hi Hw).
  specialize (Hr w). unfold mbind, M_bind. destruct (m w) as [[[]|e] w']; [done|done].
Qed.

Lemma at_ret {A} s (a : A) : safe_at s (mret a).
Proof. by intros w Hi _. Qed.

Lemma at_raise {A} s c msg : safe_at s (raise (A:=A) c msg).
Proof. by intros w Hi _. Qed.

Lemma keeps_last {A} s (m : M session A) : keeps_object m → safe_at s m.
Proof. intros Hm. by apply (hoare_conseq _ _ _ _ _ (Hm s)). Qed.

Lemma keeps_no_principal : keeps_object (on_files (write_principal fault None)).
Proof. intros s. apply (hoare_no_principal (λ x, x = s)). Qed.
Lemma keeps_terminate a : keeps_object (on_files (terminate fault a)).
Proof. intros s. apply (hoare_terminate a (λ x, x = s)). Qed.
Lemma keeps_save : keeps_object (save fault).
Proof. intros s. apply (hoare_save (λ x, x = s)). Qed.
Lemma keeps_revocations : keeps_object (write_revocations fault).
Proof. intros s. apply (hoare_revocations (λ x, x = s)). Qed.
Lemma keeps_workers now : keeps_object (write_workers fromisoformat fault system_time now).
Proof. intros s. apply (hoare_workers now (λ x, x = s)). Qed.
Lemma keeps_terminate_workers : keeps_object (terminate_workers_if_issued fault worker_account).
Proof. intros s. apply (hoare_terminate_workers (λ x, x = s)). Qed.
Lemma keeps_principal l : lease_ok l → floor s0 ≤ tl_epoch l → keeps_object (on_files (write_principal fault (Some l))).
Proof. intros Hl Hf s. by apply (hoare_principal l (λ x, x = s)). Qed.

(** Statements that leave the files alone. *)
Definition quiet {A} (m : M broker A) : Prop := ∀ b,
  bk_state (m b).2 = bk_state b ∧ bk_principals (m b).2 = bk_principals b ∧ bk_krl (m b).2 = bk_krl b.

Lemma quiet_probe : quiet (probe fault).
Proof. intros b. unfold probe, Tunnel.access. by destruct (fault _). Qed.

Lemma quiet_bind {A B} (m : M broker A) (k : A → M broker B) : quiet m → (∀ a, quiet (k a)) → quiet (mbind k m).
Proof.
  intros Hm Hk b. specialize (Hm b). unfold mbind, M_bind. destruct (m b) as [[a|e] b1]; [|done]. specialize (Hk a b1).
  destruct Hm as (<- & <- & <-). apply Hk.
Qed.

Lemma quiet_sign key serial key_id p observed expiry : quiet (sign_certificate fault sign key serial key_id p observed expiry).
Proof. unfold sign_certificate. repeat (apply quiet_bind; [apply quiet_probe|intros _]). by intros b. Qed.

Lemma keeps_quiet {A} (m : M broker A) : quiet m → keeps_object (on_files m).
Proof.
  intros Hm s [b x] (Hw & He & Hs & Hp & Hk) E. cbn in E. subst x. specialize (Hm b). unfold on_files. cbn [fst snd].
  destruct (m b) as [o b1]. cbn in Hm. destruct Hm as (E1 & E2 & E3).
  assert (inv (b1, s)) by (split; [done|]; split; [done|]; unfold files_ok, state_written, principal_written, krl_written; cbn;
    by rewrite E1, E2, E3).
  by destruct o.
Qed.

(** *** The methods *)

Create HintDb tunnel.
#[local] Hint Resolve keeps_no_principal keeps_terminate keeps_save keeps_revocations keeps_workers keeps_terminate_workers
  keeps_principal : tunnel.

(** Walk over a body with the object known. *)
Ltac body := repeat match goal with
  | |- safe_at _ (mbind _ (mbind _ _)) => apply at_assoc
  | |- safe_at _ (mbind _ the_state) => apply at_state
  | |- safe_at _ (mbind _ (lift _)) => apply at_lift; intros ? ?
  | |- safe_at _ (mbind _ (raise_if _ _ _)) => apply at_raise_if; intros ?
  | |- safe_at _ (mbind _ (mutate _)) => apply at_mutate; [intros ?|]
  | |- safe_at _ (mbind _ _) => apply at_bind; [by eauto with tunnel|intros ?]
  | |- safe_at _ (guarded _) => apply safe_guarded
  | |- safe_at _ (mret _) => apply at_ret
  | |- safe_at _ (raise _ _) => apply at_raise
  | |- safe_at _ (match ?x with _ => _ end) => destruct x eqn:?
  | |- safe_at _ _ => progress cbv beta zeta
  | |- safe_at _ _ => apply keeps_last; by eauto with tunnel
  end.

(** Every certificate of a master is one that was issued. *)
Lemma serials_of_all s m r a e n : n ∈ serials_of s m r a e → n ∈ all_serials s.
Proof.
  unfold serials_of, worker_serials, all_serials. rewrite !elem_of_app.
  intros [(c & -> & Hc)%list_elem_of_fmap|(c & -> & Hc)%list_elem_of_fmap]; [left|right]; apply list_elem_of_fmap_2;
    apply list_elem_of_In in Hc; apply filter_In in Hc as [Hc _]; by apply list_elem_of_In.
Qed.

Lemma revoke_of_wf s m r a e : wf s → wf (revoke_of m r a e s) ∧ extends s (revoke_of m r a e s).
Proof. intros Hs. apply wf_revoke; [done|]. intros n. apply serials_of_all. Qed.

Lemma revoke_of_active s l :
  wf s → bs_active s = Some l → all_revoked (revoke_of (tl_master l) (tl_run l) (tl_attempt l) (tl_epoch l) s).
Proof.
  intros Hs El n Hn. cbn. apply elem_of_sorted_union. destruct (decide (n ∈ bs_revoked s)) as [|Hnr]; [by left|right].
  destruct Hs as (_ & _ & _ & _ & _ & _ & _ & _ & _ & _ & Ho1 & Ho2). unfold serials_of, worker_serials. apply elem_of_app.
  unfold all_serials in Hn. cbn in Hn. apply elem_of_app in Hn as [(c & -> & Hc)%list_elem_of_fmap|(c & -> & Hc)%list_elem_of_fmap].
  - left. apply list_elem_of_fmap_2. destruct (Ho1 c Hc Hnr) as (x & E & Ht). rewrite El in E. injection E as <-.
    apply list_elem_of_In, filter_In. split; [by apply list_elem_of_In|done].
  - right. apply list_elem_of_fmap_2. destruct (Ho2 c Hc Hnr) as (x & E & Ht). rewrite El in E. injection E as <-.
    apply list_elem_of_In, filter_In. split; [by apply list_elem_of_In|]. destruct Ht as [-> ->].
    by rewrite bool_decide_eq_true_2, Z.eqb_refl.
Qed.

(** What is validated stays valid. *)
Lemma validate_again m e m' e' : validate_identity m e = Ret (m', e') → master_ok m' e'.
Proof.
  unfold master_ok, validate_identity, throw_if, throw. destruct (uuid_of_text m) as [u|] eqn:Eu; [|done].
  destruct (e <? 1) eqn:Ee; [done|]. cbn. intros [= <- <-]. rewrite uuid_of_uuid_str by by apply uuid_of_text_valid in Eu. by rewrite Ee.
Qed.

Lemma runtime_again r a r' a' : validate_runtime_ids r a = Ret (r', a') → runtime_ok r' a' ∧ r' = r ∧ a' = a.
Proof.
  unfold runtime_ok, validate_runtime_ids, throw_if, throw. destruct (_ || _) eqn:Eb; [done|]. cbn. intros [= <- <-].
  by rewrite Eb.
Qed.

Lemma at_bind_safe {A B} s (m : M session A) (k : A → M session B) : safe_at s m → (∀ a, safe (k a)) → safe_at s (mbind k m).
Proof. intros Hm Hk. apply (hoare_bind _ _ _ _ _ Hm). intros a. apply Hk. Qed.

Lemma lease_create_inv m r a e u h p l :
  lease_create sha256 m r a e u h p = Ret l → (∀ t, require_utc u "lease_until" = Ret t → valid_instant t) →
  lease_ok l ∧ validate_identity m e = Ret (tl_master l, tl_epoch l) ∧ validate_runtime_ids r a = Ret (tl_run l, tl_attempt l).
Proof.
  unfold lease_create. intros H Hu. destruct (validate_identity m e) as [[m' e']|] eqn:Em; [|done].
  destruct (validate_runtime_ids r a) as [[r' a']|] eqn:Er; [|done]. cbn [mbind outcome_bind fst snd] in H.
  unfold throw_if, throw in H. case_bool_decide as Eh; [|done]. cbn in H. destruct (_ && _) eqn:Ep in H; [|done]. cbn in H.
  destruct (require_utc u "lease_until") as [t|] eqn:Et; [|done]. cbn in H.
  destruct (principal_of sha256 m' e' r' a') as [p'|] eqn:En; [|done]. injection H as <-. cbn. split_and!; try done.
  apply andb_true_iff in Ep as [E1%Z.leb_le E2%Z.leb_le].
  split_and!; cbn; try done; [by apply (validate_again m e)|by apply (runtime_again r a r' a')|by apply Hu].
Qed.

Hypothesis Hwf0 : wf s0.

Lemma active_ok l : bs_active s0 = Some l → lease_ok l ∧ tl_epoch l = floor s0.
Proof. intros E. destruct Hwf0 as (_ & Ha & _). destruct (Ha l E) as [? ->]. unfold floor. by rewrite E. Qed.

Lemma same_master_inv l m r a e : same_master l m r a e = true → tl_master l = m ∧ tl_run l = r ∧ tl_attempt l = a ∧ tl_epoch l = e.
Proof. unfold same_master. intros H. b2p. naive_solver. Qed.

Lemma safe_activate_replay current active observed :
  bs_active s0 = Some current → lease_ok active → same_identity current active →
  safe_at s0 (activate_replay fromisoformat fault system_time account worker_account current active observed).
Proof.
  intros Ec Hl Hs. destruct (active_ok _ Ec) as [Hc Hf].
  assert (floor s0 ≤ tl_epoch current) by lia. assert (floor s0 ≤ tl_epoch active) by (destruct Hs as (_ & _ & _ & ->); lia).
  unfold activate_replay. apply at_raise_if. intros _. destruct (tl_until current <=? observed).
  - apply at_bind_safe; [|intros _; by intros w Hi _]. apply safe_guarded. body.
    + by apply revoke_of_wf.
    + apply wf_set_none; [done|]. by apply revoke_of_active.
  - apply at_raise_if. intros _. apply safe_guarded. destruct (tl_until active <=? tl_until current); case_bool_decide; body; try done.
    by apply (wf_same_identity _ current).
Qed.

Lemma safe_activate_new active observed :
  lease_ok active → safe_at s0 (activate_new fromisoformat fault system_time account worker_account active observed).
Proof.
  intros Hl. unfold activate_new. apply at_raise_if. intros _. apply at_state, at_raise_if. intros Hf%Z.leb_gt.
  assert (floor s0 ≤ tl_epoch active) by (unfold floor; destruct (bs_active s0); lia). apply safe_guarded. body; try done.
  - apply wf_revoke; [done|]. intros n Hn. apply list_elem_of_In, filter_In in Hn as [Hn _]. by apply list_elem_of_In.
  - apply wf_new; [done| |done|done]. intros n Hn. cbn. apply elem_of_sorted_union.
    destruct (decide (n ∈ bs_revoked s0)) as [|Hr]; [by left|right]. apply list_elem_of_In, filter_In.
    split; [by apply list_elem_of_In|]. by rewrite (proj2 (mem_false _ _) Hr).
Qed.

Lemma current_lease_inv s m r a e observed msg l :
  current_lease s m r a e observed msg = Ret l →
  bs_active s = Some l ∧ tl_master l = m ∧ tl_run l = r ∧ tl_attempt l = a ∧ tl_epoch l = e ∧ observed < tl_until l.
Proof.
  unfold current_lease, throw_if, throw. destruct (bs_active s) as [x|]; [|done].
  destruct (negb (same_master x m r a e) || (tl_until x <=? observed)) eqn:E; [done|]. cbn. intros [= ->].
  apply orb_false_iff in E as [E1%negb_false_iff%same_master_inv E2%Z.leb_gt]. naive_solver.
Qed.

Lemma safe_renew m r a e requested observed :
  valid_instant requested →
  safe_at s0 (renew_session sha256 fromisoformat fault system_time account worker_account m r a e requested observed).
Proof.
  intros Hv. unfold renew_session. apply at_state, at_lift. intros active (Ea & E1 & E2 & E3 & E4 & _)%current_lease_inv.
  destruct (active_ok _ Ea) as [Hok Hf]. assert (floor s0 ≤ tl_epoch active) by lia.
  destruct (requested <=? tl_until active); [by body|]. apply at_raise_if. intros _. apply at_lift. intros l Hl.
  apply lease_create_inv in Hl as (Hl & Hi & Hr); [|intros t [= <-]; by replace (requested - 0) with requested by lia].
  destruct Hok as (Hm & Hrt & _). unfold master_ok, TunnelState.runtime_ok in Hm, Hrt.
  assert (same_identity active l) as Hs.
  { rewrite E1, E4 in Hm. rewrite E2, E3 in Hrt. rewrite Hm in Hi. rewrite Hrt in Hr. injection Hi as Hi1 Hi2. injection Hr as Hr1 Hr2.
    unfold same_identity. split_and!; congruence. }
  assert (floor s0 ≤ tl_epoch l) by (destruct Hs as (_ & _ & _ & ->); lia). body; try done. by apply (wf_same_identity _ active).
Qed.

Lemma safe_issue m r a e key expiry observed :
  valid_instant expiry →
  safe_at s0 (issue_public_key_session sha256 fault sign account worker_account m r a e key expiry observed).
Proof.
  intros Hv. unfold issue_public_key_session. apply at_state. apply at_bind_cond.
  { intros _. body. }
  2: { do 3 (apply bind_never; intros _). done. }
  intros _. apply at_lift. intros active (Ea & E1 & E2 & E3 & E4 & _)%current_lease_inv. apply at_lift. intros _ _.
  apply at_raise_if. intros Hlen%Z.leb_gt. destruct (active_ok _ Ea) as [(Hm & Hr & _ & _ & _ & Hp) _]. subst.
  cbv zeta. apply safe_guarded, at_mutate.
  - intros _. apply (wf_add_issued _ active); [done|done| |done| |done].
    + split_and!; cbn; try done; [|by exists expiry]. destruct Hwf0 as (_ & _ & _ & _ & _ & _ & _ & _ & Hn & _). lia.
    + unfold issued_to. cbn. by rewrite !bool_decide_eq_true_2, Z.eqb_refl.
  - body. apply at_bind; [apply keeps_quiet, quiet_sign|intros c; apply at_ret].
Qed.

Lemma safe_revoke m r a e n :
  safe_at s0 (revoke_session fault account worker_account m r a e n).
Proof.
  unfold revoke_session. apply at_state, at_raise_if. intros (c & Hc & Hn)%negb_false_iff%existsb_exists. b2p. destruct Hn as [<- _].
  apply safe_guarded. body. apply wf_revoke; [done|]. intros n ->%list_elem_of_singleton. apply elem_of_app. left.
  by apply list_elem_of_fmap_2, list_elem_of_In.
Qed.

Lemma safe_revoke_worker m e t c n :
  safe_at s0 (revoke_worker_certificate_session fromisoformat fault system_time account worker_account m e t c n).
Proof.
  unfold revoke_worker_certificate_session. apply at_state, at_raise_if. intros (x & Hx & Hn)%negb_false_iff%existsb_exists. b2p.
  destruct Hn as [[[[<- _] _] _] _]. apply safe_guarded. body. apply wf_revoke; [done|]. intros n ->%list_elem_of_singleton.
  apply elem_of_app. right. by apply list_elem_of_fmap_2, list_elem_of_In.
Qed.

Lemma safe_deactivate m r a e :
  safe_at s0 (deactivate_session fromisoformat fault system_time account worker_account m r a e).
Proof.
  unfold deactivate_session. apply at_state. destruct (bs_active s0) as [l|] eqn:El; [|body].
  apply at_raise_if. intros (<- & <- & <- & <-)%negb_false_iff%same_master_inv. apply safe_guarded. body.
  - by apply revoke_of_wf.
  - apply wf_set_none; [done|]. by apply revoke_of_active.
Qed.

Lemma safe_reconcile observed :
  safe_at s0 (reconcile_session fromisoformat fault system_time account worker_account observed).
Proof.
  unfold reconcile_session. apply safe_guarded, at_state. destruct (bs_active s0) as [l|] eqn:El; [|body].
  destruct (active_ok _ El) as [Hl Hf]. assert (floor s0 ≤ tl_epoch l) by lia. destruct (tl_until l <=? observed); body; try done.
  - by apply revoke_of_wf.
  - apply wf_set_none; [done|]. by apply revoke_of_active.
Qed.

(** What [_uuid] returns is in its final form. *)
Lemma uuid_field_again v label t : uuid_field v label = Ret t → ∀ label', uuid_field t label' = Ret t.
Proof.
  unfold uuid_field, throw. destruct (uuid_of_text v) as [u|] eqn:Eu; [|done]. intros [= <-] label'.
  by rewrite uuid_of_uuid_str by by apply uuid_of_text_valid in Eu.
Qed.

(** The certificate ssh-keygen makes. *)
Lemma at_sign {B} s key n key_id p observed expiry (k : string → M session B) :
  (∀ cert, startswith certificate_prefix cert = true → safe_at s (k cert)) →
  safe_at s (mbind k (on_files (sign_certificate fault sign key n key_id p observed expiry))).
Proof.
  intros Hk. apply (hoare_bind _ _ _ (λ cert w, w.2 = s ∧ startswith certificate_prefix cert = true));
    [|by intros cert w Hi [Hw Hc]; apply (Hk cert Hc)].
  intros w Hi Hw. pose proof (keeps_quiet _ (quiet_sign key n key_id p observed expiry) s w Hi Hw) as Hq.
  revert Hq. unfold on_files. destruct (sign_certificate fault sign key n key_id p observed expiry w.1) as [[cert|x] b1] eqn:Es; [|done].
  cbn. intros [? ?]. split_and!; [done..|]. revert Es. unfold sign_certificate, mbind, M_bind.
  do 4 (destruct (probe fault _) as [[[]|?] ?]; [|done]). intros [= <- _]. apply Hsign.
Qed.

Lemma safe_issue_worker m e t c key expiry observed :
  valid_instant expiry → (∀ label, uuid_field t label = Ret t) → (∀ label, uuid_field c label = Ret c) →
  safe_at s0 (issue_worker_public_key_session sha256 fromisoformat fault system_time sign account worker_account m e t c key expiry observed).
Proof.
  intros Hv Ht Hc. unfold issue_worker_public_key_session. apply at_state. cbv zeta.
  destruct (bs_active s0) as [l|] eqn:El; [|apply at_raise]. destruct (active_ok _ El) as [(Hm & _) _].
  apply at_raise_if. intros Hl. b2p. destruct Hl as [[<- <-] _]. apply at_lift. intros _ _.
  destruct (List.find _ _) as [w|]; [body|]. apply at_raise_if. intros Hlen%Z.leb_gt. apply at_lift. intros p Hp.
  apply at_mutate.
  - intros _. apply (wf_add_worker _ l); [done|done| |done..|cbn; lia].
    split_and!; cbn; try done; [|by exists expiry|by left]. destruct Hwf0 as (_ & _ & _ & _ & _ & _ & _ & _ & Hn & _). lia.
  - apply safe_guarded, at_bind; [auto with tunnel|intros _].
    apply at_sign. intros cert Hcert. body. by apply wf_set_certificate.
Qed.

End walk.
End session.
