(* ===== verification/TunnelCalls.v ===== *)
(** * TunnelCalls: calls of the tunnel broker

    Every method of the broker as a step on its directory ([tunnel_call],
    [tunnel_step]), that a step writes to the files only what its session may
    write, and what the files hold when a method returned ([yields]). *)

From S2P Require Import Prelude Time Json Uuid Tunnel TunnelState TunnelSafety.

Inductive tunnel_call : Type :=
| ActivateTunnel (master run attempt : string) (epoch : Z) (lease_until : datetime) (listen_port : Z) (now : datetime)
| RenewTunnel (master run attempt : string) (epoch : Z) (lease_until now : datetime)
| IssueKey (master run attempt : string) (epoch : Z) (public_key : string) (valid_before now : datetime)
| IssueFile (master run attempt : string) (epoch : Z) (key_file : outcome string) (valid_before now : datetime)
| IssueWorkerKey (master : string) (epoch : Z) (task_run_id credential_id public_key : string) (valid_before now : datetime)
| RevokeWorker (master : string) (epoch : Z) (task_run_id credential_id : string) (serial : Z) (reason : string)
| RevokeSerial (master run attempt : string) (epoch serial : Z) (reason : string)
| DeactivateTunnel (master run attempt : string) (epoch : Z) (reason : string)
| ReconcileTunnel (now : datetime)
| SnapshotIdentity (master run attempt : string) (epoch : Z) (now : datetime)
| RetiredDenial (master run attempt : string) (epoch serial : Z) (principal_sha256 public_key_sha256 replacement : string)
    (replacement_epoch : Z) (now : datetime).

(** A [datetime] Python can hold. *)
Definition valid_datetime (d : datetime) : Prop := ∀ field t, require_utc d field = Ret t → valid_instant t.

Definition valid_call (c : tunnel_call) : Prop :=
  match c with
  | ActivateTunnel _ _ _ _ d _ _ | RenewTunnel _ _ _ _ d _ | IssueKey _ _ _ _ _ d _ | IssueFile _ _ _ _ _ d _
  | IssueWorkerKey _ _ _ _ _ d _ => valid_datetime d
  | _ => True
  end.

Section calls.
Context (sha256 : string → string) (fromisoformat : string → option datetime).
Hypothesis Hiso : ∀ t, valid_instant t → fromisoformat (isoformat t) = Some (utc t).
Hypothesis Hsha : ∀ s, is_sha256 (sha256 s) = true.
Context (fault : nat → option exn) (system_time : nat → Z) (sign : string → Z → string → string → string → string → string).
Hypothesis Hsign : ∀ key serial key_id principal from until,
  startswith certificate_prefix (strip (sign key serial key_id principal from until)) = true.
Context (account worker_account : string).
Abbreviation session := (broker * BrokerState)%type.
Abbreviation wf := (wf sha256).
Abbreviation lease_ok := (lease_ok sha256).
Abbreviation files_ok := (files_ok sha256).
Abbreviation activate_ := (activate sha256 fromisoformat fault system_time account worker_account).
Abbreviation deactivate_ := (deactivate sha256 fromisoformat fault system_time account worker_account).
Abbreviation issue_ := (issue_public_key sha256 fromisoformat fault sign account worker_account).

Definition done {A} (m : M broker A) : M broker unit := m ;; mret tt.

Definition tunnel_step (c : tunnel_call) : M broker unit :=
  match c with
  | ActivateTunnel m r a e u p n => done (activate_ m r a e u p n)
  | RenewTunnel m r a e u n => done (renew sha256 fromisoformat fault system_time account worker_account m r a e u n)
  | IssueKey m r a e k v n => done (issue_ m r a e k v n)
  | IssueFile m r a e k v n => done (issue sha256 fromisoformat fault sign account worker_account m r a e k v n)
  | IssueWorkerKey m e t c k v n =>
      done (issue_worker_public_key sha256 fromisoformat fault system_time sign account worker_account m e t c k v n)
  | RevokeWorker m e t c s r => revoke_worker_certificate sha256 fromisoformat fault system_time account worker_account m e t c s r
  | RevokeSerial m r a e s why => revoke sha256 fromisoformat fault account worker_account m r a e s why
  | DeactivateTunnel m r a e why => deactivate_ m r a e why
  | ReconcileTunnel n => done (reconcile sha256 fromisoformat fault system_time account worker_account n)
  | SnapshotIdentity m r a e n => done (acceptance_identity_snapshot sha256 fromisoformat fault account worker_account m r a e n)
  | RetiredDenial m r a e s p k m' e' n =>
      done (acceptance_retired_denial sha256 fromisoformat fault account worker_account m r a e s p k m' e' n)
  end.

Definition tunnel_run (cs : list tunnel_call) (b : broker) : broker := fold_left (λ b c, (tunnel_step c b).2) cs b.

(** ** One call *)

Section call.
Context (b0 : broker) (s0 : BrokerState).
Hypothesis Hstate : bk_state b0 = Some (state_to_json s0).
Hypothesis Hwf : wf s0.

Definition same_files (b : broker) : Prop :=
  bk_state b = bk_state b0 ∧ bk_principals b = bk_principals b0 ∧ bk_krl b = bk_krl b0.

Definition filed {A} (m : M broker A) : Prop := ∀ b, same_files b → files_ok b0 s0 (m b).2.

Lemma same_files_ok b : same_files b → files_ok b0 s0 b.
Proof using. intros (E1 & E2 & E3). split_and!; by left. Qed.

Lemma files_ok_same b b' :
  bk_state b' = bk_state b → bk_principals b' = bk_principals b → bk_krl b' = bk_krl b → files_ok b0 s0 b → files_ok b0 s0 b'.
Proof using. unfold TunnelSafety.files_ok, state_written, principal_written, krl_written. by intros -> -> ->. Qed.

Lemma filed_quiet {A} (m : M broker A) : quiet m → filed m.
Proof using. intros Hm b Hb. destruct (Hm b) as (?&?&?). by apply (files_ok_same b), same_files_ok. Qed.

Lemma filed_after {A B} (m : M broker A) (k : A → M broker B) : quiet m → (∀ a, filed (k a)) → filed (mbind k m).
Proof using.
  intros Hm Hk b (E1 & E2 & E3). specialize (Hm b). unfold mbind, M_bind. destruct (m b) as [[a|e] b1]; cbn in Hm.
  - apply Hk. unfold same_files. by destruct Hm as (-> & -> & ->).
  - apply same_files_ok. cbn. unfold same_files. by destruct Hm as (-> & -> & ->).
Qed.

Lemma filed_lift {A B} (o : outcome A) (k : A → M broker B) : (∀ a, o = Ret a → filed (k a)) → filed (mbind k (lift o)).
Proof using. intros Hk b Hb. unfold mbind, M_bind, lift. destruct o as [a|e]; [by apply Hk|by apply same_files_ok]. Qed.

Lemma filed_then {A B} (m : M broker A) (k : A → M broker B) : filed m → (∀ a, quiet (k a)) → filed (mbind k m).
Proof using.
  intros Hm Hk b Hb. specialize (Hm b Hb). unfold mbind, M_bind. destruct (m b) as [[a|e] b1]; [|done].
  destruct (Hk a b1) as (?&?&?). by apply (files_ok_same b1).
Qed.

(** Statements that only close. *)
Definition closes {A} (m : M broker A) : Prop := ∀ b, files_ok b0 s0 b → files_ok b0 s0 (m b).2.

Lemma closes_bind {A B} (m : M broker A) (k : A → M broker B) : closes m → (∀ a, closes (k a)) → closes (mbind k m).
Proof using. intros Hm Hk b Hb. specialize (Hm b Hb). unfold mbind, M_bind. destruct (m b) as [[a|e] b1]; [by apply Hk|done]. Qed.

Lemma closes_attempt m : closes m → closes (attempt m).
Proof using.
  intros Hm b Hb. specialize (Hm b Hb). unfold attempt, except_exception, try_except, mbind, M_bind.
  destruct (m b) as [[[]|e] b1]; [done|]. by destruct (killed e).
Qed.

Lemma closes_access f : (∀ b, files_ok b0 s0 b → files_ok b0 s0 (f b)) → closes (access fault f).
Proof using. intros Hf b Hb. unfold access. destruct (fault _); [done|]. by apply Hf. Qed.

Lemma closes_fail_closed : closes (fail_closed_files fault account worker_account).
Proof using.
  unfold fail_closed_files. repeat (apply closes_bind; [apply closes_attempt, closes_access; intros b (Hs & Hp & Hk)|intros ?]).
  - split_and!; [done| |done]. right. by left.
  - done.
  - split_and!; [done..|]. right. by left.
  - done.
  - done.
  - intros b Hb. unfold raise_if. by destruct (denial_failed _).
Qed.

Lemma load_same b : same_files b →
  match load sha256 fromisoformat fault b with (Ret s, b') => s = s0 ∧ same_files b' | (Exc _, b') => same_files b' end.
Proof using Hstate Hwf Hiso.
  intros (E1 & E2 & E3). unfold load. pose proof (quiet_probe fault b) as (Q1 & Q2 & Q3). unfold mbind, M_bind.
  destruct (probe fault b) as [[[]|e] b1]; cbn in Q1, Q2, Q3; [|unfold same_files; by rewrite Q1, Q2, Q3].
  assert (same_files b1) as Hs by (unfold same_files; by rewrite Q1, Q2, Q3). unfold gets. pose proof Hs as (-> & _ & _). rewrite Hstate.
  unfold raise_if, lift. destruct (_ <? _); [done|]. by rewrite (state_reads_back _ _ Hiso).
Qed.

Lemma filed_with_state {A} (m : M session A) :
  safe_at sha256 b0 s0 s0 m → filed (with_state sha256 fromisoformat fault account worker_account m).
Proof using Hstate Hwf Hiso.
  intros Hm. apply filed_after; [apply quiet_probe|]. intros _ b Hb. pose proof (load_same b Hb) as Hl.
  unfold mbind, M_bind, load_or_fail_closed, except_exception, try_except.
  destruct (load _ _ _ b) as [[s|e] b1]; [destruct Hl as [-> Hl]|].
  - pose proof (Hm (b1, s0) ltac:(split_and!; try done; by apply same_files_ok) eq_refl) as H. unfold run_session.
    destruct (m (b1, s0)) as [[a|e] [b2 s2]]; [by destruct H as [(_ & _ & ?) _]|by destruct H as (_ & _ & ?)].
  - destruct (killed e); [by apply same_files_ok|]. pose proof (closes_fail_closed b1 (same_files_ok _ Hl)) as H. cbn in H |- *.
    unfold mbind, M_bind. by destruct (fail_closed_files _ _ _ b1) as [[[]|x] b2].
Qed.

Lemma filed_done {A} (m : M broker A) : filed m → filed (done m).
Proof using. intros Hm. apply filed_then; [done|]. by intros a b. Qed.

Lemma filed_activate m r a e u p n : valid_datetime u → filed (activate_ m r a e u p n).
Proof using Hstate Hwf Hiso.
  intros Hu. apply filed_lift. intros observed _. apply filed_lift. intros active Ha.
  apply lease_create_inv in Ha as (Hl & _); [|by apply Hu]. apply filed_with_state, at_state.
  destruct (bs_active s0) as [current|] eqn:Ec; [|by apply safe_activate_new].
  destruct (same_master _ _ _ _ _) eqn:Es; [|by apply safe_activate_new]. apply same_master_inv in Es as (?&?&?&?).
  by apply safe_activate_replay.
Qed.

Lemma filed_issue m r a e k v n : valid_datetime v → filed (issue_ m r a e k v n).
Proof using Hstate Hwf Hiso Hsha.
  intros Hv. unfold issue_public_key. repeat (apply filed_lift; intros ? ?). do 2 (apply filed_after; [apply quiet_probe|intros _]).
  apply filed_lift. intros key _. apply filed_with_state, safe_issue; eauto.
Qed.

(** Every call writes only what its session may write. *)
Lemma filed_step c : valid_call c → filed (tunnel_step c).
Proof using Hstate Hwf Hiso Hsha Hsign.
  destruct c; cbn [valid_call tunnel_step]; intros Hv; try apply filed_done.
  - by apply filed_activate.
  - repeat (apply filed_lift; intros ? ?). apply filed_with_state, safe_renew; eauto.
  - by apply filed_issue.
  - do 3 (apply filed_after; [apply quiet_probe|intros _]). apply filed_lift. intros key _.
    apply filed_then; [by apply filed_issue|]. intros c. apply quiet_bind; [apply quiet_probe|]. by intros _ b.
  - unfold issue_worker_public_key. repeat (apply filed_lift; intros ? ?). do 2 (apply filed_after; [apply quiet_probe|intros _]).
    apply filed_lift. intros key _. apply filed_with_state, safe_issue_worker; eauto using uuid_field_again.
  - repeat (apply filed_lift; intros ? ?). apply filed_after; [by intros b; unfold raise_if; destruct (_ || _)|intros _].
    by apply filed_with_state, safe_revoke_worker.
  - repeat (apply filed_lift; intros ? ?). apply filed_after; [by intros b; unfold raise_if; destruct (_ || _)|intros _].
    by apply filed_with_state, safe_revoke.
  - repeat (apply filed_lift; intros ? ?). apply filed_after; [by intros b; unfold raise_if; destruct (negb _)|intros _].
    by apply filed_with_state, safe_deactivate.
  - apply filed_lift. intros observed _. by apply filed_with_state, safe_reconcile.
  - repeat (apply filed_lift; intros ? ?). apply filed_with_state, at_state, at_lift. intros l _.
    destruct (newest _); [apply at_ret|apply at_raise].
  - repeat (apply filed_lift; intros ? ?). apply filed_after; [by intros b; unfold raise_if; destruct (_ || _)|intros _].
    apply filed_with_state, at_state. destruct (bs_active s0); [|apply at_raise]. destruct (List.find _ _); [|apply at_raise].
    apply at_raise_if. intros _. apply at_ret.
Qed.

End call.

(** ** What a call that returned has done *)

Record view := mk_view {
  v_state : option json; v_principals : option string; v_krl : option revocation_list; v_object : BrokerState;
}.

Definition view_of (w : session) : view := mk_view (bk_state w.1) (bk_principals w.1) (bk_krl w.1) w.2.

(** [yields m v Q]: when [m] starts with [v] and returns, [Q] holds. *)
Definition yields {A} (m : M session A) (v : view) (Q : A → view → Prop) : Prop :=
  ∀ w a w', view_of w = v → m w = (Ret a, w') → Q a (view_of w').

Lemma yields_bind {A B} (m : M session A) (k : A → M session B) v Q :
  yields m v (λ a v', yields (k a) v' Q) → yields (mbind k m) v Q.
Proof using.
  intros Hm w b w' Hv. unfold mbind, M_bind. destruct (m w) as [[a|e] w1] eqn:Em; [|done]. intros Hk.
  by apply (Hm w a w1 Hv Em w1 b w').
Qed.

Lemma yields_conseq {A} (m : M session A) v (Q Q' : A → view → Prop) : yields m v Q → (∀ a v, Q a v → Q' a v) → yields m v Q'.
Proof using. intros Hm HQ w a w' Hv Hr. by apply HQ, (Hm w). Qed.

Lemma yields_ret {A} (a : A) v (Q : A → view → Prop) : Q a v → yields (mret a) v Q.
Proof using. by intros HQ w x w' <- [= <- <-]. Qed.

Lemma yields_raise {A} c msg v (Q : A → view → Prop) : yields (raise c msg) v Q.
Proof using. by intros w x w' _ [=]. Qed.

Lemma yields_raise_if c cls msg v (Q : unit → view → Prop) : (c = false → Q tt v) → yields (raise_if c cls msg) v Q.
Proof using. intros HQ w [] w' <-. unfold raise_if. destruct c; [done|]. intros [= <-]. by apply HQ. Qed.

Lemma yields_lift {A} (o : outcome A) v (Q : A → view → Prop) : (∀ a, o = Ret a → Q a v) → yields (lift o) v Q.
Proof using. intros HQ w a w' <-. unfold lift. destruct o; [|done]. intros [= <- <-]. by apply HQ. Qed.

Lemma yields_state v (Q : BrokerState → view → Prop) : Q (v_object v) v → yields (the_state : M session BrokerState) v Q.
Proof using. by intros HQ w a w' <- [= <- <-]. Qed.

Lemma yields_mutate f st p k s (Q : unit → view → Prop) : Q tt (mk_view st p k (f s)) → yields (mutate f) (mk_view st p k s) Q.
Proof using. by intros HQ [b x] a w' [= <- <- <- <-] [= <- <-]. Qed.

Lemma yields_access f st p k s (Q : unit → view → Prop) :
  (∀ b, bk_state b = st → bk_principals b = p → bk_krl b = k → Q tt (view_of (f b, s))) →
  yields (on_files (access fault f)) (mk_view st p k s) Q.
Proof using.
  intros HQ [b x] [] w' [= <- <- <- <-]. unfold on_files, access. cbn. destruct (fault _); [done|]. intros [= <-]. by apply HQ.
Qed.

Lemma yields_principal l st p k s (Q : unit → view → Prop) :
  Q tt (mk_view st (Some (principal_line l)) k s) → yields (on_files (write_principal fault l)) (mk_view st p k s) Q.
Proof using. intros HQ. apply yields_access. by intros b <- <- <-. Qed.

Lemma yields_terminate n v (Q : unit → view → Prop) : Q tt v → yields (on_files (terminate fault n)) v Q.
Proof using. destruct v. intros HQ. apply yields_access. by intros b <- <- <-. Qed.

Lemma yields_object {A} (m : BrokerState → M session A) st p k s Q :
  yields (m s) (mk_view st p k s) Q → yields (s ← gets snd; m s) (mk_view st p k s) Q.
Proof using. intros Hm [b x] a w' [= <- <- <- <-]. by apply Hm. Qed.

Lemma yields_save st p k s (Q : unit → view → Prop) :
  Q tt (mk_view (Some (state_to_json s)) p k s) → yields (save fault) (mk_view st p k s) Q.
Proof using.
  intros HQ. apply yields_object, yields_access. by intros b <- <- <-.
Qed.

Lemma yields_revocations st p k s (Q : unit → view → Prop) :
  Q tt (mk_view st p (Some (Serials (bs_revoked s))) s) → yields (write_revocations fault) (mk_view st p k s) Q.
Proof using.
  intros HQ. apply yields_object, yields_access. by intros b <- <- <-.
Qed.

Lemma yields_workers now v (Q : unit → view → Prop) :
  Q tt v → yields (write_workers fromisoformat fault system_time now) v Q.
Proof using.
  intros HQ [b s] a w' <-. unfold write_workers, write_worker_principals, on_files, mbind, M_bind, lift, access, gets. cbn.
  destruct now as [t|]; cbn; destruct (worker_file _ _ _); try done; cbn; destruct (fault _); try done; by intros [= <- <-].
Qed.

Lemma yields_terminate_workers v (Q : unit → view → Prop) :
  Q tt v → yields (terminate_workers_if_issued fault worker_account) v Q.
Proof using.
  destruct v as [st p k s]. intros HQ. apply yields_object. case_bool_decide; [by apply yields_ret|by apply yields_terminate].
Qed.

(** A call that failed closed does not return. *)
Lemma yields_guarded {A} (m : M session A) v Q : yields m v Q → yields (guarded fault account worker_account m) v Q.
Proof using.
  intros Hm w a w' Hv. unfold guarded, except_exception, try_except. destruct (m w) as [[x|e] w1] eqn:Em.
  - intros [= <- <-]. by apply (Hm w).
  - destruct (killed e); [done|]. unfold mbind, M_bind. by destruct (fail_closed _ _ _ w1) as [[[]|?] ?].
Qed.

Abbreviation with_state_ := (with_state sha256 fromisoformat fault account worker_account).

(** A call that returned ran its session on the loaded state. *)
Lemma with_state_runs {A} (m : M session A) b s a b' :
  bk_state b = Some (state_to_json s) → wf s → with_state_ m b = (Ret a, b') →
  ∃ b2 s', same_files b b2 ∧ m (b2, s) = (Ret a, (b', s')).
Proof using Hiso.
  intros Es Hs Hr. revert Hr. unfold with_state. unfold mbind at 1, M_bind at 1.
  pose proof (quiet_probe fault b) as Hq. destruct (probe fault b) as [[[]|e] b1]; [|done]. cbn in Hq.
  assert (same_files b b1) as Hb by done. pose proof (load_same b s Es Hs b1 Hb) as Hl. unfold mbind, M_bind.
  unfold load_or_fail_closed, except_exception, try_except.
  destruct (load _ _ _ b1) as [[s1|e] b2]; [destruct Hl as [-> Hf]|].
  - unfold run_session. destruct (m (b2, s)) as [o [b3 s3]] eqn:Em. intros [= -> ->]. by exists b2, s3.
  - destruct (killed e); [done|]. unfold mbind, M_bind. by destruct (fail_closed_files _ _ _ b2) as [[[]|?] ?].
Qed.

Lemma with_state_yields {A} (m : M session A) b s a b' Q :
  bk_state b = Some (state_to_json s) → wf s → with_state_ m b = (Ret a, b') →
  yields m (view_of (b, s)) Q → ∃ s', Q a (view_of (b', s')).
Proof using Hiso.
  intros Es Hs Hr Hm. destruct (with_state_runs m b s a b' Es Hs Hr) as (b2 & s' & (E1 & E2 & E3) & Hrun).
  exists s'. apply (Hm (b2, s)); [|done]. unfold view_of. cbn. by rewrite E1, E2, E3.
Qed.

(** ... and left a well-formed object. *)
Lemma with_state_safe {A} (m : M session A) b s a b' Q :
  bk_state b = Some (state_to_json s) → wf s → with_state_ m b = (Ret a, b') → safe_at sha256 b s s m →
  yields m (view_of (b, s)) Q → ∃ s', wf s' ∧ Q a (view_of (b', s')).
Proof using Hiso.
  intros Es Hs Hr Hsafe Hm. destruct (with_state_runs m b s a b' Es Hs Hr) as (b2 & s' & (E1 & E2 & E3) & Hrun).
  exists s'. split; [|apply (Hm (b2, s)); [|done]; unfold view_of; cbn; by rewrite E1, E2, E3].
  assert (inv sha256 b s (b2, s)) as Hi by (split_and!; [done|done|by apply same_files_ok]). specialize (Hsafe (b2, s) Hi eq_refl).
  rewrite Hrun in Hsafe. by destruct Hsafe as [(Hw & _) _].
Qed.

Lemma lift_ret_inv {A B} (o : outcome A) (k : A → M broker B) b c b' :
  mbind k (lift o) b = (Ret c, b') → ∃ a, o = Ret a ∧ k a b = (Ret c, b').
Proof using. unfold mbind, M_bind, lift. destruct o; [|done]. eauto. Qed.
End calls.

(** Walk over a body that returned. *)
Ltac walk := repeat match goal with
  | |- yields (mbind _ _) _ _ => apply yields_bind
  | |- yields the_state _ _ => apply yields_state; cbn [v_object]
  | |- yields (lift _) _ _ => apply yields_lift; intros ? ?
  | |- yields (raise_if _ _ _) _ _ => apply yields_raise_if; intros ?
  | |- yields (mutate _) _ _ => apply yields_mutate
  | |- yields (save _) _ _ => apply yields_save
  | |- yields (write_revocations _) _ _ => apply yields_revocations
  | |- yields (write_workers _ _ _ _) _ _ => apply yields_workers
  | |- yields (terminate_workers_if_issued _ _) _ _ => apply yields_terminate_workers
  | |- yields (on_files (write_principal _ _)) _ _ => apply yields_principal
  | |- yields (on_files (terminate _ _)) _ _ => apply yields_terminate
  | |- yields (Tunnel.guarded _ _ _ _) _ _ => apply yields_guarded
  | |- yields (mret _) _ _ => apply yields_ret
  | |- yields (raise _ _) _ _ => apply yields_raise
  end.

