(* ===== verification/TunnelFencing.v ===== *)
(** * TunnelFencing: old masters stay out

    Executions of the tunnel broker ([tunnel_call], [tunnel_run]) and what sshd
    can admit in them: the durable state is always readable, an epoch that was
    superseded or deactivated is never admitted again, and its certificates stay
    revoked. *)

From S2P Require Import Prelude Time Json Uuid Tunnel TunnelState TunnelSafety TunnelCalls.

(** ** What sshd admits

    Each of the two accounts has its own principals file; both have the same
    key revocation list ([render_sshd_config]).  A certificate is accepted when
    one of its principals ends a line of the account's file (options come before
    it) and the list, which must be readable, does not deny its serial. *)

Inductive sshd_account := MasterAccount | WorkerAccount.

Fixpoint lines (text : string) : list string :=
  match text with
  | EmptyString => []
  | String c rest =>
      if c == "010"%char then "" :: lines rest
      else match lines rest with [] => [String c ""] | l :: ls => String c l :: ls end
  end.

Abbreviation no_space := (string_forallb (λ c, c != " "%char)).

(** The text after the last space. *)
Fixpoint last_word (line : string) : string :=
  match line with
  | EmptyString => ""
  | String c rest => if no_space rest then if c == " "%char then rest else line else last_word rest
  end.

Definition denied (krl : option revocation_list) (serial : Z) : bool :=
  match krl with Some (Serials revoked) => mem serial revoked | Some WholeAuthority | None => true end.

Definition principals_file (b : broker) (user : sshd_account) : option string :=
  match user with MasterAccount => bk_principals b | WorkerAccount => bk_worker_principals b end.

Definition sshd_admits (b : broker) (user : sshd_account) (principal : string) (serial : Z) : bool :=
  match principals_file b user with
  | Some text => mem principal (map last_word (lines text)) && negb (denied (bk_krl b) serial)
  | None => false
  end.

(** One word on one line. *)
Abbreviation one_word := (string_forallb (λ c, (c != "010"%char) && (c != " "%char))).

Lemma lines_one p : one_word p = true → map last_word (lines (p +:+ newline)) = [p].
Proof.
  intros Hp. assert (lines (p +:+ newline) = [p] ∧ no_space p = true) as [-> Hs].
  { induction p as [|c p IH]; [done|]. rewrite string_app_cons. cbn [lines string_forallb] in *. apply andb_true_iff in Hp as [[Hc Hc']%andb_true_iff Hp].
    destruct (IH Hp) as [-> ->]. destruct (c == "010"%char); [done|]. by rewrite Hc'. }
  cbn. f_equal. destruct p as [|c p]; [done|]. cbn in Hs |- *. apply andb_true_iff in Hs as [Hc ->]. by destruct (c == " "%char).
Qed.

Lemma string_forallb_impl (f g : Ascii.ascii → bool) s :
  (∀ c, f c = true → g c = true) → string_forallb f s = true → string_forallb g s = true.
Proof. intros Hfg. induction s as [|c s IH]; [done|]. cbn. intros [Hc Hs]%andb_true_iff. by rewrite (Hfg c Hc), IH. Qed.

Lemma string_forallb_prefix f n s : string_forallb f s = true → string_forallb f (String.substring 0 n s) = true.
Proof.
  revert n. induction s as [|c s IH]; intros [|n]; cbn; try done. intros [Hc Hs]%andb_true_iff. by rewrite Hc, IH.
Qed.

(** A master's principal is one word. *)
Lemma principal_one_word sha256 m e r a p :
  (∀ s, is_sha256 (sha256 s) = true) → principal_of sha256 m e r a = Ret p → one_word p = true.
Proof.
  intros Hsha. unfold principal_of, uuid_hex. destruct (uuid_of_text m) as [u|]; [|done].
  cbn [mbind outcome_bind]. pose proof (hex_text_hex 32 u) as Hu. generalize dependent (hex_text 32 u). intros h Hu.
  intros [= <-]. rewrite !string_forallb_app, !andb_true_iff. split_and!; [done| |done| |done|].
  - apply (string_forallb_impl is_num_char); [|apply str_int_chars]. intros c Hc. repeat case_bool_decide; subst; done.
  - apply (string_forallb_impl is_hex); [|done]. intros c Hc. repeat case_bool_decide; subst; done.
  - apply (string_forallb_prefix _ 12), (string_forallb_impl is_lower_hex).
    + intros c Hc. repeat case_bool_decide; subst; done.
    + pose proof (Hsha (r +:+ String "000"%char a)) as H. unfold is_sha256 in H. by apply andb_true_iff in H as [_ H].
Qed.

Section fencing.
Context (sha256 : string → string) (fromisoformat : string → option datetime).
Hypothesis Hiso : ∀ t, valid_instant t → fromisoformat (isoformat t) = Some (utc t).
Hypothesis Hsha : ∀ s, is_sha256 (sha256 s) = true.
Context (fault : nat → option exn) (system_time : nat → Z) (sign : string → Z → string → string → string → string → string).
Hypothesis Hsign : ∀ key serial key_id principal from until,
  startswith certificate_prefix (strip (sign key serial key_id principal from until)) = true.
Context (account worker_account : string).
Abbreviation session := (broker * BrokerState)%type.
Abbreviation wf := (wf sha256).
Abbreviation lease_ok := (lease_ok sha256).
Abbreviation files_ok := (files_ok sha256).
Abbreviation activate_ := (activate sha256 fromisoformat fault system_time account worker_account).
Abbreviation deactivate_ := (deactivate sha256 fromisoformat fault system_time account worker_account).
Abbreviation tunnel_step := (tunnel_step sha256 fromisoformat fault system_time sign account worker_account).
Abbreviation tunnel_run := (tunnel_run sha256 fromisoformat fault system_time sign account worker_account).

(** ** Executions *)

(** The directory has a readable, well-formed state, no principal of an epoch
    below [f] may be admitted any more, and the serials of [dead] are denied. *)
Definition fences (f : Z) (dead : list Z) (b : broker) : Prop :=
  (∃ s, bk_state b = Some (state_to_json s) ∧ wf s ∧ f ≤ floor s ∧ ∀ n, n ∈ dead → n ∈ bs_revoked s) ∧
  (∀ text, bk_principals b = Some text → text = "" ∨ ∃ l, text = principal_line (Some l) ∧ lease_ok l ∧ f ≤ tl_epoch l) ∧
  (∀ n, n ∈ dead → denied (bk_krl b) n = true).

Lemma fences_step f dead c b : valid_call c → fences f dead b → fences f dead (tunnel_step c b).2.
Proof using Hiso Hsha Hsign.
  intros Hc ((s & Es & Hs & Hf & Hd) & Hp & Hk).
  destruct (filed_step _ _ Hiso Hsha fault system_time _ Hsign account worker_account b s Es Hs c Hc b ltac:(done)) as (H1 & H2 & H3).
  split_and!.
  - destruct H1 as [->|(s' & E' & Hs' & Hfl & Hr & _)]; [by exists s|]. exists s'. split_and!; [done|done|lia|auto].
  - intros text E. destruct H2 as [E2|[E2|(l & E2 & Hl & Hfl)]]; rewrite E2 in E; [by apply Hp|injection E as <-; by left|].
    injection E as <-. right. exists l. split_and!; [done..|lia].
  - intros n Hn. destruct H3 as [->|[->|(r & -> & Hr)]]; [by apply Hk|done|]. apply mem_true. auto.
Qed.

Lemma fences_run f dead cs b : Forall valid_call cs → fences f dead b → fences f dead (tunnel_run cs b).
Proof using Hiso Hsha Hsign.
  intros Hcs. revert b. induction Hcs as [|c cs Hc _ IH]; intros b Hb; [done|]. by apply IH, fences_step.
Qed.

(** What a fence means to sshd. *)
Lemma fences_epoch f dead b m e r a p n :
  fences f dead b → 0 ≤ e < f → principal_of sha256 m e r a = Ret p → sshd_admits b MasterAccount p n = false.
Proof using Hsha.
  intros (_ & Hp & _) He Hm. unfold sshd_admits, principals_file. destruct (bk_principals b) as [text|]; [|done].
  apply andb_false_iff. left. apply mem_false. destruct (Hp text eq_refl) as [->|(l & -> & Hl & Hf)]; [by intros ?%elem_of_nil|].
  destruct Hl as (Hi & _ & _ & _ & _ & Hn). cbn [principal_line]. rewrite lines_one by by eapply principal_one_word.
  intros ->%list_elem_of_singleton. enough (e = tl_epoch l) by lia. eapply principal_epoch; [lia|lia|exact Hm|exact Hn].
Qed.

Lemma fences_serial f dead b user p n : fences f dead b → n ∈ dead → sshd_admits b user p n = false.
Proof using.
  intros (_ & _ & Hk) Hn. unfold sshd_admits. destruct (principals_file b user); [|done]. rewrite (Hk n Hn). apply andb_false_r.
Qed.

(** The certificates of epochs below [e]. *)
Definition serials_below (e : Z) (s : BrokerState) : list Z :=
  map ic_serial (List.filter (λ c, ic_epoch c <? e) (bs_issued s)) ++ map wc_serial (List.filter (λ w, wc_epoch w <? e) (bs_workers s)).

Lemma serials_below_all e s n : n ∈ serials_below e s → n ∈ all_serials s.
Proof using.
  unfold serials_below, all_serials. rewrite !elem_of_app.
  intros [(c & -> & [Hc _]%list_elem_of_In%filter_In)%list_elem_of_fmap|(c & -> & [Hc _]%list_elem_of_In%filter_In)%list_elem_of_fmap];
    [left|right]; by apply list_elem_of_fmap_2, list_elem_of_In.
Qed.

(** Certificates below the active epoch are revoked. *)
Lemma serials_below_revoked s l n : wf s → bs_active s = Some l → n ∈ serials_below (tl_epoch l) s → n ∈ bs_revoked s.
Proof using.
  intros Hs El Hn. destruct (decide (n ∈ bs_revoked s)) as [|Hr]; [done|exfalso].
  destruct Hs as (_ & _ & _ & _ & _ & _ & _ & _ & _ & _ & Ho1 & Ho2). unfold serials_below in Hn. apply elem_of_app in Hn.
  destruct Hn as [(c & -> & [Hc He]%list_elem_of_In%filter_In)%list_elem_of_fmap|(c & -> & [Hc He]%list_elem_of_In%filter_In)%list_elem_of_fmap];
    apply list_elem_of_In in Hc; apply Z.ltb_lt in He.
  - destruct (Ho1 c Hc Hr) as (x & E & Ht). rewrite El in E. injection E as <-. unfold issued_to in Ht. b2p. destruct Ht; lia.
  - destruct (Ho2 c Hc Hr) as (x & E & _ & Ht). rewrite El in E. injection E as <-. lia.
Qed.

(** The files agree with the state [s]. *)
Definition published (s : BrokerState) (v : view) : Prop :=
  v_state v = Some (state_to_json s) ∧ v_principals v = Some (principal_line (bs_active s)) ∧ v_krl v = Some (Serials (bs_revoked s)).

Lemma published_fences s b s' f dead :
  published s (view_of (b, s')) → wf s → f ≤ floor s → (∀ n, n ∈ dead → n ∈ bs_revoked s) → fences f dead b.
Proof using.
  intros (E1 & E2 & E3) Hs Hf Hd. cbn in E1, E2, E3. split_and!.
  - by exists s.
  - intros text. rewrite E2. intros [= <-]. destruct (bs_active s) as [l|] eqn:El; [right|by left]. exists l.
    destruct Hs as (_ & Ha & _). destruct (Ha l El) as [? Eh]. split_and!; [done..|]. unfold floor in Hf. rewrite El in Hf. lia.
  - intros n Hn. rewrite E3. by apply mem_true, Hd.
Qed.

Lemma activate_new_yields s b active observed :
  wf s → lease_ok active →
  yields (activate_new fromisoformat fault system_time account worker_account active observed) (view_of (b, s)) (λ l v,
    l = active ∧ ∃ s', published s' v ∧ wf s' ∧ bs_active s' = Some l ∧ ∀ n, n ∈ all_serials s → n ∈ bs_revoked s').
Proof using.
  intros Hs Hl. unfold activate_new, view_of. walk. split; [done|]. eexists. split; [by split_and!|].
  assert (floor s ≤ tl_epoch active) by (apply Z.leb_gt in H0; unfold floor; destruct (bs_active s); cbn in H0; lia).
  match goal with |- TunnelState.wf _ (set_active _ (set_highest _ ?s1)) ∧ _ =>
    assert (all_revoked s1) as Hall; [|destruct (wf_revoke sha256 (List.filter (λ n, negb (mem n (bs_revoked s))) (all_serials s)) s Hs) as [Hw _]] end.
  - intros n Hn. cbn. apply elem_of_sorted_union. destruct (decide (n ∈ bs_revoked s)) as [|Hr]; [by left|right].
    apply list_elem_of_In, filter_In. split; [by apply list_elem_of_In|]. by rewrite (proj2 (mem_false _ _) Hr).
  - intros n [Hn _]%list_elem_of_In%filter_In. by apply list_elem_of_In.
  - split_and!; [by apply wf_new|done|exact Hall].
Qed.

Lemma activate_replay_yields s b current active observed :
  bk_state b = Some (state_to_json s) → wf s → bs_active s = Some current → lease_ok active → same_identity current active →
  yields (activate_replay fromisoformat fault system_time account worker_account current active observed) (view_of (b, s)) (λ l v,
    tl_epoch l = tl_epoch current ∧ ∃ s', published s' v ∧ wf s' ∧ bs_active s' = Some l ∧ bs_revoked s' = bs_revoked s).
Proof using.
  intros Eb Hs Ec Hl Hi. unfold activate_replay, view_of. cbn [fst snd]. rewrite Eb. walk. destruct (tl_until current <=? observed).
  { walk. }
  destruct (tl_until active <=? tl_until current); walk;
    [rewrite bool_decide_eq_true_2 by done|destruct (active == current) eqn:Ea; b2p]; walk.
  - split; [done|]. exists s. split_and!; try done. unfold published. cbn. by rewrite Ec.
  - split; [by destruct Hi as (_ & _ & _ & ->)|]. exists s. subst. split_and!; try done. unfold published. cbn. by rewrite Ec.
  - split; [by destruct Hi as (_ & _ & _ & ->)|]. eexists. split; [by split_and!|]. split_and!; [|done..].
    by apply (wf_same_identity sha256 s current).
Qed.

(** What [activate] leaves when it returns a lease. *)
Definition activated (s : BrokerState) (l : ActiveTunnelLease) (v : view) : Prop :=
  ∃ s1, published s1 v ∧ wf s1 ∧ bs_active s1 = Some l ∧ ∀ n, n ∈ serials_below (tl_epoch l) s → n ∈ bs_revoked s1.

Lemma activate_publishes m r a e u p n b s l b1 :
  bk_state b = Some (state_to_json s) → wf s → valid_datetime u → activate_ m r a e u p n b = (Ret l, b1) →
  ∃ s1, published s1 (view_of (b1, s1)) ∧ wf s1 ∧ bs_active s1 = Some l ∧ ∀ n, n ∈ serials_below (tl_epoch l) s → n ∈ bs_revoked s1.
Proof using Hiso.
  intros Eb Hs Hu (observed & _ & (active & Ha & Hr)%lift_ret_inv)%lift_ret_inv.
  apply lease_create_inv in Ha as (Hl & _); [|by apply Hu].
  eapply (with_state_yields _ _ Hiso _ _ _ _ _ _ _ _ (activated s)) in Hr; [|done..|].
  - destruct Hr as (s' & s1 & Hp & Hr). exists s1. by split.
  - apply yields_bind, yields_state. cbn [v_object view_of].
    assert (yields (activate_new fromisoformat fault system_time account worker_account active observed) (view_of (b, s))
      (activated s)) as Hnew.
    { eapply yields_conseq; [by apply activate_new_yields|]. intros l' v (-> & s1 & ? & ? & ? & Hall).
      exists s1. split_and!; [done..|]. intros k Hk. by apply Hall, (serials_below_all _ _ _ Hk). }
    cbn [snd]. destruct (bs_active s) as [current|] eqn:Ec; [|exact Hnew].
    destruct (same_master _ _ _ _ _) eqn:Es; [|exact Hnew]. apply same_master_inv in Es as (?&?&?&?).
    eapply yields_conseq; [by apply activate_replay_yields|]. intros l' v (Ee & s1 & ? & ? & ? & Er).
    exists s1. split_and!; [done..|]. intros k. rewrite Ee, Er. by apply serials_below_revoked.
Qed.

Lemma deactivate_publishes m r a e why b s l b1 :
  bk_state b = Some (state_to_json s) → wf s → bs_active s = Some l → deactivate_ m r a e why b = (Ret tt, b1) →
  ∃ s1, published s1 (view_of (b1, s1)) ∧ wf s1 ∧ bs_active s1 = None ∧ bs_highest s1 = tl_epoch l ∧
    ∀ n, n ∈ all_serials s → n ∈ bs_revoked s1.
Proof using Hiso.
  intros Eb Hs El (ie & _ & (ra & _ & Hr)%lift_ret_inv)%lift_ret_inv. revert Hr. unfold mbind, M_bind, raise_if.
  destruct (negb (is_reason why)); [done|]. intros Hr. eapply (with_state_yields _ _ Hiso _ _ _ _ _ _ _ _ (λ _ v,
    ∃ s1, published s1 v ∧ wf s1 ∧ bs_active s1 = None ∧ bs_highest s1 = tl_epoch l ∧ ∀ n, n ∈ all_serials s → n ∈ bs_revoked s1)) in Hr;
    [|done..|].
  - destruct Hr as (s' & s1 & Hp & Hr). exists s1. by split.
  - unfold deactivate_session, view_of. walk. cbn [fst snd]. rewrite El. walk. match goal with H : negb _ = false |- _ =>
      apply negb_false_iff, same_master_inv in H as (<- & <- & <- & <-) end.
    pose proof (revoke_of_active sha256 s l Hs El) as Hall. eexists. split; [by split_and!|].
    destruct (revoke_of_wf sha256 s (tl_master l) (tl_run l) (tl_attempt l) (tl_epoch l) Hs) as [Hw _].
    split_and!; [by apply wf_set_none|done|by destruct Hs as (_ & Ha & _); destruct (Ha l El)|exact Hall].
Qed.

Lemma fences_init b b1 : initialize fromisoformat fault system_time b = (Ret tt, b1) → fences 1 [] b1.
Proof using.
  unfold initialize, mbind, M_bind, get. do 3 (destruct (probe fault _) as [[[]|?] ?]; [|done]).
  destruct (bk_state _) eqn:?; [done|]. destruct (bk_principals _) eqn:?; [done|]. destruct (bk_worker_principals _) eqn:?; [done|].
  destruct (bk_krl _) eqn:?; [done|]. unfold write_principal, write_worker_principals, write_krl, access, mbind, M_bind, gets, lift. cbn.
  do 4 (destruct (fault _); [done|]; cbn). intros [= <-]. apply (published_fences BrokerState_empty _ BrokerState_empty); [done|apply empty_wf|done|].
  by intros n ?%elem_of_nil.
Qed.

(** The directories a broker can be left with. *)
Definition reachable (b : broker) : Prop :=
  ∃ b0 b1 cs, initialize fromisoformat fault system_time b0 = (Ret tt, b1) ∧ Forall valid_call cs ∧ b = tunnel_run cs b1.

Lemma reachable_fences b : reachable b → fences 1 [] b.
Proof using Hiso Hsha Hsign. intros (b0 & b1 & cs & Hi & Hcs & ->). eapply fences_run, fences_init; eauto. Qed.

(** The state the next call will load. *)
Definition durable_state (b : broker) : option BrokerState :=
  match bk_state b with
  | Some d => match state_from_json sha256 fromisoformat d with Ret s => Some s | Exc _ => None end
  | None => None
  end.

Lemma fences_durable f dead b s :
  fences f dead b → durable_state b = Some s → bk_state b = Some (state_to_json s) ∧ wf s ∧ f ≤ floor s.
Proof using Hiso.
  intros ((s' & E & Hs & Hf & _) & _). unfold durable_state. rewrite E, (state_reads_back _ _ Hiso _ Hs). by intros [= <-].
Qed.

Lemma published_durable s b s' : published s (view_of (b, s')) → wf s → durable_state b = Some s.
Proof using Hiso.
  intros (E & _) Hs. cbn in E. unfold durable_state. by rewrite E, (state_reads_back _ _ Hiso _ Hs).
Qed.

(** ** Theorems *)


(** What [activate] does when it returns a lease: the state file holds the
    lease as the active one, and sshd admits exactly its principal, with every
    serial that is not revoked. *)
Theorem activate_admits_only_its_lease master run attempt epoch lease_until port now b l b1 :
  reachable b → valid_datetime lease_until →
  activate sha256 fromisoformat fault system_time account worker_account master run attempt epoch lease_until port now b = (Ret l, b1) →
  ∃ s1, durable_state b1 = Some s1 ∧ bs_active s1 = Some l ∧
    ∀ p n, sshd_admits b1 MasterAccount p n = true ↔ p = tl_principal l ∧ n ∉ bs_revoked s1.
Proof using Hiso Hsha Hsign.
  intros ((s & E & Hs & _) & _)%reachable_fences Hu Ha. destruct (activate_publishes _ _ _ _ _ _ _ _ _ _ _ E Hs Hu Ha) as (s1 & Hp & Hs1 & El & _).
  exists s1. split_and!; [by eapply published_durable|done|]. intros p n. destruct Hp as (_ & E2 & E3). cbn in E2, E3.
  unfold sshd_admits, principals_file. rewrite E2, E3, El. cbn [principal_line denied]. destruct Hs1 as (_ & Hl & _).
  destruct (Hl l El) as [(_ & _ & _ & _ & _ & Hn) _]. rewrite lines_one by by eapply principal_one_word.
  rewrite andb_true_iff, negb_true_iff, mem_true, mem_false, list_elem_of_singleton. done.
Qed.

(** C10: a superseded master stays out.  After [activate] returned a lease, no
    later call, failure or crash makes sshd admit on the master account a
    principal of a smaller epoch, nor, on either account, any certificate that
    was issued for one. *)
Theorem superseded_master_stays_out master run attempt epoch lease_until port now b s l b1 cs :
  reachable b → durable_state b = Some s → valid_datetime lease_until →
  activate sha256 fromisoformat fault system_time account worker_account master run attempt epoch lease_until port now b = (Ret l, b1) →
  Forall valid_call cs →
  (∀ m e r a p n, 0 ≤ e < tl_epoch l → principal_of sha256 m e r a = Ret p → sshd_admits (tunnel_run cs b1) MasterAccount p n = false) ∧
  (∀ user p n, n ∈ serials_below (tl_epoch l) s → sshd_admits (tunnel_run cs b1) user p n = false).
Proof using Hiso Hsha Hsign.
  intros Hr%reachable_fences Ed Hu Ha Hcs. destruct (fences_durable _ _ _ _ Hr Ed) as (E & Hs & _).
  destruct (activate_publishes _ _ _ _ _ _ _ _ _ _ _ E Hs Hu Ha) as (s1 & Hp & Hs1 & El & Hd).
  assert (fences (tl_epoch l) (serials_below (tl_epoch l) s) (tunnel_run cs b1)) as Hf.
  { apply fences_run, (published_fences s1 _ s1); try done. unfold floor. rewrite El. destruct Hs1 as (_ & H & _).
    destruct (H l El). lia. }
  split; [intros; by eapply fences_epoch|intros; by eapply fences_serial].
Qed.

(** C11: a deactivated master and its workers stay out.  After [deactivate] of the
    active lease returned, no later call, failure or crash makes sshd admit on the
    master account a principal of its epoch or of an older one, nor, on either
    account, any certificate issued until then.  The worker principals may still
    be in their file: it is the revocation list that keeps the workers out. *)
Theorem deactivated_master_stays_out master run attempt epoch reason b s l b1 cs :
  reachable b → durable_state b = Some s → bs_active s = Some l →
  deactivate sha256 fromisoformat fault system_time account worker_account master run attempt epoch reason b = (Ret tt, b1) →
  Forall valid_call cs →
  (∀ m e r a p n, 0 ≤ e ≤ tl_epoch l → principal_of sha256 m e r a = Ret p → sshd_admits (tunnel_run cs b1) MasterAccount p n = false) ∧
  (∀ user p n, n ∈ all_serials s → sshd_admits (tunnel_run cs b1) user p n = false).
Proof using Hiso Hsha Hsign.
  intros Hr%reachable_fences Ed El Ha Hcs. destruct (fences_durable _ _ _ _ Hr Ed) as (E & Hs & _).
  destruct (deactivate_publishes _ _ _ _ _ _ _ _ _ E Hs El Ha) as (s1 & Hp & Hs1 & En & Eh & Hd).
  assert (fences (tl_epoch l + 1) (all_serials s) (tunnel_run cs b1)) as Hf.
  { apply fences_run, (published_fences s1 _ s1); try done. unfold floor. rewrite En, Eh. done. }
  split; [intros; eapply fences_epoch; [done| |done]; lia|intros; by eapply fences_serial].
Qed.
End fencing.

(** ** A succession of two masters *)

Module Succession.
Definition digest (s : string) : string := "aaaaaaaaaaaaaaaaaaaaaaaaaaaaaaaaaaaaaaaaaaaaaaaaaaaaaaaaaaaaaaaa".
Definition sound (n : nat) : option exn := None.
Definition clock (n : nat) : Z := 63900000000 * MICRO.
Definition keygen (key : string) (serial : Z) (key_id principal from until : string) : string := certificate_prefix +:+ "AAAA".

Lemma digest_ok s : is_sha256 (digest s) = true.
Proof. reflexivity. Qed.

Lemma keygen_ok key serial key_id principal from until :
  startswith certificate_prefix (strip (keygen key serial key_id principal from until)) = true.
Proof. reflexivity. Qed.

Lemma utc_ok t : valid_instant t → valid_datetime (utc t).
Proof. intros Ht field t' [= <-]. by rewrite Z.sub_0_r. Qed.

Definition now : Z := 63900000000 * MICRO.
Definition until : Z := now + 300 * MICRO.
Definition first : string := "11111111-1111-4111-8111-111111111111".
Definition second : string := "22222222-2222-4222-8222-222222222222".
Definition key : string := "ssh-ed25519 AAAAC3NzaC1lZDI1NTE5 master".
Definition nothing : broker := mk_broker None None None None [] 0.
Definition fresh : broker := (initialize iso sound clock nothing).2.
Abbreviation run := (tunnel_run digest iso sound clock keygen "mdh-master-tunnel" "mdh-embedding-worker").

(** The first master is active and has a certificate. *)
Definition calls : list tunnel_call :=
  [ActivateTunnel first "run-1" "a-1" 1 (utc until) 25432 (utc now); IssueKey first "run-1" "a-1" 1 key (utc until) (utc now)].
Definition serving : broker := run calls fresh.

Lemma calls_ok : Forall valid_call calls.
Proof. by repeat (apply List.Forall_cons; [apply utc_ok|]). Qed.

Lemma serving_reachable : reachable digest iso sound clock keygen "mdh-master-tunnel" "mdh-embedding-worker" serving.
Proof. exists nothing, fresh, calls. split_and!; [vm_compute; reflexivity|apply calls_ok|reflexivity]. Qed.

Abbreviation activate_ := (activate digest iso sound clock "mdh-master-tunnel" "mdh-embedding-worker").
Abbreviation deactivate_ := (deactivate digest iso sound clock "mdh-master-tunnel" "mdh-embedding-worker").

(** The second master takes over. *)
Definition handover : outcome ActiveTunnelLease * broker := activate_ second "run-2" "a-2" 2 (utc until) 25432 (utc now) serving.
Definition lease (o : outcome ActiveTunnelLease) : ActiveTunnelLease :=
  match o with Ret l => l | Exc _ => mk_ActiveTunnelLease "" "" "" 0 0 "" 0 "" end.
Definition state_of (b : broker) : BrokerState := default BrokerState_empty (durable_state digest iso b).
Definition after : list tunnel_call := [ReconcileTunnel (utc (now + 10 * MICRO)); ActivateTunnel first "run-1" "a-1" 1 (utc until) 25432 (utc now)].

Lemma after_ok : Forall valid_call after.
Proof. apply List.Forall_cons; [done|]. by apply List.Forall_cons; [apply utc_ok|]. Qed.

(** The first master, while it serves, is admitted. *)
Example first_admitted : sshd_admits serving MasterAccount (tl_principal (default (lease handover.1) (bs_active (state_of serving)))) 1 = true.
Proof. vm_compute. reflexivity. Qed.
End Succession.


Lemma activate_admits_only_its_lease_witness : sshd_admits Succession.handover.2 MasterAccount (tl_principal (Succession.lease Succession.handover.1)) 2 = true.
Proof.
  destruct (activate_admits_only_its_lease _ _ iso_ok Succession.digest_ok _ _ _ Succession.keygen_ok _ _
    Succession.second "run-2" "a-2" 2 (utc Succession.until) 25432 (utc Succession.now) Succession.serving
    (Succession.lease Succession.handover.1) Succession.handover.2 Succession.serving_reachable) as (s & H1 & H2 & H3).
  - by apply Succession.utc_ok.
  - vm_compute. reflexivity.
  - apply H3. split; [reflexivity|]. vm_compute in H1. injection H1 as <-. by apply mem_false.
Defined.

Lemma superseded_master_stays_out_witness :
  sshd_admits (tunnel_run Succession.digest iso Succession.sound Succession.clock Succession.keygen "mdh-master-tunnel"
    "mdh-embedding-worker" Succession.after Succession.handover.2) MasterAccount
    (tl_principal (default (Succession.lease Succession.handover.1) (bs_active (Succession.state_of Succession.serving)))) 1 = false.
Proof.
  refine (proj1 (superseded_master_stays_out _ _ iso_ok Succession.digest_ok _ _ _ Succession.keygen_ok _ _
    Succession.second "run-2" "a-2" 2 (utc Succession.until) 25432 (utc Succession.now) Succession.serving
    (Succession.state_of Succession.serving) (Succession.lease Succession.handover.1) Succession.handover.2 Succession.after
    Succession.serving_reachable _ _ _ Succession.after_ok) Succession.first 1 "run-1" "a-1" _ 1 _ _).
  - vm_compute. reflexivity.
  - by apply Succession.utc_ok.
  - vm_compute. reflexivity.
  - vm_compute. split; [discriminate|reflexivity].
  - vm_compute. reflexivity.
Defined.

Lemma deactivated_master_stays_out_witness :
  let b1 := (deactivate Succession.digest iso Succession.sound Succession.clock "mdh-master-tunnel" "mdh-embedding-worker"
    Succession.first "run-1" "a-1" 1 "stopped" Succession.serving).2 in
  sshd_admits (tunnel_run Succession.digest iso Succession.sound Succession.clock Succession.keygen "mdh-master-tunnel"
    "mdh-embedding-worker" Succession.after b1) WorkerAccount "anyone" 1 = false.
Proof.
  intros b1.
  refine (proj2 (deactivated_master_stays_out _ _ iso_ok Succession.digest_ok _ _ _ Succession.keygen_ok _ _
    Succession.first "run-1" "a-1" 1 "stopped" Succession.serving (Succession.state_of Succession.serving)
    (default (Succession.lease Succession.handover.1) (bs_active (Succession.state_of Succession.serving))) b1 Succession.after
    Succession.serving_reachable _ _ _ Succession.after_ok) WorkerAccount "anyone" 1 _).
  - vm_compute. reflexivity.
  - vm_compute. reflexivity.
  - vm_compute. reflexivity.
  - vm_compute. left.
Defined.
