(* ===== verification/TunnelIssue.v ===== *)
(** * TunnelIssue: denial and certificates

    What a failed change of the tunnel broker leaves behind, and what a
    certificate it returned is: bounded in time, with a serial of its own,
    recorded before it was signed, and the same again for a worker that repeats
    its request. *)

From S2P Require Import Prelude Time Json Uuid Tunnel TunnelState TunnelSafety TunnelCalls TunnelFencing.

Section issue.
Context (sha256 : string → string) (fromisoformat : string → option datetime).
Hypothesis Hiso : ∀ t, valid_instant t → fromisoformat (isoformat t) = Some (utc t).
Hypothesis Hsha : ∀ s, is_sha256 (sha256 s) = true.
Context (fault : nat → option exn) (system_time : nat → Z) (sign : string → Z → string → string → string → string → string).
Hypothesis Hsign : ∀ key serial key_id principal from until,
  startswith certificate_prefix (strip (sign key serial key_id principal from until)) = true.
Context (account worker_account : string).
Abbreviation session := (broker * BrokerState)%type.
Abbreviation wf := (wf sha256).

(** ** Failing closed *)

Definition denial_message : string := "one or more fail-closed tunnel denial actions failed".

(** Nothing is admitted and the sessions are gone. *)
Definition closed (b : broker) : Prop :=
  bk_principals b = Some "" ∧ bk_worker_principals b = Some "" ∧ bk_krl b = Some WholeAuthority ∧
  account ∈ bk_terminated b ∧ worker_account ∈ bk_terminated b.

(** An attempt that says it did not fail has done its work. *)
Lemma attempt_false {S} (m : M S unit) w w' : attempt m w = (Ret false, w') → m w = (Ret tt, w').
Proof using.
  unfold attempt, except_exception, try_except, mbind, M_bind. destruct (m w) as [[[]|e] w1]; [by intros [= <-]|].
  by destruct (killed e).
Qed.

Lemma access_ret f b b' : access fault f b = (Ret tt, b') →
  b' = f (mk_broker (bk_state b) (bk_principals b) (bk_worker_principals b) (bk_krl b) (bk_terminated b) (S (bk_accesses b))).
Proof using. unfold access. destruct (fault _); [done|]. by intros [= <-]. Qed.

Lemma files_ret (m : M broker unit) (w w' : session) : on_files m w = (Ret tt, w') → m w.1 = (Ret tt, w'.1) ∧ w'.2 = w.2.
Proof using. unfold on_files. destruct (m w.1) as [o b]. by intros [= -> <-]. Qed.

Lemma denial_ok (fs : list bool) c msg {S} (w w' : S) :
  raise_if (denial_failed fs) c msg w = (Ret tt, w') → w' = w ∧ Forall (λ f, f = false) fs.
Proof using.
  unfold raise_if. destruct (denial_failed fs) eqn:Ed; [done|]. intros [= <-]. split; [done|].
  apply list.Forall_forall. intros x Hx. unfold denial_failed in Ed. destruct x; [|done].
  assert (existsb id fs = true) as Et by (apply existsb_exists; exists true; by rewrite <-list_elem_of_In). by rewrite Ed in Et.
Qed.

Lemma fail_closed_done b s b' s' : fail_closed fault account worker_account (b, s) = (Ret tt, (b', s')) →
  closed b' ∧ s' = close_all s ∧ bk_state b' = Some (state_to_json s').
Proof using.
  intros (f1 & w1 & H1 & (f2 & w2 & H2 & (f3 & w3 & H3 & (f4 & w4 & H4 & (f5 & w5 & H5 & (f6 & w6 & H6 &
    H)%bind_ret_inv)%bind_ret_inv)%bind_ret_inv)%bind_ret_inv)%bind_ret_inv)%bind_ret_inv.
  apply denial_ok in H as [<- HF]. rewrite !list.Forall_cons in HF. destruct HF as (-> & -> & -> & -> & -> & -> & _).
  apply attempt_false, files_ret in H1 as [E1%access_ret O1], H2 as [E2%access_ret O2], H4 as [E4%access_ret O4],
    H5 as [E5%access_ret O5], H6 as [E6%access_ret O6].
  apply attempt_false, bind_ret_inv in H3 as ([] & wm & [= <-] & H3). apply files_ret in H3 as [E3%access_ret O3].
  destruct w1 as [b1 s1], w2 as [b2 s2], w3 as [b3 s3], w4 as [b4 s4], w5 as [b5 s5]. cbn in *. subst.
  unfold closed. split_and!; cbn; try done; rewrite !elem_of_app, !list_elem_of_singleton; tauto.
Qed.

Lemma fail_closed_files_done b b' : fail_closed_files fault account worker_account b = (Ret tt, b') → closed b' ∧ bk_state b' = bk_state b.
Proof using.
  intros (f1 & w1 & H1 & (f2 & w2 & H2 & (f4 & w4 & H4 & (f5 & w5 & H5 & (f6 & w6 & H6 &
    H)%bind_ret_inv)%bind_ret_inv)%bind_ret_inv)%bind_ret_inv)%bind_ret_inv.
  apply denial_ok in H as [<- HF]. rewrite !list.Forall_cons in HF. destruct HF as (-> & -> & -> & -> & -> & _).
  apply attempt_false, access_ret in H1, H2, H4, H5, H6. subst. unfold closed. split_and!; cbn; try done; rewrite !elem_of_app, !list_elem_of_singleton; tauto.
Qed.

(** What else [_fail_closed] can end with. *)
Lemma denial_raised (fs : list bool) {S} (w w' : S) e :
  raise_if (denial_failed fs) TunnelBrokerError denial_message w = (Exc e, w') → exn_msg e = denial_message.
Proof using. unfold raise_if. destruct (denial_failed fs); [|done]. by intros [= <- <-]. Qed.

Lemma attempt_raised {S} (m : M S unit) w w' e : attempt m w = (Exc e, w') → killed e = true.
Proof using.
  unfold attempt, except_exception, try_except, mbind, M_bind. destruct (m w) as [[[]|x] w1]; [done|].
  destruct (killed x) eqn:Ek; [|done]. by intros [= <- <-].
Qed.

Definition denial_error (e : exn) : Prop := killed e = true ∨ exn_msg e = denial_message.

(** A computation whose only errors are those. *)
Definition denies {S A} (m : M S A) : Prop := ∀ w e w', m w = (Exc e, w') → denial_error e.

Lemma denies_attempt {S B} (m : M S unit) (k : bool → M S B) : (∀ f, denies (k f)) → denies (mbind k (attempt m)).
Proof using.
  intros Hk w e w'. unfold mbind, M_bind. destruct (attempt m w) as [[f|x] w1] eqn:Ea; [by apply Hk|].
  intros [= <- <-]. left. by apply attempt_raised in Ea.
Qed.

Lemma denies_end (fs : list bool) {S} : denies (raise_if (S:=S) (denial_failed fs) TunnelBrokerError denial_message).
Proof using. intros w e w' H. right. by apply denial_raised in H. Qed.

Lemma denies_fail_closed : denies (fail_closed fault account worker_account).
Proof using. repeat (apply denies_attempt; intros ?). apply denies_end. Qed.

Lemma denies_fail_closed_files : denies (fail_closed_files fault account worker_account).
Proof using. repeat (apply denies_attempt; intros ?). apply denies_end. Qed.

(** *** Where a method may stop *)

(** The directory is as it was. *)
Definition untouched (b b1 : broker) : Prop :=
  bk_state b1 = bk_state b ∧ bk_principals b1 = bk_principals b ∧ bk_worker_principals b1 = bk_worker_principals b ∧
  bk_krl b1 = bk_krl b ∧ bk_terminated b1 = bk_terminated b.

#[local] Instance untouched_preorder : PreOrder untouched.
Proof using. split; [by intros b|]. intros a b c (?&?&?&?&?) (?&?&?&?&?). unfold untouched. split_and!; congruence. Qed.

Lemma untouched_accesses b n :
  untouched b (mk_broker (bk_state b) (bk_principals b) (bk_worker_principals b) (bk_krl b) (bk_terminated b) n).
Proof using. by split_and!. Qed.

Section stops.
Context (b0 : broker) (s0 : BrokerState).
Hypothesis Hstate : bk_state b0 = Some (state_to_json s0).
Hypothesis Hwf : wf s0.

(** [_fail_closed] did all its work. *)
Definition sealed (b : broker) : Prop :=
  closed b ∧ (bk_state b = bk_state b0 ∨ ∃ s1, bs_active s1 = None ∧ bk_state b = Some (state_to_json s1)).

(** No principal of a master, and every certificate is on the list. *)
Definition emptied (b : broker) : Prop :=
  bk_principals b = Some "" ∧ ∃ s1, bk_state b = Some (state_to_json s1) ∧ wf s1 ∧ bs_active s1 = None ∧
    bk_krl b = Some (Serials (bs_revoked s1)) ∧ all_revoked s1 ∧ ∀ n, n ∈ all_serials s0 → n ∈ all_serials s1.

(** There was no lease, and the files say no more than before. *)
Definition narrowed (b : broker) : Prop :=
  bs_active s0 = None ∧ bk_state b = bk_state b0 ∧ bk_krl b = bk_krl b0 ∧ bk_principals b = Some "" ∧
  (bk_worker_principals b = bk_worker_principals b0 ∨ bk_worker_principals b = Some "").

Definition after_error (b : broker) : Prop := untouched b0 b ∨ sealed b ∨ emptied b ∨ narrowed b.

Lemma after_error_untouched b b' : after_error b → untouched b b' → after_error b'.
Proof using.
  intros Hb (E1 & E2 & E3 & E4 & E5). unfold after_error, untouched, sealed, closed, emptied, narrowed.
  by rewrite E1, E2, E3, E4, E5.
Qed.

(** [ends m w R]: from [w], [m] returns with [R] or stops where a method may
    (or it was killed, or a denial failed). *)
Definition ends {A} (m : M session A) (w : session) (R : A → session → Prop) : Prop :=
  match m w with (Ret a, w') => R a w' | (Exc e, w') => denial_error e ∨ after_error w'.1 end.

Lemma ends_bind {A B} (m : M session A) (k : A → M session B) w R :
  ends m w (λ a w', ends (k a) w' R) → ends (mbind k m) w R.
Proof using. unfold ends, mbind, M_bind. by destruct (m w) as [[a|e] w']. Qed.

Lemma ends_ret {A} (a : A) w (R : A → session → Prop) : R a w → ends (mret a) w R.
Proof using. done. Qed.

Lemma ends_raise {A} c msg w (R : A → session → Prop) : after_error w.1 → ends (raise c msg) w R.
Proof using. by right. Qed.

Lemma ends_raise_if c cls msg w R : after_error w.1 → (c = false → R tt w) → ends (raise_if c cls msg) w R.
Proof using. intros Hb HR. unfold ends, raise_if. destruct c; [by right|by apply HR]. Qed.

Lemma ends_lift {A} (o : outcome A) w R : after_error w.1 → (∀ a, o = Ret a → R a w) → ends (lift o) w R.
Proof using. intros Hb HR. unfold ends, lift. destruct o; [by apply HR|by right]. Qed.

Lemma ends_state w R : R w.2 w → ends (the_state : M session BrokerState) w R.
Proof using. done. Qed.

Lemma ends_mutate f w R : R tt (w.1, f w.2) → ends (mutate f) w R.
Proof using. done. Qed.

Lemma ends_access f w R :
  after_error w.1 → (∀ b, untouched w.1 b → R tt (f b, w.2)) → ends (on_files (access fault f)) w R.
Proof using.
  intros Hb HR. unfold ends, on_files, access. destruct w as [b s]. cbn in *. destruct (fault _).
  - right. eapply after_error_untouched; [exact Hb|apply untouched_accesses].
  - apply HR, untouched_accesses.
Qed.

Lemma ends_workers now w R :
  after_error w.1 → (∀ b text observed, untouched w.1 b → worker_file fromisoformat w.2 observed = Ret text →
    R tt (put_worker_principals text b, w.2)) → ends (write_workers fromisoformat fault system_time now) w R.
Proof using.
  destruct w as [b s]. cbn. intros Hb HR. unfold write_workers, write_worker_principals.
  assert (∀ observed, ends (on_files (content ← lift (worker_file fromisoformat s observed); access fault (put_worker_principals content)))
    (b, s) R) as H.
  { intros observed. destruct (worker_file _ s observed) as [text|e] eqn:Et; [|by right].
    apply (ends_access (put_worker_principals text) (b, s)); [done|]. intros b' Hb'. by eapply HR. }
  destruct now as [t|]; [exact (H t)|exact (H (system_time (bk_accesses b)))].
Qed.

Lemma ends_revocations w R :
  after_error w.1 → (∀ b, untouched w.1 b → R tt (put_krl (Serials (bs_revoked w.2)) b, w.2)) → ends (write_revocations fault) w R.
Proof using. exact (ends_access _ w R). Qed.

Lemma ends_terminate_workers w R :
  after_error w.1 → R tt w → (∀ b, untouched w.1 b → R tt (put_terminated worker_account b, w.2)) →
  ends (terminate_workers_if_issued fault worker_account) w R.
Proof using.
  intros Hb Hw HR. change (ends (if bs_workers w.2 == [] then mret tt else on_files (terminate fault worker_account)) w R).
  case_bool_decide; [done|]. by apply ends_access.
Qed.

(** What is guarded stops with everything closed. *)
Lemma ends_guarded {A} (m : M session A) w (R : A → session → Prop) :
  (∀ a w', m w = (Ret a, w') → R a w') → ends (guarded fault account worker_account m) w R.
Proof using.
  intros HR. unfold ends, guarded, except_exception, try_except. destruct (m w) as [[a|x] [b1 s1]]; [by apply HR|].
  destruct (killed x) eqn:Ex; [by left; left|]. unfold mbind, M_bind.
  destruct (fail_closed _ _ _ (b1, s1)) as [[[]|y] [b2 s2]] eqn:Ef; [|left; by eapply denies_fail_closed].
  right. right. left. apply fail_closed_done in Ef as (Hc & -> & Es). split; [done|]. right. by exists (close_all s1).
Qed.

(** *** The methods *)

Abbreviation finishes m := (∀ b, untouched b0 b → ends m (b, s0) (λ _ _, True)).

Lemma finishes_revoked : bs_active s0 = None → all_revoked s0.
Proof using Hwf.
  intros En n Hn. destruct (decide (n ∈ bs_revoked s0)) as [|Hr]; [done|exfalso].
  destruct Hwf as (_ & _ & _ & _ & _ & _ & _ & _ & _ & _ & Ho1 & Ho2). unfold all_serials in Hn. apply elem_of_app in Hn.
  destruct Hn as [(c & -> & Hc)%list_elem_of_fmap|(c & -> & Hc)%list_elem_of_fmap];
    [destruct (Ho1 c Hc Hr) as (x & E & _)|destruct (Ho2 c Hc Hr) as (x & E & _)]; by rewrite En in E.
Qed.

Lemma emptied_of b :
  bs_active s0 = None → bk_state b = bk_state b0 → bk_principals b = Some "" → bk_krl b = Some (Serials (bs_revoked s0)) → emptied b.
Proof using Hwf Hstate.
  intros En Es Ep Ek. split; [done|]. exists s0. rewrite Es. split_and!; [done..|by apply finishes_revoked|done].
Qed.

(** With no lease, the files may only lose. *)
Lemma narrows_principal b (R : unit → session → Prop) :
  bs_active s0 = None → untouched b0 b → (∀ b', narrowed b' → R tt (b', s0)) → ends (on_files (write_principal fault None)) (b, s0) R.
Proof using.
  intros En Hb HR. apply ends_access; [by left|]. intros b' Hb'. apply HR. destruct (transitivity Hb Hb') as (?&?&?&?&?).
  split_and!; try done. by left.
Qed.

Lemma narrows_workers b now (R : unit → session → Prop) :
  narrowed b → (∀ b', narrowed b' → R tt (b', s0)) → ends (write_workers fromisoformat fault system_time now) (b, s0) R.
Proof using.
  intros Hb HR. apply ends_workers; [by do 3 right|]. intros b' text observed (E1 & E2 & E3 & E4 & E5) Ht. apply HR.
  destruct Hb as (En & ? & ? & ? & ?). unfold worker_file in Ht. cbn in Ht, E1, E2, E3, E4. rewrite En in Ht. injection Ht as <-.
  split_and!; cbn; try congruence. by right.
Qed.

Lemma narrows_revocations b (R : unit → session → Prop) :
  narrowed b → (∀ b', emptied b' → R tt (b', s0)) → ends (write_revocations fault) (b, s0) R.
Proof using Hwf Hstate.
  intros Hb HR. apply ends_revocations; [by do 3 right|]. intros b' (E1 & E2 & E3 & E4 & E5). apply HR.
  destruct Hb as (En & ? & ? & ? & ?). cbn in *. apply emptied_of; cbn; congruence.
Qed.

Lemma empties_terminate b name (R : unit → session → Prop) :
  emptied b → (∀ b', emptied b' → R tt (b', s0)) → ends (on_files (terminate fault name)) (b, s0) R.
Proof using.
  intros Hb HR. apply ends_access; [by right; right; left|]. intros b' (E1 & E2 & _ & E4 & _). apply HR.
  unfold emptied in *. cbn in *. by rewrite E1, E2, E4.
Qed.

Ltac stop := repeat match goal with
  | |- ends (mbind _ _) _ _ => apply ends_bind
  | |- ends (mret _) _ _ => apply ends_ret
  | |- ends (raise _ _) _ _ => apply ends_raise; [by left]
  | |- ends (raise_if _ _ _) _ _ => apply ends_raise_if; [by left|intros ?]
  | |- ends (lift _) _ _ => apply ends_lift; [by left|intros ? ?]
  | |- ends the_state _ _ => apply ends_state
  | |- ends (mutate _) _ _ => apply ends_mutate
  | |- ends (guarded _ _ _ _) _ _ => apply ends_guarded; intros ? ? _
  | |- ends (match ?x with _ => _ end) _ _ => destruct x eqn:?
  | |- ends _ _ _ => progress (cbv beta zeta; cbn [fst snd])
  | |- True => done
  end.


Lemma finishes_activate_new active observed :
  finishes (activate_new fromisoformat fault system_time account worker_account active observed).
Proof using. intros b Hb. unfold activate_new. by stop. Qed.

(** The expired lease of a replay is gone when its call is refused. *)
Lemma expired_replay_empties current b w' :
  bs_active s0 = Some current → untouched b0 b →
  (on_files (write_principal fault None) ;;
   mutate (revoke_of (tl_master current) (tl_run current) (tl_attempt current) (tl_epoch current)) ;;
   write_revocations fault ;; mutate (set_active None) ;; save fault ;;
   on_files (terminate fault account) ;; terminate_workers_if_issued fault worker_account) (b, s0) = (Ret tt, w') →
  emptied w'.1.
Proof using Hwf.
  intros Ea Hb Hr. set (s1 := set_active None (revoke_of (tl_master current) (tl_run current) (tl_attempt current) (tl_epoch current) s0)).
  assert (yields (on_files (write_principal fault None) ;;
    mutate (revoke_of (tl_master current) (tl_run current) (tl_attempt current) (tl_epoch current)) ;;
    write_revocations fault ;; mutate (set_active None) ;; save fault ;;
    on_files (terminate fault account) ;; terminate_workers_if_issued fault worker_account) (view_of (b, s0)) (λ _ v,
    v_principals v = Some "" ∧ v_state v = Some (state_to_json s1) ∧ v_krl v = Some (Serials (bs_revoked s1)))) as Hy.
  { unfold view_of. cbn [fst snd]. by walk. }
  destruct (Hy _ _ _ eq_refl Hr) as (E1 & E2 & E3). split; [done|]. exists s1.
  pose proof (revoke_of_active sha256 s0 current Hwf Ea) as Hall.
  destruct (revoke_of_wf sha256 s0 (tl_master current) (tl_run current) (tl_attempt current) (tl_epoch current) Hwf) as [Hw _].
  destruct (wf_set_none sha256 _ Hw Hall) as [Hw1 _]. by split_and!.
Qed.

Lemma finishes_activate_replay current active observed :
  bs_active s0 = Some current →
  finishes (activate_replay fromisoformat fault system_time account worker_account current active observed).
Proof using Hwf.
  intros Ea b Hb. unfold activate_replay. apply ends_bind, ends_raise_if; [by left|intros _].
  destruct (tl_until current <=? observed); [|by stop]. apply ends_bind, ends_guarded. intros [] w' Hr. apply ends_raise.
  right. right. left. by apply (expired_replay_empties current b).
Qed.

Lemma finishes_renew m r a e requested observed :
  finishes (renew_session sha256 fromisoformat fault system_time account worker_account m r a e requested observed).
Proof using. intros b Hb. unfold renew_session. by stop. Qed.

Lemma finishes_issue m r a e key expiry observed :
  finishes (issue_public_key_session sha256 fault sign account worker_account m r a e key expiry observed).
Proof using Hwf Hstate.
  intros b Hb. unfold issue_public_key_session. apply ends_bind, ends_state, ends_bind. cbn [snd].
  destruct (match bs_active s0 with None => _ | Some _ => _ end) eqn:Ef; [|by stop].
  destruct (bs_active s0) eqn:En; [done|]. apply ends_bind, narrows_principal; [done..|]. intros b1 H1.
  apply ends_bind, narrows_revocations; [done|]. intros b2 H2. apply ends_bind, empties_terminate; [done|]. intros b3 H3.
  apply ends_raise. by right; right; left.
Qed.

Lemma finishes_worker m e t c key expiry observed :
  finishes (issue_worker_public_key_session sha256 fromisoformat fault system_time sign account worker_account m e t c key expiry observed).
Proof using.
  intros b Hb. unfold issue_worker_public_key_session. stop. apply ends_workers; [by left|]. intros. by stop.
Qed.

Lemma finishes_revoke_worker m e t c n :
  finishes (revoke_worker_certificate_session fromisoformat fault system_time account worker_account m e t c n).
Proof using. intros b Hb. unfold revoke_worker_certificate_session. by stop. Qed.

Lemma finishes_revoke m r a e n : finishes (revoke_session fault account worker_account m r a e n).
Proof using. intros b Hb. unfold revoke_session. by stop. Qed.

Lemma finishes_deactivate m r a e :
  finishes (deactivate_session fromisoformat fault system_time account worker_account m r a e).
Proof using Hwf Hstate.
  intros b Hb. unfold deactivate_session. apply ends_bind, ends_state. cbn [snd]. destruct (bs_active s0) eqn:En; [by stop|].
  apply ends_bind, narrows_principal; [done..|]. intros b1 H1. apply ends_bind, narrows_workers; [done|]. intros b2 H2.
  apply ends_bind, narrows_revocations; [done|]. intros b3 H3. apply ends_bind, empties_terminate; [done|]. intros b4 H4.
  by apply ends_terminate_workers; [right; right; left| |].
Qed.

Lemma finishes_reconcile observed :
  finishes (reconcile_session fromisoformat fault system_time account worker_account observed).
Proof using. intros b Hb. unfold reconcile_session. by stop. Qed.

(** *** On the directory *)

Definition stops {A} (m : M broker A) : Prop := ∀ b, untouched b0 b →
  match m b with (Ret _, _) => True | (Exc e, b') => denial_error e ∨ after_error b' end.

Lemma stops_lift {A B} (o : outcome A) (k : A → M broker B) : (∀ a, stops (k a)) → stops (mbind k (lift o)).
Proof using. intros Hk b Hb. unfold mbind, M_bind, lift. destruct o; [by apply Hk|]. right. by left. Qed.

Lemma stops_raise_if {B} c cls msg (k : unit → M broker B) : stops (k tt) → stops (mbind k (raise_if c cls msg)).
Proof using. intros Hk b Hb. unfold mbind, M_bind, raise_if. destruct c; [right; by left|by apply Hk]. Qed.

Lemma stops_probe {B} (k : unit → M broker B) : stops (k tt) → stops (mbind k (probe fault)).
Proof using.
  intros Hk b Hb. pose proof (transitivity Hb (untouched_accesses b (S (bk_accesses b)))) as Hb'.
  unfold mbind, M_bind, probe, access. destruct (fault _); [right; by left|by apply Hk].
Qed.

Lemma stops_done {A} (m : M broker A) : stops m → stops (done m).
Proof using. intros Hm b Hb. specialize (Hm b Hb). unfold done, mbind, M_bind. by destruct (m b) as [[a|e] b1]. Qed.

Lemma load_untouched b :
  untouched b0 b → match load sha256 fromisoformat fault b with (Ret s, b') => s = s0 ∧ untouched b0 b' | (Exc _, b') => untouched b0 b' end.
Proof using Hstate Hwf Hiso.
  intros Hb. pose proof (transitivity Hb (untouched_accesses b (S (bk_accesses b)))) as Hb'.
  unfold load, mbind, M_bind, probe, access. set (b1 := mk_broker _ _ _ _ _ _) in *. unfold gets.
  assert (bk_state b1 = Some (state_to_json s0)) as E by (rewrite <-Hstate; apply Hb). clearbody b1.
  destruct (fault _); [exact Hb'|]. rewrite E. unfold raise_if, lift. destruct (_ <? _); [exact Hb'|].
  rewrite (state_reads_back _ _ Hiso) by done. by split.
Qed.

Lemma stops_with_state {A} (m : M session A) :
  finishes m → stops (with_state sha256 fromisoformat fault account worker_account m).
Proof using Hstate Hwf Hiso.
  intros Hm. apply stops_probe. intros b Hb. pose proof (load_untouched b Hb) as Hl. unfold mbind, M_bind.
  unfold load_or_fail_closed, except_exception, try_except. destruct (load _ _ _ b) as [[s|e] b1].
  - destruct Hl as [-> Hl]. specialize (Hm b1 Hl). unfold run_session, ends in *. by destruct (m (b1, s0)) as [[a|e] [b2 s2]].
  - destruct (killed e) eqn:Ek; [left; by left|]. unfold mbind, M_bind.
    destruct (fail_closed_files _ _ _ b1) as [[[]|y] b2] eqn:Ef; [|left; by eapply denies_fail_closed_files].
    apply fail_closed_files_done in Ef as [Hc Es]. right. right. left. split; [done|]. left. rewrite Es. apply Hl.
Qed.

(** [issue] can still fail to write the certificate to its file, after it was issued. *)
Definition answers_itself (c : tunnel_call) : bool := match c with IssueFile _ _ _ _ _ _ _ => false | _ => true end.

Lemma stops_step c : answers_itself c = true →
  stops (tunnel_step sha256 fromisoformat fault system_time sign account worker_account c).
Proof using Hstate Hwf Hiso.
  destruct c; cbn [answers_itself tunnel_step]; intros Hc; try done; try apply stops_done;
    repeat match goal with
    | |- stops (mbind _ (lift _)) => apply stops_lift; intros ?
    | |- stops (mbind _ (raise_if _ _ _)) => apply stops_raise_if
    | |- stops (mbind _ (probe _)) => apply stops_probe
    | |- stops (with_state _ _ _ _ _ _) => apply stops_with_state
    | |- stops _ => progress unfold activate, renew, issue_public_key, issue_worker_public_key, revoke_worker_certificate, revoke,
        deactivate, reconcile, acceptance_identity_snapshot, acceptance_retired_denial
    end.
  - intros b Hb. apply ends_bind, ends_state. cbn [snd]. destruct (bs_active s0) as [current|] eqn:Ec; [|by apply finishes_activate_new].
    destruct (same_master _ _ _ _ _); [by apply finishes_activate_replay|by apply finishes_activate_new].
  - apply finishes_renew.
  - apply finishes_issue.
  - apply finishes_worker.
  - apply finishes_revoke_worker.
  - apply finishes_revoke.
  - apply finishes_deactivate.
  - apply finishes_reconcile.
  - intros b Hb. by stop.
  - intros b Hb. by stop.
Qed.
End stops.

(** *** What it means to sshd *)

(** No principal of a master is left and no certificate that was ever issued is
    accepted, on either account. *)
Definition shut (s : BrokerState) (b : broker) : Prop :=
  bk_principals b = Some "" ∧
  ∃ s1, durable_state sha256 fromisoformat b = Some s1 ∧ ∀ user p n, n ∈ (all_serials s ++ all_serials s1)%list → sshd_admits b user p n = false.

Lemma denied_admits b user p n : denied (bk_krl b) n = true → sshd_admits b user p n = false.
Proof using. intros Hd. unfold sshd_admits. destruct (principals_file b user); [|done]. rewrite Hd. apply andb_false_r. Qed.

Lemma sealed_active b0 s1 b :
  sealed b0 b → bk_state b = Some (state_to_json s1) → bs_active s1 = None ∨ bk_state b = bk_state b0.
Proof using.
  intros [_ [E|(s2 & En & E)]] E1; [by right|left]. rewrite E in E1. apply (inj Some) in E1. unfold state_to_json in E1. rewrite En in E1.
  destruct (bs_active s1); [|done]. by injection E1.
Qed.

(** A certificate list that denies what the broker knows of. *)
Lemma emptied_shut s b : emptied s b → shut s b.
Proof using Hiso.
  intros (Ep & s1 & Es & Hw & _ & Ek & Hall & Hsub). split; [done|]. exists s1. split.
  - unfold durable_state. by rewrite Es, (state_reads_back _ _ Hiso).
  - intros user p n Hn. apply denied_admits. rewrite Ek. apply mem_true, Hall. apply elem_of_app in Hn as [Hn|Hn]; auto.
Qed.

(** C34: a failed change leaves the tunnel closed, or as it was.  When a method
    ends with an error (the process was not killed, and the error does not say
    that a denial failed itself), then either it wrote nothing; or the principals
    file of the masters is empty, sshd accepts no certificate the broker ever
    issued, on either account, and the lease is gone from the state file, unless
    the state was not written; or there was no lease to begin with, and sshd
    accepts nothing that it did not accept before.  [issue] is left out: it can
    still fail to write the certificate to its file after it was issued. *)
Theorem failed_change_closes_tunnel c b s e b1 :
  reachable sha256 fromisoformat fault system_time sign account worker_account b →
  durable_state sha256 fromisoformat b = Some s → valid_call c → answers_itself c = true →
  tunnel_step sha256 fromisoformat fault system_time sign account worker_account c b = (Exc e, b1) →
  killed e = false → exn_msg e ≠ denial_message →
  untouched b b1 ∨
  (shut s b1 ∧ (bk_state b1 = bk_state b ∨ ∃ s1, durable_state sha256 fromisoformat b1 = Some s1 ∧ bs_active s1 = None)) ∨
  (bs_active s = None ∧ bk_state b1 = bk_state b ∧ bk_principals b1 = Some "" ∧
   ∀ user p n, sshd_admits b1 user p n = true → sshd_admits b user p n = true).
Proof using Hiso Hsha Hsign.
  intros Hr%reachable_fences Ed Hv Ha Hstep Hk Hm; [|done..]. destruct (fences_durable _ _ Hiso _ _ _ _ Hr Ed) as (Es & Hs & _).
  pose proof (stops_step b s Es Hs c Ha b (reflexivity b)) as Hq. pose proof (fences_step _ _ Hiso Hsha fault system_time _ Hsign account worker_account _ _ c b Hv Hr) as Hf.
  rewrite Hstep in Hq, Hf. change (fences sha256 1 [] b1) in Hf. destruct Hq as [[Hq|Hq]|[Hq|[Hq|[Hq|(En & E1 & E2 & E3 & E4)]]]]; [by rewrite Hq in Hk|done|by left|right; left..|right; right].
  - destruct Hf as ((s1 & E1 & Hs1 & _) & _). assert (durable_state sha256 fromisoformat b1 = Some s1) as Ed1
      by (unfold durable_state; by rewrite E1, (state_reads_back _ _ Hiso)).
    split; [|destruct (sealed_active _ _ _ Hq E1); [right; by exists s1|by left]]. destruct Hq as [(Ep & _ & Ek & _) _].
    split; [done|]. exists s1. split; [done|]. intros user p n _. apply denied_admits. by rewrite Ek.
  - split; [by apply emptied_shut|right]. destruct Hq as (_ & s1 & E1 & Hw & En & _). exists s1. split; [|done].
    unfold durable_state. by rewrite E1, (state_reads_back _ _ Hiso).
  - split_and!; [done..|]. intros user p n. unfold sshd_admits, principals_file. rewrite E2. destruct user.
    + rewrite E3. done.
    + destruct E4 as [-> | ->]; done.
Qed.

(** ** Certificates *)

Lemma yields_sign key serial key_id p observed expiry v (Q : string → view → Prop) :
  Q (strip (sign key serial key_id p (certificate_time (observed - 5 * SECOND)) (certificate_time expiry))) v →
  yields (on_files (sign_certificate fault sign key serial key_id p observed expiry)) v Q.
Proof using.
  intros HQ [b s] a w' <-. unfold on_files. cbn [fst snd]. pose proof (quiet_sign fault sign key serial key_id p observed expiry b) as Hq.
  destruct (sign_certificate _ _ _ _ _ _ _ _ b) as [o b1] eqn:Es. cbn in Hq. destruct Hq as (E1 & E2 & E3). intros [= -> <-].
  replace (view_of (b1, s)) with (view_of (b, s)) by (unfold view_of; cbn; congruence).
  revert Es. unfold sign_certificate, mbind, M_bind. do 4 (destruct (probe fault _) as [[[]|?] ?]; [|done]). by intros [= <- _].
Qed.

Lemma check_validity_inv expiry observed l msg u :
  check_validity expiry observed l msg = Ret u →
  MIN_CERTIFICATE_LIFETIME ≤ expiry - observed ≤ MAX_LEASE ∧ expiry ≤ tl_until l.
Proof using.
  unfold check_validity, throw_if. destruct (_ || _) eqn:E; [done|]. intros _. b2p. lia.
Qed.

(** The row [issue_public_key] records. *)
Definition certificate_row (master run attempt : string) (epoch : Z) (key_text : string) (expiry : Z) (s : BrokerState) (principal : string) :=
  mk_issued (bs_next s) master run attempt epoch (key_id_of sha256 master epoch run attempt (bs_next s)) principal (time_text expiry) (sha256 key_text).

Lemma issue_session_yields m r a e key expiry observed b s :
  yields (issue_public_key_session sha256 fault sign account worker_account m r a e key expiry observed) (view_of (b, s)) (λ cert v, ∃ l,
    bs_active s = Some l ∧ observed < tl_until l ∧
    (MIN_CERTIFICATE_LIFETIME ≤ expiry - observed ≤ MAX_LEASE ∧ expiry ≤ tl_until l) ∧
    cert = mk_TunnelCertificate
      (strip (sign key (bs_next s) (key_id_of sha256 m e r a (bs_next s)) (tl_principal l) (certificate_time (observed - 5 * SECOND))
        (certificate_time expiry))) (bs_next s) (tl_principal l) expiry (tl_host l) (tl_port l) ∧
    v_object v = add_issued (certificate_row m r a e key expiry s (tl_principal l)) s ∧ v_state v = Some (state_to_json (v_object v))).
Proof using.
  unfold issue_public_key_session, view_of. walk. cbn [snd fst].
  destruct (match bs_active s with None => _ | Some _ => _ end); walk.
  apply yields_sign. walk.
  match goal with H : current_lease _ _ _ _ _ _ _ = Ret ?l |- _ => apply current_lease_inv in H as (El & _ & _ & _ & _ & Hu); exists l end.
  match goal with H : check_validity _ _ _ _ = Ret _ |- _ => apply check_validity_inv in H as [[? ?] ?] end. by split_and!.
Qed.

Lemma wf_durable b s : bk_state b = Some (state_to_json s) → wf s → durable_state sha256 fromisoformat b = Some s.
Proof using Hiso. intros E Hs. unfold durable_state. by rewrite E, (state_reads_back _ _ Hiso _ Hs). Qed.

Lemma probe_ret_inv {B} (k : unit → M broker B) b c b' :
  mbind k (probe fault) b = (Ret c, b') → ∃ b1, same_files b b1 ∧ k tt b1 = (Ret c, b').
Proof using.
  unfold mbind, M_bind. pose proof (quiet_probe fault b) as Hq. destruct (probe fault b) as [[[]|e] b1]; [|done]. by exists b1.
Qed.

(** C35: a certificate that [issue_public_key] returned.  There is an active
    lease that has not expired; the certificate is valid for at least 15
    seconds, at most 10 minutes and not beyond the lease; it names the lease's
    principal; its serial was never used nor revoked; and the state file
    already records it, so that it can be revoked. *)
Theorem issued_certificate_is_bounded master run attempt epoch public_key valid_before now b s cert b1 :
  reachable sha256 fromisoformat fault system_time sign account worker_account b → durable_state sha256 fromisoformat b = Some s →
  valid_datetime valid_before →
  issue_public_key sha256 fromisoformat fault sign account worker_account master run attempt epoch public_key valid_before now b
    = (Ret cert, b1) →
  ∃ l observed expiry row, bs_active s = Some l ∧ require_utc now "now" = Ret observed ∧
    require_utc valid_before "valid_before" = Ret expiry ∧ observed < tl_until l ∧
    (MIN_CERTIFICATE_LIFETIME ≤ expiry - observed ≤ MAX_LEASE ∧ expiry ≤ tl_until l) ∧
    tc_valid_before cert = expiry ∧ tc_principal cert = tl_principal l ∧ tc_port cert = tl_port l ∧
    (tc_serial cert ∉ all_serials s) ∧ (tc_serial cert ∉ bs_revoked s) ∧
    ic_serial row = tc_serial cert ∧ durable_state sha256 fromisoformat b1 = Some (add_issued row s).
Proof using Hiso Hsha Hsign.
  intros Hr Ed Hv (ie & _ & (ra & _ & (observed & En & (expiry & Ee & (b2 & F2 & (b3 & F3 & (key & _ &
    H)%lift_ret_inv)%probe_ret_inv)%probe_ret_inv)%lift_ret_inv)%lift_ret_inv)%lift_ret_inv)%lift_ret_inv.
  apply reachable_fences in Hr; [|done..]. destruct (fences_durable _ _ Hiso _ _ _ _ Hr Ed) as (E & Hs & _).
  assert (bk_state b3 = Some (state_to_json s)) as E3 by (destruct F2 as (F2 & _), F3 as (F3 & _); congruence).
  eapply with_state_safe in H; [|done..|by apply safe_issue; eauto|apply issue_session_yields].
  destruct H as (s' & Hs' & l & El & Hu & [[? ?] ?] & -> & Eo & Es). cbn in Eo, Es. destruct (wf_fresh sha256 s _ Hs eq_refl).
  exists l, observed, expiry, (certificate_row ie.1 ra.1 ra.2 ie.2 key expiry s (tl_principal l)). split_and!; try done.
  rewrite <-Eo. by apply wf_durable.
Qed.

(** *** Workers *)

Definition worker_is (task credential : string) (w : worker_row) : bool := (wc_task w == task) && (wc_credential w == credential).

Definition worker_certificate (w : worker_row) (l : ActiveTunnelLease) (expiry : Z) (task credential : string) : WorkerTunnelCertificate :=
  mk_WorkerTunnelCertificate (wc_certificate w) (wc_serial w) (wc_principal w) expiry task credential (tl_port l) worker_account.

Abbreviation worker_session := (issue_worker_public_key_session sha256 fromisoformat fault system_time sign account worker_account).

Lemma find_snoc {A} (p : A → bool) l x : List.find p l = None → p x = true → List.find p (l ++ [x]) = Some x.
Proof using. intros Hl Hx. induction l as [|y l IH]; cbn in *; [by rewrite Hx|]. destruct (p y); [done|auto]. Qed.

Lemma find_map {A} (p : A → bool) (f : A → A) l : (∀ x, p (f x) = p x) → List.find p (map f l) = f <$> List.find p l.
Proof using. intros Hf. induction l as [|y l IH]; [done|]. cbn. rewrite Hf. by destruct (p y). Qed.

(** A worker's request that returned leaves its row, and answers with it. *)
Lemma worker_session_yields m e t c key expiry observed b s :
  bk_state b = Some (state_to_json s) →
  yields (worker_session m e t c key expiry observed) (view_of (b, s)) (λ cert v, ∃ w l,
    v_state v = Some (state_to_json (v_object v)) ∧ bs_active (v_object v) = Some l ∧
    List.find (worker_is t c) (bs_workers (v_object v)) = Some w ∧ cert = worker_certificate w l expiry t c).
Proof using.
  intros E. unfold issue_worker_public_key_session, view_of. cbn [fst snd]. rewrite E. walk. cbv zeta.
  destruct (bs_active s) as [l|] eqn:El; walk. fold (worker_is t c). change (λ w, (wc_task w == t) && (wc_credential w == c)) with (worker_is t c).
  destruct (List.find (worker_is t c) (bs_workers s)) as [w|] eqn:Ef; walk; [by exists w, l|]. apply yields_sign. walk.
  eexists _, l. split_and!; [done|done| |].
  - cbn. rewrite find_map by (intros w; destruct (wc_serial w =? bs_next s); reflexivity). rewrite (find_snoc _ _ _ Ef); [done|]. unfold worker_is. cbn.
    by rewrite !bool_decide_eq_true_2.
  - cbn. by rewrite Z.eqb_refl.
Qed.

(** The same request again answers from the row. *)
Lemma worker_replay_yields m e t c key expiry observed b s w l :
  bk_state b = Some (state_to_json s) → bs_active s = Some l → List.find (worker_is t c) (bs_workers s) = Some w →
  yields (worker_session m e t c key expiry observed) (view_of (b, s)) (λ cert v,
    v_state v = Some (state_to_json s) ∧ cert = worker_certificate w l expiry t c).
Proof using.
  intros E El Ef. unfold issue_worker_public_key_session, view_of. cbn [fst snd]. rewrite E. walk. cbv zeta. rewrite El. walk.
  change (λ w, (wc_task w == t) && (wc_credential w == c)) with (worker_is t c). rewrite Ef. walk. done.
Qed.

Lemma issue_worker_inv m e t c key v n b cert b1 :
  issue_worker_public_key sha256 fromisoformat fault system_time sign account worker_account m e t c key v n b = (Ret cert, b1) →
  ∃ ie t' c' observed expiry key' b2, uuid_field t "task_run_id" = Ret t' ∧ uuid_field c "credential_id" = Ret c' ∧
    require_utc v "valid_before" = Ret expiry ∧ same_files b b2 ∧
    with_state sha256 fromisoformat fault account worker_account (worker_session ie.1 ie.2 t' c' key' expiry observed) b2 = (Ret cert, b1).
Proof using.
  intros (ie & _ & (t' & Et & (c' & Ec & (observed & _ & (expiry & Ee & (b2 & F2 & (b3 & F3 & (key' & _ &
    H)%lift_ret_inv)%probe_ret_inv)%probe_ret_inv)%lift_ret_inv)%lift_ret_inv)%lift_ret_inv)%lift_ret_inv)%lift_ret_inv.
  exists ie, t', c', observed, expiry, key', b3. split_and!; try done. destruct F2 as (?&?&?), F3 as (?&?&?). unfold same_files. by split_and!; congruence.
Qed.

(** A worker's request is idempotent.  When [issue_worker_public_key]
    returned a certificate, the same request made again, at another time,
    returns that certificate or is refused: no second serial is used for it
    and the state file does not change. *)
Theorem worker_request_is_idempotent master epoch task_run_id credential_id public_key valid_before now now' b cert b1 cert' b2 :
  reachable sha256 fromisoformat fault system_time sign account worker_account b → valid_datetime valid_before →
  issue_worker_public_key sha256 fromisoformat fault system_time sign account worker_account master epoch task_run_id credential_id
    public_key valid_before now b = (Ret cert, b1) →
  issue_worker_public_key sha256 fromisoformat fault system_time sign account worker_account master epoch task_run_id credential_id
    public_key valid_before now' b1 = (Ret cert', b2) →
  cert' = cert ∧ bk_state b2 = bk_state b1.
Proof using Hiso Hsha Hsign.
  intros Hr Hv H1 H2. apply reachable_fences in Hr; [|done..]. destruct Hr as ((s & E & Hs & _) & _).
  apply issue_worker_inv in H1 as (ie & t & c & o & x & k & b3 & Et & Ec & Ex & (F & _) & H1).
  apply issue_worker_inv in H2 as (ie' & t' & c' & o' & x' & k' & b4 & Et' & Ec' & Ex' & (F' & _) & H2).
  rewrite Et in Et'. rewrite Ec in Ec'. rewrite Ex in Ex'. simplify_eq.
  rewrite <-F in E.
  destruct (with_state_safe _ _ Hiso _ _ _ _ _ _ _ _ _ E Hs H1 (safe_issue_worker _ _ Hsha _ _ _ Hsign _ _ _ _ Hs _ _ _ _ _ _ _
    (Hv _ _ Ex) (uuid_field_again _ _ _ Et) (uuid_field_again _ _ _ Ec)) (worker_session_yields _ _ _ _ _ _ _ _ _ E))
    as (s1 & Hs1 & w & l & E1 & El & Ef & ->). cbn in E1, El, Ef. pose proof E1 as E1'. rewrite <-F' in E1.
  destruct (with_state_yields _ _ Hiso _ _ _ _ _ _ _ _ _ E1 Hs1 H2 (worker_replay_yields _ _ _ _ _ _ _ _ _ _ _ E1 El Ef))
    as (s2 & E2 & ->). cbn in E2. split; [done|congruence].
Qed.
End issue.

(** ** Concrete requests *)

Module Requests.
Import Succession.

(** The disk is full when the second master takes over, after its predecessor's
    principal was removed. *)
Definition full (n : nat) : option exn := if (n =? 28)%nat then Some (Exn OSError "disk full") else None.
Definition takeover : tunnel_call := ActivateTunnel second "run-2" "a-2" 2 (utc until) 25432 (utc now).
Definition serving_full : broker :=
  tunnel_run digest iso full clock keygen "mdh-master-tunnel" "mdh-embedding-worker" calls (initialize iso full clock nothing).2.
Definition failed : outcome unit * broker :=
  tunnel_step digest iso full clock keygen "mdh-master-tunnel" "mdh-embedding-worker" takeover serving_full.

Lemma serving_full_reachable : reachable digest iso full clock keygen "mdh-master-tunnel" "mdh-embedding-worker" serving_full.
Proof. exists nothing, (initialize iso full clock nothing).2, calls. split_and!; [vm_compute; reflexivity|apply calls_ok|reflexivity]. Qed.
Definition issued : outcome TunnelCertificate * broker :=
  issue_public_key digest iso sound keygen "mdh-master-tunnel" "mdh-embedding-worker" first "run-1" "a-1" 1 key (utc until) (utc now) serving.
Definition task : string := "33333333-3333-4333-8333-333333333333".
Definition credential : string := "44444444-4444-4444-8444-444444444444".
Definition request (at_time : Z) (b : broker) : outcome WorkerTunnelCertificate * broker :=
  issue_worker_public_key digest iso sound clock keygen "mdh-master-tunnel" "mdh-embedding-worker" first 1 task credential key
    (utc until) (utc at_time) b.
Definition answer {A} (x : A) (o : outcome A) : A := match o with Ret a => a | Exc _ => x end.
Definition no_certificate : TunnelCertificate := mk_TunnelCertificate "" 0 "" 0 "" 0.
Definition no_worker : WorkerTunnelCertificate := mk_WorkerTunnelCertificate "" 0 "" 0 "" "" 0 "".
Definition once : outcome WorkerTunnelCertificate * broker := request now serving.
Definition again : outcome WorkerTunnelCertificate * broker := request (now + 5 * MICRO) once.2.
End Requests.

Lemma failed_change_closes_tunnel_witness :
  shut Succession.digest iso (Succession.state_of Requests.serving_full) Requests.failed.2.
Proof.
  destruct (failed_change_closes_tunnel _ _ iso_ok Succession.digest_ok _ _ _ Succession.keygen_ok _ _ Requests.takeover
    Requests.serving_full (Succession.state_of Requests.serving_full) (Exn OSError "disk full") Requests.failed.2
    Requests.serving_full_reachable) as [(_ & H & _)|[[H _]|(H & _)]].
  - vm_compute. reflexivity.
  - by apply Succession.utc_ok.
  - reflexivity.
  - vm_compute. reflexivity.
  - reflexivity.
  - discriminate.
  - exfalso. vm_compute in H. discriminate.
  - exact H.
  - exfalso. vm_compute in H. discriminate.
Defined.

Lemma issued_certificate_is_bounded_witness :
  tc_serial (Requests.answer Requests.no_certificate Requests.issued.1) ∉ all_serials (Succession.state_of Succession.serving).
Proof.
  destruct (issued_certificate_is_bounded _ _ iso_ok Succession.digest_ok _ _ _ Succession.keygen_ok _ _ Succession.first "run-1"
    "a-1" 1 Succession.key (utc Succession.until) (utc Succession.now) Succession.serving (Succession.state_of Succession.serving)
    (Requests.answer Requests.no_certificate Requests.issued.1) Requests.issued.2 Succession.serving_reachable)
    as (l & o & x & row & H).
  - vm_compute. reflexivity.
  - by apply Succession.utc_ok.
  - vm_compute. reflexivity.
  - destruct H as (_ & _ & _ & _ & _ & _ & _ & _ & H & _). exact H.
Defined.

Lemma worker_request_is_idempotent_witness :
  Requests.answer Requests.no_worker Requests.again.1 = Requests.answer Requests.no_worker Requests.once.1.
Proof.
  refine (proj1 (worker_request_is_idempotent _ _ iso_ok Succession.digest_ok _ _ _ Succession.keygen_ok _ _ Succession.first 1
    Requests.task Requests.credential Succession.key (utc Succession.until) (utc Succession.now) (utc (Succession.now + 5 * MICRO))
    Succession.serving _ Requests.once.2 _ Requests.again.2 Succession.serving_reachable _ _ _)).
  - by apply Succession.utc_ok.
  - vm_compute. reflexivity.
  - vm_compute. reflexivity.
Defined.
