(* ===== verification/OAuthStore.v ===== *)
(** * OAuthStore: authorization codes and refresh credentials

    Models oauth_server/stores.py and control_store.py with the methods of the
    control ledger they call (store.py, the tables of 007_oauth_grants.sql).
    [OAuthGrantStore] is the contract; [MemoryOAuthGrantStore] and
    [ControlLedgerOAuthGrantStore] implement it, and the second refines the
    first: an operation that fails changes nothing, one that returns does what
    the memory store does. *)

From S2P Require Import Prelude Time Json.

Record AuthorizationGrant := mk_AuthorizationGrant {
  ag_digest : string; ag_challenge : string; ag_client : string; ag_redirect : string; ag_resource : string;
  ag_scopes : list string; ag_subject : string; ag_nonce : option string; ag_authenticated : Z; ag_expires : Z;
}.

Record RefreshGrant := mk_RefreshGrant {
  rg_digest : string; rg_family : string; rg_client : string; rg_resource : string; rg_scopes : list string;
  rg_subject : string; rg_authenticated : Z; rg_expires : Z; rg_consumed : option Z; rg_revoked : option Z;
}.

Record RefreshRotationRequest := mk_RefreshRotationRequest {
  rr_presented : string; rr_successor : string; rr_client : string; rr_resource : string;
  rr_scopes : option (list string); rr_expires : Z; rr_now : Z;
}.

Inductive RefreshRotationStatus : Set := ROTATED | INVALID | REPLAYED.

#[global] Instance RefreshRotationStatus_eq_dec : EqDecision RefreshRotationStatus.
Proof. solve_decision. Defined.

(** [RefreshRotationResult]: the status and the grant. *)
Abbreviation RefreshRotationResult := (RefreshRotationStatus * option RefreshGrant)%type.

Class OAuthGrantStore (S : Type) := {
  create_authorization_grant : AuthorizationGrant → M S bool;
  consume_authorization_grant : string → Z → M S (option AuthorizationGrant);
  create_refresh_grant : RefreshGrant → M S bool;
  rotate_refresh_grant : RefreshRotationRequest → M S RefreshRotationResult;
  revoke_refresh_grant : string → string → Z → M S unit;
}.

(** [set(a).issubset(b)] *)
Definition issubset (a b : list string) : bool := forallb (λ x, mem x b) a.

Definition set_consumed (now : Z) (g : RefreshGrant) : RefreshGrant :=
  mk_RefreshGrant (rg_digest g) (rg_family g) (rg_client g) (rg_resource g) (rg_scopes g) (rg_subject g) (rg_authenticated g)
    (rg_expires g) (Some now) (rg_revoked g).

(** [revoked_at] once. *)
Definition set_revoked_at (now : Z) (g : RefreshGrant) : RefreshGrant :=
  mk_RefreshGrant (rg_digest g) (rg_family g) (rg_client g) (rg_resource g) (rg_scopes g) (rg_subject g) (rg_authenticated g)
    (rg_expires g) (rg_consumed g) (match rg_revoked g with Some t => Some t | None => Some now end).

Definition successor_of (current : RefreshGrant) (request : RefreshRotationRequest) : RefreshGrant :=
  mk_RefreshGrant (rr_successor request) (rg_family current) (rg_client current) (rg_resource current)
    (default (rg_scopes current) (rr_scopes request)) (rg_subject current) (rg_authenticated current)
    (Z.min (rg_expires current) (rr_expires request)) None None.

(** ** The memory store *)

Record memory := mk_memory { mm_codes : gmap string AuthorizationGrant; mm_refresh : gmap string RefreshGrant }.

Module MemoryOAuthGrantStore.

Definition empty : memory := mk_memory ∅ ∅.

Definition create_authorization_grant (grant : AuthorizationGrant) : M memory bool := λ m,
  match mm_codes m !! ag_digest grant with
  | Some _ => (Ret false, m)
  | None => (Ret true, mk_memory (<[ag_digest grant := grant]> (mm_codes m)) (mm_refresh m))
  end.

Definition consume_authorization_grant (code_digest : string) (now : Z) : M memory (option AuthorizationGrant) := λ m,
  let grant := mm_codes m !! code_digest in
  (Ret (match grant with Some g => if now <? ag_expires g then Some g else None | None => None end),
   mk_memory (delete code_digest (mm_codes m)) (mm_refresh m)).

Definition create_refresh_grant (grant : RefreshGrant) : M memory bool := λ m,
  match mm_refresh m !! rg_digest grant with
  | Some _ => (Ret false, m)
  | None => (Ret true, mk_memory (mm_codes m) (<[rg_digest grant := grant]> (mm_refresh m)))
  end.

(** [_revoke_family] *)
Definition revoke_family (family_id : string) (now : Z) (m : memory) : memory :=
  mk_memory (mm_codes m) ((λ g, if rg_family g == family_id then set_revoked_at now g else g) <$> mm_refresh m).

Definition rotate_refresh_grant (request : RefreshRotationRequest) : M memory RefreshRotationResult := λ m,
  match mm_refresh m !! rr_presented request with
  | None => (Ret (INVALID, None), m)
  | Some current =>
      match rg_consumed current with
      | Some _ => (Ret (REPLAYED, None), revoke_family (rg_family current) (rr_now request) m)
      | None =>
          let requested := default (rg_scopes current) (rr_scopes request) in
          if (rg_revoked current != None) || (rg_expires current <=? rr_now request) then (Ret (INVALID, None), m)
          else if (rg_client current != rr_client request) || (rg_resource current != rr_resource request)
                  || negb (issubset requested (rg_scopes current))
                  || (mm_refresh m !! rr_successor request != None) then (Ret (INVALID, None), m)
          else
            let successor := successor_of current request in
            (Ret (ROTATED, Some successor),
             mk_memory (mm_codes m)
               (<[rg_digest successor := successor]> (<[rg_digest current := set_consumed (rr_now request) current]> (mm_refresh m))))
      end
  end.

Definition revoke_refresh_grant (credential_digest client_id : string) (now : Z) : M memory unit := λ m,
  match mm_refresh m !! credential_digest with
  | Some current => (Ret tt, if rg_client current == client_id then revoke_family (rg_family current) now m else m)
  | None => (Ret tt, m)
  end.

Definition family_is_revoked (family_id : string) (m : memory) : bool :=
  let family := List.filter (λ g, rg_family g == family_id) (map snd (map_to_list (mm_refresh m))) in
  negb (family == []) && forallb (λ g, rg_revoked g != None) family.

End MemoryOAuthGrantStore.

#[global] Instance memory_store : OAuthGrantStore memory := {|
  create_authorization_grant := MemoryOAuthGrantStore.create_authorization_grant;
  consume_authorization_grant := MemoryOAuthGrantStore.consume_authorization_grant;
  create_refresh_grant := MemoryOAuthGrantStore.create_refresh_grant;
  rotate_refresh_grant := MemoryOAuthGrantStore.rotate_refresh_grant;
  revoke_refresh_grant := MemoryOAuthGrantStore.revoke_refresh_grant;
|}.

(** ** The tables of the control ledger *)

Record code_row := mk_code_row {
  cr_digest : string; cr_challenge : string; cr_client : string; cr_redirect : string; cr_resource : string;
  cr_scopes_json : string; cr_subject : string; cr_nonce : option string; cr_authenticated : Z; cr_expires : Z; cr_created : string;
}.

Record refresh_row := mk_refresh_row {
  fr_digest : string; fr_family : string; fr_client : string; fr_resource : string; fr_scopes_json : string; fr_subject : string;
  fr_authenticated : Z; fr_expires : Z; fr_consumed : option Z; fr_revoked : option Z; fr_created : string;
}.

(** The two tables, and how often the clock was read. *)
Record grant_tables := mk_grant_tables { gt_codes : list code_row; gt_refresh : list refresh_row; gt_reads : nat }.

Module ControlLedgerOAuth.
Section ledger.
(** [self.clock.now()], reading by reading. *)
Context (ledger_clock : nat → Z).

Definition timestamp : M grant_tables string := λ t,
  (Ret (time_text (ledger_clock (gt_reads t))), mk_grant_tables (gt_codes t) (gt_refresh t) (S (gt_reads t))).

(** [_safe_json({"scopes": list(scopes)})] and
    [tuple(json.loads(text)["scopes"])]; these texts hold strings only. *)
Definition scopes_json (scopes : list string) : outcome string :=
  safe_json (Some [("scopes", JArr (map JStr scopes))]) MAX_METADATA_BYTES.

Definition text_of (j : json) : option string := match j with JStr s => Some s | _ => None end.

Definition scopes_of_json (text : string) : outcome (list string) :=
  match loads text with
  | None => throw ValueError "Expecting value"
  | Some j =>
      match jget "scopes" j with
      | None => throw KeyError "scopes"
      | Some (JArr l) => match mapM text_of l with Some scopes => Ret scopes | None => throw TypeError "scopes" end
      | Some _ => throw TypeError "scopes"
      end
  end.

(** [INSERT]: the primary key and its CHECK. *)
Definition insert_code (r : code_row) : M grant_tables unit := λ t,
  if existsb (λ x, cr_digest x == cr_digest r) (gt_codes t) || negb (slen (cr_digest r) =? 64)
  then (Exc (Exn IntegrityError "constraint failed"), t)
  else (Ret tt, mk_grant_tables (gt_codes t ++ [r]) (gt_refresh t) (gt_reads t)).

Definition insert_refresh (r : refresh_row) : M grant_tables unit := λ t,
  if existsb (λ x, fr_digest x == fr_digest r) (gt_refresh t) || negb (slen (fr_digest r) =? 64)
  then (Exc (Exn IntegrityError "constraint failed"), t)
  else (Ret tt, mk_grant_tables (gt_codes t) (gt_refresh t ++ [r]) (gt_reads t)).

(** [except sqlite3.IntegrityError: return False] *)
Definition except_integrity (m : M grant_tables bool) : M grant_tables bool :=
  try_except m (λ e, if exn_cls e == IntegrityError then mret false else reraise e).

Definition create_oauth_authorization_grant (g : AuthorizationGrant) : M grant_tables bool :=
  text ← lift (scopes_json (ag_scopes g));
  atomically (except_integrity (
    created ← timestamp;
    insert_code (mk_code_row (ag_digest g) (ag_challenge g) (ag_client g) (ag_redirect g) (ag_resource g) text (ag_subject g)
                   (ag_nonce g) (ag_authenticated g) (ag_expires g) created) ;;
    mret true)).

Definition find_code (digest : string) (t : grant_tables) : option code_row :=
  List.find (λ r, cr_digest r == digest) (gt_codes t).

Definition delete_code (digest : string) (t : grant_tables) : grant_tables :=
  mk_grant_tables (List.filter (λ r, cr_digest r != digest) (gt_codes t)) (gt_refresh t) (gt_reads t).

Definition consume_oauth_authorization_grant (code_digest : string) (now : Z) : M grant_tables (option AuthorizationGrant) :=
  atomically (
    row ← gets (find_code code_digest);
    match row with
    | None => mret None
    | Some r =>
        modify (delete_code code_digest) ;;
        if cr_expires r <=? now then mret None
        else
          scopes ← lift (scopes_of_json (cr_scopes_json r));
          mret (Some (mk_AuthorizationGrant (cr_digest r) (cr_challenge r) (cr_client r) (cr_redirect r) (cr_resource r) scopes
                        (cr_subject r) (cr_nonce r) (cr_authenticated r) (cr_expires r)))
    end).

Definition create_oauth_refresh_grant (g : RefreshGrant) : M grant_tables bool :=
  text ← lift (scopes_json (rg_scopes g));
  atomically (except_integrity (
    created ← timestamp;
    insert_refresh (mk_refresh_row (rg_digest g) (rg_family g) (rg_client g) (rg_resource g) text (rg_subject g) (rg_authenticated g)
                      (rg_expires g) (rg_consumed g) (rg_revoked g) created) ;;
    mret true)).

Definition find_refresh (digest : string) (t : grant_tables) : option refresh_row :=
  List.find (λ r, fr_digest r == digest) (gt_refresh t).

Definition update_refresh (f : refresh_row → refresh_row) (t : grant_tables) : grant_tables :=
  mk_grant_tables (gt_codes t) (map f (gt_refresh t)) (gt_reads t).

(** [SET revoked_at=coalesce(revoked_at,?) WHERE family_id=?] *)
Definition row_revoked (family_id : string) (now : Z) (r : refresh_row) : refresh_row :=
  if fr_family r == family_id then
    mk_refresh_row (fr_digest r) (fr_family r) (fr_client r) (fr_resource r) (fr_scopes_json r) (fr_subject r) (fr_authenticated r)
      (fr_expires r) (fr_consumed r) (match fr_revoked r with Some t => Some t | None => Some now end) (fr_created r)
  else r.

(** [SET consumed_at=? WHERE credential_digest=? AND consumed_at IS NULL] *)
Definition row_consumed (digest : string) (now : Z) (r : refresh_row) : refresh_row :=
  if (fr_digest r == digest) && (fr_consumed r == None) then
    mk_refresh_row (fr_digest r) (fr_family r) (fr_client r) (fr_resource r) (fr_scopes_json r) (fr_subject r) (fr_authenticated r)
      (fr_expires r) (Some now) (fr_revoked r) (fr_created r)
  else r.

Definition rotate_oauth_refresh_grant (request : RefreshRotationRequest) : M grant_tables (string * option RefreshGrant) :=
  atomically (
    row ← gets (find_refresh (rr_presented request));
    match row with
    | None => mret ("invalid", None)
    | Some r =>
        match fr_consumed r with
        | Some _ =>
            modify (update_refresh (row_revoked (fr_family r) (rr_now request))) ;;
            mret ("replayed", None)
        | None =>
            current_scopes ← lift (scopes_of_json (fr_scopes_json r));
            let successor_scopes := default current_scopes (rr_scopes request) in
            conflict ← gets (find_refresh (rr_successor request));
            if (fr_revoked r != None) || (fr_expires r <=? rr_now request) || (fr_client r != rr_client request)
               || (fr_resource r != rr_resource request) || negb (issubset successor_scopes current_scopes)
               || match conflict with Some _ => true | None => false end
            then mret ("invalid", None)
            else
              modify (update_refresh (row_consumed (rr_presented request) (rr_now request))) ;;
              text ← lift (scopes_json successor_scopes);
              created ← timestamp;
              let expires := Z.min (fr_expires r) (rr_expires request) in
              insert_refresh (mk_refresh_row (rr_successor request) (fr_family r) (fr_client r) (fr_resource r) text (fr_subject r)
                                (fr_authenticated r) expires None None created) ;;
              mret ("rotated", Some (mk_RefreshGrant (rr_successor request) (fr_family r) (fr_client r) (fr_resource r) successor_scopes
                                       (fr_subject r) (fr_authenticated r) expires None None))
        end
    end).

Definition revoke_oauth_refresh_grant (credential_digest client_id : string) (now : Z) : M grant_tables unit :=
  atomically (
    row ← gets (find_refresh credential_digest);
    match row with
    | Some r =>
        if fr_client r == client_id then modify (update_refresh (row_revoked (fr_family r) now)) else mret tt
    | None => mret tt
    end).

(** [RefreshRotationStatus(status)] *)
Definition status_of_text (s : string) : outcome RefreshRotationStatus :=
  if s == "rotated" then Ret ROTATED else if s == "invalid" then Ret INVALID else if s == "replayed" then Ret REPLAYED
  else throw ValueError "not a valid RefreshRotationStatus".

(** [ControlLedgerOAuthGrantStore.rotate_refresh_grant] *)
Definition rotate (request : RefreshRotationRequest) : M grant_tables RefreshRotationResult :=
  r ← rotate_oauth_refresh_grant request;
  status ← lift (status_of_text r.1);
  mret (status, r.2).

Definition ControlLedgerOAuthGrantStore : OAuthGrantStore grant_tables := {|
  create_authorization_grant := create_oauth_authorization_grant;
  consume_authorization_grant := consume_oauth_authorization_grant;
  create_refresh_grant := create_oauth_refresh_grant;
  rotate_refresh_grant := rotate;
  revoke_refresh_grant := revoke_oauth_refresh_grant;
|}.
End ledger.
End ControlLedgerOAuth.

(** ** Refinement *)

(** A computation on a store that does what one on the memory store does, or
    fails without effect, with an error that is not one of the protocol. *)
Definition refines {S A} (R : S → memory → Prop) (m : M S A) (spec : M memory A) : Prop := ∀ s k,
  R s k →
  match m s with
  | (Ret a, s') => ∃ k', spec k = (Ret a, k') ∧ R s' k'
  | (Exc e, s') => exn_cls e ≠ OAuthProtocolError ∧ R s' k
  end.

(** What a store owes to its clients; a digest has 64 characters. *)
Class StoreRefinement (S : Type) `{OAuthGrantStore S} (R : S → memory → Prop) := {
  create_code_refines g : slen (ag_digest g) = 64 →
    refines R (create_authorization_grant g) (MemoryOAuthGrantStore.create_authorization_grant g);
  consume_code_refines d now :
    refines R (consume_authorization_grant d now) (MemoryOAuthGrantStore.consume_authorization_grant d now);
  create_refresh_refines g : slen (rg_digest g) = 64 →
    refines R (create_refresh_grant g) (MemoryOAuthGrantStore.create_refresh_grant g);
  rotate_refines r : refines R (rotate_refresh_grant r) (MemoryOAuthGrantStore.rotate_refresh_grant r);
  refinement_functional s k k' : R s k → R s k' → k = k';
  revoke_refines d c now : refines R (revoke_refresh_grant d c now) (MemoryOAuthGrantStore.revoke_refresh_grant d c now);
}.

Lemma refines_itself {A} (m : M memory A) : (∀ k, ∃ a k', m k = (Ret a, k')) → refines eq m m.
Proof. intros Hm s k <-. destruct (Hm s) as (a & k' & ->). by exists k'. Qed.

#[global] Instance memory_refines_itself : StoreRefinement memory eq.
Proof.
  split; intros; [apply refines_itself; intros k; cbn..|by subst|apply refines_itself; intros k; cbn].
  - unfold MemoryOAuthGrantStore.create_authorization_grant. destruct (_ !! _); eauto.
  - unfold MemoryOAuthGrantStore.consume_authorization_grant. eauto.
  - unfold MemoryOAuthGrantStore.create_refresh_grant. destruct (_ !! _); eauto.
  - unfold MemoryOAuthGrantStore.rotate_refresh_grant. destruct (_ !! _) as [g|]; [|eauto]. destruct (rg_consumed g); [eauto|].
    destruct (_ || _); [eauto|]. destruct (_ || _); eauto.
  - unfold MemoryOAuthGrantStore.revoke_refresh_grant. destruct (_ !! _); eauto.
Qed.

Module DurableStore.
Import ControlLedgerOAuth.

(** The grants the rows stand for. *)
Definition code_is (r : code_row) (g : AuthorizationGrant) : Prop :=
  scopes_of_json (cr_scopes_json r) = Ret (ag_scopes g) ∧
  g = mk_AuthorizationGrant (cr_digest r) (cr_challenge r) (cr_client r) (cr_redirect r) (cr_resource r) (ag_scopes g) (cr_subject r)
        (cr_nonce r) (cr_authenticated r) (cr_expires r).

Definition refresh_is (r : refresh_row) (g : RefreshGrant) : Prop :=
  scopes_of_json (fr_scopes_json r) = Ret (rg_scopes g) ∧
  g = mk_RefreshGrant (fr_digest r) (fr_family r) (fr_client r) (fr_resource r) (rg_scopes g) (fr_subject r) (fr_authenticated r)
        (fr_expires r) (fr_consumed r) (fr_revoked r).

(** A table and a map hold the same under every key. *)
Definition holds {R G} (key : R → string) (stands : R → G → Prop) (rows : list R) (grants : gmap string G) : Prop := ∀ d,
  match List.find (λ r, key r == d) rows, grants !! d with
  | Some r, Some g => stands r g
  | None, None => True
  | _, _ => False
  end.

Definition sim (t : grant_tables) (k : memory) : Prop :=
  holds cr_digest code_is (gt_codes t) (mm_codes k) ∧ holds fr_digest refresh_is (gt_refresh t) (mm_refresh k).

Section tables.
Context {R G : Type} (key : R → string) (stands : R → G → Prop).
Abbreviation holds := (holds key stands).
Abbreviation find d := (List.find (λ r, key r == d)).

Lemma find_key d rows r : find d rows = Some r → key r = d.
Proof. intros H. apply find_some in H as [_ H]. by apply bool_decide_eq_true in H. Qed.

Lemma holds_empty : holds [] ∅.
Proof. intros d. cbn. by rewrite lookup_empty. Qed.

Lemma find_absent d rows : find d rows = None ↔ existsb (λ x, key x == d) rows = false.
Proof. induction rows as [|r rows IH]; [done|]. cbn. by destruct (key r == d). Qed.

Lemma table_find_snoc d rows r : find d (rows ++ [r]) = match find d rows with Some x => Some x | None => if key r == d then Some r else None end.
Proof. induction rows as [|x rows IH]; [done|]. cbn. by destruct (key x == d). Qed.

Lemma holds_lookup d rows grants r : holds rows grants → find d rows = Some r → ∃ g, grants !! d = Some g ∧ stands r g.
Proof. intros H E. specialize (H d). rewrite E in H. destruct (grants !! d); [eauto|done]. Qed.

Lemma holds_none d rows grants : holds rows grants → find d rows = None ↔ grants !! d = None.
Proof. intros H. specialize (H d). by destruct (find d rows), (grants !! d). Qed.

Lemma holds_insert rows grants r g :
  holds rows grants → find (key r) rows = None → stands r g → holds (rows ++ [r]) (<[key r := g]> grants).
Proof.
  intros H Hn Hs d. rewrite table_find_snoc. destruct (decide (key r = d)) as [<-|Hd].
  - by rewrite Hn, lookup_insert_eq, bool_decide_eq_true_2.
  - rewrite lookup_insert_ne by done. specialize (H d). rewrite bool_decide_eq_false_2 by done. by destruct (find d rows).
Qed.

Lemma holds_delete rows grants d : holds rows grants → holds (List.filter (λ r, key r != d) rows) (delete d grants).
Proof.
  intros H e. specialize (H e).
  assert (find e (List.filter (λ r, key r != d) rows) = if e == d then None else find e rows) as ->.
  { clear H. induction rows as [|r rows IH]; cbn; [by case_bool_decide|]. destruct (decide (key r = d)) as [E|E].
    - rewrite bool_decide_eq_true_2 by done. cbn. rewrite IH. repeat case_bool_decide; congruence.
    - rewrite bool_decide_eq_false_2 by done. cbn. rewrite IH. repeat case_bool_decide; congruence. }
  destruct (decide (e = d)) as [->|He]; [by rewrite bool_decide_eq_true_2, lookup_delete_eq|].
  by rewrite bool_decide_eq_false_2, lookup_delete_ne.
Qed.

(** An update of every row that keeps the keys. *)
Lemma find_map_key (f : R → R) d rows : (∀ r, key (f r) = key r) → find d (map f rows) = f <$> find d rows.
Proof. intros Hf. induction rows as [|r rows IH]; [done|]. cbn. rewrite Hf. by destruct (key r == d). Qed.

Lemma holds_map (f : R → R) (h : string → G → G) rows grants :
  holds rows grants → (∀ r, key (f r) = key r) → (∀ r g, stands r g → stands (f r) (h (key r) g)) →
  holds (map f rows) (map_imap (λ d g, Some (h d g)) grants).
Proof.
  intros H Hk Hs d. rewrite find_map_key, map_lookup_imap by done. specialize (H d). destruct (find d rows) as [r|] eqn:Er.
  - destruct (grants !! d); [|done]. cbn. rewrite <-(find_key _ _ _ Er). by apply Hs.
  - by destruct (grants !! d).
Qed.
End tables.

Lemma canon_texts l : map canon (map JStr l) = map JStr l.
Proof. induction l as [|x l IH]; [done|]. cbn. by rewrite IH. Qed.

Lemma scopes_json_error scopes e : scopes_json scopes = Exc e → exn_cls e ≠ OAuthProtocolError.
Proof.
  unfold scopes_json, safe_json, throw_if, throw, mbind, outcome_bind. destruct (inspect _); [by intros [= <-]|].
  by destruct (_ <? _); intros [= <-].
Qed.

(** The scopes read back. *)
Lemma scopes_roundtrip scopes text : scopes_json scopes = Ret text → scopes_of_json text = Ret scopes.
Proof.
  unfold scopes_json. intros E%safe_json_ret. unfold scopes_of_json. rewrite E.
  change (jget "scopes" _) with (Some (JArr (map canon (map JStr scopes)))). rewrite canon_texts.
  assert (∀ l, mapM text_of (map JStr l) = Some l) as -> by (induction l as [|x l IH]; [done|]; cbn; by rewrite IH). done.
Qed.

Lemma holds_functional {R G} (key : R → string) (stands : R → G → Prop) rows grants grants' :
  (∀ r g g', stands r g → stands r g' → g = g') → holds key stands rows grants → holds key stands rows grants' → grants = grants'.
Proof.
  intros Hs H H'. apply map_eq. intros d. specialize (H d). specialize (H' d). destruct (List.find _ rows) as [r|].
  - destruct (grants !! d), (grants' !! d); try done. f_equal. by apply (Hs r).
  - by destruct (grants !! d), (grants' !! d).
Qed.

Lemma sim_functional t k k' : sim t k → sim t k' → k = k'.
Proof.
  intros [Hc Hr] [Hc' Hr']. destruct k, k'. cbn in *. f_equal.
  - eapply holds_functional; [|exact Hc|exact Hc']. intros r g g' [E1 ->] [E2 ->]. cbn in *. congruence.
  - eapply holds_functional; [|exact Hr|exact Hr']. intros r g g' [E1 ->] [E2 ->]. cbn in *. congruence.
Qed.

Section simulation.
Context (ledger_clock : nat → Z).

Lemma sim_create_code g :
  slen (ag_digest g) = 64 →
  refines sim (create_oauth_authorization_grant ledger_clock g) (MemoryOAuthGrantStore.create_authorization_grant g).
Proof.
  intros Hg t k [Hc Hr]. unfold create_oauth_authorization_grant, mbind, M_bind, lift.
  destruct (scopes_json (ag_scopes g)) as [text|] eqn:Et; [|by split; [eapply scopes_json_error|]].
  unfold atomically, except_integrity, try_except, timestamp, insert_code, mbind, M_bind. cbn. rewrite Hg. cbn. rewrite orb_false_r.
  unfold MemoryOAuthGrantStore.create_authorization_grant.
  destruct (existsb _ (gt_codes t)) eqn:Ex; cbn.
  - destruct (mm_codes k !! ag_digest g) eqn:Ek; [eexists; split; [done|by split]|].
    apply (holds_none _ _ _ _ _ Hc) in Ek. rewrite find_absent in Ek. by rewrite Ek in Ex.
  - pose proof (proj2 (find_absent cr_digest _ _) Ex) as Ef. rewrite (proj1 (holds_none _ _ _ _ _ Hc) Ef).
    eexists. split; [done|]. split; [|done]. cbn.
    apply (holds_insert cr_digest code_is _ _ (mk_code_row (ag_digest g) _ _ _ _ _ _ _ _ _ _)); [done|done|].
    split; [by apply scopes_roundtrip|by destruct g].
Qed.

Lemma sim_consume d now :
  refines sim (consume_oauth_authorization_grant d now) (MemoryOAuthGrantStore.consume_authorization_grant d now).
Proof.
  intros t k [Hc Hr]. unfold consume_oauth_authorization_grant, atomically, mbind, M_bind, gets, find_code, modify.
  unfold MemoryOAuthGrantStore.consume_authorization_grant. destruct (List.find _ (gt_codes t)) as [r|] eqn:Ef.
  - destruct (holds_lookup _ _ _ _ _ _ Hc Ef) as (g & Eg & Hs & E). rewrite Eg.
    assert (sim (delete_code d t) (mk_memory (delete d (mm_codes k)) (mm_refresh k))) as Hsim
      by (split; [by apply holds_delete|done]).
    assert (ag_expires g = cr_expires r) as Ee by by rewrite E. rewrite Ee. destruct (Z.leb_spec (cr_expires r) now).
    + rewrite (proj2 (Z.ltb_ge _ _)) by lia. by eexists.
    + rewrite (proj2 (Z.ltb_lt _ _)) by lia. unfold lift. rewrite Hs. eexists. split; [|exact Hsim]. by rewrite E at 1.
  - pose proof (proj1 (holds_none _ _ _ _ _ Hc) Ef) as En. rewrite En. eexists. split; [done|]. split; [|done]. cbn.
    by rewrite delete_id.
Qed.

Lemma sim_create_refresh g :
  slen (rg_digest g) = 64 →
  refines sim (create_oauth_refresh_grant ledger_clock g) (MemoryOAuthGrantStore.create_refresh_grant g).
Proof.
  intros Hg t k [Hc Hr]. unfold create_oauth_refresh_grant, mbind, M_bind, lift.
  destruct (scopes_json (rg_scopes g)) as [text|] eqn:Et; [|by split; [eapply scopes_json_error|]].
  unfold atomically, except_integrity, try_except, timestamp, insert_refresh, mbind, M_bind. cbn. rewrite Hg. cbn. rewrite orb_false_r.
  unfold MemoryOAuthGrantStore.create_refresh_grant.
  destruct (existsb _ (gt_refresh t)) eqn:Ex; cbn.
  - destruct (mm_refresh k !! rg_digest g) eqn:Ek; [eexists; split; [done|by split]|].
    apply (holds_none _ _ _ _ _ Hr) in Ek. rewrite find_absent in Ek. by rewrite Ek in Ex.
  - pose proof (proj2 (find_absent fr_digest _ _) Ex) as Ef. rewrite (proj1 (holds_none _ _ _ _ _ Hr) Ef).
    eexists. split; [done|]. split; [done|]. cbn.
    apply (holds_insert fr_digest refresh_is _ _ (mk_refresh_row (rg_digest g) _ _ _ _ _ _ _ _ _ _)); [done|done|].
    split; [by apply scopes_roundtrip|by destruct g].
Qed.

Lemma sim_revoke_family f now t k : sim t k →
  sim (update_refresh (row_revoked f now) t) (MemoryOAuthGrantStore.revoke_family f now k).
Proof.
  intros [Hc Hr]. split; [done|]. cbn.
  replace ((λ g, if rg_family g == f then set_revoked_at now g else g) <$> mm_refresh k) with
    (map_imap (λ (_ : string) g, Some (if rg_family g == f then set_revoked_at now g else g)) (mm_refresh k)).
  - apply (holds_map fr_digest refresh_is (row_revoked f now) (λ _ g, if rg_family g == f then set_revoked_at now g else g)); [done|..].
    + intros r. unfold row_revoked. by case_bool_decide.
    + intros r g [Hs E]. assert (rg_family g = fr_family r) as Ef by by rewrite E. rewrite Ef. unfold row_revoked.
      case_bool_decide; [|done]. split; [done|]. rewrite E. done.
  - apply map_eq. intros d. rewrite map_lookup_imap, lookup_fmap. by destruct (mm_refresh k !! d).
Qed.

Lemma sim_revoke d c now : refines sim (revoke_oauth_refresh_grant d c now) (MemoryOAuthGrantStore.revoke_refresh_grant d c now).
Proof.
  intros t k Hs. pose proof Hs as [_ Hr]. unfold revoke_oauth_refresh_grant, atomically, mbind, M_bind, gets, modify, find_refresh.
  unfold MemoryOAuthGrantStore.revoke_refresh_grant. destruct (List.find _ (gt_refresh t)) as [r|] eqn:Ef.
  - destruct (holds_lookup _ _ _ _ _ _ Hr Ef) as (g & -> & _ & E).
    assert (rg_client g = fr_client r ∧ rg_family g = fr_family r) as [-> ->] by by rewrite E.
    case_bool_decide; (eexists; split; [done|]); [by apply sim_revoke_family|done].
  - rewrite (proj1 (holds_none _ _ _ _ _ Hr) Ef). by eexists.
Qed.

(** The row presented is consumed. *)
Lemma holds_consumed p now rows grants current :
  holds fr_digest refresh_is rows grants → grants !! p = Some current → rg_consumed current = None →
  holds fr_digest refresh_is (map (row_consumed p now) rows) (<[p := set_consumed now current]> grants).
Proof.
  intros Hr Ep Ec.
  replace (<[p := set_consumed now current]> grants) with
    (map_imap (λ d g, Some (if (d == p) && (rg_consumed g == None) then set_consumed now g else g)) grants).
  - apply (holds_map fr_digest refresh_is _ (λ d g, if (d == p) && (rg_consumed g == None) then set_consumed now g else g)); [done|..].
    + intros r. unfold row_consumed. by destruct (_ && _).
    + intros r g [Hs E]. assert (rg_consumed g = fr_consumed r) as -> by by rewrite E. unfold row_consumed.
      destruct ((fr_digest r == p) && _); [|done]. split; [done|]. rewrite E. done.
  - apply map_eq. intros d. rewrite map_lookup_imap. destruct (decide (d = p)) as [->|Hd].
    + rewrite Ep, lookup_insert_eq. cbn. by rewrite Ec, !bool_decide_eq_true_2.
    + rewrite lookup_insert_ne by done. destruct (grants !! d); [|done]. cbn. by rewrite bool_decide_eq_false_2.
Qed.

Lemma sim_rotate r : refines sim (rotate ledger_clock r) (MemoryOAuthGrantStore.rotate_refresh_grant r).
Proof.
  intros t k Hs. pose proof Hs as [Hc Hr]. unfold rotate, rotate_oauth_refresh_grant, MemoryOAuthGrantStore.rotate_refresh_grant.
  unfold atomically, mbind, M_bind, gets, modify, find_refresh.
  destruct (List.find _ (gt_refresh t)) as [row|] eqn:Ef; [|rewrite (proj1 (holds_none _ _ _ _ _ Hr) Ef); by eexists].
  destruct (holds_lookup _ _ _ _ _ _ Hr Ef) as (g & Eg & Es & E). rewrite Eg. pose proof (find_key _ _ _ _ Ef) as Ek.
  destruct g as [gd gf gc gr gs gu ga ge gco gre]. cbn in Es, E. injection E as -> -> -> -> -> -> -> -> ->. cbn [rg_consumed rg_family].
  destruct (fr_consumed row) eqn:Eco; [eexists; split; [done|by apply sim_revoke_family]|].
  unfold lift at 1. rewrite Es. cbn [rg_scopes rg_revoked rg_expires rg_client rg_resource rg_digest].
  assert ((mm_refresh k !! rr_successor r != None) = match List.find (λ x, fr_digest x == rr_successor r) (gt_refresh t) with Some _ => true | None => false end)
    as Esu.
  { specialize (Hr (rr_successor r)). cbn in Hr.
    destruct (List.find _ (gt_refresh t)), (mm_refresh k !! rr_successor r); try done; by case_bool_decide. }
  rewrite Esu. destruct (fr_revoked row != None); [by eexists|]. cbn [orb].
  destruct (fr_expires row <=? rr_now r); [by eexists|]. cbn [orb].
  destruct (_ || _ || negb (issubset _ _) || _) eqn:Ebad; [by eexists|].
  apply orb_false_iff in Ebad as [_ Econf].
  destruct (List.find (λ x, fr_digest x == rr_successor r) (gt_refresh t)) eqn:Esf; [done|].
  unfold lift. destruct (scopes_json _) as [text|] eqn:Et; [|by split; [eapply scopes_json_error|]].
  unfold timestamp, insert_refresh. cbn [gt_codes gt_refresh gt_reads update_refresh fr_digest].
  pose proof (find_map_key fr_digest (row_consumed (rr_presented r) (rr_now r)) (rr_successor r) (gt_refresh t)
    ltac:(intros x; unfold row_consumed; by destruct (_ && _))) as Ef'. rewrite Esf in Ef'. cbn in Ef'.
  rewrite (proj1 (find_absent fr_digest _ _) Ef'). destruct (slen (rr_successor r) =? 64); [|done]. cbn.
  eexists. split; [done|]. split; [done|]. cbn [mm_refresh gt_refresh].
  apply (holds_insert fr_digest refresh_is _ _ (mk_refresh_row (rr_successor r) _ _ _ _ _ _ _ _ _ _)); [|done|].
  - rewrite Ek in Eg |- *. by apply holds_consumed.
  - split; [by apply scopes_roundtrip|done].
Qed.
End simulation.

#[global] Instance durable_refinement ledger_clock :
  @StoreRefinement grant_tables (ControlLedgerOAuthGrantStore ledger_clock) sim.
Proof.
  split; intros; cbn; eauto using sim_create_code, sim_consume, sim_create_refresh, sim_rotate, sim_revoke, sim_functional.
Qed.
End DurableStore.

(** ** Sequences of calls *)

Inductive store_call : Type :=
| CreateCode (g : AuthorizationGrant)
| ConsumeCode (digest : string) (now : Z)
| CreateRefresh (g : RefreshGrant)
| Rotate (r : RefreshRotationRequest)
| Revoke (digest client : string) (now : Z).

Inductive store_answer : Type :=
| Created (b : bool)
| Consumed (g : option AuthorizationGrant)
| Rotation (r : RefreshRotationResult)
| Revoked.

(** The digests of new grants are SHA-256 digests in hexadecimal. *)
Definition digests_ok (c : store_call) : Prop :=
  match c with CreateCode g => slen (ag_digest g) = 64 | CreateRefresh g => slen (rg_digest g) = 64 | _ => True end.

Section calls.
Context {S : Type} `{OAuthGrantStore S}.

Definition store_step (c : store_call) : M S store_answer :=
  match c with
  | CreateCode g => b ← create_authorization_grant g; mret (Created b)
  | ConsumeCode d now => g ← consume_authorization_grant d now; mret (Consumed g)
  | CreateRefresh g => b ← create_refresh_grant g; mret (Created b)
  | Rotate r => x ← rotate_refresh_grant r; mret (Rotation x)
  | Revoke d c now => revoke_refresh_grant d c now ;; mret Revoked
  end.

(** The calls that returned, with their answers, and the store after them. *)
Fixpoint store_run (cs : list store_call) (s : S) : list (store_call * store_answer) * S :=
  match cs with
  | [] => ([], s)
  | c :: cs' =>
      let '(o, s1) := store_step c s in
      let '(log, s2) := store_run cs' s1 in
      (match o with Ret a => (c, a) :: log | Exc _ => log end, s2)
  end.
End calls.

Lemma refines_answer {S A B} (R : S → memory → Prop) (m : M S A) spec (f : A → B) :
  refines R m spec → refines R (a ← m; mret (f a)) (a ← spec; mret (f a)).
Proof.
  intros Hm s k Hr. specialize (Hm s k Hr). unfold mbind, M_bind. destruct (m s) as [[a|e] s']; [|done].
  destruct Hm as (k' & -> & Hr'). by exists k'.
Qed.

Lemma store_step_refines {S} `{StoreRefinement S R} c : digests_ok c → refines R (store_step (S:=S) c) (store_step (S:=memory) c).
Proof.
  destruct c; intros Hc; apply refines_answer; cbn.
  - by apply create_code_refines.
  - apply consume_code_refines.
  - by apply create_refresh_refines.
  - apply rotate_refines.
  - apply revoke_refines.
Qed.

Lemma store_run_refines {S} `{StoreRefinement S R} cs (s : S) k log s' :
  Forall digests_ok cs → R s k → store_run cs s = (log, s') → ∃ k', store_run (map fst log) k = (log, k') ∧ R s' k'.
Proof.
  intros Hcs. revert s k log. induction Hcs as [|c cs Hc Hcs IH]; intros s k log Hr Hrun; cbn in Hrun; [injection Hrun as <- <-; by exists k|].
  pose proof (store_step_refines c Hc s k Hr) as Hs. destruct (store_step c s) as [o s1].
  destruct (store_run cs s1) as [log1 s2] eqn:E1. injection Hrun as <- <-. destruct o as [a|e].
  - destruct Hs as (k1 & Es & Hr1). destruct (IH s1 k1 log1 Hr1 E1) as (k' & E & Hr'). exists k'. split; [|done].
    cbn [map fst store_run]. by rewrite Es, E.
  - destruct Hs as [_ Hr1]. by apply (IH s1 k).
Qed.

Definition no_tables : grant_tables := mk_grant_tables [] [] 0.

(** C31: The store of the control ledger refines the memory store: after any
    sequence of calls, those that returned gave the answers the memory store
    gives to them, in their order, from the empty store; calls that failed
    changed nothing; and the two tables hold what the memory store holds. *)
Theorem durable_store_refines_memory ledger_clock cs log t :
  Forall digests_ok cs →
  @store_run _ (ControlLedgerOAuth.ControlLedgerOAuthGrantStore ledger_clock) cs no_tables = (log, t) →
  ∃ k, store_run (map fst log) MemoryOAuthGrantStore.empty = (log, k) ∧ DurableStore.sim t k.
Proof. intros Hcs. apply store_run_refines; [done|]. split; apply DurableStore.holds_empty. Qed.

Module StoreSample.
Definition digest_a : string := "aaaaaaaaaaaaaaaaaaaaaaaaaaaaaaaaaaaaaaaaaaaaaaaaaaaaaaaaaaaaaaaa".
Definition digest_b : string := "bbbbbbbbbbbbbbbbbbbbbbbbbbbbbbbbbbbbbbbbbbbbbbbbbbbbbbbbbbbbbbbb".
Definition grant : RefreshGrant := mk_RefreshGrant digest_a "f" "chat" "mcp" ["read"; "write"] "owner" 900 5000 None None.
Definition rotation : RefreshRotationRequest := mk_RefreshRotationRequest digest_a digest_b "chat" "mcp" (Some ["read"]) 4000 1000.
Definition calls : list store_call := [CreateRefresh grant; Rotate rotation; Rotate rotation].
End StoreSample.

(** A rotation, then the same credential again. *)
Lemma durable_store_refines_memory_witness : ∃ log t k,
  @store_run _ (ControlLedgerOAuth.ControlLedgerOAuthGrantStore (λ _, 1000)) StoreSample.calls no_tables = (log, t) ∧
  store_run (map fst log) MemoryOAuthGrantStore.empty = (log, k) ∧ DurableStore.sim t k ∧
  nth_error (map snd log) 2 = Some (Rotation (REPLAYED, None)).
Proof.
  destruct (@store_run _ (ControlLedgerOAuth.ControlLedgerOAuthGrantStore (λ _, 1000)) StoreSample.calls no_tables) as [log t] eqn:E.
  destruct (durable_store_refines_memory (λ _, 1000) StoreSample.calls log t) as (k & H1 & H2).
  - repeat constructor.
  - exact E.
  - exists log, t, k. split; [reflexivity|]. split; [exact H1|]. split; [exact H2|].
    assert (nth_error (map snd (@store_run _ (ControlLedgerOAuth.ControlLedgerOAuthGrantStore (λ _, 1000)) StoreSample.calls no_tables).1) 2
      = Some (Rotation (REPLAYED, None))) as Hn by (vm_compute; reflexivity).
    rewrite E in Hn. exact Hn.
Defined.
