(* ===== verification/OAuth.v ===== *)
(** * OAuth: the authorization server

    Models oauth_server/service.py ([AuthorizationService]) with the parts of
    models.py and tokens.py it uses: authorization codes bound to a PKCE
    challenge, their exchange for tokens, and the rotation and revocation of
    refresh credentials, over any [OAuthGrantStore] and any client authority.
    SHA-256, the S256 transformation, the JWT encoding, the random credentials
    and the clock are parameters. *)

From S2P Require Import Prelude Json OAuthStore.

(** ** models.py *)

Record StaticClient := mk_StaticClient { sc_id : string; sc_redirects : list string; sc_scopes : list string }.

Record AuthorizationServerSettings := mk_settings {
  st_issuer : string; st_resource : string; st_audience : string; st_owner : string; st_clients : list StaticClient;
  st_key_id : string; st_additional : list string; st_access_ttl : Z; st_code_ttl : Z; st_refresh_ttl : Z;
}.

Record OwnerIdentity := mk_OwnerIdentity { ow_subject : string; ow_authenticated : Z }.

Record OAuthClientRecord := mk_OAuthClientRecord { oc_issuer : string; oc_client : string; oc_enabled : bool; oc_scopes : list string }.

(** The bounds [AuthorizationServerSettings.__post_init__] sets on lifetimes. *)
Definition lifetimes_valid (s : AuthorizationServerSettings) : bool :=
  (30 <=? st_access_ttl s) && (st_access_ttl s <=? 600) && (30 <=? st_code_ttl s) && (st_code_ttl s <=? 300)
  && (60 <=? st_refresh_ttl s) && (st_refresh_ttl s <=? 31536000).

Definition resources_supported (s : AuthorizationServerSettings) : list string := st_resource s :: st_additional s.

Definition audience_for_resource (s : AuthorizationServerSettings) (resource : string) : outcome string :=
  if resource == st_resource s then Ret (st_audience s)
  else if mem resource (st_additional s) then Ret resource
  else throw ValueError "unsupported OAuth resource".

Definition settings_client (s : AuthorizationServerSettings) (client_id : string) : option StaticClient :=
  List.find (λ c, sc_id c == client_id) (st_clients s).

(** [valid_scope]: one RFC 6749 scope-token *)
Definition scope_char (c : Ascii.ascii) : bool :=
  let n := Ascii.nat_of_ascii c in
  (n =? 33)%nat || ((35 <=? n)%nat && (n <=? 91)%nat) || ((93 <=? n)%nat && (n <=? 126)%nat).

Definition valid_scope (s : string) : bool := (s != "") && string_forallb scope_char s.

(** [value.split(" ")] *)
Fixpoint split_spaces (s : string) : list string :=
  match s with
  | EmptyString => [""]
  | String c rest =>
      if c == " "%char then "" :: split_spaces rest
      else match split_spaces rest with [] => [String c ""] | w :: ws => String c w :: ws end
  end.

Definition has_duplicates (l : list string) : bool := negb (bool_decide (NoDup l)).

Definition parse_scope (value : string) : outcome (list string) :=
  let values := split_spaces value in
  throw_if ((value == "") || existsb (λ item, (item == "") || negb (valid_scope item)) values) ValueError "invalid scope" ;;
  throw_if (has_duplicates values) ValueError "duplicate scope" ;;
  Ret values.

(** [_PKCE_VALUE] and [_S256_CHALLENGE] *)
Definition is_letter_or_digit (c : Ascii.ascii) : bool :=
  in_char_range "A"%char "Z"%char c || in_char_range "a"%char "z"%char c || in_char_range "0"%char "9"%char c.

Definition validate_pkce_value (s : string) : bool :=
  (43 <=? slen s) && (slen s <=? 128) && string_forallb (λ c, is_letter_or_digit c || mem c ["."; "_"; "~"; "-"]%char) s.

Definition validate_s256_challenge (s : string) : bool :=
  (slen s =? 43) && string_forallb (λ c, is_letter_or_digit c || mem c ["_"; "-"]%char) s.

(** [" ".join(scopes)] *)
Definition join_scopes (scopes : list string) : string := String.concat " " scopes.

(** ** The client authority *)

Class OAuthControlLedger (C : Type) := {
  get_client : string → string → M C (option OAuthClientRecord);
  register_resolved_client : OAuthClientRecord → string → M C OAuthClientRecord;
}.

(** ** service.py *)

Record ValidatedAuthorizationRequest := mk_request {
  vr_client : StaticClient; vr_redirect : string; vr_resource : string; vr_scopes : list string; vr_state : option string;
  vr_nonce : option string; vr_challenge : string;
}.

Record token_response := mk_token_response {
  tr_access_token : string; tr_token_type : string; tr_expires_in : Z; tr_scope : string; tr_refresh_token : string;
  tr_id_token : option string;
}.

(** The request parameters. *)
Abbreviation parameters := (list (string * string)).

Fixpoint parameter (ps : parameters) (name : string) : option string :=
  match ps with [] => None | (k, v) :: ps' => if k == name then Some v else parameter ps' name end.

(** [parameters[name]], after the check that it is there *)
Definition required (ps : parameters) (name : string) : string := default "" (parameter ps name).

(** [not parameters.get(name)] *)
Definition missing (ps : parameters) (name : string) : bool := required ps name == "".

(** [_bounded_credential] *)
Definition bounded_credential (s : string) : bool :=
  (s != "") && (slen s <=? 1024) && string_forallb (λ c, (Ascii.nat_of_ascii c <? 128)%nat && negb (is_space c)) s.

(** The authority, the store, and how many random values and readings of the
    clock were used. *)
Record server (C S : Type) := mk_server { sv_clients : C; sv_store : S; sv_random : nat; sv_clock : nat }.
Arguments mk_server {C S}.
Arguments sv_clients {C S}.
Arguments sv_store {C S}.
Arguments sv_random {C S}.
Arguments sv_clock {C S}.

Section service.
Context {C S : Type} `{OAuthControlLedger C} `{OAuthGrantStore S}.
Context (settings : AuthorizationServerSettings).
(** [hashlib.sha256(...).hexdigest()], the S256 transformation, PyJWT's
    [encode] of a type and claims, [secrets.token_urlsafe(32)] and
    [secrets.token_urlsafe(18)] value by value, and the clock. *)
Context (digest s256 : string → string) (encode : string → list (string * json) → string)
  (credential family : nat → string) (clock : nat → Z).
(** The resolver of client metadata documents, when there is one. *)
Context (resolve : option (string → M C StaticClient)).
Abbreviation world := (server C S).

Definition on_clients {A} (m : M C A) : M world A := λ w,
  let '(o, c) := m (sv_clients w) in (o, mk_server c (sv_store w) (sv_random w) (sv_clock w)).
Definition on_store {A} (m : M S A) : M world A := λ w,
  let '(o, s) := m (sv_store w) in (o, mk_server (sv_clients w) s (sv_random w) (sv_clock w)).
Definition draw (source : nat → string) : M world string := λ w,
  (Ret (source (sv_random w)), mk_server (sv_clients w) (sv_store w) (Datatypes.S (sv_random w)) (sv_clock w)).
Definition read_clock : M world Z := λ w,
  (Ret (clock (sv_clock w)), mk_server (sv_clients w) (sv_store w) (sv_random w) (Datatypes.S (sv_clock w))).

Definition protocol_error {A} (error : string) : M world A := raise OAuthProtocolError error.
Definition protocol_error_if (c : bool) (error : string) : M world unit := raise_if c OAuthProtocolError error.

(** [status_code] of an [OAuthProtocolError] *)
Definition status_code (error : string) : Z :=
  if mem error ["invalid_client"; "access_denied"] then 401 else if error == "temporarily_unavailable" then 503 else 400.

(** [try: ... except Exception: raise temporarily_unavailable] *)
Definition or_unavailable {A} (m : M world A) : M world A := try_except m (λ _, protocol_error "temporarily_unavailable").

(** [_enabled_client] *)
Definition enabled_client (client_id : string) : M world (StaticClient * OAuthClientRecord) :=
  match settings_client settings client_id with
  | None =>
      match resolve with
      | None => protocol_error "invalid_client"
      | Some resolver =>
          configured ← try_except (on_clients (resolver client_id))
                         (λ e, if exn_cls e == ClientMetadataError then protocol_error "invalid_client" else reraise e);
          let resolved := mk_OAuthClientRecord (st_issuer settings) client_id true (sc_scopes configured) in
          persisted ← or_unavailable (on_clients (register_resolved_client resolved (st_owner settings)));
          protocol_error_if ((oc_issuer persisted != oc_issuer resolved) || (oc_client persisted != oc_client resolved)
                             || negb (oc_enabled persisted)
                             || negb (issubset (oc_scopes persisted) (oc_scopes resolved) && issubset (oc_scopes resolved) (oc_scopes persisted)))
            "invalid_client" ;;
          mret (configured, persisted)
      end
  | Some configured =>
      record ← or_unavailable (on_clients (get_client (st_issuer settings) client_id));
      match record with
      | None => protocol_error "invalid_client"
      | Some r =>
          protocol_error_if (negb (oc_enabled r) || (oc_issuer r != st_issuer settings) || (oc_client r != client_id)) "invalid_client" ;;
          mret (configured, r)
      end
  end.

(** [scopes <= configured.allowed_scopes & ledger_client.allowed_scopes] *)
Definition scopes_allowed (scopes : list string) (client : StaticClient * OAuthClientRecord) : bool :=
  issubset scopes (sc_scopes client.1) && issubset scopes (oc_scopes client.2).

(** The checks of [resource] and [audience]. *)
Definition check_target (ps : parameters) : M world unit :=
  let resource := required ps "resource" in
  protocol_error_if (negb (mem resource (resources_supported settings))) "invalid_target" ;;
  match parameter ps "audience" with
  | None => mret tt
  | Some audience =>
      expected ← lift (audience_for_resource settings resource);
      protocol_error_if (audience != expected) "invalid_target"
  end.

(** [except ValueError: raise invalid_scope] *)
Definition scopes_or_error (value : string) : M world (list string) :=
  match parse_scope value with Ret scopes => mret scopes | Exc _ => protocol_error "invalid_scope" end.

Definition optional_longer (o : option string) (n : Z) : bool :=
  match o with Some s => blank_or_longer s n | None => false end.

Definition validate_authorization_request (ps : parameters) : M world ValidatedAuthorizationRequest :=
  protocol_error_if (existsb (missing ps) ["response_type"; "client_id"; "redirect_uri"; "resource"; "scope"; "code_challenge"])
    "invalid_request" ;;
  protocol_error_if (required ps "response_type" != "code") "unsupported_response_type" ;;
  protocol_error_if (parameter ps "code_challenge_method" != Some "S256") "invalid_request" ;;
  let challenge := required ps "code_challenge" in
  protocol_error_if (negb (validate_s256_challenge challenge)) "invalid_request" ;;
  client ← enabled_client (required ps "client_id");
  let redirect_uri := required ps "redirect_uri" in
  protocol_error_if (negb (mem redirect_uri (sc_redirects client.1))) "invalid_request" ;;
  check_target ps ;;
  scopes ← scopes_or_error (required ps "scope");
  protocol_error_if (negb (scopes_allowed scopes client)) "invalid_scope" ;;
  protocol_error_if (optional_longer (parameter ps "nonce") 255) "invalid_request" ;;
  protocol_error_if (optional_longer (parameter ps "state") 1024) "invalid_request" ;;
  mret (mk_request client.1 redirect_uri (required ps "resource") scopes (parameter ps "state") (parameter ps "nonce") challenge).

(** [for _ in range(3)] of [complete_authorization] *)
Fixpoint create_code (tries : nat) (request : ValidatedAuthorizationRequest) (owner : OwnerIdentity) (now : Z) : M world string :=
  match tries with
  | O => protocol_error "temporarily_unavailable"
  | Datatypes.S tries' =>
      code ← draw credential;
      created ← on_store (create_authorization_grant
        (mk_AuthorizationGrant (digest code) (vr_challenge request) (sc_id (vr_client request)) (vr_redirect request)
           (vr_resource request) (vr_scopes request) (ow_subject owner) (vr_nonce request) (ow_authenticated owner)
           (now + st_code_ttl settings)));
      if created : bool then mret code else create_code tries' request owner now
  end.

Definition complete_authorization (request : ValidatedAuthorizationRequest) (owner : OwnerIdentity) : M world string :=
  protocol_error_if (ow_subject owner != st_owner settings) "access_denied" ;;
  now ← read_clock;
  create_code 3 request owner now.

(** *** tokens.py *)

Definition access_claims (subject client_id : string) (scopes : list string) (token_id : string) (now : Z) (audience resource : string) :
    list (string * json) :=
  [("iss", JStr (st_issuer settings)); ("sub", JStr subject); ("aud", JStr (if audience == "" then st_audience settings else audience));
   ("resource", JStr (if resource == "" then st_resource settings else resource)); ("client_id", JStr client_id);
   ("scope", JStr (join_scopes scopes)); ("jti", JStr token_id); ("iat", JInt now); ("nbf", JInt now);
   ("exp", JInt (now + st_access_ttl settings))].

Definition issue_access_token (subject client_id : string) (scopes : list string) (token_id : string) (now : Z) (audience resource : string) :
    string * Z :=
  (encode "at+jwt" (access_claims subject client_id scopes token_id now audience resource), now + st_access_ttl settings).

Definition issue_id_token (subject client_id : string) (nonce : option string) (authenticated_at now : Z) : string :=
  encode "JWT"
    ([("iss", JStr (st_issuer settings)); ("sub", JStr subject); ("aud", JStr client_id); ("iat", JInt now);
      ("exp", JInt (now + st_access_ttl settings)); ("auth_time", JInt authenticated_at)]
     ++ match nonce with Some n => [("nonce", JStr n)] | None => [] end)%list.

(** [_access_response] with the refresh token its callers add *)
Definition access_response (subject client_id : string) (scopes : list string) (now : Z) (resource refresh_token : string)
    (id_token : option string) : M world token_response :=
  token_id ← draw family;
  audience ← lift (audience_for_resource settings resource);
  let token := issue_access_token subject client_id scopes token_id now audience resource in
  mret (mk_token_response token.1 "Bearer" (st_access_ttl settings) (join_scopes scopes) refresh_token id_token).

(** [_new_refresh_grant] *)
Fixpoint create_refresh (tries : nat) (family_id : string) (grant : AuthorizationGrant) (now : Z) : M world string :=
  match tries with
  | O => protocol_error "temporarily_unavailable"
  | Datatypes.S tries' =>
      raw ← draw credential;
      created ← on_store (create_refresh_grant
        (mk_RefreshGrant (digest raw) family_id (ag_client grant) (ag_resource grant) (ag_scopes grant) (ag_subject grant)
           (ag_authenticated grant) (now + st_refresh_ttl settings) None None));
      if created : bool then mret raw else create_refresh tries' family_id grant now
  end.

Definition new_refresh_grant (grant : AuthorizationGrant) (now : Z) : M world string :=
  family_id ← draw family;
  create_refresh 3 family_id grant now.

(** [_tokens_for_authorization_grant] *)
Definition tokens_for_authorization_grant (grant : AuthorizationGrant) (now : Z) : M world token_response :=
  refresh_token ← new_refresh_grant grant now;
  access_response (ag_subject grant) (ag_client grant) (ag_scopes grant) now (ag_resource grant) refresh_token
    (if mem "openid" (ag_scopes grant)
     then Some (issue_id_token (ag_subject grant) (ag_client grant) (ag_nonce grant) (ag_authenticated grant) now) else None).

Definition exchange_authorization_code (ps : parameters) : M world token_response :=
  protocol_error_if (existsb (missing ps) ["code"; "code_verifier"; "redirect_uri"; "client_id"; "resource"]) "invalid_request" ;;
  let code := required ps "code" in
  let verifier := required ps "code_verifier" in
  protocol_error_if (negb (bounded_credential code) || negb (validate_pkce_value verifier)) "invalid_grant" ;;
  client ← enabled_client (required ps "client_id");
  check_target ps ;;
  now ← read_clock;
  grant ← on_store (consume_authorization_grant (digest code) now);
  match grant with
  | None => protocol_error "invalid_grant"
  | Some g =>
      protocol_error_if (s256 verifier != ag_challenge g) "invalid_grant" ;;
      protocol_error_if ((ag_client g != required ps "client_id") || (ag_redirect g != required ps "redirect_uri")
                         || (ag_resource g != required ps "resource") || negb (scopes_allowed (ag_scopes g) client)) "invalid_grant" ;;
      tokens_for_authorization_grant g now
  end.

Definition rotate_refresh_token (ps : parameters) : M world token_response :=
  protocol_error_if (existsb (missing ps) ["refresh_token"; "client_id"; "resource"]) "invalid_request" ;;
  let presented := required ps "refresh_token" in
  protocol_error_if (negb (bounded_credential presented)) "invalid_grant" ;;
  client ← enabled_client (required ps "client_id");
  check_target ps ;;
  requested ← match parameter ps "scope" with
              | None => mret None
              | Some value =>
                  scopes ← scopes_or_error value;
                  protocol_error_if (negb (scopes_allowed scopes client)) "invalid_scope" ;;
                  mret (Some scopes)
              end;
  successor ← draw credential;
  now ← read_clock;
  rotation ← on_store (rotate_refresh_grant
    (mk_RefreshRotationRequest (digest presented) (digest successor) (required ps "client_id") (required ps "resource") requested
       (now + st_refresh_ttl settings) now));
  match rotation with
  | (ROTATED, Some g) => access_response (rg_subject g) (rg_client g) (rg_scopes g) now (rg_resource g) successor None
  | _ => protocol_error "invalid_grant"
  end.

Definition revoke_refresh_token (ps : parameters) : M world unit :=
  let token := required ps "token" in
  let client_id := required ps "client_id" in
  if negb (bounded_credential token) || (client_id == "") then mret tt
  else
    enabled ← try_except (enabled_client client_id ;; mret true)
                (λ e, if exn_cls e == OAuthProtocolError then mret false else reraise e);
    if enabled : bool then
      now ← read_clock;
      on_store (revoke_refresh_grant (digest token) client_id now)
    else mret tt.

End service.
