(* ===== verification/OAuthSafety.v ===== *)
(** * OAuthSafety: executions of the authorization server

    Any sequence of requests to [AuthorizationService], over any store that
    refines the memory store: a code is exchanged once, a family of refresh
    credentials has one usable member, and a credential that is presented twice
    ends its family. *)

From S2P Require Import Prelude Json OAuthStore OAuth.

Inductive oauth_call : Type :=
| Authorize (ps : parameters) (owner : OwnerIdentity)
| Exchange (ps : parameters)
| Refresh (ps : parameters)
| RevokeToken (ps : parameters).

Section executions.
Context {C S : Type} `{OAuthControlLedger C} `{Hstore : OAuthGrantStore S}.
Context (R : S → memory → Prop) `{!StoreRefinement S R}.
Context (settings : AuthorizationServerSettings).
Context (digest s256 : string → string) (encode : string → list (string * json) → string)
  (credential family : nat → string) (clock : nat → Z) (resolve : option (string → M C StaticClient)).
Hypothesis digest_length : ∀ s, slen (digest s) = 64.
Abbreviation world := (server C S).
Abbreviation exchange_ := (exchange_authorization_code settings digest s256 encode credential family clock resolve).
Abbreviation rotate_ := (rotate_refresh_token settings digest encode credential family clock resolve).

Definition authorize (ps : parameters) (owner : OwnerIdentity) : M world string :=
  request ← validate_authorization_request settings resolve ps;
  complete_authorization settings digest credential clock request owner.

Definition oauth_step (c : oauth_call) : M world unit :=
  match c with
  | Authorize ps owner => authorize ps owner ;; mret tt
  | Exchange ps => exchange_ ps ;; mret tt
  | Refresh ps => rotate_ ps ;; mret tt
  | RevokeToken ps => revoke_refresh_token settings digest clock resolve ps
  end.

Definition oauth_run (cs : list oauth_call) (w : world) : world := fold_left (λ w c, (oauth_step c w).2) cs w.

(** ** What every statement keeps *)

(** Every code in the store was issued for the owner. *)
Definition owners_codes (k : memory) : Prop := ∀ d g, mm_codes k !! d = Some g → ag_subject g = st_owner settings.

(** A property of the store and of the number of random values drawn that the
    operations of the service keep: a code or credential that is stored was
    drawn after everything before, and a family is new when it begins. *)
Record stable (P : nat → memory → Prop) : Prop := {
  stable_owner n k : P n k → owners_codes k;
  stable_later n n' k : (n ≤ n')%nat → P n k → P n' k;
  stable_code n k g : P n k → ag_digest g = digest (credential n) → ag_subject g = st_owner settings →
    P (Datatypes.S n) (MemoryOAuthGrantStore.create_authorization_grant g k).2;
  stable_consume n k d now : P n k → P n (MemoryOAuthGrantStore.consume_authorization_grant d now k).2;
  stable_refresh m n k g : (m < n)%nat → P m k → rg_digest g = digest (credential n) → rg_family g = family m →
    rg_subject g = st_owner settings → rg_consumed g = None → rg_revoked g = None →
    P (Datatypes.S n) (MemoryOAuthGrantStore.create_refresh_grant g k).2;
  stable_rotate n k r : P n k → rr_successor r = digest (credential n) → P (Datatypes.S n) (MemoryOAuthGrantStore.rotate_refresh_grant r k).2;
  stable_revoke n k d c now : P n k → P n (MemoryOAuthGrantStore.revoke_refresh_grant d c now k).2;
}.

Section walk.
Context (P : nat → memory → Prop) (HP : stable P).

Definition here (w : world) (k : memory) : Prop := R (sv_store w) k ∧ P (sv_random w) k.

(** [post m Q]: from a world where [P] holds, [m] keeps it however it ends, and
    leaves [Q] when it returns. *)
Definition post {A} (m : M world A) (Q : A → world → memory → Prop) : Prop := ∀ w k, here w k →
  ∃ k', here (m w).2 k' ∧ match (m w).1 with Ret a => Q a (m w).2 k' | Exc _ => True end.

Definition kept {A} (m : M world A) : Prop := post m (λ _ _ _, True).

Lemma kept_bind {A B} (m : M world A) (f : A → M world B) : kept m → (∀ a, kept (f a)) → kept (mbind f m).
Proof using.
  intros Hm Hf w k Hw. destruct (Hm w k Hw) as (k1 & H1 & _). unfold mbind, M_bind. destruct (m w) as [[a|e] w1]; [by apply (Hf a w1 k1)|].
  by exists k1.
Qed.

Lemma kept_pure {A} (m : M world A) : (∀ w, (m w).2 = w) → kept m.
Proof using. intros Hm w k Hw. exists k. rewrite Hm. split; [done|]. by destruct (m w).1. Qed.

Lemma kept_if {A} (b : bool) (m m' : M world A) : kept m → kept m' → kept (if b then m else m').
Proof using. by destruct b. Qed.

Lemma kept_error {A} error : kept (protocol_error (A:=A) error).
Proof using. by apply kept_pure. Qed.

Lemma kept_error_if c error : kept (protocol_error_if c error).
Proof using. apply kept_pure. intros w. by destruct c. Qed.

Lemma kept_clock : kept (read_clock clock).
Proof using. intros w k Hw. by exists k. Qed.

Lemma kept_draw source : kept (draw source).
Proof using HP. intros w k [Hr Hw]. exists k. split; [|done]. split; [done|]. cbn. eapply stable_later; [done| |done]. lia. Qed.

Lemma kept_clients {A} (m : M C A) : kept (on_clients m).
Proof using. intros w k Hw. exists k. unfold on_clients. destruct (m (sv_clients w)) as [o c]. split; [done|]. by destruct o. Qed.

Lemma kept_try {A} (m : M world A) h : kept m → (∀ e, kept (h e)) → kept (try_except m h).
Proof using.
  intros Hm Hh w k Hw. destruct (Hm w k Hw) as (k1 & H1 & _). unfold try_except. destruct (m w) as [[a|e] w1]; [by exists k1|].
  by apply (Hh e w1 k1).
Qed.

Lemma kept_enabled client_id : kept (enabled_client settings resolve client_id).
Proof using.
  unfold enabled_client, or_unavailable. destruct (settings_client settings client_id).
  - apply kept_bind; [apply kept_try; [apply kept_clients|intros; apply kept_error]|]. intros [r|]; [|apply kept_error].
    apply kept_bind; [apply kept_error_if|]. by intros _; apply kept_pure.
  - destruct resolve as [f|]; [|apply kept_error]. apply kept_bind.
    { apply kept_try; [apply kept_clients|]. intros e. apply kept_if; [apply kept_error|by apply kept_pure]. }
    intros c. apply kept_bind; [apply kept_try; [apply kept_clients|intros; apply kept_error]|]. intros r.
    apply kept_bind; [apply kept_error_if|]. by intros _; apply kept_pure.
Qed.

Lemma kept_target ps : kept (check_target settings ps).
Proof using.
  apply kept_bind; [apply kept_error_if|]. intros _. destruct (parameter ps "audience"); [|by apply kept_pure].
  apply kept_bind; [by apply kept_pure|]. intros e. apply kept_error_if.
Qed.

Lemma kept_scopes value : kept (scopes_or_error value).
Proof using. unfold scopes_or_error. destruct (parse_scope value); [by apply kept_pure|apply kept_error]. Qed.

Lemma kept_response sub cl sc now res refr idt : kept (access_response settings encode family sub cl sc now res refr idt).
Proof using HP. apply kept_bind; [apply kept_draw|]. intros t. apply kept_bind; [by apply kept_pure|]. by intros a; apply kept_pure. Qed.

(** Sequencing after the store and the random source. *)
Definition with_store (s : S) (w : world) : world := mk_server (sv_clients w) s (sv_random w) (sv_clock w).
Definition drawn (w : world) : world := mk_server (sv_clients w) (sv_store w) (Datatypes.S (sv_random w)) (sv_clock w).

Lemma bind_store {A B} (m : M S A) (f : A → M world B) w :
  mbind f (on_store m) w =
  match m (sv_store w) with (Ret a, s) => f a (with_store s w) | (Exc e, s) => (Exc e, with_store s w) end.
Proof using. unfold mbind, M_bind, on_store. by destruct (m (sv_store w)) as [[a|e] s]. Qed.

Lemma bind_clock {B} (f : Z → M world B) w :
  mbind f (read_clock clock) w = f (clock (sv_clock w)) (mk_server (sv_clients w) (sv_store w) (sv_random w) (Datatypes.S (sv_clock w))).
Proof using. done. Qed.

Lemma bind_draw {B} source (f : string → M world B) w : mbind f (draw source) w = f (source (sv_random w)) (drawn w).
Proof using. done. Qed.

(** Draw a code, store it: up to [tries] times. *)
Lemma kept_create_code tries request owner now :
  ow_subject owner = st_owner settings → kept (create_code settings digest credential tries request owner now).
Proof using HP digest_length StoreRefinement0.
  intros Ho. induction tries as [|tries IH]; [apply kept_error|]. intros w k [Hr Hw]. cbn [create_code]. rewrite bind_draw, bind_store.
  set (g := mk_AuthorizationGrant _ _ _ _ _ _ _ _ _ _).
  pose proof (create_code_refines g (digest_length _) (sv_store w) k Hr) as Hc. cbn [sv_store drawn].
  destruct (create_authorization_grant g (sv_store w)) as [[[]|e] s']; [destruct Hc as (k' & E & Hr')..|destruct Hc as [_ Hc]].
  - exists k'. split; [|exact I]. split; [done|]. cbn. pose proof (stable_code _ HP _ _ g Hw eq_refl Ho) as H'. by rewrite E in H'.
  - apply (IH (with_store s' (drawn w)) k'). split; [done|]. cbn. pose proof (stable_code _ HP _ _ g Hw eq_refl Ho) as H'. by rewrite E in H'.
  - exists k. split; [|exact I]. split; [done|]. cbn. eapply stable_later; [done| |done]. lia.
Qed.

Lemma kept_create_refresh tries m grant now w k :
  ag_subject grant = st_owner settings → R (sv_store w) k → P m k → (m < sv_random w)%nat →
  ∃ k', here (create_refresh settings digest credential tries (family m) grant now w).2 k'.
Proof using HP digest_length StoreRefinement0.
  intros Ho. revert w k. induction tries as [|tries IH]; intros w k Hr Hm Hn.
  { exists k. split; [done|]. eapply stable_later; [done| |done]. cbn. lia. }
  cbn [create_refresh]. rewrite bind_draw, bind_store. set (g := mk_RefreshGrant _ _ _ _ _ _ _ _ _ _).
  pose proof (create_refresh_refines g (digest_length _) (sv_store w) k Hr) as Hc. cbn [sv_store drawn].
  destruct (create_refresh_grant g (sv_store w)) as [[[]|e] s']; [destruct Hc as (k' & E & Hr')..|destruct Hc as [_ Hc]].
  - exists k'. split; [done|]. cbn. pose proof (stable_refresh _ HP _ _ _ g Hn Hm eq_refl eq_refl Ho eq_refl eq_refl) as H'. by rewrite E in H'.
  - assert (k' = k) as ->.
    { revert E. unfold MemoryOAuthGrantStore.create_refresh_grant. destruct (_ !! _); by intros [= <-]. }
    apply (IH (with_store s' (drawn w)) k); cbn; [done|done|lia].
  - exists k. split; [done|]. cbn. eapply stable_later; [done| |done]. lia.
Qed.

Lemma kept_new_refresh grant now : ag_subject grant = st_owner settings → kept (new_refresh_grant settings digest credential family grant now).
Proof using HP digest_length StoreRefinement0.
  intros Ho w k [Hr Hw]. unfold new_refresh_grant. rewrite bind_draw.
  destruct (kept_create_refresh 3 (sv_random w) grant now (drawn w) k)
    as (k' & Hk); [done|done|done|cbn; lia|]. exists k'. split; [done|]. by destruct (create_refresh _ _ _ _ _ _ _ _).1.
Qed.

Lemma kept_tokens grant now : ag_subject grant = st_owner settings →
  kept (tokens_for_authorization_grant settings digest encode credential family grant now).
Proof using HP digest_length StoreRefinement0. intros Ho. apply kept_bind; [by apply kept_new_refresh|]. intros t. apply kept_response. Qed.

(** Consuming a code: the grant is the owner's. *)
Lemma kept_consume {B} d now (f : option AuthorizationGrant → M world B) :
  (∀ g, (∀ g', g = Some g' → ag_subject g' = st_owner settings) → kept (f g)) →
  kept (mbind f (on_store (consume_authorization_grant d now))).
Proof using HP StoreRefinement0.
  intros Hf w k [Hr Hw]. pose proof (consume_code_refines d now (sv_store w) k Hr) as Hc. rewrite bind_store.
  destruct (consume_authorization_grant d now (sv_store w)) as [[g|e] s']; [|destruct Hc as [_ Hc]; by exists k].
  destruct Hc as (k' & E & Hr'). refine (Hf g _ (with_store s' w) k' _).
  - intros g' ->. revert E. unfold MemoryOAuthGrantStore.consume_authorization_grant. destruct (mm_codes k !! d) as [x|] eqn:Ex; [|done].
    destruct (now <? ag_expires x); [|done]. intros [= -> _]. by eapply (stable_owner _ HP).
  - split; [done|]. cbn. pose proof (stable_consume _ HP _ _ d now Hw) as H'. by rewrite E in H'.
Qed.

Ltac keep := repeat first
  [ apply kept_error | apply kept_error_if | apply kept_clock | apply kept_draw | apply kept_enabled | apply kept_target
  | apply kept_scopes | apply kept_response | apply kept_if | apply kept_bind; [|intros ?] ].

Lemma kept_authorize ps owner : kept (authorize ps owner).
Proof using HP digest_length StoreRefinement0.
  apply kept_bind; [unfold validate_authorization_request; keep; by apply kept_pure|]. intros request.
  unfold complete_authorization, protocol_error_if. destruct (ow_subject owner != st_owner settings) eqn:Eo; b2p.
  - intros w k Hw. by exists k.
  - apply kept_bind; [by apply kept_pure|intros _]. apply kept_bind; [apply kept_clock|intros now]. by apply kept_create_code.
Qed.

Lemma kept_exchange ps : kept (exchange_ ps).
Proof using HP digest_length StoreRefinement0.
  unfold exchange_authorization_code. do 5 (apply kept_bind; [keep|intros ?]). apply kept_consume. intros [g|] Hg; [|apply kept_error].
  do 2 (apply kept_bind; [apply kept_error_if|intros _]). apply kept_tokens. by apply Hg.
Qed.

Lemma kept_rotate ps : kept (rotate_ ps).
Proof using HP StoreRefinement0.
  unfold rotate_refresh_token. do 4 (apply kept_bind; [keep|intros ?]). apply kept_bind.
  { destruct (parameter ps "scope"); [|by apply kept_pure]. keep; by apply kept_pure. }
  intros requested w k [Hr Hw]. rewrite bind_draw, bind_clock, bind_store. cbn [sv_store drawn].
  set (r := mk_RefreshRotationRequest _ _ _ _ _ _ _). pose proof (rotate_refines r (sv_store w) k Hr) as Hc.
  destruct (rotate_refresh_grant r (sv_store w)) as [[[status g]|e] s'].
  - destruct Hc as (k' & E & Hr'). pose proof (stable_rotate _ HP _ _ r Hw eq_refl) as H'. rewrite E in H'. cbn in H'.
    match goal with |- ∃ _, here (?m ?w').2 _ ∧ _ => assert (kept m) as Hm; [|exact (Hm w' k' (conj Hr' H'))] end.
    destruct status; [destruct g; [apply kept_response|]|..]; apply kept_error.
  - destruct Hc as [_ Hc]. exists k. split; [|done]. split; [done|]. cbn. eapply stable_later; [done| |done]. lia.
Qed.

Lemma kept_revoke ps : kept (revoke_refresh_token settings digest clock resolve ps).
Proof using HP StoreRefinement0.
  unfold revoke_refresh_token. apply kept_if; [by apply kept_pure|]. apply kept_bind.
  { apply kept_try; [apply kept_bind; [apply kept_enabled|]; by intros a; apply kept_pure|]. intros e. by apply kept_if; apply kept_pure. }
  intros enabled. apply kept_if; [|by apply kept_pure]. apply kept_bind; [apply kept_clock|]. intros now w k [Hr Hw]. unfold on_store.
  match goal with |- context [revoke_refresh_grant ?d ?c ?n] =>
    pose proof (revoke_refines d c n (sv_store w) k Hr) as Hc; pose proof (stable_revoke _ HP _ _ d c n Hw) as H';
    destruct (revoke_refresh_grant d c n (sv_store w)) as [[a|e] s'] end.
  - destruct Hc as (k' & E & Hr'). rewrite E in H'. by exists k'.
  - destruct Hc as [_ Hc]. by exists k.
Qed.

Lemma kept_step c : kept (oauth_step c).
Proof using HP digest_length StoreRefinement0.
  destruct c; cbn; try (apply kept_bind; [|by intros a; apply kept_pure]).
  - apply kept_authorize.
  - apply kept_exchange.
  - apply kept_rotate.
  - apply kept_revoke.
Qed.

Lemma kept_run cs w k : here w k → ∃ k', here (oauth_run cs w) k'.
Proof using HP digest_length StoreRefinement0.
  revert w k. induction cs as [|c cs IH]; intros w k Hw; [by exists k|]. destruct (kept_step c w k Hw) as (k1 & H1 & _).
  by apply (IH _ k1).
Qed.
End walk.

(** ** The invariant *)

(** The first [N] random values: credentials and families do not repeat, and
    digests do not collide. *)
Context (N : nat).
Hypothesis credential_inj : ∀ n m, (n < N)%nat → (m < N)%nat → digest (credential n) = digest (credential m) → n = m.
Hypothesis family_inj : ∀ n m, (n < N)%nat → (m < N)%nat → family n = family m → n = m.

(** What is kept as long as no more than [N] values are drawn. *)
Record stable_below (P : nat → memory → Prop) : Prop := {
  below_later n n' k : (n ≤ n')%nat → P n k → P n' k;
  below_code n k g : (n < N)%nat → P n k → ag_digest g = digest (credential n) → ag_subject g = st_owner settings →
    P (Datatypes.S n) (MemoryOAuthGrantStore.create_authorization_grant g k).2;
  below_consume n k d now : P n k → P n (MemoryOAuthGrantStore.consume_authorization_grant d now k).2;
  below_refresh m n k g : (m < n)%nat → (n < N)%nat → P m k → rg_digest g = digest (credential n) → rg_family g = family m →
    rg_subject g = st_owner settings → rg_consumed g = None → rg_revoked g = None →
    P (Datatypes.S n) (MemoryOAuthGrantStore.create_refresh_grant g k).2;
  below_rotate n k r : (n < N)%nat → P n k → rr_successor r = digest (credential n) →
    P (Datatypes.S n) (MemoryOAuthGrantStore.rotate_refresh_grant r k).2;
  below_revoke n k d c now : P n k → P n (MemoryOAuthGrantStore.revoke_refresh_grant d c now k).2;
}.

Definition guarded (P : nat → memory → Prop) (n : nat) (k : memory) : Prop := owners_codes k ∧ ((n ≤ N)%nat → P n k).

Lemma revoke_codes d c now k : mm_codes (MemoryOAuthGrantStore.revoke_refresh_grant d c now k).2 = mm_codes k.
Proof using. unfold MemoryOAuthGrantStore.revoke_refresh_grant. destruct (_ !! _); [|done]. cbn. by destruct (_ == _). Qed.

Lemma rotate_codes r k : mm_codes (MemoryOAuthGrantStore.rotate_refresh_grant r k).2 = mm_codes k.
Proof using.
  unfold MemoryOAuthGrantStore.rotate_refresh_grant. destruct (_ !! _) as [g|]; [|done]. destruct (rg_consumed g); [done|].
  destruct (_ || _); [done|]. by destruct (_ || _).
Qed.

Lemma guarded_stable P : stable_below P → stable (guarded P).
Proof using.
  intros HP. split.
  - by intros n k [Ho _].
  - intros n n' k Hn [Ho Hk]. split; [done|]. intros Hn'. eapply (below_later _ HP); [exact Hn|]. apply Hk. lia.
  - intros n k g [Ho Hk] Hd Hg. split; [|intros Hn; apply (below_code _ HP); [lia|apply Hk; lia|done|done]].
    unfold MemoryOAuthGrantStore.create_authorization_grant. destruct (_ !! _); [done|]. intros d x. cbn.
    rewrite lookup_insert_Some. intros [[_ <-]|[_ Hx]]; [done|by apply (Ho d)].
  - intros n k d now [Ho Hk]. split; [|intros Hn; by apply (below_consume _ HP), Hk]. intros d' x. cbn. intros [_ Hx]%lookup_delete_Some. by apply (Ho d').
  - intros m n k g Hmn [Ho Hk] ? ? ? ? ?. split; [|intros Hn; apply (below_refresh _ HP m); [done|lia|apply Hk; lia|done..]].
    unfold MemoryOAuthGrantStore.create_refresh_grant. by destruct (_ !! _).
  - intros n k r [Ho Hk] Hd. split; [by unfold owners_codes; rewrite rotate_codes|].
    intros Hn. apply (below_rotate _ HP); [lia|apply Hk; lia|done].
  - intros n k d c now [Ho Hk]. split; [by unfold owners_codes; rewrite revoke_codes|]. intros Hn. by apply (below_revoke _ HP), Hk.
Qed.

Definition live (g : RefreshGrant) : Prop := rg_consumed g = None ∧ rg_revoked g = None.

Definition same_party (g g' : RefreshGrant) : Prop :=
  rg_client g = rg_client g' ∧ rg_resource g = rg_resource g' ∧ rg_subject g = rg_subject g' ∧ rg_authenticated g = rg_authenticated g'.

Definition issued_before (n : nat) (d : string) : Prop := ∃ j, (j < n)%nat ∧ d = digest (credential j).
Definition begun_before (n : nat) (f : string) : Prop := ∃ j, (j < n)%nat ∧ f = family j.

Definition codes_ok (n : nat) (codes : gmap string AuthorizationGrant) : Prop := ∀ d g, codes !! d = Some g →
  ag_subject g = st_owner settings ∧ issued_before n d.

Definition grant_ok (n : nat) (d : string) (g : RefreshGrant) : Prop :=
  rg_digest g = d ∧ rg_subject g = st_owner settings ∧ issued_before n d ∧ begun_before n (rg_family g).

(** In a family all grants are of one party and one of them is live at most. *)
Definition families_ok (grants : gmap string RefreshGrant) : Prop := ∀ d d' g g',
  grants !! d = Some g → grants !! d' = Some g' → rg_family g = rg_family g' → same_party g g' ∧ (live g → live g' → d = d').

Definition base (n : nat) (k : memory) : Prop :=
  codes_ok n (mm_codes k) ∧ (∀ d g, mm_refresh k !! d = Some g → grant_ok n d g) ∧ families_ok (mm_refresh k).

Lemma issued_later n n' d : (n ≤ n')%nat → issued_before n d → issued_before n' d.
Proof using. intros ? (j & ? & ->). exists j. split; [lia|done]. Qed.
Lemma begun_later n n' f : (n ≤ n')%nat → begun_before n f → begun_before n' f.
Proof using. intros ? (j & ? & ->). exists j. split; [lia|done]. Qed.

Lemma not_issued n : (n < N)%nat → ¬ issued_before n (digest (credential n)).
Proof using credential_inj. intros Hn (j & Hj & E%credential_inj); lia. Qed.
Lemma not_begun n : (n < N)%nat → ¬ begun_before n (family n).
Proof using family_inj. intros Hn (j & Hj & E%family_inj); lia. Qed.

Lemma codes_later n n' codes : (n ≤ n')%nat → codes_ok n codes → codes_ok n' codes.
Proof using. intros Hn Hc d g Hd. destruct (Hc d g Hd) as [? ?]. split; [done|]. by eapply issued_later. Qed.

Lemma grant_later n n' d g : (n ≤ n')%nat → grant_ok n d g → grant_ok n' d g.
Proof using. intros Hn (?&?&?&?). split_and!; eauto using issued_later, begun_later. Qed.

(** Revoking a family: every grant keeps its identity. *)
Definition revoked_in (f : string) (now : Z) (g : RefreshGrant) : RefreshGrant := if rg_family g == f then set_revoked_at now g else g.

Lemma revoke_family_refresh f now k : mm_refresh (MemoryOAuthGrantStore.revoke_family f now k) = revoked_in f now <$> mm_refresh k.
Proof using. done. Qed.

Lemma revoked_in_same f now g :
  rg_digest (revoked_in f now g) = rg_digest g ∧ rg_family (revoked_in f now g) = rg_family g ∧ same_party (revoked_in f now g) g ∧
  (live (revoked_in f now g) → live g) ∧ rg_subject (revoked_in f now g) = rg_subject g ∧ (rg_revoked g ≠ None → rg_revoked (revoked_in f now g) ≠ None).
Proof using. unfold revoked_in, live, same_party. case_bool_decide; cbn; [|done]. destruct (rg_revoked g); split_and!; try done; by intros [? ?]. Qed.

Lemma revoked_in_family f now g : rg_family g = f → rg_revoked (revoked_in f now g) ≠ None.
Proof using. intros Hf. unfold revoked_in. rewrite bool_decide_eq_true_2 by done. cbn. by destruct (rg_revoked g). Qed.

Lemma base_revoke_family n k f now : base n k → base n (MemoryOAuthGrantStore.revoke_family f now k).
Proof using.
  intros (Hc & Hg & Hf). split; [done|]. rewrite revoke_family_refresh. split.
  - intros d g (x & <- & Hx)%lookup_fmap_Some. destruct (Hg d x Hx) as (?&?&?&?). destruct (revoked_in_same f now x) as (E1 & E2 & _ & _ & E5 & _).
    unfold grant_ok. by rewrite E1, E2, E5.
  - intros d d' g g' (x & <- & Hx)%lookup_fmap_Some (x' & <- & Hx')%lookup_fmap_Some E.
    destruct (revoked_in_same f now x) as (_ & E2 & (P1&P2&P3&P4) & L1 & _), (revoked_in_same f now x') as (_ & E2' & (P1'&P2'&P3'&P4') & L1' & _).
    rewrite E2, E2' in E. destruct (Hf d d' x x' Hx Hx' E) as [(S1&S2&S3&S4) Hl]. split; [unfold same_party; split_and!; congruence|].
    intros ? ?. apply Hl; auto.
Qed.

(** A new member of a family that has no live one. *)
Lemma families_insert grants d g :
  families_ok grants → grants !! d = None →
  (∀ d' g', grants !! d' = Some g' → rg_family g' = rg_family g → same_party g' g ∧ ¬ live g') → families_ok (<[d := g]> grants).
Proof using.
  intros Hf Hd Hn a b x y Ha Hb E. rewrite lookup_insert_Some in Ha, Hb.
  destruct Ha as [[<- <-]|[Ha1 Ha]], Hb as [[<- <-]|[Hb1 Hb]]; [done| | |by eapply Hf].
  - destruct (Hn b y Hb) as [(?&?&?&?) Hl]; [done|]. split; [unfold same_party; split_and!; congruence|]. by intros _ ?.
  - destruct (Hn a x Ha) as [? Hl]; [done|]. split; [done|]. by intros ? _.
Qed.

(** A grant that was consumed. *)
Lemma families_consume grants d g now :
  families_ok grants → grants !! d = Some g → families_ok (<[d := set_consumed now g]> grants).
Proof using.
  intros Hf Hd a b x y Ha Hb E. rewrite lookup_insert_Some in Ha, Hb.
  assert (¬ live (set_consumed now g)) as Hl by by intros [].
  destruct Ha as [[<- <-]|[Ha1 Ha]], Hb as [[<- <-]|[Hb1 Hb]]; [done| | |by eapply Hf].
  - destruct (Hf d b g y Hd Hb E) as [? _]. split; [done|]. by intros ? _.
  - destruct (Hf a d x g Ha Hd E) as [? _]. split; [done|]. by intros _ ?.
Qed.

(** What a rotation does to the store. *)
Lemma rotate_cases r k :
  let k' := (MemoryOAuthGrantStore.rotate_refresh_grant r k).2 in
  let o := (MemoryOAuthGrantStore.rotate_refresh_grant r k).1 in
  (k' = k ∧ o = Ret (INVALID, None)) ∨
  (∃ c, mm_refresh k !! rr_presented r = Some c ∧ rg_consumed c ≠ None ∧ o = Ret (REPLAYED, None) ∧
    k' = MemoryOAuthGrantStore.revoke_family (rg_family c) (rr_now r) k) ∨
  (∃ c, mm_refresh k !! rr_presented r = Some c ∧ live c ∧ rr_now r < rg_expires c ∧ rg_client c = rr_client r ∧
    rg_resource c = rr_resource r ∧ issubset (default (rg_scopes c) (rr_scopes r)) (rg_scopes c) = true ∧
    mm_refresh k !! rr_successor r = None ∧ o = Ret (ROTATED, Some (successor_of c r)) ∧
    k' = mk_memory (mm_codes k) (<[rr_successor r := successor_of c r]> (<[rg_digest c := set_consumed (rr_now r) c]> (mm_refresh k)))).
Proof using.
  unfold MemoryOAuthGrantStore.rotate_refresh_grant. destruct (mm_refresh k !! rr_presented r) as [c|] eqn:Ec; [|by left].
  destruct (rg_consumed c) eqn:Eco; [right; left; exists c; by rewrite Eco|].
  destruct (rg_revoked c != None) eqn:Er; [by left|]. cbn [orb]. destruct (rg_expires c <=? rr_now r) eqn:Ee; [by left|].
  destruct (rg_client c != rr_client r) eqn:E1; [by left|]. destruct (rg_resource c != rr_resource r) eqn:E2; [by left|].
  destruct (issubset _ _) eqn:E3; [|by left]. destruct (mm_refresh k !! rr_successor r != None) eqn:E4; [by left|]. b2p.
  right. right. exists c. split_and!; try done; by apply Z.leb_gt.
Qed.

Lemma base_rotate n k r :
  base n k → rr_successor r = digest (credential n) → base (Datatypes.S n) (MemoryOAuthGrantStore.rotate_refresh_grant r k).2.
Proof using.
  intros Hb Hd. pose proof (rotate_cases r k) as Hr. cbn in Hr. assert (base (Datatypes.S n) k) as Hb'.
  { destruct Hb as (Hc & Hg & Hf). split_and!; [eapply codes_later; [|done]; lia| |done]. intros d g Hx. eapply grant_later; [|by apply Hg]. lia. }
  destruct Hr as [[-> _]|[(c & _ & _ & _ & ->)|(c & Ec & Hl & _ & _ & _ & _ & En & _ & ->)]]; [done|by apply base_revoke_family|].
  destruct Hb' as (Hc & Hg & Hf). destruct (Hg _ _ Ec) as (Eg & Es & Hi & Hbg). split; [done|]. cbn [mm_refresh]. rewrite Eg.
  assert (rr_successor r ≠ rr_presented r) as Hne by (intros E; by rewrite <-E, En in Ec). split.
  - intros d g. rewrite lookup_insert_Some. intros [[<- <-]|[Hx Hy]].
    + split_and!; cbn; try done. rewrite Hd. exists n. split; [lia|done].
    + rewrite lookup_insert_Some in Hy. destruct Hy as [[<- <-]|[_ Hy]]; [by split_and!|by apply Hg].
  - apply families_insert; [by apply families_consume|by rewrite lookup_insert_ne|].
    intros d' g'. rewrite lookup_insert_Some. cbn. intros [[<- <-]|[Hx Hy]] Ef; [by split; [|intros []]|].
    destruct (Hf _ _ _ _ Hy Ec Ef) as [Hp Hu]. split; [done|]. intros Hl'. by destruct (Hx (eq_sym (Hu Hl' Hl))).
Qed.

Lemma base_stable : stable_below base.
Proof using credential_inj family_inj.
  split.
  - intros n n' k Hn (Hc & Hg & Hf). split_and!; [by eapply codes_later| |done]. intros d g Hx. eapply grant_later; eauto.
  - intros n k g Hlt (Hc & Hg & Hf) Hd Ho. unfold MemoryOAuthGrantStore.create_authorization_grant.
    assert (codes_ok (Datatypes.S n) (mm_codes k)) as Hc' by (eapply codes_later; [|done]; lia).
    assert (∀ d x, mm_refresh k !! d = Some x → grant_ok (Datatypes.S n) d x) as Hg' by (intros d x Hx; eapply grant_later; [|by apply Hg]; lia).
    destruct (mm_codes k !! ag_digest g) eqn:Ex; [by split_and!|]. split_and!; [|done|done]. cbn. intros d x.
    rewrite lookup_insert_Some. intros [[<- <-]|[_ Hx]]; [|by apply Hc']. split; [done|]. rewrite Hd. exists n. split; [lia|done].
  - intros n k d now (Hc & Hg & Hf). split_and!; [|done|done]. cbn. intros d' g (_ & Hd)%lookup_delete_Some. by apply Hc.
  - intros m n k g Hmn Hlt (Hc & Hg & Hf) Hd Hfam Ho H1 H2. unfold MemoryOAuthGrantStore.create_refresh_grant.
    assert (codes_ok (Datatypes.S n) (mm_codes k)) as Hc' by (eapply codes_later; [|done]; lia).
    assert (∀ d x, mm_refresh k !! d = Some x → grant_ok (Datatypes.S n) d x) as Hg' by (intros d x Hx; eapply grant_later; [|by apply Hg]; lia).
    destruct (mm_refresh k !! rg_digest g) eqn:Ex; [by split_and!|]. split_and!; [done| |]; cbn.
    + intros d x. rewrite lookup_insert_Some. intros [[<- <-]|[_ Hx]]; [|by apply Hg']. split_and!; [done|done| |].
      * rewrite Hd. exists n. split; [lia|done].
      * rewrite Hfam. exists m. split; [lia|done].
    + apply families_insert; [done|done|]. intros d' g' Hx E. exfalso. destruct (Hg d' g' Hx) as (_ & _ & _ & Hb). rewrite E, Hfam in Hb.
      apply not_begun in Hb; [done|lia].
  - intros n k r _. apply base_rotate.
  - intros n k d c now Hb. unfold MemoryOAuthGrantStore.revoke_refresh_grant. destruct (_ !! _); [|done]. cbn.
    destruct (_ == _); [by apply base_revoke_family|done].
Qed.

(** A code that was consumed does not come back. *)
Definition spent (d : string) (n : nat) (k : memory) : Prop := base n k ∧ mm_codes k !! d = None ∧ issued_before n d.

Lemma spent_stable d : stable_below (spent d).
Proof using credential_inj family_inj.
  pose proof base_stable as HB. split.
  - intros n n' k Hn (Hb & Hd & Hi). split_and!; [by eapply (below_later _ HB)|done|by eapply issued_later].
  - intros n k g Hlt (Hb & Hd & Hi) Hg Ho. split_and!; [by apply (below_code _ HB)| |eapply issued_later; [|done]; lia].
    unfold MemoryOAuthGrantStore.create_authorization_grant. destruct (_ !! ag_digest g); [done|]. cbn.
    rewrite lookup_insert_ne; [done|]. intros E. rewrite <-E, Hg in Hi. by apply not_issued in Hi.
  - intros n k d' now (Hb & Hd & Hi). split_and!; [by apply (below_consume _ HB)| |done]. cbn. by apply lookup_delete_None; right.
  - intros m n k g Hmn Hlt (Hb & Hd & Hi) H1 H2 H3 H4 H5. split_and!; [by apply (below_refresh _ HB m)| |eapply issued_later; [|done]; lia].
    unfold MemoryOAuthGrantStore.create_refresh_grant. by destruct (_ !! rg_digest g).
  - intros n k r Hlt (Hb & Hd & Hi) H1. split_and!; [by apply (below_rotate _ HB)| |eapply issued_later; [|done]; lia].
    destruct (rotate_cases r k) as [[-> _]|[(c & _ & _ & _ & ->)|(c & _ & _ & _ & _ & _ & _ & _ & _ & ->)]]; done.
  - intros n k d' c now (Hb & Hd & Hi). split_and!; [by apply (below_revoke _ HB)| |done].
    unfold MemoryOAuthGrantStore.revoke_refresh_grant. destruct (_ !! d'); [|done]. cbn. by destruct (_ == _).
Qed.

(** A family that was revoked stays revoked. *)
Definition ended (f : string) (n : nat) (k : memory) : Prop :=
  base n k ∧ begun_before n f ∧ ∀ d g, mm_refresh k !! d = Some g → rg_family g = f → rg_revoked g ≠ None.

Lemma ended_revoke_family f n k f' now :
  ended f n k → ended f n (MemoryOAuthGrantStore.revoke_family f' now k).
Proof using.
  intros (Hb & Hf & Hr). split_and!; [by apply base_revoke_family|done|]. rewrite revoke_family_refresh.
  intros d g (x & <- & Hx)%lookup_fmap_Some. destruct (revoked_in_same f' now x) as (_ & -> & _ & _ & _ & Hn). intros E. by apply Hn, (Hr d).
Qed.

Lemma ended_stable f : stable_below (ended f).
Proof using credential_inj family_inj.
  pose proof base_stable as HB. split.
  - intros n n' k Hn (Hb & Hf & Hr). split_and!; [by eapply (below_later _ HB)|by eapply begun_later|done].
  - intros n k g Hlt (Hb & Hf & Hr) Hg Ho. split_and!; [by apply (below_code _ HB)|eapply begun_later; [|done]; lia|].
    unfold MemoryOAuthGrantStore.create_authorization_grant. by destruct (_ !! ag_digest g).
  - intros n k d now (Hb & Hf & Hr). split_and!; [by apply (below_consume _ HB)|done|done].
  - intros m n k g Hmn Hlt (Hb & Hf & Hr) H1 H2 H3 H4 H5. split_and!; [by apply (below_refresh _ HB m)|eapply begun_later; [|done]; lia|].
    unfold MemoryOAuthGrantStore.create_refresh_grant. destruct (_ !! rg_digest g); [done|]. cbn. intros d x.
    rewrite lookup_insert_Some. intros [[<- <-]|[_ Hx]]; [|by eapply Hr]. rewrite H2. intros <-. apply not_begun in Hf; [done|lia].
  - intros n k r Hlt He H1. pose proof He as (Hb & Hf & Hr). assert (ended f (Datatypes.S n) k) as He'.
    { split_and!; [|eapply begun_later; [|done]; lia|done]. eapply (below_later _ HB); [|done]. lia. }
    pose proof (base_rotate n k r Hb H1) as Hb'.
    destruct (rotate_cases r k) as [[-> _]|[(c & _ & _ & _ & ->)|(c & Ec & Hl & _ & _ & _ & _ & En & _ & E)]];
      [done|by apply ended_revoke_family|]. split_and!; [done|apply He'|]. rewrite E. cbn [mm_refresh].
    assert (rg_family c ≠ f) as Hne by (intros Hc; by destruct Hl as [_ Hl]; apply (Hr _ _ Ec Hc)).
    intros d g. rewrite !lookup_insert_Some. intros [[_ <-]|[_ [[_ <-]|[_ Hx]]]]; [done|done|by eapply Hr].
  - intros n k d c now He. unfold MemoryOAuthGrantStore.revoke_refresh_grant. destruct (_ !! d); [|done]. cbn.
    destruct (_ == _); [by apply ended_revoke_family|done].
Qed.

(** ** What a request that returned has done *)

(** Statements that leave the store and the random source alone. *)
Definition aside {A} (m : M world A) : Prop := ∀ w, sv_store (m w).2 = sv_store w ∧ sv_random (m w).2 = sv_random w.

Lemma aside_bind {A B} (m : M world A) (f : A → M world B) : aside m → (∀ a, aside (f a)) → aside (mbind f m).
Proof using.
  intros Hm Hf w. destruct (Hm w) as [E1 E2]. unfold mbind, M_bind. destruct (m w) as [[a|e] w1]; [|done].
  destruct (Hf a w1) as [-> ->]. done.
Qed.

Lemma aside_pure {A} (m : M world A) : (∀ w, (m w).2 = w) → aside m.
Proof using. intros Hm w. by rewrite Hm. Qed.

Lemma aside_error_if c error : aside (protocol_error_if c error).
Proof using. apply aside_pure. intros w. by destruct c. Qed.

Lemma aside_unavailable {A} (m : M C A) : aside (or_unavailable (on_clients m)).
Proof using. intros w. unfold or_unavailable, try_except, on_clients. by destruct (m (sv_clients w)) as [[a|e] c]. Qed.

Lemma aside_enabled client_id : aside (enabled_client settings resolve client_id).
Proof using.
  unfold enabled_client. destruct (settings_client settings client_id).
  - apply aside_bind; [apply aside_unavailable|]. intros [r|]; [|by apply aside_pure].
    apply aside_bind; [apply aside_error_if|]. by intros _; apply aside_pure.
  - destruct resolve as [f|]; [|by apply aside_pure]. apply aside_bind.
    { intros w. unfold try_except, on_clients. destruct (f client_id (sv_clients w)) as [[c|e] s]; [done|]. by destruct (_ == _). }
    intros c. apply aside_bind; [apply aside_unavailable|]. intros r. apply aside_bind; [apply aside_error_if|]. by intros _; apply aside_pure.
Qed.

Lemma protocol_error_if_inv c error (w w' : world) u : protocol_error_if c error w = (Ret u, w') → c = false ∧ w' = w.
Proof using. apply raise_if_inv. Qed.

Lemma target_inv ps (w w' : world) u : check_target settings ps w = (Ret u, w') → w' = w ∧ mem (required ps "resource") (resources_supported settings) = true.
Proof using.
  intros (a & w1 & [Hm%negb_false_iff ->]%protocol_error_if_inv & Hr)%bind_ret_inv. split; [|done].
  destruct (parameter ps "audience"); [|by injection Hr].
  apply bind_ret_inv in Hr as (x & w2 & [_ ->]%lift_inv & [_ ->]%protocol_error_if_inv). done.
Qed.

(** The exchange of a code, up to the tokens. *)
Lemma exchange_inv ps w t w' k :
  exchange_ ps w = (Ret t, w') → R (sv_store w) k →
  ∃ client w1 w2 g, enabled_client settings resolve (required ps "client_id") w = (Ret client, w1) ∧
    mm_codes k !! digest (required ps "code") = Some g ∧ clock (sv_clock w1) < ag_expires g ∧
    s256 (required ps "code_verifier") = ag_challenge g ∧ ag_client g = required ps "client_id" ∧
    ag_redirect g = required ps "redirect_uri" ∧ ag_resource g = required ps "resource" ∧ scopes_allowed (ag_scopes g) client = true ∧
    tokens_for_authorization_grant settings digest encode credential family g (clock (sv_clock w1)) w2 = (Ret t, w') ∧
    sv_random w2 = sv_random w ∧ R (sv_store w2) (mk_memory (delete (digest (required ps "code")) (mm_codes k)) (mm_refresh k)).
Proof using StoreRefinement0.
  intros (a1 & w3 & [_ ->]%protocol_error_if_inv & (a2 & w2 & [_ ->]%protocol_error_if_inv & (client & w1 & He & (a4 & w4 & [-> _]%target_inv &
    H1)%bind_ret_inv)%bind_ret_inv)%bind_ret_inv)%bind_ret_inv Hr.
  rewrite bind_clock, bind_store in H1. pose proof (aside_enabled (required ps "client_id") w) as [Es Er]. rewrite He in Es, Er. cbn in Es, Er.
  cbn [sv_store] in H1. pose proof (consume_code_refines (digest (required ps "code")) (clock (sv_clock w1)) (sv_store w1) k) as Hc.
  rewrite Es in H1, Hc. specialize (Hc Hr).
  destruct (consume_authorization_grant _ _ (sv_store w)) as [[[g|]|e] s']; [|done..].
  destruct Hc as (k' & E & Hr'). unfold MemoryOAuthGrantStore.consume_authorization_grant in E.
  destruct (mm_codes k !! digest (required ps "code")) as [x|] eqn:Ex; [|done].
  destruct (clock (sv_clock w1) <? ag_expires x) eqn:Et; [|done]. injection E as -> <-. apply Z.ltb_lt in Et.
  apply bind_ret_inv in H1 as (a5 & w5 & [H5 ->]%protocol_error_if_inv & (a6 & w6 & [H6 ->]%protocol_error_if_inv & Hend)%bind_ret_inv).
  b2p. destruct H6 as [[[? ?] ?] ?]. exists client, w1. eexists _, g. split_and!; done.
Qed.

(** *** The codes *)

Lemma required_code_spent ps w k :
  here (guarded (spent (digest (required ps "code")))) w k → (sv_random w ≤ N)%nat → ∀ t w', exchange_ ps w ≠ (Ret t, w').
Proof using StoreRefinement0.
  intros (Hr & _ & Hs) Hn t w' He. destruct (Hs Hn) as (_ & Hd & _). destruct (exchange_inv ps w t w' k He Hr) as (client & w1 & w2 & g & _ & Hg & _). by rewrite Hd in Hg.
Qed.

Lemma exchange_spends ps w t w' k :
  here (guarded base) w k → exchange_ ps w = (Ret t, w') → ∃ k', here (guarded (spent (digest (required ps "code")))) w' k'.
Proof using credential_inj family_inj digest_length StoreRefinement0.
  intros (Hr & Ho & Hb) He. destruct (exchange_inv ps w t w' k He Hr) as (client & w1 & w2 & g & _ & Hg & _ & _ & _ & _ & _ & _ & Ht & En & Hr2).
  destruct (kept_tokens _ (guarded_stable _ (spent_stable (digest (required ps "code")))) g (clock (sv_clock w1)) (Ho _ _ Hg) w2
    (mk_memory (delete (digest (required ps "code")) (mm_codes k)) (mm_refresh k))) as (k' & Hk & _); [|exists k'; by rewrite Ht in Hk].
  split; [done|]. split; [intros d x; cbn; intros [_ Hx]%lookup_delete_Some; by apply (Ho d)|]. rewrite En. intros Hn.
  split_and!; [|by apply lookup_delete_eq|destruct (Hb Hn) as (Hc & _); by apply (Hc _ g)].
  apply (below_consume _ base_stable (sv_random w) k (digest (required ps "code")) 0 (Hb Hn)).
Qed.

(** *** The refresh credentials *)

Hypothesis resolver_errors : ∀ f c s e s', resolve = Some f → f c s = (Exc e, s') → exn_cls e ≠ OAuthProtocolError.

Definition invalid_grant : exn := Exn OAuthProtocolError "invalid_grant".

(** Statements that do not raise [invalid_grant]. *)
Definition other_error {A} (m : M world A) : Prop := ∀ w w', m w ≠ (Exc invalid_grant, w').

Lemma other_bind {A B} (m : M world A) (f : A → M world B) : other_error m → (∀ a, other_error (f a)) → other_error (mbind f m).
Proof using.
  intros Hm Hf w w'. unfold mbind, M_bind. specialize (Hm w). destruct (m w) as [[a|e] w1]; [by apply Hf|].
  intros [= -> ->]. by apply (Hm w').
Qed.

Lemma other_ret {A} (a : A) : other_error (mret a).
Proof using. by intros w w'. Qed.

Lemma other_error_if c error : error ≠ "invalid_grant" → other_error (protocol_error_if c error).
Proof using. intros He w w'. by destruct c; [intros [= E]|]. Qed.

Lemma other_protocol {A} error : error ≠ "invalid_grant" → other_error (protocol_error (A:=A) error).
Proof using. intros He w w' [= E]. done. Qed.

Lemma other_unavailable {A} (m : M C A) : other_error (or_unavailable (on_clients m)).
Proof using. intros w w'. unfold or_unavailable, try_except, on_clients. by destruct (m (sv_clients w)) as [[a|e] c]. Qed.

Lemma other_enabled client_id : other_error (enabled_client settings resolve client_id).
Proof using resolver_errors.
  unfold enabled_client. destruct (settings_client settings client_id).
  - apply other_bind; [apply other_unavailable|]. intros [r|]; [|by apply other_protocol].
    apply other_bind; [by apply other_error_if|]. intros _; apply other_ret.
  - destruct resolve as [f|] eqn:Ef; [|by apply other_protocol]. apply other_bind.
    { intros w w'. unfold try_except, on_clients. destruct (f client_id (sv_clients w)) as [[c|e] s] eqn:Ec; [done|].
      destruct (_ == _); [done|]. intros [= -> _]. by apply (resolver_errors f client_id _ _ _ eq_refl Ec). }
    intros c. apply other_bind; [apply other_unavailable|]. intros r. apply other_bind; [by apply other_error_if|]. intros _; apply other_ret.
Qed.

Lemma other_target ps : other_error (check_target settings ps).
Proof using.
  apply other_bind; [by apply other_error_if|]. intros _. destruct (parameter ps "audience"); [|apply other_ret].
  apply other_bind; [|intros e; by apply other_error_if]. intros w w'. unfold lift, audience_for_resource, throw.
  destruct (_ == _); [done|]. by destruct (mem _ _).
Qed.

Lemma other_requested ps client : other_error (
  match parameter ps "scope" with
  | None => mret None
  | Some value => scopes ← scopes_or_error value; protocol_error_if (negb (scopes_allowed scopes client)) "invalid_scope" ;; mret (Some scopes)
  end).
Proof using.
  destruct (parameter ps "scope") as [v|]; [|apply other_ret]. apply other_bind.
  - unfold scopes_or_error. destruct (parse_scope v); [apply other_ret|by apply other_protocol].
  - intros l. apply other_bind; [by apply other_error_if|]. intros _. apply other_ret.
Qed.

Lemma aside_requested ps client : aside (
  match parameter ps "scope" with
  | None => mret None
  | Some value => scopes ← scopes_or_error value; protocol_error_if (negb (scopes_allowed scopes client)) "invalid_scope" ;; mret (Some scopes)
  end).
Proof using.
  destruct (parameter ps "scope") as [v|]; [|by apply aside_pure]. apply aside_bind.
  - unfold scopes_or_error. by destruct (parse_scope v); apply aside_pure.
  - intros l. apply aside_bind; [apply aside_error_if|]. by intros _; apply aside_pure.
Qed.

(** The request of the store that a refresh makes. *)
Definition rotation_of (ps : parameters) (requested : option (list string)) (n : nat) (now : Z) : RefreshRotationRequest :=
  mk_RefreshRotationRequest (digest (required ps "refresh_token")) (digest (credential n)) (required ps "client_id") (required ps "resource")
    requested (now + st_refresh_ttl settings) now.

(** An outcome that a refresh only has after it asked the store. *)
Definition asked {A} (o : outcome A) : Prop := match o with Ret _ => True | Exc e => e = invalid_grant end.

Lemma bind_other_inv {A B} (m : M world A) (f : A → M world B) w o w' :
  other_error m → asked o → mbind f m w = (o, w') → ∃ a w1, m w = (Ret a, w1) ∧ f a w1 = (o, w').
Proof using.
  intros Hm Ho. unfold mbind, M_bind. specialize (Hm w). destruct (m w) as [[a|e] w1]; [eauto|]. intros [= <- <-]. cbn in Ho. subst e.
  by destruct (Hm w1).
Qed.

(** The scopes asked for: the client may have them. *)
Definition requested_ok (ps : parameters) (client : StaticClient * OAuthClientRecord) (requested : option (list string)) : Prop :=
  match requested with Some scopes => scopes_allowed scopes client = true | None => parameter ps "scope" = None end.

Lemma requested_inv ps client (w w1 : world) requested :
  match parameter ps "scope" with
  | None => mret None
  | Some value => scopes ← scopes_or_error value; protocol_error_if (negb (scopes_allowed scopes client)) "invalid_scope" ;; mret (Some scopes)
  end w = (Ret requested, w1) → w1 = w ∧ requested_ok ps client requested.
Proof using.
  unfold requested_ok. destruct (parameter ps "scope") as [v|]; [|by intros [= <- <-]].
  intros (l & w2 & Hp & (u & w3 & [Hs%negb_false_iff ->]%protocol_error_if_inv & Hm)%bind_ret_inv)%bind_ret_inv.
  injection Hm as <- ->. split; [|done]. revert Hp. unfold scopes_or_error. destruct (parse_scope v); [by intros [= _ ->]|done].
Qed.

(** A refresh that returned, or ended in [invalid_grant] for a well-formed
    credential, asked the store. *)
Lemma rotate_inv ps w o w' k :
  rotate_ ps w = (o, w') → R (sv_store w) k → asked o → bounded_credential (required ps "refresh_token") = true →
  ∃ client w1 requested now w2,
    enabled_client settings resolve (required ps "client_id") w = (Ret client, w1) ∧
    requested_ok ps client requested ∧
    let rotation := MemoryOAuthGrantStore.rotate_refresh_grant (rotation_of ps requested (sv_random w) now) k in
    R (sv_store w2) rotation.2 ∧ sv_random w2 = Datatypes.S (sv_random w) ∧ now = clock (sv_clock w1) ∧
    match rotation.1 with
    | Ret (ROTATED, Some g) =>
        access_response settings encode family (rg_subject g) (rg_client g) (rg_scopes g) now (rg_resource g) (credential (sv_random w)) None w2
          = (o, w')
    | _ => o = Exc invalid_grant ∧ w' = w2
    end.
Proof using StoreRefinement0 resolver_errors.
  intros H0 Hr Ho Hb.
  apply bind_other_inv in H0 as (u1 & w01 & [_ ->]%protocol_error_if_inv & H0); [|by apply other_error_if|done].
  cbv beta zeta in H0. rewrite Hb in H0. cbn [negb] in H0. change (mbind ?f (protocol_error_if false "invalid_grant") w) with (f tt w) in H0.
  apply bind_other_inv in H0 as (client & w1 & He & H0); [|apply other_enabled|done].
  apply bind_other_inv in H0 as (u3 & w3 & [-> _]%target_inv & H0); [|apply other_target|done].
  apply bind_other_inv in H0 as (requested & w4 & [-> Hq]%requested_inv & H0); [|apply other_requested|done].
  rewrite bind_draw, bind_clock, bind_store in H0. pose proof (aside_enabled (required ps "client_id") w) as [Es Er].
  rewrite He in Es, Er. cbn [snd] in Es, Er. cbn [sv_store sv_random sv_clock drawn] in H0. rewrite Es, Er in H0.
  fold (rotation_of ps requested (sv_random w) (clock (sv_clock w1))) in H0.
  pose proof (rotate_refines (rotation_of ps requested (sv_random w) (clock (sv_clock w1))) (sv_store w) k Hr) as Hc.
  destruct (rotate_refresh_grant _ (sv_store w)) as [[[status g]|e] s'].
  - destruct Hc as (k' & E & Hr'). exists client, w1, requested, (clock (sv_clock w1)).
    match type of H0 with _ ?w2 = _ => exists w2 end. rewrite E. cbn [fst snd].
    split_and!; [done|done|exact Hr'|done|done|]. cbn beta iota in H0. by destruct status, g; try (injection H0 as <- <-).
  - destruct Hc as [Hc _]. injection H0 as <- _. cbn in Ho. by subst e.
Qed.

(** A grant of the store, under the digest [d], that keeps the property [Q]
    when it is consumed or revoked. *)
Definition holding (Q : RefreshGrant → Prop) (d : string) (n : nat) (k : memory) : Prop :=
  base n k ∧ ∃ g, mm_refresh k !! d = Some g ∧ Q g.

Lemma holding_revoke_family Q d n k f now :
  (∀ g t, Q g → Q (set_revoked_at t g)) → holding Q d n k → holding Q d n (MemoryOAuthGrantStore.revoke_family f now k).
Proof using.
  intros HQ (Hb & g & Hg & Hq). split; [by apply base_revoke_family|]. exists (revoked_in f now g). split.
  - rewrite revoke_family_refresh, lookup_fmap, Hg. done.
  - unfold revoked_in. by destruct (_ == _); [apply HQ|].
Qed.

Lemma holding_stable Q d : (∀ g t, Q g → Q (set_revoked_at t g)) → (∀ g t, Q g → Q (set_consumed t g)) → stable_below (holding Q d).
Proof using credential_inj family_inj.
  intros HQ HQ'. pose proof base_stable as HB. split.
  - intros n n' k Hn (Hb & Hg). split; [by eapply (below_later _ HB)|done].
  - intros n k g Hlt (Hb & Hg) Hd Ho. split; [by apply (below_code _ HB)|].
    unfold MemoryOAuthGrantStore.create_authorization_grant. by destruct (_ !! ag_digest g).
  - intros n k d' now (Hb & Hg). split; [by apply (below_consume _ HB)|done].
  - intros m n k x Hmn Hlt (Hb & g & Hg & Hq) H1 H2 H3 H4 H5. split; [by apply (below_refresh _ HB m)|]. exists g. split; [|done].
    unfold MemoryOAuthGrantStore.create_refresh_grant. destruct (_ !! rg_digest x) eqn:Ex; [done|]. cbn.
    rewrite lookup_insert_ne; [done|]. intros Ed. by rewrite Ed, Hg in Ex.
  - intros n k r Hlt Hh H1. pose proof Hh as (Hb & g & Hg & Hq). pose proof (base_rotate n k r Hb H1) as Hb'.
    destruct (rotate_cases r k) as [[E _]|[(c & _ & _ & _ & E)|(c & Ec & _ & _ & _ & _ & _ & En & _ & E)]]; split; try done; rewrite E.
    + by exists g.
    + by apply (holding_revoke_family Q d n k).
    + cbn [mm_refresh]. rewrite lookup_insert_ne by (intros Ed; by rewrite Ed, Hg in En).
      destruct (decide (rg_digest c = d)) as [Ed|Ed]; [|rewrite lookup_insert_ne by done; by exists g].
      destruct Hb as (_ & Hgr & _). destruct (Hgr _ _ Ec) as [Ed' _]. rewrite <-Ed, Ed', Ec in Hg. injection Hg as <-.
      rewrite Ed, lookup_insert_eq. eauto.
  - intros n k d' c now Hh. unfold MemoryOAuthGrantStore.revoke_refresh_grant. destruct (_ !! d'); [|done]. cbn.
    destruct (_ == _); [by apply holding_revoke_family|done].
Qed.

Lemma stable_and P Q : stable_below P → stable_below Q → stable_below (λ n k, P n k ∧ Q n k).
Proof using.
  intros HP HQ. split.
  - intros n n' k Hn [H1 H2]. split; [by eapply (below_later _ HP)|by eapply (below_later _ HQ)].
  - intros n k g Hlt [H1 H2] ? ?. split; [by apply (below_code _ HP)|by apply (below_code _ HQ)].
  - intros n k d now [H1 H2]. split; [by apply (below_consume _ HP)|by apply (below_consume _ HQ)].
  - intros m n k g ? Hlt [H1 H2] ? ? ? ? ?. split; [by apply (below_refresh _ HP m)|by apply (below_refresh _ HQ m)].
  - intros n k r Hlt [H1 H2] ?. split; [by apply (below_rotate _ HP)|by apply (below_rotate _ HQ)].
  - intros n k d c now [H1 H2]. split; [by apply (below_revoke _ HP)|by apply (below_revoke _ HQ)].
Qed.

(** The family of a stored credential. *)
Definition family_of (k : memory) (d : string) : option string := rg_family <$> mm_refresh k !! d.

(** A credential of the family [f] that was presented, and another one of it. *)
Definition used (f : string) (g : RefreshGrant) : Prop := rg_consumed g ≠ None ∧ rg_family g = f.
Definition member (f : string) (g : RefreshGrant) : Prop := rg_family g = f.
Definition replaced (d d' f : string) (n : nat) (k : memory) : Prop := holding (used f) d n k ∧ holding (member f) d' n k.

Lemma replaced_stable d d' f : stable_below (replaced d d' f).
Proof using credential_inj family_inj. apply stable_and; apply holding_stable; try done; by intros g t [? ?]. Qed.

(** A refresh that returned: the credential presented was live, unexpired and
    this client's; it is consumed, and the one returned succeeds it. *)
Lemma refresh_inv ps w t w' k :
  R (sv_store w) k → rotate_ ps w = (Ret t, w') →
  bounded_credential (required ps "refresh_token") = true ∧
  ∃ client w1 requested now c w2, let r := rotation_of ps requested (sv_random w) now in let g := successor_of c r in
    enabled_client settings resolve (required ps "client_id") w = (Ret client, w1) ∧
    requested_ok ps client requested ∧ now = clock (sv_clock w1) ∧
    mm_refresh k !! digest (required ps "refresh_token") = Some c ∧ live c ∧ now < rg_expires c ∧
    rg_client c = required ps "client_id" ∧ rg_resource c = required ps "resource" ∧ issubset (rg_scopes g) (rg_scopes c) = true ∧
    access_response settings encode family (rg_subject g) (rg_client g) (rg_scopes g) now (rg_resource g) (credential (sv_random w)) None w2
      = (Ret t, w') ∧
    R (sv_store w2) (MemoryOAuthGrantStore.rotate_refresh_grant r k).2 ∧ sv_random w2 = Datatypes.S (sv_random w) ∧
    mm_refresh k !! rr_successor r = None ∧
    mm_refresh (MemoryOAuthGrantStore.rotate_refresh_grant r k).2
      = <[rr_successor r := g]> (<[rg_digest c := set_consumed now c]> (mm_refresh k)).
Proof using StoreRefinement0 resolver_errors.
  intros Hr He.
  assert (bounded_credential (required ps "refresh_token") = true) as Hbc.
  { apply bind_ret_inv in He as (u & w1 & [_ ->]%protocol_error_if_inv & He).
    by apply bind_ret_inv in He as (u2 & w2 & [?%negb_false_iff ->]%protocol_error_if_inv & He). }
  split; [done|]. destruct (rotate_inv ps w (Ret t) w' k He Hr I Hbc) as (client & w1 & requested & now & w2 & H1 & H2 & H3 & H4 & H5 & H6).
  exists client, w1, requested, now. set (r := rotation_of ps requested (sv_random w) now) in *.
  destruct (rotate_cases r k) as [[_ E]|[(c & _ & _ & E & _)|(c & Ec & Hl & Hx & Ecl & Ere & Hs & En & Eo & E)]];
    [rewrite E in H6; by destruct H6..|].
  rewrite Eo in H6. exists c, w2. split_and!; try done; [by apply Hl..|by rewrite E].
Qed.

Lemma response_refresh sub cl sc now res refr idt (w w' : world) t :
  access_response settings encode family sub cl sc now res refr idt w = (Ret t, w') → tr_refresh_token t = refr.
Proof using. intros (jti & w1 & _ & (aud & w2 & _ & Hm)%bind_ret_inv)%bind_ret_inv. by injection Hm as <- _. Qed.

Lemma refresh_replaces ps w t w' k :
  here (guarded base) w k → rotate_ ps w = (Ret t, w') →
  ∃ f k', here (guarded (replaced (digest (required ps "refresh_token")) (digest (tr_refresh_token t)) f)) w' k'.
Proof using StoreRefinement0 resolver_errors credential_inj family_inj.
  intros (Hr & Ho & Hb) He.
  destruct (refresh_inv ps w t w' k Hr He) as (_ & client & w1 & requested & now & c & w2 & _ & _ & _ & Ec & _ & _ & _ & _ & _ & Ha & Hr2 & En & Es & Em).
  rewrite (response_refresh _ _ _ _ _ _ _ _ _ _ Ha). exists (rg_family c). set (r := rotation_of ps requested (sv_random w) now) in *.
  destruct (kept_response _ (guarded_stable _ (replaced_stable (digest (required ps "refresh_token")) (digest (credential (sv_random w))) (rg_family c)))
    (rg_subject (successor_of c r)) (rg_client (successor_of c r)) (rg_scopes (successor_of c r)) now (rg_resource (successor_of c r))
    (credential (sv_random w)) None w2
    (MemoryOAuthGrantStore.rotate_refresh_grant r k).2) as (k' & Hk & _); [|exists k'; by rewrite Ha in Hk].
  split; [done|]. split; [by unfold owners_codes; rewrite rotate_codes|]. rewrite En. intros Hn.
  assert (base (sv_random w) k) as Hw by (apply Hb; lia). pose proof (base_rotate (sv_random w) k r Hw eq_refl) as Hb'.
  destruct Hw as (_ & Hgr & _). destruct (Hgr _ _ Ec) as [Ed _].
  split; split; try done; rewrite Em, Ed.
  - exists (set_consumed now c). split; [|done].
    assert (rr_successor r ≠ digest (required ps "refresh_token")) as Hne by (intros Er; by rewrite Er, Ec in Es).
    by rewrite lookup_insert_ne, lookup_insert_eq.
  - exists (successor_of c r). by rewrite lookup_insert_eq.
Qed.

(** ** Whole executions *)

(** The store starts empty. *)
Definition fresh (w : world) : Prop := R (sv_store w) MemoryOAuthGrantStore.empty.

Lemma fresh_base w : fresh w → here (guarded base) w MemoryOAuthGrantStore.empty.
Proof using.
  intros Hw. split; [done|]. split; [intros d g; cbn; by rewrite lookup_empty|]. intros _.
  split_and!; [intros d g|intros d g|intros d d' g g']; cbn; by rewrite lookup_empty.
Qed.

Lemma run_base cs w : fresh w → ∃ k, here (guarded base) (oauth_run cs w) k.
Proof using credential_inj family_inj digest_length StoreRefinement0.
  intros Hw%fresh_base. by eapply kept_run; [apply guarded_stable, base_stable|].
Qed.

(** Fewer values had been drawn before. *)
Lemma run_drawn cs w k : here (guarded base) w k → (sv_random (oauth_run cs w) ≤ N)%nat → (sv_random w ≤ N)%nat.
Proof using credential_inj family_inj digest_length StoreRefinement0.
  intros (Hr & Ho & _) Hn. assert (stable_below (λ n _, sv_random w ≤ n)%nat) as Hs by (split; intros; lia).
  destruct (kept_run _ (guarded_stable _ Hs) cs w k) as (k' & _ & _ & Hk); [by split; [|split; [|intros _]]|]. specialize (Hk Hn). lia.
Qed.

(** C12: An authorization code is exchanged for tokens once at most: after an
    exchange that returned, whatever requests follow, no exchange of the same
    code returns, for any verifier, client or address.  The store starts empty
    and refines the memory store; the random values drawn do not repeat. *)
Theorem code_exchanged_at_most_once w0 cs1 ps t w1 cs2 ps' :
  fresh w0 → exchange_authorization_code settings digest s256 encode credential family clock resolve ps (oauth_run cs1 w0) = (Ret t, w1) →
  required ps' "code" = required ps "code" → (sv_random (oauth_run cs2 w1) ≤ N)%nat →
  ∀ t' w', exchange_authorization_code settings digest s256 encode credential family clock resolve ps' (oauth_run cs2 w1) ≠ (Ret t', w').
Proof using credential_inj family_inj digest_length StoreRefinement0.
  intros Hf He Ec Hn. destruct (run_base cs1 w0 Hf) as [k Hk]. destruct (exchange_spends ps _ t w1 k Hk He) as [k1 Hk1].
  destruct (kept_run _ (guarded_stable _ (spent_stable _)) cs2 w1 k1 Hk1) as [k2 Hk2]. rewrite <-Ec in Hk2.
  by apply (required_code_spent ps' _ k2).
Qed.

(** A credential presented again: it is refused, and its family ends. *)
Lemma replay_ends ps w o w' k d' f :
  here (guarded (replaced (digest (required ps "refresh_token")) d' f)) w k → rotate_ ps w = (o, w') → (sv_random w ≤ N)%nat →
  bounded_credential (required ps "refresh_token") = true →
  (∀ t, o ≠ Ret t) ∧
  (o = Exc invalid_grant →
   ∃ k', here (guarded (λ n k, ended f n k ∧ replaced (digest (required ps "refresh_token")) d' f n k)) w' k').
Proof using StoreRefinement0 resolver_errors credential_inj family_inj.
  intros (Hr & Ho & Hk) He Hn Hbc. specialize (Hk Hn) as Hk'. pose proof Hk' as [(Hb & g & Hg & Hc & Hf) _]. split.
  - intros t ->. destruct (refresh_inv ps w t w' k Hr He) as (_ & client & w1 & requested & now & c & w2 & _ & _ & _ & Ec & [Hl _] & _).
    rewrite Hg in Ec. by injection Ec as ->.
  - intros ->. destruct (rotate_inv ps w _ w' k He Hr eq_refl Hbc) as (client & w1 & requested & now & w2 & _ & _ & Hr2 & En & _ & Hend).
    set (r := rotation_of ps requested (sv_random w) now) in *.
    assert (MemoryOAuthGrantStore.rotate_refresh_grant r k = (Ret (REPLAYED, None), MemoryOAuthGrantStore.revoke_family f now k)) as E.
    { unfold MemoryOAuthGrantStore.rotate_refresh_grant. cbn [r rr_presented rotation_of]. rewrite Hg, <-Hf. by destruct (rg_consumed g). }
    rewrite E in Hr2, Hend. destruct Hend as [_ ->]. exists (MemoryOAuthGrantStore.revoke_family f now k).
    split; [done|]. split; [done|]. rewrite En. intros Hn'. split.
    + split_and!; [apply base_revoke_family; by eapply (below_later _ base_stable); [|exact Hb]; lia|destruct Hb as (_ & Hgr & _)|].
      * destruct (Hgr _ _ Hg) as (_ & _ & _ & Hbg). rewrite Hf in Hbg. eapply begun_later; [|done]. lia.
      * rewrite revoke_family_refresh. intros d x (y & <- & Hy)%lookup_fmap_Some. destruct (revoked_in_same f now y) as (_ & -> & _).
        apply revoked_in_family.
    + assert (replaced (digest (required ps "refresh_token")) d' f (Datatypes.S (sv_random w)) k) as [H1 H2]
        by (eapply (below_later _ (replaced_stable _ _ _)); [|exact Hk']; lia).
      split; (apply holding_revoke_family; [|done]); [by intros x y [? ?]|done].
Qed.

(** C13: A refresh credential that is presented twice ends its family: the
    second request does not return, and once it is answered with
    [invalid_grant], no later request with any credential of the family
    returns, the one given by the first request included. *)
Theorem refresh_replay_ends_family w0 cs1 ps t w1 cs2 ps' o w2 cs3 :
  fresh w0 → rotate_refresh_token settings digest encode credential family clock resolve ps (oauth_run cs1 w0) = (Ret t, w1) →
  required ps' "refresh_token" = required ps "refresh_token" →
  rotate_refresh_token settings digest encode credential family clock resolve ps' (oauth_run cs2 w1) = (o, w2) →
  (sv_random (oauth_run cs3 w2) ≤ N)%nat →
  (∀ t', o ≠ Ret t') ∧
  (o = Exc invalid_grant → ∀ k, R (sv_store (oauth_run cs3 w2)) k →
   let f := family_of k (digest (required ps "refresh_token")) in
   f ≠ None ∧ family_of k (digest (tr_refresh_token t)) = f ∧
   ∀ ps'' t'' w'', family_of k (digest (required ps'' "refresh_token")) = f →
     rotate_refresh_token settings digest encode credential family clock resolve ps'' (oauth_run cs3 w2) ≠ (Ret t'', w'')).
Proof using credential_inj family_inj digest_length StoreRefinement0 resolver_errors.
  intros Hf He Ep Hr Hn. destruct (run_base cs1 w0 Hf) as [k0 Hk0]. pose proof Hk0 as [Hr0 _].
  destruct (refresh_inv ps _ t w1 k0 Hr0 He) as [Hbc _]. destruct (refresh_replaces ps _ t w1 k0 Hk0 He) as (f & k1 & Hk1).
  destruct (kept_run _ (guarded_stable _ (replaced_stable _ _ _)) cs2 w1 k1 Hk1) as [k2 Hk2]. rewrite <-Ep in Hk2, Hbc.
  assert (here (guarded base) (oauth_run cs2 w1) k2) as Hb2 by (destruct Hk2 as (? & ? & Hx2); split; [done|]; split; [done|]; intros [[? _] _]%Hx2; done).
  assert (oauth_run (Refresh ps' :: cs3) (oauth_run cs2 w1) = oauth_run cs3 w2) as Erun.
  { unfold oauth_run at 1. cbn [fold_left oauth_step]. unfold mbind at 1, M_bind. rewrite Hr. by destruct o. }
  assert (sv_random (oauth_run cs2 w1) ≤ N)%nat as Hn2 by (eapply (run_drawn (Refresh ps' :: cs3)); [done|by rewrite Erun]).
  destruct (replay_ends ps' _ o w2 k2 _ f Hk2 Hr Hn2 Hbc) as [Hret Hend]. split; [done|]. intros Eo k Hk.
  destruct (Hend Eo) as [k3 Hk3].
  destruct (kept_run _ (guarded_stable _ (stable_and _ _ (ended_stable _) (replaced_stable _ _ _))) cs3 w2 k3 Hk3) as (k4 & Hr4 & _ & Hk4).
  rewrite (refinement_functional _ _ _ Hk Hr4). destruct (Hk4 Hn) as ((_ & _ & Hrev) & (_ & g & Hg & _ & Hgf) & (_ & g' & Hg' & Hgf')).
  cbn zeta. rewrite <-Ep. unfold family_of. rewrite Hg, Hg'. cbn. unfold member in Hgf'. split_and!; [done|congruence|].
  intros ps'' t'' w'' Hfam Hret''.
  destruct (refresh_inv ps'' _ t'' w'' k4 Hr4 Hret'') as (_ & client & u1 & requested & now & c & u2 & _ & _ & _ & Ec & [_ Hl] & _).
  rewrite Ec in Hfam. injection Hfam as Hfam. apply (Hrev _ _ Ec); [congruence|done].
Qed.

(** C32: In every execution a family of refresh credentials belongs to one
    client, one resource and the owner, and one credential of it is usable at
    most: neither consumed nor revoked. *)
Theorem one_live_refresh_credential w0 cs k d d' g g' :
  fresh w0 → (sv_random (oauth_run cs w0) ≤ N)%nat → R (sv_store (oauth_run cs w0)) k →
  mm_refresh k !! d = Some g → mm_refresh k !! d' = Some g' → rg_family g = rg_family g' →
  same_party g g' ∧ rg_subject g = st_owner settings ∧ (live g → live g' → d = d').
Proof using credential_inj family_inj digest_length StoreRefinement0.
  intros Hf Hn Hk Hg Hg' E. destruct (run_base cs w0 Hf) as (k' & Hr & _ & Hb). rewrite (refinement_functional _ _ _ Hk Hr) in *.
  destruct (Hb Hn) as (_ & Hgr & Hfam). destruct (Hfam d d' g g' Hg Hg' E) as [Hp Hl]. destruct (Hgr d g Hg) as (_ & Hs & _). done.
Qed.

(** *** What the answers say *)

Lemma response_inv sub cl sc now res refr idt (w w' : world) t :
  access_response settings encode family sub cl sc now res refr idt w = (Ret t, w') →
  ∃ audience, audience_for_resource settings res = Ret audience ∧ sv_store w' = sv_store w ∧
    t = mk_token_response (encode "at+jwt" (access_claims settings sub cl sc (family (sv_random w)) now audience res)) "Bearer"
          (st_access_ttl settings) (join_scopes sc) refr idt.
Proof using.
  intros (jti & w1 & Hd & (aud & w2 & [Ha ->]%lift_inv & Hm)%bind_ret_inv)%bind_ret_inv. injection Hd as <- <-. injection Hm as <- <-.
  by exists aud.
Qed.

(** The refresh credential that accompanies an exchange is stored. *)
Definition first_refresh (g : AuthorizationGrant) (raw f : string) (now : Z) : RefreshGrant :=
  mk_RefreshGrant (digest raw) f (ag_client g) (ag_resource g) (ag_scopes g) (ag_subject g) (ag_authenticated g)
    (now + st_refresh_ttl settings) None None.

Lemma create_refresh_inv tries f g now (w : world) k raw w' :
  create_refresh settings digest credential tries f g now w = (Ret raw, w') → R (sv_store w) k →
  mm_refresh k !! digest raw = None ∧
  R (sv_store w') (mk_memory (mm_codes k) (<[digest raw := first_refresh g raw f now]> (mm_refresh k))).
Proof using StoreRefinement0 digest_length.
  revert w k. induction tries as [|tries IH]; [done|]. intros w k. cbn [create_refresh]. rewrite bind_draw, bind_store. cbn [sv_store drawn].
  fold (first_refresh g (credential (sv_random w)) f now). set (x := first_refresh _ _ _ _). intros Hc Hr.
  pose proof (create_refresh_refines x (digest_length _) (sv_store w) k Hr) as Hx.
  destruct (create_refresh_grant x (sv_store w)) as [[[]|e] s']; [destruct Hx as (k' & E & Hr')..|done];
    unfold MemoryOAuthGrantStore.create_refresh_grant in E; destruct (mm_refresh k !! rg_digest x) eqn:Ex; try done; injection E as <-.
  - injection Hc as <- <-. by split.
  - by apply (IH _ _ Hc).
Qed.

(** The tokens of a code. *)
Lemma tokens_inv g now (w : world) k t w' :
  tokens_for_authorization_grant settings digest encode credential family g now w = (Ret t, w') → R (sv_store w) k →
  ∃ jti f audience, audience_for_resource settings (ag_resource g) = Ret audience ∧
    t = mk_token_response
          (encode "at+jwt" (access_claims settings (ag_subject g) (ag_client g) (ag_scopes g) jti now audience (ag_resource g))) "Bearer"
          (st_access_ttl settings) (join_scopes (ag_scopes g)) (tr_refresh_token t)
          (if mem "openid" (ag_scopes g)
           then Some (issue_id_token settings encode (ag_subject g) (ag_client g) (ag_nonce g) (ag_authenticated g) now) else None) ∧
    mm_refresh k !! digest (tr_refresh_token t) = None ∧
    R (sv_store w') (mk_memory (mm_codes k) (<[digest (tr_refresh_token t) := first_refresh g (tr_refresh_token t) f now]> (mm_refresh k))).
Proof using StoreRefinement0 digest_length.
  intros (raw & w3 & Hn & (audience & Ha & Es & ->)%response_inv)%bind_ret_inv Hr. unfold new_refresh_grant in Hn. rewrite bind_draw in Hn.
  destruct (create_refresh_inv 3 (family (sv_random w)) g _ (drawn w) k raw w3 Hn Hr) as [Hf Hr3].
  exists (family (sv_random w3)), (family (sv_random w)), audience. cbn. by rewrite Es.
Qed.

(** What an exchange that returned has done, over any store that refines
    the memory store: the code was stored and unexpired, the verifier is the
    one of its challenge, client, address and resource are those it was issued
    for, and the client is enabled with its scopes now.  The code is gone, a
    refresh credential of a new family is stored under the digest of the one
    returned, and the access token is the encoding of the claims of the code's
    subject, client, scopes and resource. *)
Theorem exchange_answers ps w t w' k :
  R (sv_store w) k → exchange_authorization_code settings digest s256 encode credential family clock resolve ps w = (Ret t, w') →
  ∃ client w1 g jti f audience, let now := clock (sv_clock w1) in let d := digest (required ps "code") in
    enabled_client settings resolve (required ps "client_id") w = (Ret client, w1) ∧
    mm_codes k !! d = Some g ∧ now < ag_expires g ∧ s256 (required ps "code_verifier") = ag_challenge g ∧
    ag_client g = required ps "client_id" ∧ ag_redirect g = required ps "redirect_uri" ∧ ag_resource g = required ps "resource" ∧
    scopes_allowed (ag_scopes g) client = true ∧ audience_for_resource settings (ag_resource g) = Ret audience ∧
    tr_access_token t = encode "at+jwt" (access_claims settings (ag_subject g) (ag_client g) (ag_scopes g) jti now audience (ag_resource g)) ∧
    tr_expires_in t = st_access_ttl settings ∧ tr_scope t = join_scopes (ag_scopes g) ∧
    (tr_id_token t ≠ None ↔ mem "openid" (ag_scopes g) = true) ∧ mm_refresh k !! digest (tr_refresh_token t) = None ∧
    R (sv_store w') (mk_memory (delete d (mm_codes k))
      (<[digest (tr_refresh_token t) := first_refresh g (tr_refresh_token t) f now]> (mm_refresh k))).
Proof using StoreRefinement0 digest_length.
  intros Hr He. destruct (exchange_inv ps w t w' k He Hr) as (client & w1 & w2 & g & H1 & H2 & H3 & H4 & H5 & H6 & H7 & H8 & Ht & En & Hr2).
  destruct (tokens_inv g _ w2 _ t w' Ht Hr2) as (jti & f & audience & Ha & E & Hf & Hr3).
  exists client, w1, g, jti, f, audience. cbn zeta. split_and!; try done; rewrite E; [done..|]. cbn. by destruct (mem "openid" (ag_scopes g)).
Qed.

(** What a refresh that returned has done: the credential presented was
    stored, usable, unexpired and this client's for this resource; it is
    consumed, the credential returned is stored in its family, with no scope it
    did not have, no scope the client may not ask for now when the request names
    scopes, and no later expiry; and the access token is for the same
    subject, client and resource. *)
Theorem refresh_answers ps w t w' k :
  R (sv_store w) k → rotate_refresh_token settings digest encode credential family clock resolve ps w = (Ret t, w') →
  ∃ client w1 c g jti audience, let now := clock (sv_clock w1) in let d := digest (required ps "refresh_token") in
    enabled_client settings resolve (required ps "client_id") w = (Ret client, w1) ∧
    mm_refresh k !! d = Some c ∧ live c ∧ now < rg_expires c ∧ rg_client c = required ps "client_id" ∧ rg_resource c = required ps "resource" ∧
    live g ∧ same_party g c ∧ rg_family g = rg_family c ∧ rg_digest g = digest (tr_refresh_token t) ∧
    issubset (rg_scopes g) (rg_scopes c) = true ∧ (parameter ps "scope" ≠ None → scopes_allowed (rg_scopes g) client = true) ∧
    rg_expires g = Z.min (rg_expires c) (now + st_refresh_ttl settings) ∧
    audience_for_resource settings (rg_resource c) = Ret audience ∧
    tr_access_token t = encode "at+jwt" (access_claims settings (rg_subject c) (rg_client c) (rg_scopes g) jti now audience (rg_resource c)) ∧
    tr_scope t = join_scopes (rg_scopes g) ∧ tr_id_token t = None ∧
    R (sv_store w') (mk_memory (mm_codes k) (<[rg_digest g := g]> (<[rg_digest c := set_consumed now c]> (mm_refresh k)))).
Proof using StoreRefinement0 resolver_errors.
  intros Hr He. destruct (refresh_inv ps w t w' k Hr He)
    as (_ & client & w1 & requested & now & c & w2 & H1 & H2 & -> & H4 & H5 & H6 & H7 & H8 & H9 & Ha & Hr2 & _ & _ & Em).
  apply response_inv in Ha as (audience & Ha & Es & ->). set (r := rotation_of ps requested (sv_random w) (clock (sv_clock w1))) in *.
  exists client, w1, c, (successor_of c r), (family (sv_random w2)), audience. cbn zeta.
  assert (mk_memory (mm_codes k) (<[rg_digest (successor_of c r) := successor_of c r]> (<[rg_digest c := set_consumed (clock (sv_clock w1)) c]> (mm_refresh k)))
    = (MemoryOAuthGrantStore.rotate_refresh_grant r k).2) as ->.
  { pose proof (rotate_codes r k) as Hcodes. destruct (MemoryOAuthGrantStore.rotate_refresh_grant r k).2 as [mc mr]. cbn in Hcodes, Em.
    by rewrite Hcodes, Em. }
  rewrite Es. split_and!; try done; [by apply H5..|]. intros Hp. unfold requested_ok in H2. cbn. by destruct requested.
Qed.
End executions.

(** ** An example *)

Module OAuthSample.

(** The first [n] characters, filled with spaces. *)
Fixpoint pad (n : nat) (s : string) : string :=
  match n with
  | O => ""
  | S n' => match s with EmptyString => String " " (pad n' "") | String c s' => String c (pad n' s') end
  end.

Lemma pad_length n s : slen (pad n s) = Z.of_nat n.
Proof.
  unfold slen. f_equal. revert s. induction n as [|n IH]; intros s; [done|]. destruct s; cbn; by rewrite IH.
Qed.

Definition digest : string → string := pad 64.
Definition digest_length s : slen (digest s) = 64 := pad_length 64 s.

Definition credential (n : nat) : string := String (Ascii.ascii_of_nat (65 + n mod 26)) "-credential".
Definition family (n : nat) : string := String (Ascii.ascii_of_nat (65 + n mod 26)) "-family".
Definition s256 (s : string) : string := s.
Definition encode (kind : string) (claims : list (string * json)) : string := kind.
Definition clock (n : nat) : Z := 1000 + Z.of_nat n.

#[export] Instance authority : OAuthControlLedger unit := {|
  get_client issuer client_id := mret (Some (mk_OAuthClientRecord issuer client_id true ["read"; "openid"]));
  register_resolved_client r _ := mret r;
|}.

Definition resolve : option (string → M unit StaticClient) := None.

Definition settings : AuthorizationServerSettings :=
  mk_settings "https://hub" "https://hub/mcp" "hub" "owner" [mk_StaticClient "chat" ["https://chat/callback"] ["read"; "openid"]]
    "key" [] 300 120 3600.

Definition verifier : string := "0123456789012345678901234567890123456789012".

Definition authorization : parameters :=
  [("response_type", "code"); ("client_id", "chat"); ("redirect_uri", "https://chat/callback"); ("resource", "https://hub/mcp");
   ("scope", "read openid"); ("code_challenge", verifier); ("code_challenge_method", "S256")].
Definition owner : OwnerIdentity := mk_OwnerIdentity "owner" 900.

Definition exchange (code : string) : parameters :=
  [("code", code); ("code_verifier", verifier); ("redirect_uri", "https://chat/callback"); ("client_id", "chat"); ("resource", "https://hub/mcp")].
Definition refresh (token scope : string) : parameters :=
  [("refresh_token", token); ("client_id", "chat"); ("resource", "https://hub/mcp"); ("scope", scope)].

Definition start : server unit memory := mk_server tt MemoryOAuthGrantStore.empty 0 0.

(** The first ten credentials and families are distinct. *)
Definition N : nat := 10.

Lemma distinct_below (f : nat → string) :
  forallb (λ p, (f p.1 != f p.2) || (p.1 =? p.2)%nat) (list_prod (seq 0 N) (seq 0 N)) = true →
  ∀ n m, (n < N)%nat → (m < N)%nat → f n = f m → n = m.
Proof.
  intros Hall n m Hn Hm E. rewrite forallb_forall in Hall. specialize (Hall (n, m)). cbn [fst snd] in Hall.
  rewrite E, bool_decide_eq_true_2 in Hall by done. apply Nat.eqb_eq, Hall, in_prod; apply in_seq; unfold N in *; lia.
Qed.

Lemma credential_inj n m : (n < N)%nat → (m < N)%nat → digest (credential n) = digest (credential m) → n = m.
Proof. apply (distinct_below (λ n, digest (credential n))). vm_compute. reflexivity. Qed.
Lemma family_inj n m : (n < N)%nat → (m < N)%nat → family n = family m → n = m.
Proof. apply (distinct_below family). vm_compute. reflexivity. Qed.
Lemma resolver_errors f c s e s' : resolve = Some f → f c s = (Exc e, s') → exn_cls e ≠ OAuthProtocolError.
Proof. done. Qed.

Abbreviation run_ := (oauth_run settings digest s256 encode credential family clock resolve).
Abbreviation exchange_ := (exchange_authorization_code settings digest s256 encode credential family clock resolve).
Abbreviation rotate_ := (rotate_refresh_token settings digest encode credential family clock resolve).

(** After the authorization, and after the exchange; the calls draw the code
    ["A-credential"] and the refresh credential ["C-credential"]. *)
Definition authorized : server unit memory := run_ [Authorize authorization owner] start.
Definition exchanged : outcome token_response * server unit memory := exchange_ (exchange "A-credential") authorized.
Definition refreshed : outcome token_response * server unit memory := rotate_ (refresh "C-credential" "read") exchanged.2.
Definition replayed : outcome token_response * server unit memory := rotate_ (refresh "C-credential" "read") refreshed.2.

Example sample_exchanged : tr_refresh_token <$> (match exchanged.1 with Ret t => Some t | Exc _ => None end) = Some "C-credential".
Proof. vm_compute. reflexivity. Qed.
Example sample_refreshed : tr_scope <$> (match refreshed.1 with Ret t => Some t | Exc _ => None end) = Some "read".
Proof. vm_compute. reflexivity. Qed.
Example sample_replayed : replayed.1 = Exc invalid_grant.
Proof. vm_compute. reflexivity. Qed.
End OAuthSample.

Import OAuthSample.

Lemma code_exchanged_at_most_once_witness :
  (∃ t, exchanged.1 = Ret t) ∧
  ∀ t' w', exchange_authorization_code settings digest s256 encode credential family clock resolve (exchange "A-credential")
    (oauth_run settings digest s256 encode credential family clock resolve [Refresh (refresh "C-credential" "read")] exchanged.2) ≠ (Ret t', w').
Proof.
  split; [eexists; vm_compute; reflexivity|].
  apply (code_exchanged_at_most_once eq settings digest s256 encode credential family clock resolve digest_length N credential_inj family_inj
    start [Authorize authorization owner] (exchange "A-credential")
    (mk_token_response "at+jwt" "Bearer" 300 "read openid" "C-credential" (Some "JWT"))).
  - reflexivity.
  - vm_compute. reflexivity.
  - reflexivity.
  - apply Nat.leb_le. vm_compute. reflexivity.
Defined.

Lemma refresh_replay_ends_family_witness :
  (∀ t', replayed.1 ≠ Ret t') ∧
  ∀ t'' w'', rotate_refresh_token settings digest encode credential family
    clock resolve (refresh "E-credential" "read")
    (oauth_run settings digest s256 encode credential family clock resolve [] replayed.2) ≠ (Ret t'', w'').
Proof.
  destruct (refresh_replay_ends_family eq settings digest s256 encode credential
    family clock resolve digest_length N credential_inj family_inj
    resolver_errors start
    [Authorize authorization owner; Exchange (exchange "A-credential")] (refresh "C-credential" "read")
    (mk_token_response "at+jwt" "Bearer" 300 "read" "E-credential" None) refreshed.2 [] (refresh "C-credential" "read")
    replayed.1 replayed.2 []) as [H1 H2].
  - reflexivity.
  - vm_compute. reflexivity.
  - reflexivity.
  - vm_compute. reflexivity.
  - apply Nat.leb_le. vm_compute. reflexivity.
  - split; [exact H1|]. intros t'' w''. destruct (H2 sample_replayed (sv_store (run_ [] replayed.2)) eq_refl) as (_ & _ & H3).
    apply (H3 (refresh "E-credential" "read")). vm_compute. reflexivity.
Defined.

Lemma one_live_refresh_credential_witness : ∃ g g',
  mm_refresh (sv_store refreshed.2) !! digest "C-credential" = Some g ∧
  mm_refresh (sv_store refreshed.2) !! digest "E-credential" = Some g' ∧
  same_party g g' ∧ rg_subject g = "owner".
Proof.
  eexists _, _. split; [vm_compute; reflexivity|]. split; [vm_compute; reflexivity|].
  edestruct (one_live_refresh_credential eq settings digest s256 encode credential
    family clock resolve digest_length N credential_inj family_inj
    start
    [Authorize authorization owner; Exchange (exchange "A-credential");
     Refresh (refresh "C-credential" "read")]
    (sv_store refreshed.2) (digest "C-credential") (digest "E-credential")) as (H1 & H2 & _);
    [reflexivity|apply Nat.leb_le; vm_compute; reflexivity|vm_compute; reflexivity..|]. exact (conj H1 H2).
Defined.

Lemma exchange_answers_witness : ∃ g,
  mm_codes (sv_store authorized) !! digest "A-credential" = Some g ∧ ag_challenge g = verifier.
Proof.
  destruct (exchange_answers eq settings digest s256 encode credential
    family clock resolve digest_length (exchange "A-credential") authorized
    (mk_token_response "at+jwt" "Bearer" 300 "read openid" "C-credential" (Some "JWT")) exchanged.2 (sv_store authorized))
    as (client & w1 & g & jti & f & audience & _ & H2 & _ & H4 & _); [reflexivity|vm_compute; reflexivity|].
  exact (ex_intro _ g (conj H2 (eq_sym H4))).
Defined.

Lemma refresh_answers_witness : ∃ c g,
  mm_refresh (sv_store exchanged.2) !! digest "C-credential" = Some c ∧ live c ∧ rg_family g = rg_family c ∧
  rg_digest g = digest "E-credential".
Proof.
  destruct (refresh_answers eq settings digest encode credential
    family clock resolve resolver_errors (refresh "C-credential" "read") exchanged.2
    (mk_token_response "at+jwt" "Bearer" 300 "read" "E-credential" None) refreshed.2 (sv_store exchanged.2))
    as (client & w1 & c & g & jti & audience & _ & H2 & H3 & _ & _ & _ & _ & _ & H9 & H10 & _); [reflexivity|vm_compute; reflexivity|].
  exact (ex_intro _ c (ex_intro _ g (conj H2 (conj H3 (conj H9 H10))))).
Defined.
