(* ===== verification/OAuthFlow.v ===== *)
(** * OAuthFlow: from an authorization to tokens

    The authorization server over the memory store: a code that was issued is
    redeemable.  A client that holds the verifier of its challenge, and is still
    enabled, gets its tokens before the code expires. *)

From S2P Require Import Prelude Json OAuthStore OAuth OAuthSafety.

Section flow.
Context {C : Type} `{OAuthControlLedger C}.
Context (settings : AuthorizationServerSettings).
Context (digest s256 : string → string) (encode : string → list (string * json) → string)
  (credential family : nat → string) (clock : nat → Z) (resolve : option (string → M C StaticClient)).
Abbreviation world := (server C memory).
Abbreviation authorize_ := (authorize settings digest credential clock resolve).

(** A request that passed validation. *)
Lemma validate_inv ps (w w' : world) request :
  validate_authorization_request settings resolve ps w = (Ret request, w') →
  ∃ client scopes, enabled_client settings resolve (required ps "client_id") w = (Ret client, w') ∧
    parse_scope (required ps "scope") = Ret scopes ∧ scopes_allowed scopes client = true ∧
    mem (required ps "resource") (resources_supported settings) = true ∧
    mem (required ps "redirect_uri") (sc_redirects client.1) = true ∧
    existsb (missing ps) ["response_type"; "client_id"; "redirect_uri"; "resource"; "scope"; "code_challenge"] = false ∧
    request = mk_request client.1 (required ps "redirect_uri") (required ps "resource") scopes (parameter ps "state") (parameter ps "nonce")
                (required ps "code_challenge").
Proof.
  intros (u1 & w1 & [H1 ->]%protocol_error_if_inv & (u2 & w2 & [_ ->]%protocol_error_if_inv & (u3 & w3 & [_ ->]%protocol_error_if_inv &
    (u4 & w4 & [_ ->]%protocol_error_if_inv & (client & w5 & He & (u6 & w6 & [Hr%negb_false_iff ->]%protocol_error_if_inv &
    (u7 & w7 & [-> Ht]%target_inv & (scopes & w8 & Hp & (u9 & w9 & [Hs%negb_false_iff ->]%protocol_error_if_inv &
    (u10 & w10 & [_ ->]%protocol_error_if_inv & (u11 & w11 & [_ ->]%protocol_error_if_inv & Hm)%bind_ret_inv)%bind_ret_inv)%bind_ret_inv)%bind_ret_inv
    )%bind_ret_inv)%bind_ret_inv)%bind_ret_inv)%bind_ret_inv)%bind_ret_inv)%bind_ret_inv)%bind_ret_inv.
  injection Hm as <- ->. revert Hp. unfold scopes_or_error. destruct (parse_scope (required ps "scope")) as [l|] eqn:Ep; [|done].
  intros [= <- <-]. by exists client, l.
Qed.

(** The documents of a client name it. *)
Hypothesis resolver_names : ∀ f c s x s', resolve = Some f → f c s = (Ret x, s') → sc_id x = c.
(** [secrets.token_urlsafe(32)] is ASCII text without spaces. *)
Hypothesis credentials_bounded : ∀ n, bounded_credential (credential n) = true.

Lemma unavailable_inv {A} (m : M C A) (w w' : world) a : or_unavailable (on_clients m) w = (Ret a, w') → sv_clock w' = sv_clock w.
Proof using. unfold or_unavailable, try_except, on_clients. destruct (m (sv_clients w)) as [[x|e] c]; [by intros [= _ <-]|done]. Qed.

Lemma enabled_inv client_id (w w' : world) client :
  enabled_client settings resolve client_id w = (Ret client, w') → sc_id client.1 = client_id ∧ sv_clock w' = sv_clock w.
Proof using resolver_names.
  unfold enabled_client. destruct (settings_client settings client_id) as [c|] eqn:Ec.
  - apply find_some in Ec as [_ Ec]. b2p. intros (r & w1 & Hu%unavailable_inv & Hr)%bind_ret_inv. destruct r as [r|]; [|done].
    apply bind_ret_inv in Hr as (u & w2 & [_ ->]%protocol_error_if_inv & Hm). by injection Hm as <- <-.
  - destruct resolve as [f|] eqn:Ef; [|done].
    intros (c & w1 & Hc & (r & w2 & Hu%unavailable_inv & (u & w3 & [_ ->]%protocol_error_if_inv & Hm)%bind_ret_inv)%bind_ret_inv)%bind_ret_inv.
    injection Hm as <- <-. rewrite Hu. clear Hu. revert Hc. unfold try_except, on_clients.
    destruct (f client_id (sv_clients w)) as [[x|e] s] eqn:Ex; [|by destruct (_ == _)]. intros [= <- <-].
    split; [|done]. by eapply (resolver_names f).
Qed.

(** The grant of a code. *)
Definition grant_of (request : ValidatedAuthorizationRequest) (owner : OwnerIdentity) (code : string) (now : Z) : AuthorizationGrant :=
  mk_AuthorizationGrant (digest code) (vr_challenge request) (sc_id (vr_client request)) (vr_redirect request)
    (vr_resource request) (vr_scopes request) (ow_subject owner) (vr_nonce request) (ow_authenticated owner) (now + st_code_ttl settings).

Lemma create_code_inv tries request owner now (w w' : world) code :
  create_code settings digest credential tries request owner now w = (Ret code, w') →
  bounded_credential code = true ∧ mm_codes (sv_store w') !! digest code = Some (grant_of request owner code now) ∧ sv_clock w' = sv_clock w.
Proof using credentials_bounded.
  revert w. induction tries as [|tries IH]; [done|]. intros w. cbn [create_code]. rewrite bind_draw, bind_store. cbn.
  fold (grant_of request owner (credential (sv_random w)) now). unfold MemoryOAuthGrantStore.create_authorization_grant.
  destruct (mm_codes (sv_store w) !! _) eqn:Ex; [by intros ?%IH|]. intros [= <- <-]. split_and!; [done| |done].
  cbn. by rewrite lookup_insert_eq.
Qed.

(** An authorization that returned a code. *)
Lemma authorize_inv ps owner (w w' : world) code :
  authorize_ ps owner w = (Ret code, w') →
  ∃ client scopes, sc_id client = required ps "client_id" ∧ parse_scope (required ps "scope") = Ret scopes ∧
    mem (required ps "resource") (resources_supported settings) = true ∧ bounded_credential code = true ∧
    existsb (missing ps) ["response_type"; "client_id"; "redirect_uri"; "resource"; "scope"; "code_challenge"] = false ∧
    sv_clock w' = Datatypes.S (sv_clock w) ∧
    mm_codes (sv_store w') !! digest code = Some (grant_of
      (mk_request client (required ps "redirect_uri") (required ps "resource") scopes (parameter ps "state") (parameter ps "nonce")
         (required ps "code_challenge")) owner code (clock (sv_clock w))).
Proof using credentials_bounded resolver_names.
  intros (request & w1 & (client & scopes & He & Hp & _ & Ht & _ & Hm & ->)%validate_inv & Hc)%bind_ret_inv.
  apply bind_ret_inv in Hc as (u & w2 & [_ ->]%protocol_error_if_inv & Hc). rewrite bind_clock in Hc.
  apply enabled_inv in He as [Hid Hk]. apply create_code_inv in Hc as (Hb & Hg & Hk'). exists client.1, scopes.
  rewrite Hk', Hk in *. split_and!; done.
Qed.

Lemma bind_step {A B} (m : M world A) (f : A → M world B) w a w1 : m w = (Ret a, w1) → mbind f m w = f a w1.
Proof using. intros Hm. unfold mbind, M_bind. by rewrite Hm. Qed.

Lemma target_ok ps (w : world) :
  mem (required ps "resource") (resources_supported settings) = true → parameter ps "audience" = None → check_target settings ps w = (Ret tt, w).
Proof using. intros Hm Ha. unfold check_target. by rewrite Hm, Ha. Qed.

Lemma audience_ok resource : mem resource (resources_supported settings) = true → ∃ audience, audience_for_resource settings resource = Ret audience.
Proof using.
  unfold audience_for_resource, resources_supported. intros Hm. destruct (decide (resource = st_resource settings)) as [->|Hd].
  - rewrite bool_decide_eq_true_2 by done. eauto.
  - rewrite bool_decide_eq_false_2 by done. apply mem_true, list_elem_of_In in Hm as [?|Hm]; [done|].
    apply list_elem_of_In, mem_true in Hm. rewrite Hm. eauto.
Qed.

(** The tokens of a code, when the next refresh credential is new. *)
Lemma tokens_ok g now (w : world) :
  mem (ag_resource g) (resources_supported settings) = true →
  mm_refresh (sv_store w) !! digest (credential (Datatypes.S (sv_random w))) = None →
  ∃ t w' jti audience, tokens_for_authorization_grant settings digest encode credential family g now w = (Ret t, w') ∧
    audience_for_resource settings (ag_resource g) = Ret audience ∧
    tr_access_token t = encode "at+jwt"
      (access_claims settings (ag_subject g) (ag_client g) (ag_scopes g) (family jti) now audience (ag_resource g)).
Proof using.
  intros (audience & Ha)%audience_ok Hn. unfold tokens_for_authorization_grant, new_refresh_grant.
  set (f := family (sv_random w)). set (raw := credential (Datatypes.S (sv_random w))) in *.
  assert (∃ w1, (family_id ← draw family; create_refresh settings digest credential 3 family_id g now) w = (Ret raw, w1)) as [w1 Hr].
  { rewrite bind_draw. cbn [create_refresh]. rewrite bind_draw, bind_store. cbn. unfold MemoryOAuthGrantStore.create_refresh_grant. cbn.
    fold raw. rewrite Hn. by eexists. }
  rewrite (bind_step _ _ _ _ _ Hr). unfold access_response. rewrite bind_draw. unfold lift. rewrite Ha.
  unfold mbind, M_bind. by eexists _, _, (sv_random w1), audience.
Qed.

(** The checks of a code that was issued to this request pass. *)
Lemma exchange_ok ps' (w w1 : world) client g :
  existsb (missing ps') ["code"; "code_verifier"; "redirect_uri"; "client_id"; "resource"] = false →
  bounded_credential (required ps' "code") = true → validate_pkce_value (required ps' "code_verifier") = true →
  enabled_client settings resolve (required ps' "client_id") w = (Ret client, w1) →
  mem (required ps' "resource") (resources_supported settings) = true → parameter ps' "audience" = None →
  mm_codes (sv_store w) !! digest (required ps' "code") = Some g → clock (sv_clock w) < ag_expires g →
  s256 (required ps' "code_verifier") = ag_challenge g → ag_client g = required ps' "client_id" →
  ag_redirect g = required ps' "redirect_uri" → ag_resource g = required ps' "resource" → scopes_allowed (ag_scopes g) client = true →
  mm_refresh (sv_store w) !! digest (credential (Datatypes.S (sv_random w))) = None →
  ∃ t w' jti audience, exchange_authorization_code settings digest s256 encode credential family clock resolve ps' w = (Ret t, w') ∧
    audience_for_resource settings (ag_resource g) = Ret audience ∧
    tr_access_token t = encode "at+jwt"
      (access_claims settings (ag_subject g) (ag_client g) (ag_scopes g) (family jti) (clock (sv_clock w)) audience (ag_resource g)).
Proof using resolver_names.
  intros Hm Hb Hv He Ht Ha Hg Hx Hs H1 H2 H3 H4 Hn. pose proof (aside_enabled settings resolve (required ps' "client_id") w) as [Es Er].
  destruct (enabled_inv _ _ _ _ He) as [_ Ek]. rewrite He in Es, Er. cbn in Es, Er.
  unfold exchange_authorization_code. rewrite Hm, Hb, Hv. cbn [negb orb].
  rewrite (bind_step (protocol_error_if false _) _ w tt w eq_refl), (bind_step (protocol_error_if false _) _ w tt w eq_refl).
  rewrite (bind_step _ _ _ _ _ He), (bind_step _ _ _ _ _ (target_ok ps' w1 Ht Ha)), bind_clock, bind_store. cbn [sv_store consume_authorization_grant memory_store].
  unfold MemoryOAuthGrantStore.consume_authorization_grant. rewrite Es, Hg, Ek, (proj2 (Z.ltb_lt _ _) Hx), Hs.
  rewrite H1, H2, H3, H4, !bool_decide_eq_true_2 by done. cbn [negb orb].
  rewrite !(bind_step (protocol_error_if false _) _ _ tt _ eq_refl), <-H3, <-H1. apply tokens_ok; [by rewrite H3|]. cbn. by rewrite Er.
Qed.

(** The random values drawn do not repeat, and digests do not collide. *)
Context (N : nat).
Hypothesis digest_length : ∀ s, slen (digest s) = 64.
Hypothesis credential_inj : ∀ n m, (n < N)%nat → (m < N)%nat → digest (credential n) = digest (credential m) → n = m.
Hypothesis family_inj : ∀ n m, (n < N)%nat → (m < N)%nat → family n = family m → n = m.

(** A code that was issued is redeemable: after any execution and an
    authorization that returned a code, the client that is still enabled with
    the scopes of its request, and presents the code with the verifier of its
    challenge before the code expires, is answered with tokens; the access
    token says owner, client, scopes and resource of the authorization. *)
Lemma issued_code_is_redeemable w0 cs ps owner code (w1 : world) ps' client w2 scopes :
  let w := oauth_run settings digest s256 encode credential family clock resolve cs w0 in
  sv_store w0 = MemoryOAuthGrantStore.empty → authorize settings digest credential clock resolve ps owner w = (Ret code, w1) →
  (Datatypes.S (sv_random w1) < N)%nat →
  Forall (λ name, required ps' name = required ps name) ["client_id"; "redirect_uri"; "resource"] → required ps' "code" = code →
  parameter ps' "audience" = None → validate_pkce_value (required ps' "code_verifier") = true →
  s256 (required ps' "code_verifier") = required ps "code_challenge" →
  parse_scope (required ps "scope") = Ret scopes →
  enabled_client settings resolve (required ps "client_id") w1 = (Ret client, w2) → scopes_allowed scopes client = true →
  clock (sv_clock w1) < clock (sv_clock w) + st_code_ttl settings →
  ∃ t w' jti audience, exchange_authorization_code settings digest s256 encode credential family clock resolve ps' w1 = (Ret t, w') ∧
    audience_for_resource settings (required ps "resource") = Ret audience ∧
    tr_access_token t = encode "at+jwt" (access_claims settings (ow_subject owner) (required ps "client_id") scopes (family jti)
      (clock (sv_clock w1)) audience (required ps "resource")).
Proof using resolver_names credentials_bounded credential_inj family_inj digest_length.
  cbv zeta. set (w := oauth_run _ _ _ _ _ _ _ _ cs w0). intros H0 Ha HN Hsame Hcode Haud Hv Hs Hsc He Hal Hx.
  rewrite !list.Forall_cons in Hsame. destruct Hsame as (E1 & E2 & E3 & _).
  assert (∃ k, here eq (guarded settings N (base settings digest credential family)) w1 k) as (k & Ek & _ & Hb).
  { destruct (run_base eq settings digest s256 encode credential family clock resolve digest_length N credential_inj family_inj cs w0 H0) as [k Hk].
    destruct (kept_authorize eq settings digest credential family clock resolve digest_length _
      (guarded_stable settings digest credential family N _ (base_stable settings digest credential family N credential_inj family_inj)) ps owner w k Hk) as (k' & Hk' & _).
    exists k'. by rewrite Ha in Hk'. }
  destruct (Hb ltac:(lia)) as (_ & Hgr & _).
  apply authorize_inv in Ha as (c & scopes' & Hid & Hp & Ht & Hbc & Hm & Ek1 & Hg). rewrite Hsc in Hp. injection Hp as <-.
  assert (existsb (missing ps') ["code"; "code_verifier"; "redirect_uri"; "client_id"; "resource"] = false) as Hm'.
  { cbn in Hm |- *. unfold missing in *. rewrite E1, E2, E3, Hcode.
    assert (code ≠ "") as Hn1 by (by intros ->). assert (required ps' "code_verifier" ≠ "") as Hn2 by (intros E; by rewrite E in Hv).
    rewrite !orb_false_iff in Hm. destruct Hm as (_ & -> & -> & -> & _). by rewrite !bool_decide_eq_false_2. }
  assert (mm_refresh (sv_store w1) !! digest (credential (Datatypes.S (sv_random w1))) = None) as Hnew.
  { rewrite Ek. destruct (mm_refresh k !! _) as [g|] eqn:Eg; [|done]. destruct (Hgr _ _ Eg) as (_ & _ & (j & Hj & E) & _).
    apply credential_inj in E; lia. }
  rewrite <-Hcode in Hg, Hbc.
  edestruct (exchange_ok ps' w1 w2 client) as (t & w' & jti & audience & E & Haud' & Et); [..|exact Hg| | | | | | |exact Hnew|];
    rewrite ?E1, ?E2, ?E3; try done.
  exists t, w', jti, audience. cbn in Haud', Et. rewrite Hid in Et. done.
Qed.
End flow.
