(* ===== verification/OAuthClients.v ===== *)
(** * OAuthClients: the client authority of the control ledger

    Models the table of OAuth clients (005_oauth_clients.sql, the methods of
    store.py on it) and adapters.py's [ControlLedgerOAuthAuthority] on top of
    it, the authority the authorization server runs with.  A client that was
    disabled stays disabled, whatever requests the server gets. *)

From S2P Require Import Prelude Time Json LedgerState OAuthStore OAuth OAuthSafety.

Record client_row := mk_client_row {
  cl_issuer : string; cl_client : string; cl_enabled : bool; cl_scopes_json : string; cl_principal : string; cl_profile : string;
  cl_created : string; cl_updated : string;
}.

(** The table, and how often the clock was read. *)
Record client_tables := mk_client_tables { ct_clients : list client_row; ct_reads : nat }.

Definition same_client (issuer client_id : string) (r : client_row) : bool := (cl_issuer r == issuer) && (cl_client r == client_id).

Definition find_client (issuer client_id : string) (t : client_tables) : option client_row :=
  List.find (same_client issuer client_id) (ct_clients t).

Section clients.
(** [self.clock.now()], reading by reading. *)
Context (ledger_clock : nat → Z).

Definition client_timestamp : M client_tables string := λ t,
  (Ret (time_text (ledger_clock (ct_reads t))), mk_client_tables (ct_clients t) (S (ct_reads t))).

(** [INSERT ... ON CONFLICT(issuer,client_id) DO UPDATE SET ...] *)
Definition upsert_client (update : client_row → client_row) (r : client_row) : M client_tables unit := modify (λ t,
  mk_client_tables
    (if existsb (same_client (cl_issuer r) (cl_client r)) (ct_clients t)
     then map (λ x, if same_client (cl_issuer r) (cl_client r) x then update x else x) (ct_clients t)
     else ct_clients t ++ [r]) (ct_reads t)).

(** [_safe_json({"scopes": sorted(allowed_scopes)})] *)
Definition sorted_scopes (allowed_scopes : list string) : list string := order_by String.leb (remove_dups allowed_scopes).

Definition check_profile (allowed_scopes : list string) (profile_kind : string) : M client_tables unit :=
  raise_if (negb (mem profile_kind ["reader"; "owner_operator"]) || (allowed_scopes == [])) ValueError "OAuth client profile/scopes are invalid".

Definition register_oauth_client (issuer client_id principal_id : string) (allowed_scopes : list string) (profile_kind : string) (enabled : bool) :
    M client_tables unit :=
  check_profile allowed_scopes profile_kind ;;
  text ← lift (ControlLedgerOAuth.scopes_json (sorted_scopes allowed_scopes));
  now ← client_timestamp;
  atomically (upsert_client
    (λ x, mk_client_row (cl_issuer x) (cl_client x) enabled text principal_id profile_kind (cl_created x) now)
    (mk_client_row issuer client_id enabled text principal_id profile_kind now now)).

(** The update leaves [enabled] out. *)
Definition register_configured_oauth_client (issuer client_id principal_id : string) (allowed_scopes : list string) (profile_kind : string) :
    M client_tables unit :=
  check_profile allowed_scopes profile_kind ;;
  text ← lift (ControlLedgerOAuth.scopes_json (sorted_scopes allowed_scopes));
  now ← client_timestamp;
  atomically (upsert_client
    (λ x, mk_client_row (cl_issuer x) (cl_client x) (cl_enabled x) text principal_id profile_kind (cl_created x) now)
    (mk_client_row issuer client_id true text principal_id profile_kind now now)).

(** The row with its scopes decoded. *)
Definition oauth_client (issuer client_id : string) : M client_tables (option (client_row * list string)) :=
  row ← gets (find_client issuer client_id);
  match row with
  | None => mret None
  | Some r => scopes ← lift (ControlLedgerOAuth.scopes_of_json (cl_scopes_json r)); mret (Some (r, scopes))
  end.

(** ** [ControlLedgerOAuthAuthority] *)

Definition authority_get_client (issuer client_id : string) : M client_tables (option OAuthClientRecord) :=
  row ← oauth_client issuer client_id;
  mret (match row with None => None | Some (r, scopes) => Some (mk_OAuthClientRecord issuer client_id (cl_enabled r) scopes) end).

Definition authority_register_resolved_client (record : OAuthClientRecord) (principal_id : string) : M client_tables OAuthClientRecord :=
  register_configured_oauth_client (oc_issuer record) (oc_client record) principal_id (oc_scopes record) "owner_operator" ;;
  persisted ← authority_get_client (oc_issuer record) (oc_client record);
  match persisted with
  | None => raise RuntimeError "resolved OAuth client was not persisted"
  | Some p => mret p
  end.
End clients.

(** The state of the authority, and of what the resolver of client metadata
    keeps. *)
Record authority_state (X : Type) := mk_authority { au_tables : client_tables; au_resolver : X }.
Arguments mk_authority {X}.
Arguments au_tables {X}.
Arguments au_resolver {X}.

Definition on_tables {X A} (m : M client_tables A) : M (authority_state X) A := λ a,
  let '(o, t) := m (au_tables a) in (o, mk_authority t (au_resolver a)).
Definition on_resolver {X A} (m : M X A) : M (authority_state X) A := λ a,
  let '(o, x) := m (au_resolver a) in (o, mk_authority (au_tables a) x).

Definition ControlLedgerOAuthAuthority (X : Type) (ledger_clock : nat → Z) : OAuthControlLedger (authority_state X) := {|
  get_client issuer client_id := on_tables (authority_get_client issuer client_id);
  register_resolved_client record principal_id := on_tables (authority_register_resolved_client ledger_clock record principal_id);
|}.

(** ** The table *)

Lemma same_client_refl r : same_client (cl_issuer r) (cl_client r) r = true.
Proof. unfold same_client. by rewrite !bool_decide_eq_true_2. Qed.

Lemma same_client_spec issuer client_id r : same_client issuer client_id r = true ↔ cl_issuer r = issuer ∧ cl_client r = client_id.
Proof. unfold same_client. by rewrite andb_true_iff, !bool_decide_eq_true. Qed.

(** What a registration leaves under a key. *)
Lemma find_upsert update r issuer client_id t :
  (∀ x, cl_issuer (update x) = cl_issuer x ∧ cl_client (update x) = cl_client x) →
  find_client issuer client_id (upsert_client update r t).2 =
  if same_client issuer client_id r
  then Some (match find_client issuer client_id t with Some x => update x | None => r end)
  else find_client issuer client_id t.
Proof.
  intros Hu. unfold find_client, upsert_client, modify. cbn [snd ct_clients].
  assert (∀ k, same_client (cl_issuer r) (cl_client r) k = true → same_client issuer client_id k = same_client issuer client_id r) as Hk.
  { intros k [E1 E2]%same_client_spec. unfold same_client. by rewrite E1, E2. }
  assert (∀ x, same_client issuer client_id (update x) = same_client issuer client_id x) as Hs.
  { intros x. destruct (Hu x) as [E1 E2]. unfold same_client. by rewrite E1, E2. }
  assert (∀ k, same_client issuer client_id r = true → same_client issuer client_id k = true → same_client (cl_issuer r) (cl_client r) k = true) as Hj.
  { intros k [<- <-]%same_client_spec. done. }
  induction (ct_clients t) as [|x l IH]; cbn [existsb map List.find app].
  - destruct (same_client issuer client_id r); done.
  - destruct (same_client (cl_issuer r) (cl_client r) x) eqn:Ex; cbn [orb].
    + cbn [List.find]. rewrite Hs, (Hk x Ex). destruct (same_client issuer client_id r) eqn:Er; [done|].
      clear IH. induction l as [|y l IH]; [done|]. cbn [map List.find]. destruct (same_client (cl_issuer r) (cl_client r) y) eqn:Ey; [|by rewrite IH].
      by rewrite Hs, (Hk y Ey), IH.
    + destruct (existsb _ l); cbn [List.find map app]; rewrite ?Ex; destruct (same_client issuer client_id x) eqn:Exx; try exact IH.
      * destruct (same_client issuer client_id r) eqn:Er; [|done]. by rewrite (Hj x eq_refl Exx) in Ex.
      * destruct (same_client issuer client_id r) eqn:Er; [|done]. by rewrite (Hj x eq_refl Exx) in Ex.
Qed.

Lemma atomic_upsert update r t : atomically (upsert_client update r) t = upsert_client update r t.
Proof. done. Qed.

Lemma sorted_scopes_elem x l : x ∈ sorted_scopes l ↔ x ∈ l.
Proof. unfold sorted_scopes. by rewrite order_by_perm, elem_of_remove_dups. Qed.

(** A client that was registered is found: the authority answers with the
    same state and the same set of scopes, and no other client changed. *)
Theorem registered_client_found ledger_clock issuer client_id principal_id scopes profile enabled t t' :
  register_oauth_client ledger_clock issuer client_id principal_id scopes profile enabled t = (Ret tt, t') →
  ∃ scopes', authority_get_client issuer client_id t' = (Ret (Some (mk_OAuthClientRecord issuer client_id enabled scopes')), t') ∧
    (∀ x, x ∈ scopes' ↔ x ∈ scopes) ∧ scopes ≠ [] ∧ profile ∈ ["reader"; "owner_operator"] ∧
    ∀ issuer' client_id', (issuer', client_id') ≠ (issuer, client_id) → find_client issuer' client_id' t' = find_client issuer' client_id' t.
Proof.
  intros (u & t1 & [Hc ->]%raise_if_inv & (text & t2 & [Ht ->]%lift_inv & (now & t3 & Hn & Hu)%bind_ret_inv)%bind_ret_inv)%bind_ret_inv.
  injection Hn as <- <-. rewrite atomically_ret in Hu. b2p. destruct Hc as [Hprofile Hne]. apply mem_true in Hprofile. exists (sorted_scopes scopes).
  match type of Hu with upsert_client ?f ?r ?t0 = _ =>
    pose proof (λ i c, find_upsert f r i c t0 ltac:(done)) as Hf; rewrite Hu in Hf; set (t0' := t0) in *; set (row := r) in *; set (upd := f) in * end.
  cbn [snd] in Hf. split_and!; [|intros x; apply sorted_scopes_elem|done|done|].
  - unfold authority_get_client, oauth_client, gets, mbind, M_bind. rewrite Hf.
    assert (same_client issuer client_id row = true) as -> by by apply same_client_spec.
    apply DurableStore.scopes_roundtrip in Ht.
    by destruct (find_client issuer client_id t0'); cbn; unfold lift; rewrite Ht.
  - intros issuer' client_id' Hd. rewrite Hf. destruct (same_client issuer' client_id' row) eqn:E; [|done].
    apply same_client_spec in E as [<- <-]. done.
Qed.

(** ** Requests and the authority *)

Section walk.
Context {C S : Type} `{OAuthControlLedger C} `{OAuthGrantStore S}.
Context (settings : AuthorizationServerSettings).
Context (digest s256 : string → string) (encode : string → list (string * json) → string)
  (credential family : nat → string) (clock : nat → Z) (resolve : option (string → M C StaticClient)).
(** A property of the authority that its operations keep. *)
Context (Q : C → Prop).
Hypothesis Q_get : ∀ issuer client_id, preserves Q (get_client issuer client_id).
Hypothesis Q_register : ∀ record principal_id, preserves Q (register_resolved_client record principal_id).
Hypothesis Q_resolve : ∀ f client_id, resolve = Some f → preserves Q (f client_id).

Definition authority_ok (w : server C S) : Prop := Q (sv_clients w).

Lemma ok_on_clients {A} (m : M C A) : preserves Q m → preserves authority_ok (on_clients m).
Proof using. intros Hm w Hw. specialize (Hm _ Hw). unfold authority_ok, on_clients. by destruct (m (sv_clients w)). Qed.

Lemma ok_on_store {A} (m : M S A) : preserves authority_ok (on_store m).
Proof using. intros w Hw. unfold authority_ok, on_store. by destruct (m (sv_store w)). Qed.

Lemma ok_draw source : preserves authority_ok (draw source).
Proof using. by intros w Hw. Qed.

Lemma ok_clock : preserves authority_ok (read_clock clock).
Proof using. by intros w Hw. Qed.

Lemma ok_error_if c error : preserves authority_ok (protocol_error_if c error).
Proof using. apply preserves_raise_if. Qed.

Lemma ok_error {A} error : preserves authority_ok (protocol_error (A:=A) error).
Proof using. apply preserves_raise. Qed.

Lemma ok_try {A} (m : M (server C S) A) h : preserves authority_ok m → (∀ e, preserves authority_ok (h e)) → preserves authority_ok (try_except m h).
Proof using. intros Hm Hh w Hw. specialize (Hm w Hw). unfold try_except. destruct (m w) as [[a|e] w1]; [done|by apply Hh]. Qed.

Lemma ok_if {A} (b : bool) (m m' : M (server C S) A) :
  preserves authority_ok m → preserves authority_ok m' → preserves authority_ok (if b then m else m').
Proof using. by destruct b. Qed.

Lemma ok_unavailable {A} (m : M C A) : preserves Q m → preserves authority_ok (or_unavailable (on_clients m)).
Proof using. intros Hm. apply ok_try; [by apply ok_on_clients|]. intros e. apply ok_error. Qed.

Ltac ok := repeat first
  [ apply ok_error | apply ok_error_if | apply ok_clock | apply ok_draw | apply ok_on_store | apply preserves_ret | apply preserves_lift
  | apply ok_if | apply preserves_bind; [|intros ?] ].

Lemma ok_enabled client_id : preserves authority_ok (enabled_client settings resolve client_id).
Proof using Q_get Q_register Q_resolve clock.
  unfold enabled_client. destruct (settings_client settings client_id).
  - apply preserves_bind; [apply ok_unavailable, Q_get|]. intros [r|]; ok.
  - destruct resolve as [f|] eqn:Ef; [|ok]. apply preserves_bind.
    { apply ok_try; [apply ok_on_clients; by apply Q_resolve|]. intros e. ok. }
    intros c. apply preserves_bind; [apply ok_unavailable, Q_register|]. intros r. ok.
Qed.

Lemma ok_target ps : preserves authority_ok (check_target settings ps).
Proof using clock. unfold check_target. ok. destruct (parameter ps "audience"); ok. Qed.

Lemma ok_scopes value : preserves authority_ok (scopes_or_error value).
Proof using clock. unfold scopes_or_error. destruct (parse_scope value); ok. Qed.

Lemma ok_create_code tries request owner now : preserves authority_ok (create_code settings digest credential tries request owner now).
Proof using clock. induction tries as [|tries IH]; cbn [create_code]; ok. exact IH. Qed.

Lemma ok_create_refresh tries f g now : preserves authority_ok (create_refresh settings digest credential tries f g now).
Proof using clock. induction tries as [|tries IH]; cbn [create_refresh]; ok. exact IH. Qed.

Lemma ok_response sub cl sc now res refr idt : preserves authority_ok (access_response settings encode family sub cl sc now res refr idt).
Proof using clock. unfold access_response. ok. Qed.

Ltac steps := repeat first
  [ apply ok_enabled | apply ok_target | apply ok_scopes | apply ok_create_code | apply ok_create_refresh | apply ok_response
  | apply ok_error | apply ok_error_if | apply ok_clock | apply ok_draw | apply ok_on_store | apply preserves_ret | apply preserves_lift
  | apply ok_if | apply preserves_bind; [|intros ?] ].

Lemma ok_step c : preserves authority_ok (oauth_step settings digest s256 encode credential family clock resolve c).
Proof using Q_get Q_register Q_resolve.
  destruct c; cbn [oauth_step]; try (apply preserves_bind; [|intros ?; apply preserves_ret]).
  - unfold authorize, validate_authorization_request, complete_authorization. steps.
  - unfold exchange_authorization_code. do 5 (apply preserves_bind; [steps|intros ?]). apply preserves_bind; [steps|intros [g|]]; [|steps].
    unfold tokens_for_authorization_grant, new_refresh_grant. steps.
  - unfold rotate_refresh_token. do 4 (apply preserves_bind; [steps|intros ?]). apply preserves_bind.
    { destruct (parameter ps "scope"); steps. }
    intros requested. do 2 (apply preserves_bind; [steps|intros ?]). apply preserves_bind; [steps|intros [[] [g|]]]; steps.
  - unfold revoke_refresh_token. steps. apply ok_try; [steps|]. intros e. steps.
Qed.

Lemma ok_run cs w : authority_ok w → authority_ok (oauth_run settings digest s256 encode credential family clock resolve cs w).
Proof using Q_get Q_register Q_resolve. revert w. induction cs as [|c cs IH]; intros w Hw; [done|]. by apply IH, ok_step. Qed.
End walk.

(** ** A client that was disabled *)

Definition disabled (issuer client_id : string) (t : client_tables) : Prop :=
  ∃ r, find_client issuer client_id t = Some r ∧ cl_enabled r = false.

Lemma get_client_disabled issuer client_id t :
  disabled issuer client_id t →
  match authority_get_client issuer client_id t with
  | (Ret (Some p), t') => t' = t ∧ oc_enabled p = false
  | (Ret None, _) => False
  | (Exc _, t') => t' = t
  end.
Proof.
  intros (r & Hr & He). unfold authority_get_client, oauth_client, gets, mbind, M_bind. rewrite Hr. unfold lift.
  by destruct (ControlLedgerOAuth.scopes_of_json _).
Qed.

Lemma get_client_tables issuer client_id t : (authority_get_client issuer client_id t).2 = t.
Proof.
  unfold authority_get_client, oauth_client, gets, mbind, M_bind. destruct (find_client _ _ _); [|done]. unfold lift.
  by destruct (ControlLedgerOAuth.scopes_of_json _).
Qed.

(** The registration of a configured client never enables it. *)
Lemma register_configured_disabled ledger_clock issuer client_id i c principal_id scopes profile t :
  disabled issuer client_id t → disabled issuer client_id (register_configured_oauth_client ledger_clock i c principal_id scopes profile t).2.
Proof.
  intros (r & Hr & He). unfold register_configured_oauth_client, check_profile, raise_if, mbind, M_bind.
  destruct (_ || _); [by exists r|]. cbn [fst]. unfold lift. destruct (ControlLedgerOAuth.scopes_json _) as [text|]; [|by exists r].
  unfold client_timestamp, mret, M_ret. cbn beta iota. rewrite atomic_upsert. unfold disabled. rewrite find_upsert by done.
  change (find_client issuer client_id (mk_client_tables _ _)) with (find_client issuer client_id t). rewrite Hr.
  destruct (same_client _ _ _); [|by exists r]. by eexists.
Qed.

Lemma register_resolved_disabled ledger_clock issuer client_id record principal_id t :
  disabled issuer client_id t → disabled issuer client_id (authority_register_resolved_client ledger_clock record principal_id t).2.
Proof.
  intros Hd. unfold authority_register_resolved_client, mbind at 1, M_bind at 1.
  pose proof (register_configured_disabled ledger_clock issuer client_id (oc_issuer record) (oc_client record) principal_id (oc_scopes record)
    "owner_operator" t Hd) as Hr.
  destruct (register_configured_oauth_client _ _ _ _ _ _ t) as [[[]|e] t1]; [|done]. cbn [snd] in Hr. unfold mbind, M_bind.
  pose proof (get_client_tables (oc_issuer record) (oc_client record) t1) as Hg.
  destruct (authority_get_client _ _ t1) as [[[p|]|e] t2]; cbn in *; by subst.
Qed.

Section disabled.
Context {X S : Type} `{OAuthGrantStore S} (ledger_clock : nat → Z) (resolver : option (string → M X StaticClient)).
Context (settings : AuthorizationServerSettings).
Context (digest s256 : string → string) (encode : string → list (string * json) → string)
  (credential family : nat → string) (clock : nat → Z).
#[local] Instance the_authority : OAuthControlLedger (authority_state X) := ControlLedgerOAuthAuthority X ledger_clock.

(** The resolver has nothing to do with the table. *)
Definition resolve_outside : option (string → M (authority_state X) StaticClient) := (λ f c, on_resolver (f c)) <$> resolver.

Lemma disabled_not_enabled client_id (w : server (authority_state X) S) :
  disabled (st_issuer settings) client_id (au_tables (sv_clients w)) →
  ∀ client w', enabled_client settings resolve_outside client_id w ≠ (Ret client, w').
Proof.
  intros Hd client w'. unfold enabled_client. destruct (settings_client settings client_id).
  - intros (r & w1 & Hu & Hr)%bind_ret_inv. destruct r as [r|]; [|done].
    apply bind_ret_inv in Hr as (u & w2 & [Hp ->]%protocol_error_if_inv & _). revert Hu. unfold or_unavailable, try_except, on_clients. cbn.
    unfold on_tables. pose proof (get_client_disabled _ _ _ Hd) as Hg.
    destruct (authority_get_client _ _ _) as [[[p|]|e] t']; [|done..]. destruct Hg as [-> Hg]. intros [= -> _]. by rewrite Hg in Hp.
  - unfold resolve_outside. destruct resolver as [f|]; [|done]. cbn.
    intros (c & w1 & Hc & (r & w2 & Hu & (u & w3 & [Hp ->]%protocol_error_if_inv & _)%bind_ret_inv)%bind_ret_inv)%bind_ret_inv.
    assert (disabled (st_issuer settings) client_id (au_tables (sv_clients w1))) as Hd1.
    { revert Hc. unfold try_except, on_clients, on_resolver. destruct (f client_id _) as [[x|e] s]; [by intros [= <- <-]|]. cbn.
      destruct (exn_cls e == ClientMetadataError); intros Hx; unfold protocol_error, raise, reraise in Hx; discriminate Hx. }
    revert Hu. unfold or_unavailable, try_except, on_clients. cbn. unfold on_tables, authority_register_resolved_client. cbn [oc_issuer oc_client oc_scopes].
    pose proof (register_configured_disabled ledger_clock _ _ (st_issuer settings) client_id (st_owner settings) (sc_scopes c) "owner_operator" _ Hd1) as Hd2.
    unfold mbind, M_bind. destruct (register_configured_oauth_client _ _ _ _ _ _ _) as [[[]|e] t1]; [|done]. cbn [snd] in Hd2.
    pose proof (get_client_disabled _ _ _ Hd2) as Hg. destruct (authority_get_client _ _ t1) as [[[p|]|e] t2]; [|done..].
    destruct Hg as [-> Hg]. intros [= <- _]. rewrite Hg in Hp. cbn in Hp. by rewrite orb_true_r in Hp.
Qed.

(** C14: A client that was disabled in the control ledger stays disabled under
    any sequence of requests to the authorization server, and gets nothing from
    it: no code, no tokens for a code, no tokens for a refresh credential. *)
Theorem disabled_client_gets_nothing cs (w : server (authority_state X) S) ps :
  disabled (st_issuer settings) (required ps "client_id") (au_tables (sv_clients w)) →
  let w' := oauth_run settings digest s256 encode credential family clock resolve_outside cs w in
  disabled (st_issuer settings) (required ps "client_id") (au_tables (sv_clients w')) ∧
  (∀ owner code w'', authorize settings digest credential clock resolve_outside ps owner w' ≠ (Ret code, w'')) ∧
  (∀ t w'', exchange_authorization_code settings digest s256 encode credential family clock resolve_outside ps w' ≠ (Ret t, w'')) ∧
  (∀ t w'', rotate_refresh_token settings digest encode credential family clock resolve_outside ps w' ≠ (Ret t, w'')).
Proof.
  intros Hd. cbn zeta. set (w' := oauth_run _ _ _ _ _ _ _ _ cs w).
  assert (disabled (st_issuer settings) (required ps "client_id") (au_tables (sv_clients w'))) as Hd'.
  { apply (ok_run settings digest s256 encode credential family clock resolve_outside
      (λ a, disabled (st_issuer settings) (required ps "client_id") (au_tables a))); [..|exact Hd].
    - intros issuer client_id a Ha. cbn. unfold on_tables. pose proof (get_client_tables issuer client_id (au_tables a)) as Hg.
      destruct (authority_get_client _ _ _) as [o t]. cbn in *. by subst.
    - intros record principal_id a Ha. cbn. unfold on_tables.
      pose proof (register_resolved_disabled ledger_clock _ _ record principal_id _ Ha) as Hr.
      by destruct (authority_register_resolved_client _ _ _ _).
    - unfold resolve_outside. intros f client_id Hf a Ha. destruct resolver as [g|]; [|done]. injection Hf as <-. unfold on_resolver.
      by destruct (g client_id _). }
  split; [done|]. pose proof (disabled_not_enabled _ w' Hd') as Hn. split_and!.
  - intros owner code w'' (request & w1 & Hv & _)%bind_ret_inv.
    do 4 (apply bind_ret_inv in Hv as (? & ? & [_ ->]%protocol_error_if_inv & Hv)). by apply bind_ret_inv in Hv as (client & w2 & []%Hn & _).
  - intros t w'' Hv. do 2 (apply bind_ret_inv in Hv as (? & ? & [_ ->]%protocol_error_if_inv & Hv)).
    by apply bind_ret_inv in Hv as (client & w2 & []%Hn & _).
  - intros t w'' Hv. do 2 (apply bind_ret_inv in Hv as (? & ? & [_ ->]%protocol_error_if_inv & Hv)).
    by apply bind_ret_inv in Hv as (client & w2 & []%Hn & _).
Qed.
End disabled.

(** ** An example *)

Import OAuthSample.

Definition no_clients : client_tables := mk_client_tables [] 0.

(** The client, registered and then disabled. *)
Definition chat_disabled : client_tables :=
  ((register_oauth_client (λ _, 0) "https://hub" "chat" "owner" ["read"; "openid"] "owner_operator" true ;;
    register_oauth_client (λ _, 0) "https://hub" "chat" "owner" ["read"; "openid"] "owner_operator" false) no_clients).2.

Lemma registered_client_found_witness : ∃ t' scopes',
  register_oauth_client (λ _, 0) "https://hub" "chat" "owner" ["read"; "openid"] "owner_operator" true no_clients = (Ret tt, t') ∧
  authority_get_client "https://hub" "chat" t' = (Ret (Some (mk_OAuthClientRecord "https://hub" "chat" true scopes')), t') ∧
  ∀ x, x ∈ scopes' ↔ x ∈ ["read"; "openid"].
Proof.
  destruct (register_oauth_client (λ _, 0) "https://hub" "chat" "owner" ["read"; "openid"] "owner_operator" true no_clients) as [o t'] eqn:E.
  assert (o = Ret tt) as ->.
  { change o with (o, t').1. rewrite <-E. vm_compute. reflexivity. }
  destruct (registered_client_found (λ _, 0) "https://hub" "chat" "owner" ["read"; "openid"] "owner_operator" true no_clients t' E)
    as (scopes' & H1 & H2 & _).
  exists t', scopes'. split; [reflexivity|]. exact (conj H1 H2).
Defined.

Lemma disabled_client_gets_nothing_witness :
  disabled "https://hub" "chat" chat_disabled ∧
  ∀ t w'',
  @exchange_authorization_code _ _ (ControlLedgerOAuthAuthority unit (λ _, 0)) memory_store settings digest s256 encode credential family clock
    (resolve_outside (X:=unit) None) (exchange "A-credential")
    (mk_server (mk_authority chat_disabled tt) MemoryOAuthGrantStore.empty 0 0) ≠ (Ret t, w'').
Proof.
  assert (disabled "https://hub" "chat" chat_disabled) as Hd by (eexists; split; vm_compute; reflexivity). split; [exact Hd|].
  refine (proj1 (proj2 (proj2 (disabled_client_gets_nothing (λ _, 0) None settings digest s256 encode credential family clock []
    (mk_server (mk_authority chat_disabled tt) MemoryOAuthGrantStore.empty 0 0) (exchange "A-credential") Hd)))).
Defined.
