(* ===== verification/OAuthValidator.v ===== *)
(** * OAuthValidator: the resource server's check of a bearer token

    Models mcp/oauth.py: the policy on the claims of a verified access token and
    [OAuthBearerValidator], which adds the revocation authority, the state of
    the client and the audit.  The signature check is a parameter.  With the
    authorization server of [OAuth]: a token it issues is accepted by the
    resource it names, within its lifetime, and by no other. *)

From S2P Require Import Prelude Json OAuthStore OAuth OAuthSafety OAuthFlow.

Record AccessIdentity := mk_AccessIdentity {
  ai_subject : string; ai_client : string; ai_scopes : list string; ai_audience : string; ai_token : string; ai_expires : Z;
  ai_issuer : string; ai_issued : Z; ai_resource : string;
}.

Record RevocationKey := mk_RevocationKey {
  rk_issuer : string; rk_token : string; rk_client : string; rk_subject : string; rk_issued : Z;
}.

Record OAuthValidationPolicy := mk_policy {
  vp_issuer : string; vp_audience : string; vp_resource : string; vp_scopes : list string; vp_skew : Z; vp_max_lifetime : Z;
}.

(** [OAuthValidationPolicy.__post_init__] *)
Definition check_policy (p : OAuthValidationPolicy) : outcome unit :=
  throw_if ((vp_issuer p == "") || (vp_audience p == "") || (vp_resource p == "")) ValueError
    "OAuth issuer, audience and resource must be exact non-empty values" ;;
  throw_if (vp_scopes p == []) ValueError "OAuth allowed scopes must not be empty" ;;
  throw_if (existsb (λ s, negb (valid_scope s)) (vp_scopes p)) ValueError "OAuth allowed scopes contain an invalid value" ;;
  throw_if (negb ((0 <=? vp_skew p) && (vp_skew p <=? 300))) ValueError "OAuth clock skew must be between 0 and 300 seconds" ;;
  throw_if (negb ((1 <=? vp_max_lifetime p) && (vp_max_lifetime p <=? 86400))) ValueError
    "OAuth maximum token lifetime must be between 1 second and 1 day".

(** The claims of a token; a number is an integer. *)
Abbreviation claims := (list (string * json)).

(** [_required_string], [_numeric_date] *)
Definition required_string (c : claims) (name : string) : outcome string :=
  match assoc name c with
  | Some (JStr s) => throw_if ((s == "") || (2048 <? slen s)) TokenValidationError "invalid_token" ;; Ret s
  | _ => throw TokenValidationError "invalid_token"
  end.

Definition numeric_date (c : claims) (name : string) : outcome Z :=
  match assoc name c with Some (JInt n) => Ret n | _ => throw TokenValidationError "invalid_token" end.

(** [raw.split()] *)
Fixpoint split_words (s : string) : list string :=
  match s with
  | EmptyString => []
  | String c rest =>
      if is_space c then split_words rest
      else match rest with
           | String d _ =>
               if is_space d then String c "" :: split_words rest
               else match split_words rest with w :: ws => String c w :: ws | [] => [String c ""] end
           | EmptyString => [String c ""]
           end
  end.

(** [_scopes] *)
Definition claimed_scopes (c : claims) : outcome (list string) :=
  values ← match assoc "scope" c with
           | Some (JStr raw) => Ret (split_words raw)
           | Some (JArr l) => match mapM ControlLedgerOAuth.text_of l with
                              | Some values => Ret values
                              | None => throw TokenValidationError "invalid_token"
                              end
           | _ => throw TokenValidationError "invalid_token"
           end;
  throw_if ((values == []) || has_duplicates values || existsb (λ v, negb (valid_scope v)) values) TokenValidationError "invalid_token" ;;
  Ret values.

Definition invalid_token_if (b : bool) : outcome unit := throw_if b TokenValidationError "invalid_token".

Definition validate_verified_claims (c : claims) (policy : OAuthValidationPolicy) (required_scopes : list string)
    (requested_resource : option string) (now : Z) : outcome AccessIdentity :=
  throw_if (match requested_resource with Some r => r != vp_resource policy | None => false end) TokenValidationError "invalid_target" ;;
  invalid_token_if (assoc "iss" c != Some (JStr (vp_issuer policy))) ;;
  invalid_token_if (assoc "aud" c != Some (JStr (vp_audience policy))) ;;
  invalid_token_if (assoc "resource" c != Some (JStr (vp_resource policy))) ;;
  subject ← required_string c "sub";
  client_id ← required_string c "client_id";
  token_id ← required_string c "jti";
  issued_at ← numeric_date c "iat";
  not_before ← numeric_date c "nbf";
  expires_at ← numeric_date c "exp";
  let skew := vp_skew policy in
  invalid_token_if ((now + skew <? issued_at) || (now + skew <? not_before) || (expires_at <=? now - skew)) ;;
  invalid_token_if ((expires_at <? not_before) || (expires_at <? issued_at)) ;;
  invalid_token_if (vp_max_lifetime policy <? expires_at - issued_at) ;;
  granted ← claimed_scopes c;
  throw_if (negb (issubset granted (vp_scopes policy))) TokenValidationError "invalid_scope" ;;
  throw_if (negb (issubset required_scopes (vp_scopes policy))) TokenValidationError "invalid_scope" ;;
  throw_if (negb (issubset required_scopes granted)) TokenValidationError "insufficient_scope" ;;
  Ret (mk_AccessIdentity subject client_id granted (vp_audience policy) token_id expires_at (vp_issuer policy) issued_at (vp_resource policy)).

(** ** [OAuthBearerValidator] *)

(** What the validator asks of the control ledger. *)
Class ValidationAuthority (W : Type) := {
  is_revoked : RevocationKey → M W bool;
  client_record : string → string → M W (option OAuthClientRecord);
  record_oauth_audit : string → AccessIdentity → M W unit;
}.

Definition key_of (i : AccessIdentity) : RevocationKey :=
  mk_RevocationKey (ai_issuer i) (ai_token i) (ai_client i) (ai_subject i) (ai_issued i).

Section validator.
Context {W : Type} `{ValidationAuthority W}.
(** The check of the signature, which may fail, and the clock. *)
Context (decoder : string → M W json) (clock : M W Z).
(** [control_ledger is not None] *)
Context (ledger : bool).

Definition invalid_token {A} : M W A := raise TokenValidationError "invalid_token".

(** [except TokenValidationError: raise; except Exception: raise invalid_token] *)
Definition or_invalid {A} (m : M W A) : M W A :=
  try_except m (λ e, if exn_cls e == TokenValidationError then reraise e else invalid_token).

Definition audit (outcome : string) (identity : AccessIdentity) : M W unit :=
  if ledger then record_oauth_audit outcome identity else mret tt.

(** The client is enabled and has the scopes. *)
Definition client_denied (client : option OAuthClientRecord) (identity : AccessIdentity) : bool :=
  match client with
  | None => true
  | Some c => negb (oc_enabled c) || (oc_issuer c != ai_issuer identity) || (oc_client c != ai_client identity)
              || negb (issubset (ai_scopes identity) (oc_scopes c))
  end.

Definition bad_token_text (token : string) : bool :=
  (token == "") || (16384 <? slen token) || negb (string_forallb (λ c, negb (is_space c || (Ascii.nat_of_ascii c <? 33)%nat)) token).

Definition validate_token (policy : OAuthValidationPolicy) (token : string) (required_scopes : list string) (requested_resource : option string) :
    M W AccessIdentity :=
  raise_if (bad_token_text token) TokenValidationError "invalid_token" ;;
  decoded ← or_invalid (decoder token);
  match decoded with
  | JObj c =>
      now ← clock;
      identity ← lift (validate_verified_claims c policy required_scopes
        (Some (match requested_resource with Some r => if r == "" then vp_resource policy else r | None => vp_resource policy end)) now);
      revoked ← try_except (is_revoked (key_of identity)) (λ _, invalid_token);
      (if revoked : bool then audit "revoked_or_invalid" identity ;; invalid_token else mret tt) ;;
      (if ledger then
         or_invalid (
           client ← client_record (ai_issuer identity) (ai_client identity);
           (if client_denied client identity then audit "client_denied" identity ;; invalid_token else mret tt) ;;
           audit "accepted" identity)
       else mret tt) ;;
      mret identity
  | _ => invalid_token
  end.

Definition validate_authorization_header (policy : OAuthValidationPolicy) (header : string) (required_scopes : list string)
    (requested_resource : option string) : M W AccessIdentity :=
  match split_spaces header with
  | [scheme; token] =>
      if (lower scheme != "bearer") || (token == "") then invalid_token
      else validate_token policy token required_scopes requested_resource
  | _ => invalid_token
  end.
End validator.

(** ** The scopes of a token *)

Lemma scope_char_not_space c : scope_char c = true → is_space c = false.
Proof. destruct c as [[] [] [] [] [] [] [] []]; by vm_compute. Qed.

Lemma valid_scope_chars s : valid_scope s = true → s ≠ "" ∧ string_forallb (λ c, negb (is_space c)) s = true.
Proof.
  unfold valid_scope. intros [Hn Hs]%andb_true_iff. b2p. split; [done|]. clear Hn. induction s as [|c s IH]; [done|]. cbn in *. b2p.
  destruct Hs as [Hc Hs]. split; [by apply scope_char_not_space|auto].
Qed.

(** A word without blanks, at the end and before a blank. *)
Lemma split_one w : w ≠ "" → string_forallb (λ c, negb (is_space c)) w = true → split_words w = [w].
Proof.
  induction w as [|c w IH]; [done|]. intros _ Hw. cbn in Hw. b2p. destruct Hw as [Hc Hw]. cbn [split_words]. rewrite Hc.
  destruct w as [|d w]; [done|]. assert (is_space d = false) as -> by (cbn in Hw; b2p; by destruct Hw). by rewrite IH.
Qed.

Lemma split_word w rest : w ≠ "" → string_forallb (λ c, negb (is_space c)) w = true →
  split_words (w +:+ String " " rest) = w :: split_words rest.
Proof.
  induction w as [|c w IH]; [done|]. intros _ Hw. cbn in Hw. b2p. destruct Hw as [Hc Hw].
  change (String c w +:+ String " " rest) with (String c (w +:+ String " " rest)). cbn [split_words]. rewrite Hc.
  destruct w as [|d w]; [done|]. assert (is_space d = false) as Hd by (cbn in Hw; b2p; by destruct Hw).
  change (String d w +:+ String " " rest) with (String d (w +:+ String " " rest)) in *. cbn beta iota. rewrite Hd. by rewrite IH.
Qed.

(** The scopes joined into the claim are read back. *)
Lemma split_join scopes : Forall (λ s, valid_scope s = true) scopes → split_words (join_scopes scopes) = scopes.
Proof.
  unfold join_scopes. induction 1 as [|s scopes Hs Hall IH]; [done|]. apply valid_scope_chars in Hs as [Hn Hc].
  destruct scopes as [|s' scopes]; [by apply split_one|]. cbn [String.concat] in *.
  change (s +:+ " " +:+ ?r) with (s +:+ String " " r). by rewrite split_word, IH.
Qed.

Lemma parse_scope_inv value scopes : parse_scope value = Ret scopes →
  scopes ≠ [] ∧ NoDup scopes ∧ Forall (λ s, valid_scope s = true) scopes.
Proof.
  unfold parse_scope, throw_if, mbind, outcome_bind. destruct (_ || existsb _ _) eqn:E; [done|]. destruct (has_duplicates _) eqn:Ed; [done|].
  intros [= <-]. apply orb_false_iff in E as [_ E]. unfold has_duplicates in Ed. b2p. split_and!; [|done|].
  - destruct value as [|c v]; [done|]. cbn [split_spaces]. destruct (bool_decide _); [done|]. by destruct (split_spaces v).
  - apply Forall_forall. intros s Hs. destruct (valid_scope s) eqn:Ev; [done|]. exfalso.
    assert (existsb (λ item, (item == "") || negb (valid_scope item)) (split_spaces value) = true) as Hx; [|congruence].
    apply existsb_exists. exists s. split; [done|]. rewrite Ev. by rewrite orb_true_r.
Qed.

Lemma issubset_spec a b : issubset a b = true ↔ a ⊆ b.
Proof. unfold issubset. rewrite forallb_forall. split; intros Hs x Hx; [apply mem_true, Hs|apply mem_true, Hs]; by apply list_elem_of_In. Qed.

Lemma required_string_ok c name s : assoc name c = Some (JStr s) → s ≠ "" → slen s ≤ 2048 → required_string c name = Ret s.
Proof.
  intros E Hn Hl. unfold required_string. rewrite E, bool_decide_eq_false_2 by done. by rewrite (proj2 (Z.ltb_ge _ _) Hl).
Qed.

(** ** Tokens of the authorization server *)

Section issued.
Context (settings : AuthorizationServerSettings) (policy : OAuthValidationPolicy).
(** The policy of the resource: its issuer, audience and name. *)
Definition policy_for (resource : string) : Prop :=
  vp_issuer policy = st_issuer settings ∧ vp_resource policy = resource ∧ audience_for_resource settings resource = Ret (vp_audience policy).

Lemma policy_for_claims resource : policy_for resource → check_policy policy = Ret tt → vp_audience policy ≠ "" ∧ resource ≠ "".
Proof.
  intros (_ & Hr & _). unfold check_policy, throw_if, mbind, outcome_bind. rewrite Hr. destruct (vp_issuer policy == ""); [done|].
  destruct (vp_audience policy == "") eqn:E1; [done|]. destruct (resource == "") eqn:E2; [done|]. b2p. done.
Qed.

(** A token the authorization server issues for a resource is accepted by
    that resource exactly from its issue less the clock skew to its expiry plus
    the skew, with the subject, client, scopes and token id it was issued for;
    outside that window it is an invalid token. *)
Lemma issued_token_window subject client_id text scopes token_id issued resource required_scopes now :
  policy_for resource → check_policy policy = Ret tt → parse_scope text = Ret scopes →
  Forall (λ s, s ≠ "" ∧ slen s ≤ 2048) [subject; client_id; token_id] →
  issubset scopes (vp_scopes policy) = true → issubset required_scopes scopes = true →
  0 ≤ st_access_ttl settings ≤ vp_max_lifetime policy →
  validate_verified_claims (access_claims settings subject client_id scopes token_id issued (vp_audience policy) resource) policy required_scopes
    (Some resource) now =
  if (issued - vp_skew policy <=? now) && (now <? issued + st_access_ttl settings + vp_skew policy)
  then Ret (mk_AccessIdentity subject client_id scopes (vp_audience policy) token_id (issued + st_access_ttl settings) (st_issuer settings) issued
              resource)
  else Exc (Exn TokenValidationError "invalid_token").
Proof.
  intros Hfor Hp Hs Hall Hsub Hreq Httl. pose proof Hfor as (Hi & Hr & _). rewrite !list.Forall_cons in Hall. destruct Hall as ([? ?] & [? ?] & [? ?] & _).
  apply parse_scope_inv in Hs as (Hne & Hdup & Hvalid).
  destruct (policy_for_claims resource Hfor Hp) as [Ha Hres].
  set (c := access_claims _ _ _ _ _ _ _ _).
  assert (assoc "aud" c = Some (JStr (vp_audience policy))) as Eaud
    by (change (Some (JStr (if vp_audience policy == "" then st_audience settings else vp_audience policy)) = Some (JStr (vp_audience policy)));
        by rewrite bool_decide_eq_false_2).
  assert (assoc "resource" c = Some (JStr resource)) as Eres
    by (change (Some (JStr (if resource == "" then st_resource settings else resource)) = Some (JStr resource)); by rewrite bool_decide_eq_false_2).
  unfold validate_verified_claims. rewrite Hr, Eaud, Eres, Hi. change (assoc "iss" c) with (Some (JStr (st_issuer settings))).
  rewrite !bool_decide_eq_true_2 by done.
  rewrite (required_string_ok c "sub" subject), (required_string_ok c "client_id" client_id), (required_string_ok c "jti" token_id) by done.
  change (numeric_date c "iat") with (Ret issued). change (numeric_date c "nbf") with (Ret issued).
  change (numeric_date c "exp") with (Ret (issued + st_access_ttl settings)).
  assert (claimed_scopes c = Ret scopes) as ->.
  { unfold claimed_scopes. assert (assoc "scope" c = Some (JStr (join_scopes scopes))) as -> by reflexivity. cbn beta iota.
    rewrite split_join by done. unfold has_duplicates, throw_if, mbind, outcome_bind.
    rewrite bool_decide_eq_false_2, bool_decide_eq_true_2 by done. cbn.
    destruct (existsb _ scopes) eqn:E; [|done]. apply existsb_exists in E as (s & Hin & Hv). rewrite Forall_forall in Hvalid.
    by rewrite Hvalid in Hv. }
  unfold invalid_token_if, throw_if, mbind, outcome_bind. cbn beta iota.
  rewrite Hsub, Hreq. assert (issubset required_scopes (vp_scopes policy) = true) as ->.
  { apply issubset_spec in Hsub, Hreq. apply issubset_spec. intros x Hx. auto. }
  cbn [negb].
  assert ((issued + st_access_ttl settings <? issued) = false) as -> by (apply Z.ltb_ge; lia).
  assert ((vp_max_lifetime policy <? issued + st_access_ttl settings - issued) = false) as -> by (apply Z.ltb_ge; lia).
  cbn [orb]. destruct (Z.ltb_spec (now + vp_skew policy) issued), (Z.leb_spec (issued + st_access_ttl settings) (now - vp_skew policy)),
    (Z.leb_spec (issued - vp_skew policy) now), (Z.ltb_spec now (issued + st_access_ttl settings + vp_skew policy)); try lia; reflexivity.
Qed.

(** A claim that is not the policy's. *)
Lemma validate_inv_target c required_scopes requested now i :
  validate_verified_claims c policy required_scopes requested now = Ret i →
  assoc "iss" c = Some (JStr (vp_issuer policy)) ∧ assoc "aud" c = Some (JStr (vp_audience policy)) ∧
  assoc "resource" c = Some (JStr (vp_resource policy)).
Proof.
  unfold validate_verified_claims, invalid_token_if, throw_if, mbind, outcome_bind.
  destruct (match requested with Some _ => _ | None => _ end); [done|]. cbn beta iota.
  destruct (assoc "iss" c != _) eqn:E1; [done|]. destruct (assoc "aud" c != _) eqn:E2; [done|]. destruct (assoc "resource" c != _) eqn:E3; [done|].
  b2p. done.
Qed.
End issued.

(** C30: A token issued for a resource is accepted there and nowhere else: it is
    accepted by its resource exactly from its issue less the clock skew to its
    expiry plus the skew, with the subject, client, scopes and token id it was
    issued for, and is an invalid token outside that window; a policy with
    another issuer, audience or resource never accepts it. *)
Theorem issued_token_accepted_where_and_when settings policy subject client_id text scopes token_id issued resource required_scopes :
  policy_for settings policy resource → check_policy policy = Ret tt → parse_scope text = Ret scopes →
  Forall (λ s, s ≠ "" ∧ slen s ≤ 2048) [subject; client_id; token_id] →
  issubset scopes (vp_scopes policy) = true → issubset required_scopes scopes = true →
  0 ≤ st_access_ttl settings ≤ vp_max_lifetime policy →
  let c := access_claims settings subject client_id scopes token_id issued (vp_audience policy) resource in
  (∀ now, validate_verified_claims c policy required_scopes (Some resource) now =
     if (issued - vp_skew policy <=? now) && (now <? issued + st_access_ttl settings + vp_skew policy)
     then Ret (mk_AccessIdentity subject client_id scopes (vp_audience policy) token_id (issued + st_access_ttl settings) (st_issuer settings)
                 issued resource)
     else Exc (Exn TokenValidationError "invalid_token")) ∧
  (∀ policy' required' requested now i, validate_verified_claims c policy' required' requested now = Ret i →
     vp_issuer policy' = vp_issuer policy ∧ vp_audience policy' = vp_audience policy ∧ vp_resource policy' = vp_resource policy).
Proof.
  intros Hfor Hp Hs Hall Hsub Hreq Httl. cbv zeta. split; [intros now; by apply (issued_token_window settings policy _ _ text)|].
  intros policy' required' requested now i (H1 & H2 & H3)%validate_inv_target. destruct (policy_for_claims settings policy resource Hfor Hp) as [Ha Hr].
  destruct Hfor as (Hi & Hres & _). injection H1 as H1. injection H2 as H2. injection H3 as H3.
  rewrite (bool_decide_eq_false_2 _ Ha) in H2. rewrite (bool_decide_eq_false_2 _ Hr) in H3. split_and!; congruence.
Qed.

(** ** From the owner's consent to the resource *)

Section served.
Context {C : Type} `{OAuthControlLedger C}.
Context (settings : AuthorizationServerSettings) (policy : OAuthValidationPolicy).
Context (digest s256 : string → string) (encode : string → list (string * json) → string)
  (credential family : nat → string) (clock : nat → Z) (resolve : option (string → M C StaticClient)) (N : nat).
Hypothesis resolver_names : ∀ f c s x s', resolve = Some f → f c s = (Ret x, s') → sc_id x = c.
Hypothesis credentials_bounded : ∀ n, bounded_credential (credential n) = true.
Hypothesis families_bounded : ∀ n, family n ≠ "" ∧ slen (family n) ≤ 2048.
Hypothesis digest_length : ∀ s, slen (digest s) = 64.
Hypothesis credential_inj : ∀ n m, (n < N)%nat → (m < N)%nat → digest (credential n) = digest (credential m) → n = m.
Hypothesis family_inj : ∀ n m, (n < N)%nat → (m < N)%nat → family n = family m → n = m.
Hypothesis policy_ok : check_policy policy = Ret tt.
Hypothesis lifetimes_ok : lifetimes_valid settings = true.
Hypothesis ttl_ok : st_access_ttl settings ≤ vp_max_lifetime policy.

(** C28: A client the owner authorized is served.  After any execution and an
    authorization that returned a code, the client that is still enabled with
    the scopes of its request and presents the code with the verifier of its
    challenge before it expires is answered with tokens, and the resource
    accepts the claims of its access token, from issue to expiry, as the owner's
    with exactly the scopes of the authorization. *)
Theorem authorized_client_is_served w0 cs ps owner code (w1 : server C memory) ps' client w2 scopes :
  let w := oauth_run settings digest s256 encode credential family clock resolve cs w0 in
  sv_store w0 = MemoryOAuthGrantStore.empty → authorize settings digest credential clock resolve ps owner w = (Ret code, w1) →
  (S (sv_random w1) < N)%nat →
  Forall (λ name, required ps' name = required ps name) ["client_id"; "redirect_uri"; "resource"] → required ps' "code" = code →
  parameter ps' "audience" = None → validate_pkce_value (required ps' "code_verifier") = true →
  s256 (required ps' "code_verifier") = required ps "code_challenge" →
  parse_scope (required ps "scope") = Ret scopes →
  enabled_client settings resolve (required ps "client_id") w1 = (Ret client, w2) → scopes_allowed scopes client = true →
  clock (sv_clock w1) < clock (sv_clock w) + st_code_ttl settings →
  policy_for settings policy (required ps "resource") → issubset scopes (vp_scopes policy) = true →
  Forall (λ s, s ≠ "" ∧ slen s ≤ 2048) [ow_subject owner; required ps "client_id"] →
  let issued := clock (sv_clock w1) in
  ∃ t w' c jti, exchange_authorization_code settings digest s256 encode credential family clock resolve ps' w1 = (Ret t, w') ∧
    tr_access_token t = encode "at+jwt" c ∧
    ∀ now required_scopes, issued ≤ now < issued + st_access_ttl settings → issubset required_scopes scopes = true →
      validate_verified_claims c policy required_scopes (Some (required ps "resource")) now
      = Ret (mk_AccessIdentity (ow_subject owner) (required ps "client_id") scopes (vp_audience policy) jti (issued + st_access_ttl settings)
               (st_issuer settings) issued (required ps "resource")).
Proof.
  cbv zeta. intros H0 Ha HN Hsame Hcode Haud Hv Hs Hsc He Hal Hx Hfor Hsub Hall.
  destruct (issued_code_is_redeemable settings digest s256 encode credential family clock resolve resolver_names credentials_bounded N
    digest_length credential_inj family_inj w0 cs ps owner code w1 ps' client w2 scopes H0 Ha HN Hsame Hcode Haud Hv Hs Hsc He Hal Hx)
    as (t & w' & jti & audience & Ex & Hres & Et).
  pose proof Hfor as (_ & _ & Hp). rewrite Hres in Hp. injection Hp as ->.
  eexists t, w', _, (family jti). split; [exact Ex|]. split; [exact Et|]. intros now required_scopes Hnow Hreq.
  rewrite !list.Forall_cons in Hall. destruct Hall as (Hs1 & Hs2 & _).
  assert (Forall (λ s, s ≠ "" ∧ slen s ≤ 2048) [ow_subject owner; required ps "client_id"; family jti]) as Htexts
    by (repeat apply list.Forall_cons_2; [done|done|apply families_bounded|constructor]).
  assert (30 ≤ st_access_ttl settings) as Httl by (revert lifetimes_ok; unfold lifetimes_valid; rewrite !andb_true_iff, !Z.leb_le; tauto).
  rewrite (issued_token_window settings policy _ _ (required ps "scope") scopes) by (done || lia).
  assert (0 ≤ vp_skew policy) as Hskew.
  { revert policy_ok. unfold check_policy, throw_if, mbind, outcome_bind. destruct (_ || _); [done|]. destruct (_ == _); [done|].
    destruct (existsb _ _); [done|]. destruct (Z.leb_spec 0 (vp_skew policy)); [done|]. done. }
  rewrite (proj2 (Z.leb_le _ _)), (proj2 (Z.ltb_lt _ _)) by lia. done.
Qed.
End served.

(** ** What an accepted bearer token went through *)

Section bearer.
Context {W : Type} `{ValidationAuthority W} (decoder : string → M W json) (clock : M W Z).

(** C29: The validator fails closed.  A token that is accepted was verified by
    the decoder, its claims passed the policy at the time of the check, the
    revocation authority answered that it is not revoked, the control ledger has
    its client, enabled, with all its scopes, and the acceptance was recorded as
    the last thing; a failure of any of these is a refusal. *)
Theorem accepted_token_passed_every_check policy header required_scopes requested w identity w' :
  validate_authorization_header decoder clock true policy header required_scopes requested w = (Ret identity, w') →
  ∃ token c w1 now w2 w3 client w4,
    (∃ scheme, split_spaces header = [scheme; token] ∧ lower scheme = "bearer") ∧ decoder token w = (Ret (JObj c), w1) ∧ clock w1 = (Ret now, w2) ∧
    validate_verified_claims c policy required_scopes
      (Some (match requested with Some r => if r == "" then vp_resource policy else r | None => vp_resource policy end)) now = Ret identity ∧
    is_revoked (key_of identity) w2 = (Ret false, w3) ∧
    client_record (ai_issuer identity) (ai_client identity) w3 = (Ret (Some client), w4) ∧
    oc_enabled client = true ∧ oc_issuer client = ai_issuer identity ∧ oc_client client = ai_client identity ∧
    issubset (ai_scopes identity) (oc_scopes client) = true ∧
    record_oauth_audit "accepted" identity w4 = (Ret tt, w').
Proof.
  unfold validate_authorization_header. intros Hh. destruct (split_spaces header) as [|scheme [|token [|? ?]]]; try done.
  destruct ((lower scheme != "bearer") || (token == "")) eqn:Es; [done|]. b2p. destruct Es as [Es _]. exists token. revert Hh.
  intros (u & w0 & [_ ->]%raise_if_inv & (j & w1 & Hd & Hj)%bind_ret_inv)%bind_ret_inv.
  assert (∀ A (m : M W A) s a s', or_invalid m s = (Ret a, s') → m s = (Ret a, s')) as Hor.
  { intros A m s a s'. unfold or_invalid, try_except. destruct (m s) as [[x|e] s1]; [done|]. destruct (_ == _); unfold reraise, invalid_token, raise; congruence. }
  apply Hor in Hd. destruct j as [| | | | |c]; try done.
  apply bind_ret_inv in Hj as (now & w2 & Hc & (i & w3 & [Hv ->]%lift_inv & (revoked & w4 & Hr & (u2 & w5 & Hrv & Hrest)%bind_ret_inv)%bind_ret_inv)%bind_ret_inv).
  assert (is_revoked (key_of i) w2 = (Ret revoked, w4)) as Hr'.
  { revert Hr. unfold try_except. destruct (is_revoked (key_of i) w2) as [[x|e] s1]; [done|]. unfold invalid_token, raise. congruence. }
  destruct revoked.
  { apply bind_ret_inv in Hrv as (? & ? & _ & Hx). unfold invalid_token, raise in Hx. congruence. }
  injection Hrv as _ <-. apply bind_ret_inv in Hrest as (u3 & w6 & Hl%Hor & Hm). injection Hm as -> ->.
  apply bind_ret_inv in Hl as (client & w7 & Hcl & (u4 & w8 & Hden & Haud)%bind_ret_inv).
  destruct (client_denied client identity) eqn:Eden.
  { apply bind_ret_inv in Hden as (? & ? & _ & Hx). unfold invalid_token, raise in Hx. congruence. }
  injection Hden as _ <-. destruct client as [cl|]; [|done]. cbn in Eden. b2p. destruct Eden as [[[? ?] ?] ?].
  destruct u3. exists c, w1, now, w2, w4, cl, w7. split_and!; try done. by exists scheme.
Qed.
End bearer.

(** ** An example *)

Import OAuthSample.

Lemma sample_resolver_names (f : string → M unit StaticClient) c s x s' : resolve = Some f → f c s = (Ret x, s') → sc_id x = c.
Proof. done. Qed.

Lemma sample_bounded n : bounded_credential (credential n) = true.
Proof.
  assert (forallb (λ i, bounded_credential (String (Ascii.ascii_of_nat (65 + i)) "-credential")) (seq 0 26) = true) as Hall by (vm_compute; reflexivity).
  rewrite forallb_forall in Hall. apply (Hall (n mod 26)%nat), in_seq. pose proof (Nat.mod_upper_bound n 26). lia.
Qed.

Lemma sample_families n : family n ≠ "" ∧ slen (family n) ≤ 2048.
Proof. split; [done|]. unfold slen. cbn. lia. Qed.

Definition sample_policy : OAuthValidationPolicy := mk_policy "https://hub" "hub" "https://hub/mcp" ["read"; "openid"] 30 3600.

Lemma issued_token_accepted_where_and_when_witness :
  validate_verified_claims (access_claims settings "owner" "chat" ["read"; "openid"] "t1" 1000 "hub" "https://hub/mcp") sample_policy ["read"]
    (Some "https://hub/mcp") 1329
  = Ret (mk_AccessIdentity "owner" "chat" ["read"; "openid"] "hub" "t1" 1300 "https://hub" 1000 "https://hub/mcp").
Proof.
  refine (proj1 (issued_token_accepted_where_and_when settings sample_policy "owner" "chat" "read openid" ["read"; "openid"] "t1" 1000
    "https://hub/mcp" ["read"] _ _ _ _ _ _ _) 1329).
  - split; [reflexivity|]. split; [reflexivity|]. vm_compute. reflexivity.
  - vm_compute. reflexivity.
  - vm_compute. reflexivity.
  - repeat (apply list.Forall_cons_2; [split; [discriminate|vm_compute; discriminate]|]). constructor.
  - vm_compute. reflexivity.
  - vm_compute. reflexivity.
  - split; vm_compute; discriminate.
Defined.

Lemma authorized_client_is_served_witness : ∃ t w' c jti,
  exchange_authorization_code settings digest s256 encode credential family clock resolve (exchange "A-credential") authorized = (Ret t, w') ∧
  validate_verified_claims c sample_policy ["read"] (Some "https://hub/mcp") 1200
  = Ret (mk_AccessIdentity "owner" "chat" ["read"; "openid"] "hub" jti 1301 "https://hub" 1001 "https://hub/mcp").
Proof.
  destruct (authorized_client_is_served settings sample_policy digest s256 encode credential family clock resolve N sample_resolver_names
    sample_bounded sample_families digest_length credential_inj family_inj ltac:(vm_compute; reflexivity) ltac:(vm_compute; reflexivity)
    ltac:(vm_compute; discriminate) start [] authorization owner "A-credential" authorized (exchange "A-credential")
    (mk_StaticClient "chat" ["https://chat/callback"] ["read"; "openid"], mk_OAuthClientRecord "https://hub" "chat" true ["read"; "openid"])
    authorized ["read"; "openid"]) as (t & w' & c & jti & H1 & _ & H3).
  - reflexivity.
  - vm_compute. reflexivity.
  - apply Nat.ltb_lt. vm_compute. reflexivity.
  - repeat constructor.
  - reflexivity.
  - reflexivity.
  - vm_compute. reflexivity.
  - reflexivity.
  - vm_compute. reflexivity.
  - vm_compute. reflexivity.
  - vm_compute. reflexivity.
  - vm_compute. reflexivity.
  - split; [reflexivity|]. split; [reflexivity|]. vm_compute. reflexivity.
  - vm_compute. reflexivity.
  - repeat (apply list.Forall_cons_2; [split; [discriminate|vm_compute; discriminate]|]). constructor.
  - exists t, w', c, jti. split; [exact H1|]. apply (H3 1200 ["read"]).
    + split; [vm_compute; discriminate|vm_compute; reflexivity].
    + vm_compute. reflexivity.
Defined.

(** An authority that keeps the audit only. *)
#[local] Instance audit_only : ValidationAuthority (list string) := {|
  is_revoked _ := mret false;
  client_record issuer client_id := mret (Some (mk_OAuthClientRecord issuer client_id true ["read"; "openid"]));
  record_oauth_audit outcome _ := modify (λ log, log ++ [outcome])%list;
|}.

Definition sample_decoder (token : string) : M (list string) json :=
  mret (JObj (access_claims settings "owner" "chat" ["read"] "t1" 1000 "hub" "https://hub/mcp")).

Lemma accepted_token_passed_every_check_witness : ∃ identity,
  validate_authorization_header sample_decoder (mret 1100) true sample_policy "Bearer token" ["read"] None [] = (Ret identity, ["accepted"]) ∧
  ∃ w2 w3, is_revoked (W:=list string) (key_of identity) w2 = (Ret false, w3).
Proof.
  destruct (validate_authorization_header sample_decoder (mret 1100) true sample_policy "Bearer token" ["read"] None []) as [o w'] eqn:E.
  assert (w' = ["accepted"]) as -> by (change w' with (o, w').2; rewrite <-E; vm_compute; reflexivity).
  destruct o as [identity|e]; [|exfalso; revert E; vm_compute; discriminate].
  destruct (accepted_token_passed_every_check sample_decoder (mret 1100) sample_policy "Bearer token" ["read"] None [] identity ["accepted"] E)
    as (token & c & w1 & now & w2 & w3 & client & w4 & _ & H1 & H2 & H3 & H4 & _).
  exists identity. split; [reflexivity|]. exists w2, w3. exact H4.
Defined.
