(* ===== verification/UploadLedger.v ===== *)
(** * UploadLedger: the ledger of brokered checkpoint uploads

    Models control_plane/checkpoint_upload_ledger.py ([CheckpointUploadLedger])
    on the tables of sql/025, 026, 030, 031 and 032 beside the control ledger's:
    the publication of a checkpoint, one claim per file, the append-only events,
    and the bounded attempts at verifying it.  A method gets the reading of the
    clock; timestamp columns hold instants and compare as texts. *)

From S2P Require Import Prelude Time Json LedgerState.

(** ** Rows *)

(** The columns of a publication that a replay compares. *)
Record publication_identity := mk_publication_identity {
  pi_operation : string; pi_run : string; pi_attempt : string; pi_master : string; pi_service : string; pi_run_ref : string;
  pi_epoch : Z; pi_dataset : string; pi_manifest : string; pi_generation : Z; pi_files : Z; pi_bytes : Z; pi_authority : string;
  pi_scenario : option string; pi_previous : option string;
}.

Record publication_row := mk_publication {
  pb_id : string; pb_identity : publication_identity; pb_state : string; pb_version : option string; pb_provider_version : option Z;
  pb_finalize_attempts : Z; pb_verifier_run : option string; pb_receipt : option string; pb_evidence : option string;
  pb_failure : option string; pb_revision : option string; pb_verifier_attempts : Z; pb_recovery_attempts : Z;
  pb_created_at : Z; pb_updated_at : Z;
}.

(** The columns of a claim that a replay compares. *)
Record claim_identity := mk_claim_identity {
  ci_checkpoint : string; ci_operation : string; ci_epoch : Z; ci_file : string; ci_length : Z; ci_type : string;
  ci_content : string; ci_manifest : string; ci_intent : string; ci_expires : Z;
}.

Record claim_row := mk_claim {
  cm_id : string; cm_identity : claim_identity; cm_state : string; cm_token : option string; cm_url : option string;
  cm_completed_at : option Z; cm_created_at : Z; cm_updated_at : Z;
}.

Record upload_event_row := mk_upload_event {
  ue_checkpoint : string; ue_claim : option string; ue_type : string; ue_evidence : string; ue_at : Z;
}.

(** [checkpoint_verifier_extended_recovery_attempts] *)
Record extended_row := mk_extended {
  xr_checkpoint : string; xr_revision : string; xr_sequence : Z; xr_failure : string; xr_at : Z;
}.

#[global] Instance publication_identity_eq_dec : EqDecision publication_identity.
Proof. solve_decision. Defined.
#[global] Instance claim_identity_eq_dec : EqDecision claim_identity.
Proof. solve_decision. Defined.

(** The control ledger with the tables of the uploads. *)
Record uploads := mk_uploads {
  up_ledger : ledger; up_publications : list publication_row; up_claims : list claim_row; up_events : list upload_event_row;
  up_extended : list extended_row;
}.

(** ** Columns *)

Definition pb_set_state (s : string) (now : Z) (p : publication_row) : publication_row :=
  mk_publication (pb_id p) (pb_identity p) s (pb_version p) (pb_provider_version p) (pb_finalize_attempts p) (pb_verifier_run p)
    (pb_receipt p) (pb_evidence p) (pb_failure p) (pb_revision p) (pb_verifier_attempts p) (pb_recovery_attempts p) (pb_created_at p) now.
Definition pb_set_failure (f : option string) (p : publication_row) : publication_row :=
  mk_publication (pb_id p) (pb_identity p) (pb_state p) (pb_version p) (pb_provider_version p) (pb_finalize_attempts p) (pb_verifier_run p)
    (pb_receipt p) (pb_evidence p) f (pb_revision p) (pb_verifier_attempts p) (pb_recovery_attempts p) (pb_created_at p) (pb_updated_at p).
Definition pb_set_version (v : option string) (p : publication_row) : publication_row :=
  mk_publication (pb_id p) (pb_identity p) (pb_state p) v (pb_provider_version p) (pb_finalize_attempts p) (pb_verifier_run p)
    (pb_receipt p) (pb_evidence p) (pb_failure p) (pb_revision p) (pb_verifier_attempts p) (pb_recovery_attempts p) (pb_created_at p)
    (pb_updated_at p).
Definition pb_set_provider_version (v : Z) (p : publication_row) : publication_row :=
  mk_publication (pb_id p) (pb_identity p) (pb_state p) (pb_version p) (Some v) (pb_finalize_attempts p) (pb_verifier_run p)
    (pb_receipt p) (pb_evidence p) (pb_failure p) (pb_revision p) (pb_verifier_attempts p) (pb_recovery_attempts p) (pb_created_at p)
    (pb_updated_at p).
Definition pb_count_finalize (p : publication_row) : publication_row :=
  mk_publication (pb_id p) (pb_identity p) (pb_state p) (pb_version p) (pb_provider_version p) (pb_finalize_attempts p + 1) (pb_verifier_run p)
    (pb_receipt p) (pb_evidence p) (pb_failure p) (pb_revision p) (pb_verifier_attempts p) (pb_recovery_attempts p) (pb_created_at p)
    (pb_updated_at p).
(** The verifier's run, receipt and evidence. *)
Definition pb_set_receipt (run receipt evidence : option string) (p : publication_row) : publication_row :=
  mk_publication (pb_id p) (pb_identity p) (pb_state p) (pb_version p) (pb_provider_version p) (pb_finalize_attempts p) run
    receipt evidence (pb_failure p) (pb_revision p) (pb_verifier_attempts p) (pb_recovery_attempts p) (pb_created_at p) (pb_updated_at p).
(** The verifier's revision and the counts of attempts. *)
Definition pb_set_verifier (revision : string) (attempts recovery : Z) (p : publication_row) : publication_row :=
  mk_publication (pb_id p) (pb_identity p) (pb_state p) (pb_version p) (pb_provider_version p) (pb_finalize_attempts p) (pb_verifier_run p)
    (pb_receipt p) (pb_evidence p) (pb_failure p) (Some revision) attempts recovery (pb_created_at p) (pb_updated_at p).

Definition cm_set_state (s : string) (now : Z) (c : claim_row) : claim_row :=
  mk_claim (cm_id c) (cm_identity c) s (cm_token c) (cm_url c) (cm_completed_at c) (cm_created_at c) now.
Definition cm_set_sealed (token url : option string) (c : claim_row) : claim_row :=
  mk_claim (cm_id c) (cm_identity c) (cm_state c) token url (cm_completed_at c) (cm_created_at c) (cm_updated_at c).
Definition cm_set_completed (now : Z) (c : claim_row) : claim_row :=
  mk_claim (cm_id c) (cm_identity c) (cm_state c) (cm_token c) (cm_url c) (Some now) (cm_created_at c) (cm_updated_at c).

Definition cc_reopen (c : candidate_row) : candidate_row :=
  mk_candidate (cc_id c) (cc_service c) (cc_operation c) (cc_dataset c) (cc_version c) (cc_manifest_sha256 c) (cc_source c) (cc_generation c)
    (cc_master c) (cc_epoch c) "UPLOADED" None (cc_created_at c) (cc_verified_at c) (cc_manifest c) (cc_package c).

Definition set_publications (x : list publication_row) (u : uploads) : uploads :=
  mk_uploads (up_ledger u) x (up_claims u) (up_events u) (up_extended u).
Definition set_claims (x : list claim_row) (u : uploads) : uploads :=
  mk_uploads (up_ledger u) (up_publications u) x (up_events u) (up_extended u).

(** ** Statements *)

Definition PUBLICATION_STATES : list string :=
  ["PREPARING"; "UPLOADING"; "READY_TO_FINALIZE"; "FINALIZING"; "DATASET_RESOLVED"; "VERIFYING"; "VERIFIED"; "PROMOTED"; "FAILED"; "QUARANTINED"].

Definition EVENT_TYPES : list string :=
  ["publication.created"; "blob.prepare.started"; "blob.prepare.claimed"; "blob.prepare.ready"; "blob.prepare.ambiguous"; "blob.upload.completed";
   "blob.upload.conflict"; "dataset.finalize.started"; "dataset.version.resolved"; "verifier.started"; "verifier.passed"; "publication.promoted";
   "publication.failed"; "publication.quarantined"].

Definition length_64 (o : option string) : bool := match o with Some s => slen s =? 64 | None => true end.

(** The CHECK constraints on a publication's columns. *)
Definition publication_check (p : publication_row) : bool :=
  let i := pb_identity p in
  (0 <? pi_epoch i) && (slen (pi_manifest i) =? 64) && (0 <=? pi_generation i) && (0 <? pi_files i) && (0 <? pi_bytes i)
  && mem (pb_state p) PUBLICATION_STATES && match pb_provider_version p with Some v => 0 <? v | None => true end
  && (0 <=? pb_finalize_attempts p) && (pb_finalize_attempts p <=? 3) && length_64 (pb_receipt p)
  && mem (pi_authority i) ["master"; "acceptance"] && match pi_scenario i with Some s => mem s ["FM05"; "FM14"; "FM15"] | None => true end
  && length_64 (pb_revision p) && (0 <=? pb_verifier_attempts p) && (pb_verifier_attempts p <=? 3)
  && (0 <=? pb_recovery_attempts p) && (pb_recovery_attempts p <=? 2).

Definition claim_check (c : claim_row) : bool :=
  let i := cm_identity c in
  (0 <? ci_epoch i) && (0 <? ci_length i) && (slen (ci_content i) =? 64) && (slen (ci_manifest i) =? 64) && (slen (ci_intent i) =? 64).

Definition constraint_failed {A} : M uploads A := raise IntegrityError "constraint failed".

Definition find_publication (checkpoint_id : string) (u : uploads) : option publication_row :=
  List.find (λ p, pb_id p == checkpoint_id) (up_publications u).

(** [UPDATE checkpoint_blob_publications SET f WHERE p], with the row count. *)
Definition update_publications (p : publication_row → bool) (f : publication_row → publication_row) : M uploads nat := λ u,
  if forallb (λ r, negb (p r) || publication_check (f r)) (up_publications u)
  then (Ret (length (List.filter p (up_publications u))), set_publications (map (λ r, if p r then f r else r) (up_publications u)) u)
  else (Exc (Exn IntegrityError "constraint failed"), u).

Definition update_claims (p : claim_row → bool) (f : claim_row → claim_row) : M uploads nat := λ u,
  (Ret (length (List.filter p (up_claims u))), set_claims (map (λ r, if p r then f r else r) (up_claims u)) u).

(** [INSERT ... ON CONFLICT(checkpoint_id) DO NOTHING] *)
Definition insert_publication (r : publication_row) : M uploads unit := λ u,
  if existsb (λ p, pb_id p == pb_id r) (up_publications u) then (Ret tt, u)
  else if publication_check r && existsb (λ c, cc_id c == pb_id r) (l_candidates (up_ledger u))
          && operation_exists (pi_operation (pb_identity r)) (up_ledger u)
          && negb (existsb (λ p, (pi_operation (pb_identity p) == pi_operation (pb_identity r))
                                 && (pi_manifest (pb_identity p) == pi_manifest (pb_identity r))) (up_publications u))
  then (Ret tt, set_publications (up_publications u ++ [r]) u)
  else (Exc (Exn IntegrityError "constraint failed"), u).

(** [INSERT ... ON CONFLICT(checkpoint_id,file_name) DO NOTHING]: was a row
    inserted *)
Definition same_file (i : claim_identity) (c : claim_row) : bool :=
  (ci_checkpoint (cm_identity c) == ci_checkpoint i) && (ci_file (cm_identity c) == ci_file i).

Definition insert_claim (r : claim_row) : M uploads bool := λ u,
  if existsb (same_file (cm_identity r)) (up_claims u) then (Ret false, u)
  else if claim_check r && negb (existsb (λ c, cm_id c == cm_id r) (up_claims u))
          && existsb (λ p, pb_id p == ci_checkpoint (cm_identity r)) (up_publications u)
  then (Ret true, set_claims (up_claims u ++ [r]) u)
  else (Exc (Exn IntegrityError "constraint failed"), u).

(** ** The methods *)

Section methods.
(** [hashlib.sha256(...).hexdigest()] *)
Context (sha256 : string → string).

(** [_evidence] *)
Definition evidence_digest (value : list (string * json)) : outcome string :=
  let encoded := canonical_json (JObj value) in
  throw_if (16 * 1024 <? utf8_length encoded) ValueError "checkpoint upload evidence is too large" ;;
  throw_if (existsb (λ marker, contains marker (lower encoded)) ["create_url"; "blob_token"; "authorization"; "credential"]) ValueError
    "checkpoint upload evidence contains secret-bearing metadata" ;;
  Ret (sha256 encoded).

(** [_event] *)
Definition record_upload_event (checkpoint_id : string) (claim_id : option string) (event_type : string) (evidence : list (string * json))
    (now : Z) : M uploads unit :=
  digest ← lift (evidence_digest evidence);
  u ← get;
  if existsb (λ e, (ue_checkpoint e == checkpoint_id) && (default "" (ue_claim e) == default "" claim_id) && (ue_type e == event_type)
                   && (ue_evidence e == digest)) (up_events u) then mret tt
  else if mem event_type EVENT_TYPES && (slen digest =? 64)
  then put (mk_uploads (up_ledger u) (up_publications u) (up_claims u)
              (up_events u ++ [mk_upload_event checkpoint_id claim_id event_type digest now]) (up_extended u))
  else constraint_failed.

(** [_claim] *)
Definition get_claim (claim_id : string) : M uploads claim_row :=
  row ← gets (λ u, List.find (λ c, cm_id c == claim_id) (up_claims u));
  match row with Some r => mret r | None => raise KeyError claim_id end.

Definition get_publication (checkpoint_id : string) : M uploads publication_row :=
  row ← gets (find_publication checkpoint_id);
  match row with Some p => mret p | None => raise KeyError checkpoint_id end.

(** The row again, after an update: [assert row is not None] *)
Definition refreshed (checkpoint_id : string) : M uploads publication_row :=
  row ← gets (find_publication checkpoint_id);
  assert_some row.

Definition identity_invalid (checkpoint_id : string) (i : publication_identity) : bool :=
  existsb (λ s, s == "") [checkpoint_id; pi_operation i; pi_run i; pi_attempt i; pi_master i; pi_service i; pi_run_ref i; pi_dataset i]
  || (pi_epoch i <? 1) || (pi_generation i <? 0) || (pi_files i <? 1) || (pi_bytes i <? 1) || negb (is_sha256 (pi_manifest i))
  || negb (mem (pi_authority i) ["master"; "acceptance"]) || match pi_scenario i with Some s => negb (mem s ["FM05"; "FM14"; "FM15"]) | None => false end
  || negb (Bool.eqb (pi_authority i == "master") (match pi_scenario i with None => true | Some _ => false end)).

Definition ensure_publication (checkpoint_id : string) (expected : publication_identity) (now : Z) : M uploads publication_row :=
  raise_if (identity_invalid checkpoint_id expected) ValueError "checkpoint upload publication identity is invalid" ;;
  atomically (
    insert_publication (mk_publication checkpoint_id expected "PREPARING" None None 0 None None None None None 0 0 now now) ;;
    row ← gets (find_publication checkpoint_id);
    match row with
    | None => raise IdempotencyConflict "checkpoint upload publication identity collision"
    | Some r =>
        raise_if (pb_identity r != expected) IdempotencyConflict "checkpoint upload publication identity collision" ;;
        record_upload_event checkpoint_id None "publication.created"
          [("operation_id", JStr (pi_operation expected)); ("epoch", JInt (pi_epoch expected)); ("manifest_sha256", JStr (pi_manifest expected))] now ;;
        mret r
    end).

Definition publication (checkpoint_id : string) : M uploads (option publication_row) := gets (find_publication checkpoint_id).

(** *** The authority of the runtime *)

(** The service and the current epoch of its kind. *)
Definition current_epoch_of (kind : string) (l : ledger) : option Z :=
  ep_current <$> List.find (λ e, ep_kind e == kind) (l_epochs l).

Definition snapshot_ok (l : ledger) (run_id attempt_id master_instance_id : string) (epoch : Z) (now : Z) (s : service_row) : bool :=
  (sv_run s == run_id) && (sv_attempt s == attempt_id) && (sv_master s == Some master_instance_id) && (sv_epoch s =? epoch)
  && (current_epoch_of (sv_kind s) l == Some epoch) && mem (sv_state s) ["ACTIVE"; "DRAINING"] && text_ltb now (sv_lease_until s).

Definition runtime_service_snapshot (service_instance_id run_id attempt_id master_instance_id : string) (epoch now : Z) :
    M uploads (option service_row) :=
  u ← get;
  match List.find (λ s, (sv_kind s == "postgres-master") && (sv_id s == service_instance_id)
                        && match current_epoch_of (sv_kind s) (up_ledger u) with Some _ => true | None => false end)
          (l_services (up_ledger u)) with
  | None => mret None
  | Some s => if snapshot_ok (up_ledger u) run_id attempt_id master_instance_id epoch now s then mret (Some s) else mret None
  end.

Definition runtime_service_authorized (service_instance_id run_id attempt_id master_instance_id : string) (epoch now : Z) : M uploads bool :=
  snapshot ← runtime_service_snapshot service_instance_id run_id attempt_id master_instance_id epoch now;
  mret (match snapshot with Some _ => true | None => false end).

Definition claims_in (checkpoint_id : string) (states : list string) (u : uploads) : Z :=
  Z.of_nat (length (List.filter (λ c, (ci_checkpoint (cm_identity c) == checkpoint_id) && mem (cm_state c) states) (up_claims u))).

(** The WHERE clause of [publication_runtime_authority] on the joined rows. *)
Definition recovery_ok (p : publication_row) (s : service_row) (o : operation_row) (now : Z) (u : uploads) : bool :=
  let i := pb_identity p in
  (sv_id s == pi_service i) && (op_id o == pi_operation i) && (sv_kind s == "postgres-master") && (sv_run s == pi_run i)
  && (sv_attempt s == pi_attempt i) && (sv_master s == Some (pi_master i)) && (sv_epoch s =? pi_epoch i)
  && (current_epoch_of (sv_kind s) (up_ledger u) == Some (pi_epoch i))
  && ((mem (sv_state s) ["ACTIVE"; "DRAINING"] && text_ltb now (sv_lease_until s) && mem (op_state o) ["ACTIVE"; "DRAINING"; "CHECKPOINTING"])
      || ((sv_state s == "DRAINING") && mem (op_state o) ["CHECKPOINTING"; "CHECKPOINT_FAILED"]))
  && (claims_in (pb_id p) ["UPLOADED"; "CONSUMED"] u =? pi_files i).

(** The publication with its lease; ids are primary keys, so the join has one
    row at most. *)
Definition publication_runtime_authority (checkpoint_id : string) (now : Z) : M uploads (option (publication_row * Z)) :=
  u ← get;
  mret (p ← find_publication checkpoint_id u;
        s ← List.find (λ s, sv_id s == pi_service (pb_identity p)) (l_services (up_ledger u));
        o ← List.find (λ o, op_id o == pi_operation (pb_identity p)) (l_operations (up_ledger u));
        if recovery_ok p s o now u then Some (p, sv_lease_until s) else None).

(** [ORDER BY updated_at,checkpoint_id] *)
Definition updated_le (a b : publication_row) : bool :=
  if text_ltb (pb_updated_at a) (pb_updated_at b) then true
  else if text_ltb (pb_updated_at b) (pb_updated_at a) then false else String.leb (pb_id a) (pb_id b).

Definition scan_publications (p : publication_row → bool) (limit : Z) : M uploads (list string) :=
  raise_if (negb ((1 <=? limit) && (limit <=? 100))) ValueError "checkpoint publication scan limit is invalid" ;;
  u ← get;
  mret (map pb_id (firstn (Z.to_nat limit) (order_by updated_le (List.filter p (up_publications u))))).

Definition pending_publications (limit : Z) : M uploads (list string) :=
  scan_publications (λ p, (pi_authority (pb_identity p) == "master")
    && mem (pb_state p) ["READY_TO_FINALIZE"; "FINALIZING"; "DATASET_RESOLVED"; "VERIFYING"; "VERIFIED"]) limit.

Definition extended_attempts (checkpoint_id : string) (u : uploads) : Z :=
  Z.of_nat (length (List.filter (λ x, xr_checkpoint x == checkpoint_id) (up_extended u))).

Definition RECOVERABLE : list string := ["CheckpointRuntimeError"; "MasterProviderUnavailable"].

Definition failed_verifier_publications (limit : Z) : M uploads (list string) :=
  u ← get;
  scan_publications (λ p, (pi_authority (pb_identity p) == "master") && (pb_state p == "FAILED")
    && match pb_failure p with Some f => mem f RECOVERABLE | None => false end && (pb_version p != None)
    && ((pb_verifier_attempts p <? 3) || (pb_recovery_attempts p <? 2) || (extended_attempts (pb_id p) u <? 3))) limit.

(** *** Claims *)

Definition claim_invalid (claim_id : string) (i : claim_identity) : bool :=
  existsb (λ s, s == "") [claim_id; ci_checkpoint i; ci_operation i; ci_file i; ci_type i] || (ci_epoch i <? 1) || (ci_length i <? 1)
  || negb (is_sha256 (ci_content i) && is_sha256 (ci_manifest i) && is_sha256 (ci_intent i)).

Definition final_publication : list string := ["PROMOTED"; "FAILED"; "QUARANTINED"].

(** [SET state='QUARANTINED',failure_code=? WHERE checkpoint_id=? AND state NOT
    IN (...)] *)
Definition quarantine (checkpoint_id failure_code : string) (now : Z) : M uploads unit :=
  update_publications (λ p, (pb_id p == checkpoint_id) && negb (mem (pb_state p) final_publication))
    (λ p, pb_set_failure (Some failure_code) (pb_set_state "QUARANTINED" now p)) ;;
  mret tt.

Definition conflict_claim (erase_url : bool) (claim_id : string) (now : Z) : M uploads unit :=
  update_claims (λ c, cm_id c == claim_id)
    (λ c, cm_set_sealed (cm_token c) (if erase_url then None else cm_url c) (cm_set_state "CONFLICT" now c)) ;;
  mret tt.

(** The claim of the file, and whether it is new; a replay that differs ends in
    a conflict, after the transaction that records it. *)
Definition ensure_claim (claim_id : string) (expected : claim_identity) (now : Z) : M uploads (claim_row * bool) :=
  raise_if (claim_invalid claim_id expected) ValueError "checkpoint upload claim identity is invalid" ;;
  answer ← atomically (
    created ← insert_claim (mk_claim claim_id expected "PREPARING" None None None now now);
    row ← gets (λ u, List.find (same_file expected) (up_claims u));
    match row with
    | None => mret (None, created)
    | Some r =>
        if cm_identity r != expected then
          (if mem (cm_state r) ["CONFLICT"; "REVOKED"] then mret tt
           else
             conflict_claim false (cm_id r) now ;;
             quarantine (ci_checkpoint expected) "BLOB_PREPARE_CONFLICT" now ;;
             record_upload_event (ci_checkpoint expected) (Some (cm_id r)) "blob.upload.conflict" [("file_name", JStr (ci_file expected))] now) ;;
          mret (None, created)
        else
          (if (cm_state r == "PREPARING") && created then
             record_upload_event (ci_checkpoint expected) (Some (cm_id r)) "blob.prepare.started" [("intent_sha256", JStr (ci_intent expected))] now
           else mret tt) ;;
          mret (Some r, created)
    end);
  match answer with
  | (Some r, created) => mret (r, created)
  | (None, _) => raise IdempotencyConflict "checkpoint upload claim conflicts with its exact replay"
  end.

Definition intent_of (c : claim_row) : list (string * json) := [("intent_sha256", JStr (ci_intent (cm_identity c)))].

Definition claim_start (claim_id : string) (now : Z) : M uploads claim_row :=
  atomically (
    row ← get_claim claim_id;
    raise_if (cm_state row != "PREPARING") IdempotencyConflict "checkpoint blob start was already claimed" ;;
    changed ← update_claims (λ c, (cm_id c == claim_id) && (cm_state c == "PREPARING")) (cm_set_state "STARTING" now);
    raise_if (negb (changed =? 1)%nat) IdempotencyConflict "checkpoint blob start claim lost its CAS" ;;
    record_upload_event (ci_checkpoint (cm_identity row)) (Some claim_id) "blob.prepare.claimed" (intent_of row) now ;;
    get_claim claim_id).

Definition mark_ready (claim_id sealed_blob_token sealed_create_url : string) (now : Z) : M uploads claim_row :=
  raise_if ((sealed_blob_token == "") || (sealed_create_url == "")) ValueError "sealed upload authority is absent" ;;
  atomically (
    row ← get_claim claim_id;
    (if cm_state row == "STARTING" then
       update_claims (λ c, (cm_id c == claim_id) && (cm_state c == "STARTING"))
         (λ c, cm_set_sealed (Some sealed_blob_token) (Some sealed_create_url) (cm_set_state "READY" now c)) ;;
       update_publications (λ p, (pb_id p == ci_checkpoint (cm_identity row)) && (pb_state p == "PREPARING")) (pb_set_state "UPLOADING" now) ;;
       record_upload_event (ci_checkpoint (cm_identity row)) (Some claim_id) "blob.prepare.ready" (intent_of row) now
     else raise_if (negb (mem (cm_state row) ["READY"; "UPLOADED"])) IdempotencyConflict "checkpoint upload claim cannot become ready") ;;
    get_claim claim_id).

Definition mark_start_ambiguous (claim_id : string) (now : Z) : M uploads unit :=
  atomically (
    row ← get_claim claim_id;
    if cm_state row == "STARTING" then
      update_claims (λ c, cm_id c == claim_id) (cm_set_state "START_AMBIGUOUS" now) ;;
      quarantine (ci_checkpoint (cm_identity row)) "BLOB_START_AMBIGUOUS" now ;;
      record_upload_event (ci_checkpoint (cm_identity row)) (Some claim_id) "blob.prepare.ambiguous" (intent_of row) now
    else mret tt).

(** [hmac.compare_digest] of texts *)
Definition compare_digest (a b : string) : outcome bool :=
  throw_if (negb (string_forallb (λ c, (Ascii.nat_of_ascii c <? 128)%nat) a && string_forallb (λ c, (Ascii.nat_of_ascii c <? 128)%nat) b)) TypeError
    "comparing strings with non-ASCII characters is not supported" ;;
  Ret (a == b).

(** Every claim of the publication is uploaded, with the expected count and
    size. *)
Definition upload_complete (p : publication_row) (u : uploads) : bool :=
  let mine := List.filter (λ c, ci_checkpoint (cm_identity c) == pb_id p) (up_claims u) in
  (Z.of_nat (length mine) =? pi_files (pb_identity p))
  && (Z.of_nat (length (List.filter (λ c, cm_state c == "UPLOADED") mine)) =? pi_files (pb_identity p))
  && (foldr (λ c n, ci_length (cm_identity c) + n) 0 mine =? pi_bytes (pb_identity p)).

Definition complete_claim (claim_id : string) (bytes_sent : Z) (content_sha256 : string) (now : Z) : M uploads claim_row :=
  answer ← atomically (
    row ← get_claim claim_id;
    let i := cm_identity row in
    same ← (if bytes_sent != ci_length i then mret false else lift (compare_digest content_sha256 (ci_content i)));
    if negb same then
      (if mem (cm_state row) ["CONFLICT"; "REVOKED"] then mret tt
       else
         conflict_claim true claim_id now ;;
         quarantine (ci_checkpoint i) "BLOB_COMPLETION_MISMATCH" now ;;
         record_upload_event (ci_checkpoint i) (Some claim_id) "blob.upload.conflict" (intent_of row) now) ;;
      mret None
    else
      raise_if (ci_expires i <=? now) LeaseRejected "checkpoint upload claim expired" ;;
      (if cm_state row == "READY" then
         update_claims (λ c, (cm_id c == claim_id) && (cm_state c == "READY"))
           (λ c, cm_set_completed now (cm_set_sealed (cm_token c) None (cm_set_state "UPLOADED" now c))) ;;
         record_upload_event (ci_checkpoint i) (Some claim_id) "blob.upload.completed"
           [("intent_sha256", JStr (ci_intent i)); ("content_sha256", JStr content_sha256)] now
       else raise_if (cm_state row != "UPLOADED") IdempotencyConflict "checkpoint upload claim cannot be completed") ;;
      p ← refreshed (ci_checkpoint i);
      u ← get;
      (if upload_complete p u then
         update_publications (λ p, (pb_id p == ci_checkpoint i) && (pb_state p == "UPLOADING")) (pb_set_state "READY_TO_FINALIZE" now) ;; mret tt
       else mret tt) ;;
      r ← get_claim claim_id;
      mret (Some r));
  match answer with
  | Some r => mret r
  | None => raise IdempotencyConflict "checkpoint upload completion differs from its claim"
  end.

(** [ORDER BY file_name] *)
Definition claims (checkpoint_id : string) : M uploads (list claim_row) :=
  gets (λ u, order_by (λ a b, String.leb (ci_file (cm_identity a)) (ci_file (cm_identity b)))
               (List.filter (λ c, ci_checkpoint (cm_identity c) == checkpoint_id) (up_claims u))).

(** *** The Dataset version *)

Definition begin_finalize (checkpoint_id : string) (expected_provider_version now : Z) : M uploads publication_row :=
  raise_if (expected_provider_version <? 1) ValueError "expected provider version must be positive" ;;
  atomically (
    row ← get_publication checkpoint_id;
    row ← (if pb_state row == "READY_TO_FINALIZE" then
             changed ← update_publications (λ p, (pb_id p == checkpoint_id) && (pb_state p == "READY_TO_FINALIZE"))
               (λ p, pb_count_finalize (pb_set_provider_version expected_provider_version (pb_set_state "FINALIZING" now p)));
             raise_if (negb (changed =? 1)%nat) IdempotencyConflict "checkpoint finalization claim lost its CAS" ;;
             record_upload_event checkpoint_id None "dataset.finalize.started"
               [("expected_provider_version", JInt expected_provider_version)] now ;;
             refreshed checkpoint_id
           else if (pb_state row == "FINALIZING") && (pb_finalize_attempts row <? 3) then
             update_publications (λ p, (pb_id p == checkpoint_id) && (pb_state p == "FINALIZING") && (pb_finalize_attempts p <? 3))
               (λ p, pb_count_finalize (pb_set_state (pb_state p) now p)) ;;
             row ← refreshed checkpoint_id;
             record_upload_event checkpoint_id None "dataset.finalize.started"
               [("expected_provider_version", JInt expected_provider_version); ("attempt", JInt (pb_finalize_attempts row))] now ;;
             mret row
           else mret row);
    raise_if (negb (mem (pb_state row) ["FINALIZING"; "DATASET_RESOLVED"; "VERIFYING"; "VERIFIED"; "PROMOTED"])
              || (default 0 (pb_provider_version row) != expected_provider_version))
      IdempotencyConflict "checkpoint finalization identity changed" ;;
    mret row).

Definition resolve_dataset (checkpoint_id exact_version_ref : string) (now : Z) : M uploads publication_row :=
  raise_if (blank_or_longer exact_version_ref 512) ValueError "exact dataset version is invalid" ;;
  atomically (
    row ← get_publication checkpoint_id;
    row ← (if pb_state row == "FINALIZING" then
             update_publications (λ p, (pb_id p == checkpoint_id) && (pb_state p == "FINALIZING"))
               (λ p, pb_set_version (Some exact_version_ref) (pb_set_state "DATASET_RESOLVED" now p)) ;;
             update_claims (λ c, (ci_checkpoint (cm_identity c) == checkpoint_id) && (cm_state c == "UPLOADED"))
               (λ c, cm_set_sealed None None (cm_set_state "CONSUMED" now c)) ;;
             record_upload_event checkpoint_id None "dataset.version.resolved" [("exact_version_ref", JStr exact_version_ref)] now ;;
             refreshed checkpoint_id
           else mret row);
    raise_if (negb (mem (pb_state row) ["DATASET_RESOLVED"; "VERIFYING"; "VERIFIED"; "PROMOTED"])) IdempotencyConflict
      "checkpoint dataset cannot be resolved from its current state" ;;
    raise_if (pb_version row != Some exact_version_ref) IdempotencyConflict "checkpoint dataset exact version changed" ;;
    mret row).

(** *** The verification *)

Definition start_verification (checkpoint_id verifier_revision_sha256 : string) (now : Z) : M uploads publication_row :=
  raise_if (negb (is_sha256 verifier_revision_sha256)) ValueError "checkpoint verifier revision is invalid" ;;
  atomically (
    row ← get_publication checkpoint_id;
    if pb_state row == "DATASET_RESOLVED" then
      changed ← update_publications
        (λ p, (pb_id p == checkpoint_id) && (pb_state p == "DATASET_RESOLVED") && (pb_verifier_attempts p <? 3))
        (λ p, pb_set_verifier verifier_revision_sha256 (pb_verifier_attempts p + 1) (pb_recovery_attempts p) (pb_set_state "VERIFYING" now p));
      raise_if (negb (changed =? 1)%nat) IdempotencyConflict "checkpoint verifier attempt allocation is exhausted" ;;
      refreshed ← refreshed checkpoint_id;
      record_upload_event checkpoint_id None "verifier.started"
        [("exact_version_ref", of_option_text (pb_version refreshed)); ("verifier_revision_sha256", JStr verifier_revision_sha256);
         ("attempt", JInt (pb_verifier_attempts refreshed))] now ;;
      mret refreshed
    else
      raise_if ((pb_state row != "VERIFYING") || (pb_revision row != Some verifier_revision_sha256)) IdempotencyConflict
        "checkpoint verifier revision differs from durable attempt" ;;
      mret row).

(** The failed publication still has the authority to be verified again. *)
Definition retry_denied (p : publication_row) (recovered_failure : string) (u : uploads) : bool :=
  let l := up_ledger u in
  let i := pb_identity p in
  let head := List.find (λ h, hd_service h == "postgres-master") (l_heads l) in
  match List.find (λ c, cc_id c == pb_id p) (l_candidates l) with
  | None => true
  | Some c =>
      (cc_status c != "FAILED") || (cc_failure c != Some recovered_failure) || (cc_version c != pb_version p)
      || (cc_operation c != pi_operation i) || (cc_master c != pi_master i) || (cc_epoch c != pi_epoch i)
      || (cc_generation c != pi_generation i)
      || (match head with Some h => hd_generation h | None => 0 end != pi_generation i)
      || (cc_source c != match head with Some h => hd_current h | None => None end)
      || existsb (λ h, (hd_current h == Some (pb_id p)) || (hd_previous h == Some (pb_id p))) (l_heads l)
      || (Z.of_nat (length (List.filter (λ c, ci_checkpoint (cm_identity c) == pb_id p) (up_claims u))) != pi_files i)
      || (claims_in (pb_id p) ["CONSUMED"] u != pi_files i)
  end.

(** [UPDATE checkpoint_candidates SET status='UPLOADED',failure_code=NULL] *)
Definition reopen_candidate (checkpoint_id recovered_failure : string) : M uploads unit :=
  modify (λ u, mk_uploads
    (set_rows checkpoint_candidates
       (map (λ c, if (cc_id c == checkpoint_id) && (cc_status c == "FAILED") && (cc_failure c == Some recovered_failure) then cc_reopen c else c)
          (l_candidates (up_ledger u))) (up_ledger u))
    (up_publications u) (up_claims u) (up_events u) (up_extended u)).

(** [INSERT INTO checkpoint_verifier_extended_recovery_attempts] *)
Definition insert_extended (r : extended_row) : M uploads unit := λ u,
  if (slen (xr_revision r) =? 64) && (1 <=? xr_sequence r) && (xr_sequence r <=? 3)
     && existsb (λ p, pb_id p == xr_checkpoint r) (up_publications u)
     && negb (existsb (λ x, (xr_checkpoint x == xr_checkpoint r) && ((xr_revision x == xr_revision r) || (xr_sequence x =? xr_sequence r))) (up_extended u))
  then (Ret tt, mk_uploads (up_ledger u) (up_publications u) (up_claims u) (up_events u) (up_extended u ++ [r]))
  else (Exc (Exn IntegrityError "constraint failed"), u).

Definition retry_failed_verification (checkpoint_id verifier_revision_sha256 : string) (now : Z) : M uploads (option publication_row) :=
  raise_if (negb (is_sha256 verifier_revision_sha256)) ValueError "checkpoint verifier revision is invalid" ;;
  atomically (
    p ← get_publication checkpoint_id;
    let recovered_failure := default "" (pb_failure p) in
    if (pb_state p != "FAILED") || negb (mem recovered_failure RECOVERABLE) then mret None
    else if pb_revision p == Some verifier_revision_sha256 then mret None
    else
      u ← get;
      let extended_count := extended_attempts checkpoint_id u in
      let normal_exhausted := 3 <=? pb_verifier_attempts p in
      let recovery_exhausted := 2 <=? pb_recovery_attempts p in
      if (normal_exhausted && recovery_exhausted && (3 <=? extended_count)) || (default "" (pb_version p) == "") then mret None
      else
        raise_if (retry_denied p recovered_failure u) IdempotencyConflict "failed verifier publication no longer has exact retry authority" ;;
        reopen_candidate checkpoint_id recovered_failure ;;
        (if normal_exhausted && recovery_exhausted then
           raise_if (existsb (λ x, (xr_checkpoint x == checkpoint_id) && (xr_revision x == verifier_revision_sha256)) (up_extended u))
             IdempotencyConflict "checkpoint verifier revision was already attempted" ;;
           insert_extended (mk_extended checkpoint_id verifier_revision_sha256 (extended_count + 1) recovered_failure now)
         else mret tt) ;;
        changed ← update_publications
          (λ p, (pb_id p == checkpoint_id) && (pb_state p == "FAILED") && (pb_failure p == Some recovered_failure))
          (λ p, pb_set_receipt None None None (pb_set_verifier verifier_revision_sha256
             (pb_verifier_attempts p + (if pb_verifier_attempts p <? 3 then 1 else 0))
             (pb_recovery_attempts p + (if (3 <=? pb_verifier_attempts p) && (pb_recovery_attempts p <? 2) then 1 else 0))
             (pb_set_failure None (pb_set_state "VERIFYING" now p))));
        raise_if (negb (changed =? 1)%nat) IdempotencyConflict "failed verifier publication retry lost its CAS" ;;
        refreshed ← refreshed checkpoint_id;
        record_upload_event checkpoint_id None "verifier.started"
          [("exact_version_ref", of_option_text (pb_version refreshed)); ("verifier_revision_sha256", JStr verifier_revision_sha256);
           ("attempt", JInt (pb_verifier_attempts refreshed)); ("recovery_attempt", JInt (pb_recovery_attempts refreshed));
           ("extended_recovery_attempt", JInt (if normal_exhausted && recovery_exhausted then extended_count + 1 else 0));
           ("recovered_failure", JStr recovered_failure)] now ;;
        mret (Some refreshed)).

(** *** Other transitions *)

Record transition_request := mk_transition {
  tq_expected : list string; tq_state : string; tq_event : string; tq_evidence : list (string * json); tq_version : option string;
  tq_run : option string; tq_receipt : option string; tq_verifier_evidence : option (list (string * json)); tq_failure : option string;
}.

(** [COALESCE(new,old)] *)
Definition coalesce {A} (new old : option A) : option A := match new with Some a => Some a | None => old end.

Definition transition (checkpoint_id : string) (q : transition_request) (now : Z) : M uploads publication_row :=
  verifier_json ← match tq_verifier_evidence q with
                  | None => mret None
                  | Some e => lift (evidence_digest e) ;; mret (Some (canonical_json (JObj e)))
                  end;
  atomically (
    row ← get_publication checkpoint_id;
    if pb_state row == tq_state q then mret row
    else
      raise_if (negb (mem (pb_state row) (tq_expected q))) IdempotencyConflict "checkpoint publication transition is stale" ;;
      update_publications (λ p, (pb_id p == checkpoint_id) && (pb_state p == pb_state row))
        (λ p, pb_set_failure (coalesce (tq_failure q) (pb_failure p))
           (pb_set_receipt (coalesce (tq_run q) (pb_verifier_run p)) (coalesce (tq_receipt q) (pb_receipt p)) (coalesce verifier_json (pb_evidence p))
             (pb_set_version (coalesce (tq_version q) (pb_version p)) (pb_set_state (tq_state q) now p)))) ;;
      record_upload_event checkpoint_id None (tq_event q) (tq_evidence q) now ;;
      refreshed checkpoint_id).
End methods.
