(* ===== verification/UploadSafety.v ===== *)
(** * UploadSafety: executions of the upload ledger

    Any sequence of calls of [CheckpointUploadLedger], each returning or
    raising, with the control ledger changing in between: rows are kept, claims
    and publications move along their state machines, and the starts of a blob
    and of a verification are bounded. *)

From S2P Require Import Prelude Time Json LedgerState UploadLedger.

(** ** The state machines *)

(** Claims only go up. *)
Definition claim_rank (s : string) : nat :=
  if s == "PREPARING" then 0 else if s == "STARTING" then 1 else if s == "READY" then 2 else if s == "START_AMBIGUOUS" then 3
  else if s == "UPLOADED" then 4 else if s == "CONSUMED" then 5 else if s == "REVOKED" then 6 else 7.

Definition CLAIM_STATES : list string :=
  ["PREPARING"; "STARTING"; "READY"; "START_AMBIGUOUS"; "UPLOADED"; "CONFLICT"; "CONSUMED"; "REVOKED"].

Definition claim_move (c c' : claim_row) : Prop :=
  cm_id c' = cm_id c ∧ cm_identity c' = cm_identity c ∧ (cm_state c' = cm_state c ∨ (claim_rank (cm_state c) < claim_rank (cm_state c'))%nat).

(** The publication's states. *)
Inductive publication_edge : string → string → Prop :=
| edge_upload : publication_edge "PREPARING" "UPLOADING"
| edge_ready : publication_edge "UPLOADING" "READY_TO_FINALIZE"
| edge_finalize : publication_edge "READY_TO_FINALIZE" "FINALIZING"
| edge_resolve : publication_edge "FINALIZING" "DATASET_RESOLVED"
| edge_verify : publication_edge "DATASET_RESOLVED" "VERIFYING"
| edge_verified : publication_edge "VERIFYING" "VERIFIED"
| edge_promote : publication_edge "VERIFIED" "PROMOTED"
| edge_retry : publication_edge "FAILED" "VERIFYING"
| edge_fail s : s ∉ ["PROMOTED"; "FAILED"; "QUARANTINED"] → publication_edge s "FAILED"
| edge_quarantine s : s ∉ ["PROMOTED"; "FAILED"; "QUARANTINED"] → publication_edge s "QUARANTINED".

Definition stays {A} (o o' : option A) : Prop := ∀ a, o = Some a → o' = Some a.

Definition publication_move (p p' : publication_row) : Prop :=
  pb_id p' = pb_id p ∧ pb_identity p' = pb_identity p ∧ rtc publication_edge (pb_state p) (pb_state p') ∧ stays (pb_version p) (pb_version p') ∧
  stays (pb_provider_version p) (pb_provider_version p') ∧ pb_verifier_attempts p ≤ pb_verifier_attempts p' ∧
  pb_recovery_attempts p ≤ pb_recovery_attempts p' ∧ pb_finalize_attempts p ≤ pb_finalize_attempts p'.

(** What a row satisfies in its state. *)
Definition claim_ok (c : claim_row) : Prop :=
  cm_state c ∈ CLAIM_STATES ∧ (cm_state c = "PREPARING" ∨ cm_state c = "STARTING" → cm_token c = None ∧ cm_url c = None) ∧
  (cm_state c = "UPLOADED" → cm_url c = None) ∧ (cm_state c = "CONSUMED" → cm_token c = None ∧ cm_url c = None).

Definition publication_ok (p : publication_row) : Prop :=
  (pb_state p ∈ ["PREPARING"; "UPLOADING"; "READY_TO_FINALIZE"; "FINALIZING"] → pb_version p = None) ∧
  (pb_state p ∈ ["PREPARING"; "UPLOADING"; "READY_TO_FINALIZE"] → pb_provider_version p = None) ∧
  publication_check p = true.

(** Between the last upload and the promotion, every expected file is there. *)
Definition IN_FLIGHT : list string := ["READY_TO_FINALIZE"; "FINALIZING"; "DATASET_RESOLVED"; "VERIFYING"; "VERIFIED"].

Definition files_uploaded (u : uploads) (p : publication_row) : Prop :=
  pb_state p ∈ IN_FLIGHT → pi_files (pb_identity p) ≤ claims_in (pb_id p) ["UPLOADED"; "CONSUMED"] u.

(** Rows are kept in place, moved, and new ones come after them. *)
Definition rows_move {R} (move : R → R → Prop) (l l' : list R) : Prop := ∃ moved new, l' = (moved ++ new)%list ∧ Forall2 move l moved.

Record uploads_ok (u : uploads) : Prop := {
  ok_claim_ids : NoDup (map cm_id (up_claims u));
  ok_publication_ids : NoDup (map pb_id (up_publications u));
  ok_claims : ∀ c, c ∈ up_claims u → claim_ok c;
  ok_publications : ∀ p, p ∈ up_publications u → publication_ok p;
  ok_files : ∀ p, p ∈ up_publications u → files_uploaded u p;
  ok_sequences : NoDup (map (λ x, (xr_checkpoint x, xr_sequence x)) (up_extended u));
  ok_extended : ∀ x, x ∈ up_extended u → 1 ≤ xr_sequence x ≤ 3;
}.

Record uploads_move (u u' : uploads) : Prop := {
  move_claims : rows_move claim_move (up_claims u) (up_claims u');
  move_publications : rows_move publication_move (up_publications u) (up_publications u');
  move_extended : ∃ new, up_extended u' = (up_extended u ++ new)%list;
}.

(** ** Moves compose *)

#[global] Instance claim_move_preorder : PreOrder claim_move.
Proof.
  split.
  - intros c. unfold claim_move. auto.
  - intros a b c (E1 & E2 & H1) (E3 & E4 & H2). unfold claim_move. split_and!; [congruence..|].
    destruct H1 as [H1|H1], H2 as [H2|H2]; rewrite ?H1, ?H2 in *; auto; right; try (by rewrite <-H1); lia.
Qed.

#[global] Instance publication_move_preorder : PreOrder publication_move.
Proof.
  split.
  - intros p. unfold publication_move, stays. split_and!; auto using rtc_refl; lia.
  - intros a b c (?&?&?&?&?&?&?&?) (?&?&?&?&?&?&?&?). unfold publication_move, stays in *. split_and!; try (by etransitivity); eauto; try congruence; lia.
Qed.

Lemma rows_move_refl {R} (move : R → R → Prop) `{!PreOrder move} l : rows_move move l l.
Proof. exists l, []. rewrite app_nil_r. split; [done|]. by induction l; constructor. Qed.

Lemma rows_move_trans {R} (move : R → R → Prop) `{!PreOrder move} a b c : rows_move move a b → rows_move move b c → rows_move move a c.
Proof.
  intros (m1 & n1 & -> & H1) (m2 & n2 & -> & (k1 & k2 & Hk1 & Hk2 & ->)%Forall2_app_inv_l). exists k1, (k2 ++ n2)%list. rewrite app_assoc. split; [done|].
  clear -H1 Hk1 PreOrder0. revert k1 Hk1. induction H1; intros k Hk; inversion Hk; subst; constructor; [by etransitivity|auto].
Qed.

#[global] Instance uploads_move_preorder : PreOrder uploads_move.
Proof.
  split.
  - intros u. split; [apply rows_move_refl; apply _..|]. exists []. by rewrite app_nil_r.
  - intros a b c [H1 H2 [n1 E1]] [H3 H4 [n2 E2]]. split; [by eapply rows_move_trans; [apply _|..]..|]. exists (n1 ++ n2)%list. by rewrite E2, E1, app_assoc.
Qed.

Lemma rows_move_map {R} (move : R → R → Prop) `{!PreOrder move} (p : R → bool) (f : R → R) l :
  (∀ r, r ∈ l → p r = true → move r (f r)) → rows_move move l (map (λ r, if p r then f r else r) l).
Proof.
  intros H. exists (map (λ r, if p r then f r else r) l), []. rewrite app_nil_r. split; [done|].
  induction l as [|r l IH]; cbn; constructor; [|apply IH; intros; apply H; [by constructor|done]].
  destruct (p r) eqn:E; [|reflexivity]. apply H; [by constructor|done].
Qed.

Lemma rows_move_snoc {R} (move : R → R → Prop) `{!PreOrder move} l r : rows_move move l (l ++ [r])%list.
Proof. exists l, [r]. split; [done|]. by induction l; constructor. Qed.

Lemma rows_move_find {R} (move : R → R → Prop) (key : R → string) l l' id r :
  (∀ a b, move a b → key b = key a) → rows_move move l l' → List.find (λ r, key r == id) l = Some r →
  ∃ r', List.find (λ r, key r == id) l' = Some r' ∧ move r r'.
Proof.
  intros Hk (moved & new & -> & H). revert r. induction H as [|a b l moved Hab H IH]; intros r Hr; [done|]. cbn in Hr |- *.
  rewrite (Hk a b Hab). destruct (key a == id); [injection Hr as <-; by exists b|]. by apply IH.
Qed.

(** ** Keeping both *)

Definition keeps_at {A} (m : M uploads A) (u : uploads) : Prop := uploads_ok u → uploads_ok (m u).2 ∧ uploads_move u (m u).2.

Lemma keeps_at_pure {A} (m : M uploads A) u : (m u).2 = u → keeps_at m u.
Proof. intros Hm Hu. rewrite Hm. by split. Qed.

Lemma keeps_at_bind {A B} (m : M uploads A) (f : A → M uploads B) u :
  keeps_at m u → (∀ a u', m u = (Ret a, u') → uploads_ok u' → keeps_at (f a) u') → keeps_at (mbind f m) u.
Proof.
  intros Hm Hf Hu. destruct (Hm Hu) as [H1 H2]. unfold mbind, M_bind. destruct (m u) as [[a|e] u1]; cbn in *; [|done].
  destruct (Hf a u1 eq_refl H1 H1) as [H3 H4]. split; [done|by etransitivity].
Qed.

(** Reads, guards and pure answers. *)
Lemma keeps_at_read {A B} (m : M uploads A) (f : A → M uploads B) u :
  (m u).2 = u → (∀ a, m u = (Ret a, u) → uploads_ok u → keeps_at (f a) u) → keeps_at (mbind f m) u.
Proof.
  intros Hm Hf. apply keeps_at_bind; [by apply keeps_at_pure|]. intros a u' E. rewrite E in Hm. cbn in Hm. subst u'. by apply Hf.
Qed.

Lemma keeps_at_atomically {A} (m : M uploads A) u : keeps_at m u → keeps_at (atomically m) u.
Proof. intros Hm Hu. specialize (Hm Hu). unfold atomically. destruct (m u) as [[a|e] u1]; [done|]. by split. Qed.

Lemma state_raise_if b c msg (u : uploads) : (raise_if b c msg u).2 = u.
Proof. by destruct b. Qed.
Lemma state_assert {A} (o : option A) (u : uploads) : (assert_some o u).2 = u.
Proof. by destruct o. Qed.
Lemma state_get_claim id u : (get_claim id u).2 = u.
Proof. unfold get_claim. py_cbn. by destruct (List.find _ _). Qed.
Lemma state_get_publication id u : (get_publication id u).2 = u.
Proof. unfold get_publication. py_cbn. by destruct (find_publication _ _). Qed.
Lemma state_refreshed id u : (refreshed id u).2 = u.
Proof. unfold refreshed. py_cbn. by destruct (find_publication _ _). Qed.

Create HintDb upload.
#[export] Hint Resolve state_raise_if state_assert state_get_claim state_get_publication state_refreshed : upload.
#[export] Hint Extern 1 (_ = _) => reflexivity : upload.
#[export] Hint Extern 2 (snd ((if ?b then _ else _) _) = _) => destruct b; reflexivity : upload.

(** ** Statements *)

Lemma map_key_kept {R K} (key : R → K) (p : R → bool) (f : R → R) l :
  (∀ r, r ∈ l → p r = true → key (f r) = key r) → map key (map (λ r, if p r then f r else r) l) = map key l.
Proof.
  intros H. rewrite map_map. apply map_ext_in. intros r Hr%list_elem_of_In. destruct (p r) eqn:E; auto.
Qed.

Lemma filter_length_le {R} (q q' : R → bool) (g : R → R) l :
  (∀ r, r ∈ l → q r = true → q' (g r) = true) → (length (List.filter q l) ≤ length (List.filter q' (map g l)))%nat.
Proof.
  induction l as [|r l IH]; intros H; cbn; [lia|]. assert (IHl := IH ltac:(intros x Hx; apply H; by right)).
  destruct (q r) eqn:E; [rewrite (H r) by (done || by left)|case_match]; cbn; lia.
Qed.

Definition UPLOADED : list string := ["UPLOADED"; "CONSUMED"].

Lemma claims_in_update p f u id :
  (∀ c, c ∈ up_claims u → p c = true → ci_checkpoint (cm_identity c) = id → cm_identity (f c) = cm_identity c ∧ (cm_state c ∈ UPLOADED → cm_state (f c) ∈ UPLOADED)) →
  claims_in id UPLOADED u ≤ claims_in id UPLOADED (set_claims (map (λ c, if p c then f c else c) (up_claims u)) u).
Proof.
  intros H. unfold claims_in. cbn. apply inj_le, filter_length_le. intros c Hc. destruct (p c) eqn:E; [|done].
  rewrite !andb_true_iff, !bool_decide_eq_true, !mem_true. intros [E1 E2]. destruct (H c Hc E E1) as [-> H2]. auto.
Qed.

Lemma keeps_update_claims p f u :
  (∀ c, c ∈ up_claims u → p c = true → claim_ok c →
     claim_move c (f c) ∧ claim_ok (f c) ∧
     ∀ q, q ∈ up_publications u → pb_state q ∈ IN_FLIGHT → pb_id q = ci_checkpoint (cm_identity c) → cm_state c ∈ UPLOADED → cm_state (f c) ∈ UPLOADED) →
  keeps_at (update_claims p f) u.
Proof.
  intros H [H1 H2 H3 H4 H5 H6 H7]. unfold update_claims. cbn [snd].
  assert (∀ c, c ∈ up_claims u → p c = true → claim_move c (f c)) as Hm by (intros c Hc E; by apply (H c Hc E), H3).
  split; split; cbn; auto; try apply rows_move_refl; try apply _; try (by exists []; rewrite app_nil_r).
  - rewrite map_key_kept; [done|]. intros c Hc E. by apply (Hm c Hc E).
  - intros c (x & Hx & ->)%elem_of_update. destruct (p x) eqn:E; [by apply (H x Hx E), H3|by apply H3].
  - intros q Hq Hs. etransitivity; [by apply (H5 q Hq)|]. apply claims_in_update. intros c Hc E Ec.
    split; [by apply (Hm c Hc E)|]. destruct (H c Hc E) as (_ & _ & Hu); [by apply H3|]. by apply (Hu q Hq Hs).
  - by apply rows_move_map; [apply _|].
Qed.

Lemma publication_check_counts p : publication_check p = true →
  0 ≤ pb_verifier_attempts p ≤ 3 ∧ 0 ≤ pb_recovery_attempts p ≤ 2 ∧ 0 ≤ pb_finalize_attempts p ≤ 3.
Proof. unfold publication_check. rewrite !andb_true_iff, !Z.leb_le. tauto. Qed.

Lemma keeps_update_publications p f u :
  (∀ r, r ∈ up_publications u → p r = true → publication_ok r → files_uploaded u r → publication_check (f r) = true →
     publication_move r (f r) ∧ publication_ok (f r) ∧ files_uploaded u (f r)) →
  keeps_at (update_publications p f) u.
Proof.
  intros H [H1 H2 H3 H4 H5 H6 H7]. unfold update_publications. destruct (forallb _ _) eqn:Hc; cbn [snd]; [|by split; [split|]].
  assert (∀ r, r ∈ up_publications u → p r = true → publication_move r (f r) ∧ publication_ok (f r) ∧ files_uploaded u (f r)) as Hm.
  { intros r Hr E. apply H; auto. apply forallb_forall with (x:=r) in Hc; [|by apply list_elem_of_In]. by rewrite E in Hc. }
  split; split; cbn; auto; try apply rows_move_refl; try apply _; try (by exists []; rewrite app_nil_r).
  - rewrite map_key_kept; [done|]. intros r Hr E. by apply (Hm r Hr E).
  - intros r (x & Hx & ->)%elem_of_update. destruct (p x) eqn:E; [by apply (Hm x Hx E)|by apply H4].
  - intros r (x & Hx & ->)%elem_of_update. destruct (p x) eqn:E; [by apply (Hm x Hx E)|by apply H5].
  - apply rows_move_map; [apply _|]. intros r Hr E. by apply Hm.
Qed.

Lemma keeps_insert_publication r u : pb_state r = "PREPARING" → pb_version r = None → pb_provider_version r = None → keeps_at (insert_publication r) u.
Proof.
  intros Hs Hv Hp [H1 H2 H3 H4 H5 H6 H7]. unfold insert_publication. destruct (existsb _ _) eqn:E; [by split; [split|]|].
  case_match eqn:Hc; cbn [snd]; [|by split; [split|]]. split; split; cbn; auto; try apply rows_move_refl; try apply rows_move_snoc; try apply _; try (by exists []; rewrite app_nil_r).
  - apply NoDup_map_snoc; [done|]. intros x Hx Hk. rewrite existsb_false_iff in E. specialize (E x Hx). by b2p.
  - intros q [Hq| ->%list_elem_of_singleton]%elem_of_app; [by auto|]. split_and!; auto. b2p. tauto.
  - intros q [Hq| ->%list_elem_of_singleton]%elem_of_app; [by apply H5|]. intros Hf. rewrite Hs in Hf. set_solver.
Qed.

Lemma keeps_insert_claim r u : claim_ok r → keeps_at (insert_claim r) u.
Proof.
  intros Hr [H1 H2 H3 H4 H5 H6 H7]. unfold insert_claim. destruct (existsb (same_file _) _) eqn:E; [by split; [split|]|].
  case_match eqn:Hc; cbn [snd]; [|by split; [split|]].
  split; split; cbn; auto; try apply rows_move_refl; try apply rows_move_snoc; try apply _; try (by exists []; rewrite app_nil_r).
  - apply NoDup_map_snoc; [done|]. intros x Hx Hk. b2p. destruct Hc as [[_ Hc] _]. rewrite existsb_false_iff in Hc. specialize (Hc x Hx). by b2p.
  - intros q [Hq| ->%list_elem_of_singleton]%elem_of_app; auto.
  - intros q Hq Hf. etransitivity; [by apply (H5 q Hq Hf)|]. unfold claims_in. cbn. rewrite List.filter_app, length_app. lia.
Qed.

Lemma keeps_insert_extended r u : keeps_at (insert_extended r) u.
Proof.
  intros [H1 H2 H3 H4 H5 H6 H7]. unfold insert_extended. case_match eqn:Hc; cbn [snd]; [|by split; [split|]].
  split; split; cbn; auto; try apply rows_move_refl; try apply _; try (by exists [r]).
  - apply NoDup_map_snoc; [done|]. intros x Hx Hk. b2p. destruct Hc as [_ Hc]. rewrite existsb_false_iff in Hc. specialize (Hc x Hx). b2p. naive_solver.
  - intros q [Hq| ->%list_elem_of_singleton]%elem_of_app; auto. b2p. lia.
Qed.

Lemma keeps_record_upload_event sha256 id claim ty ev now u : keeps_at (record_upload_event sha256 id claim ty ev now) u.
Proof.
  intros Hu. unfold record_upload_event. py_cbn. destruct (evidence_digest sha256 ev); [|by split].
  repeat case_match; [by split| |by split]. destruct Hu as [H1 H2 H3 H4 H5 H6 H7].
  split; split; auto; try apply rows_move_refl; try apply _; try (by exists []; rewrite app_nil_r).
Qed.

Lemma keeps_reopen_candidate id code u : keeps_at (reopen_candidate id code) u.
Proof.
  intros [H1 H2 H3 H4 H5 H6 H7]. unfold reopen_candidate, modify.
  split; split; auto; try apply rows_move_refl; try apply _; try (by exists []; rewrite app_nil_r).
Qed.

(** ** Methods *)

(** The cases of a membership in a literal list. *)
Ltac in_list H := repeat (apply elem_of_cons in H as [H|H]); [..|by apply not_elem_of_nil in H].

Lemma get_claim_inv id u c u' : get_claim id u = (Ret c, u') → List.find (λ c, cm_id c == id) (up_claims u) = Some c ∧ u' = u.
Proof. unfold get_claim. py_cbn. destruct (List.find _ _); [|done]. by intros [= -> ->]. Qed.

Lemma get_publication_inv id u p u' : get_publication id u = (Ret p, u') → find_publication id u = Some p ∧ u' = u.
Proof. unfold get_publication. py_cbn. destruct (find_publication _ _); [|done]. by intros [= -> ->]. Qed.

Lemma refreshed_inv id u p u' : refreshed id u = (Ret p, u') → find_publication id u = Some p ∧ u' = u.
Proof. unfold refreshed. py_cbn. destruct (find_publication _ _); [|done]. by intros [= -> ->]. Qed.

(** What a read or a guard that went through says. *)
Ltac read_inv E :=
  first [ apply get_claim_inv in E as [E _] | apply get_publication_inv in E as [E _] | apply refreshed_inv in E as [E _] 
        | apply gets_inv in E as [-> _] | apply get_inv in E as [-> _] | apply raise_if_inv in E as [E _] | apply lift_inv in E as [E _]
        | apply mret_inv in E as [<- _] | idtac ].

(** One statement of a method, then the next. *)
Ltac keep_step :=
  lazymatch goal with
  | |- keeps_at (atomically _) _ => apply keeps_at_atomically
  | |- keeps_at (mbind _ (conflict_claim _ _ _)) _ => fail
  | |- keeps_at (mbind _ _) _ =>
      first [ apply keeps_at_read; [solve [auto with upload]|];
              let a := fresh "a" in let E := fresh "E" in let Hok := fresh "Hok" in intros a E Hok; read_inv E
            | apply keeps_at_bind; [|let a := fresh "a" in let u := fresh "u" in let E := fresh "Hrun" in let Hok := fresh "Hok" in intros a u E Hok] ]
  | |- keeps_at (match ?x with _ => _ end) _ => destruct x eqn:?
  | |- keeps_at (record_upload_event _ _ _ _ _ _) _ => apply keeps_record_upload_event
  | |- keeps_at (reopen_candidate _ _) _ => apply keeps_reopen_candidate
  | |- keeps_at (insert_extended _) _ => apply keeps_insert_extended
  | |- keeps_at _ _ => apply keeps_at_pure; solve [auto with upload]
  end.
Ltac keep := repeat keep_step.

(** A row that moves along one edge and keeps what identifies it. *)
Lemma publication_moves_edge r r' :
  publication_edge (pb_state r) (pb_state r') → pb_id r' = pb_id r → pb_identity r' = pb_identity r →
  stays (pb_version r) (pb_version r') → stays (pb_provider_version r) (pb_provider_version r') →
  pb_verifier_attempts r ≤ pb_verifier_attempts r' → pb_recovery_attempts r ≤ pb_recovery_attempts r' → pb_finalize_attempts r ≤ pb_finalize_attempts r' →
  publication_move r r'.
Proof. intros. unfold publication_move. split_and!; auto. by apply rtc_once. Qed.



Lemma edge_early s s' : publication_edge s s' →
  (s' ∈ ["PREPARING"; "UPLOADING"; "READY_TO_FINALIZE"; "FINALIZING"] → s ∈ ["PREPARING"; "UPLOADING"; "READY_TO_FINALIZE"; "FINALIZING"]) ∧
  (s' ∈ ["PREPARING"; "UPLOADING"; "READY_TO_FINALIZE"] → s ∈ ["PREPARING"; "UPLOADING"; "READY_TO_FINALIZE"]).
Proof. destruct 1; split; intros Hs; in_list Hs; try discriminate; repeat constructor. Qed.

(** A row that moves along an edge and keeps its versions. *)
Lemma publication_advances u r r' :
  publication_ok r → publication_check r' = true → publication_edge (pb_state r) (pb_state r') → pb_id r' = pb_id r → pb_identity r' = pb_identity r →
  pb_version r' = pb_version r → pb_provider_version r' = pb_provider_version r →
  pb_verifier_attempts r ≤ pb_verifier_attempts r' → pb_recovery_attempts r ≤ pb_recovery_attempts r' → pb_finalize_attempts r ≤ pb_finalize_attempts r' →
  files_uploaded u r' → publication_move r r' ∧ publication_ok r' ∧ files_uploaded u r'.
Proof.
  intros (Hv & Hp & _) Hc He ? ? Ev Ep ? ? ? Hf. destruct (edge_early _ _ He) as [He1 He2]. split_and!; [|split_and!|done].
  - apply publication_moves_edge; auto; [rewrite Ev|rewrite Ep]; by intros ?.
  - rewrite Ev. auto.
  - rewrite Ep. auto.
  - done.
Qed.

(** A claim that goes up from a given state. *)
Lemma claim_advances u c c' s : cm_state c = s → cm_id c' = cm_id c → cm_identity c' = cm_identity c → (claim_rank s < claim_rank (cm_state c'))%nat →
  claim_ok c' → (s ∈ UPLOADED → cm_state c' ∈ UPLOADED) →
  claim_move c c' ∧ claim_ok c' ∧ ∀ q,
    q ∈ up_publications u → pb_state q ∈ IN_FLIGHT → pb_id q = ci_checkpoint (cm_identity c) → cm_state c ∈ UPLOADED → cm_state c' ∈ UPLOADED.
Proof. intros <- ? ? ? ? ?. unfold claim_move. split_and!; auto. Qed.

Lemma keeps_quarantine id code now u : keeps_at (quarantine id code now) u.
Proof.
  unfold quarantine. keep. apply keeps_update_publications. intros r Hr E Hok Hf Hc. b2p. destruct E as [_ E]. apply mem_false in E.
  apply publication_advances; auto; cbn; try lia; [by apply edge_quarantine|]. intros Hs. cbn in Hs. unfold IN_FLIGHT in Hs. in_list Hs; discriminate.
Qed.

Lemma keeps_ensure_publication sha256 id i now u : keeps_at (ensure_publication sha256 id i now) u.
Proof.
  unfold ensure_publication. keep. by apply keeps_insert_publication.
Qed.

(** A claim in conflict quarantines its publication in the same transaction:
    the two statements commute, and the second cannot fail. *)
Lemma quarantine_runs id code now u : uploads_ok u →
  quarantine id code now u =
    (Ret tt, set_publications (map (λ r, if (pb_id r == id) && negb (mem (pb_state r) final_publication)
                                         then pb_set_failure (Some code) (pb_set_state "QUARANTINED" now r) else r) (up_publications u)) u).
Proof.
  intros Hu. unfold quarantine, update_publications. py_cbn. destruct (forallb _ _) eqn:E; [done|]. exfalso. apply not_true_iff_false in E. apply E.
  apply forallb_forall. intros r Hr%list_elem_of_In. apply orb_true_iff. right. destruct (ok_publications u Hu r Hr) as (_ & _ & Hc).
  unfold publication_check in *. cbn in *. b2p. tauto.
Qed.

Lemma quarantine_after_conflict erase cid id code now u : uploads_ok u →
  (conflict_claim erase cid now ;; quarantine id code now) u = (quarantine id code now ;; conflict_claim erase cid now) u.
Proof.
  intros Hu. pose proof (quarantine_runs id code now u Hu) as E. unfold mbind, M_bind. rewrite E. unfold quarantine, update_publications in *.
  unfold conflict_claim, update_claims. py_cbn. cbn [up_publications up_claims set_claims set_publications] in *.
  by destruct (forallb _ _).
Qed.

Lemma in_flight_not_final s : s ∈ IN_FLIGHT → s ∉ final_publication.
Proof. unfold IN_FLIGHT, final_publication. intros H H'. in_list H; subst; in_list H'; discriminate. Qed.

Lemma conflict_rank s : s ∈ CLAIM_STATES → s ≠ "CONFLICT" → (claim_rank s < claim_rank "CONFLICT")%nat.
Proof. unfold CLAIM_STATES. intros H Hn. in_list H; subst; first [done|vm_compute; lia]. Qed.

Lemma quarantined_not_in_flight id code now u u' q : uploads_ok u →
  quarantine id code now u = (Ret tt, u') → q ∈ up_publications u' → pb_id q = id → pb_state q ∉ IN_FLIGHT.
Proof.
  intros Hu Hq Hin E Hs. rewrite (quarantine_runs _ _ _ _ Hu) in Hq. injection Hq as <-. cbn in Hin. apply elem_of_update in Hin as (x & Hx & ->).
  destruct (_ && _) eqn:Hp; cbn in *; [by apply in_flight_not_final in Hs; apply Hs; set_solver|]. rewrite (bool_decide_eq_true_2 _ E) in Hp.
  apply negb_false_iff, mem_true in Hp. by apply in_flight_not_final in Hs.
Qed.

Lemma quarantine_claims id code now u u' a : quarantine id code now u = (Ret a, u') → up_claims u' = up_claims u.
Proof. unfold quarantine, update_publications. py_cbn. destruct (forallb _ _); by intros [= <- <-]. Qed.

Lemma keeps_conflict erase c code now u :
  c ∈ up_claims u → keeps_at (conflict_claim erase (cm_id c) now ;; quarantine (ci_checkpoint (cm_identity c)) code now) u.
Proof.
  intros Hc Hu. rewrite (quarantine_after_conflict _ _ _ _ _ _ Hu).
  refine (keeps_at_bind (quarantine (ci_checkpoint (cm_identity c)) code now) (λ _, conflict_claim erase (cm_id c) now) u _ _ Hu); [apply keeps_quarantine|].
  intros [] u' Hq Hu'. apply keeps_update_claims. intros d Hd E (Hd1 & Hd2 & Hd3 & Hd4). apply bool_decide_eq_true in E. split_and!.
  - unfold claim_move. cbn. split_and!; auto. destruct (decide (cm_state d = "CONFLICT")); [auto|right]. by apply conflict_rank.
  - unfold claim_ok. cbn. split_and!; [set_solver|by intros [[=]|[=]]|done..].
  - intros q Hq' Hs Eq _. exfalso. assert (d = c) as ->.
    { apply (key_unique cm_id (up_claims u)); auto; [apply ok_claim_ids, Hu|]. by rewrite <-(quarantine_claims _ _ _ _ _ _ Hq). }
    exact (quarantined_not_in_flight _ _ _ _ _ q Hu Hq Hq' Eq Hs).
Qed.

(** The claim that was read, again. *)
Lemma read_claim id u c d : uploads_ok u → List.find (λ c, cm_id c == id) (up_claims u) = Some c → d ∈ up_claims u → cm_id d = id → d = c.
Proof.
  intros Hu [Hc E]%find_some_iff Hd Ed. apply bool_decide_eq_true in E. apply (key_unique cm_id (up_claims u)); [apply ok_claim_ids, Hu|done..|congruence].
Qed.

Lemma read_publication id u p q : uploads_ok u → find_publication id u = Some p → q ∈ up_publications u → pb_id q = id → q = p.
Proof.
  intros Hu [Hc E]%find_some_iff Hd Ed. apply bool_decide_eq_true in E. apply (key_unique pb_id (up_publications u)); [apply ok_publication_ids, Hu|done..|congruence].
Qed.

(** The obligations of an update of claims from a state, and of publications
    along an edge. *)
Ltac advance_claims Hclaim :=
  apply keeps_update_claims;
  let c := fresh "c" in let Hc := fresh "Hc" in let Ep := fresh "Ep" in 
  intros c Hc Ep Hclaim; b2p; destruct Ep as [_ Ep];
  eapply claim_advances; [exact Ep|reflexivity|reflexivity|vm_compute; lia|..].

Section methods.
Context (sha256 : string → string).

Lemma keeps_claim_start id now u : keeps_at (claim_start sha256 id now) u.
Proof.
  unfold claim_start. keep. advance_claims Hclaim; [|set_solver]. destruct Hclaim as (_ & H1 & _). split_and!; cbn; [set_solver|auto|done|done].
Qed.

Lemma keeps_mark_ready id t v now u : keeps_at (mark_ready sha256 id t v now) u.
Proof.
  unfold mark_ready. keep.
  - advance_claims Hclaim; [|set_solver]. split_and!; cbn; [set_solver|by intros [[=]|[=]]|done|done].
  - apply keeps_update_publications. intros r Hr Ep Hok' Hf Hck. b2p. destruct Ep as [_ Es].
    apply publication_advances; auto; cbn; try lia; [rewrite Es; constructor|]. intros Hs. cbn in Hs. unfold IN_FLIGHT in Hs. in_list Hs; discriminate.
Qed.

Lemma bind_assoc {A B C} (m : M uploads A) (g : A → M uploads B) (f : B → M uploads C) u :
  mbind f (mbind g m) u = mbind (λ a, mbind f (g a)) m u.
Proof. unfold mbind, M_bind. by destruct (m u) as [[]]. Qed.

Lemma keeps_conflict_then erase c cid id code now (k : M uploads unit) u :
  c ∈ up_claims u → cid = cm_id c → id = ci_checkpoint (cm_identity c) → (∀ u', keeps_at k u') →
  keeps_at (conflict_claim erase cid now ;; quarantine id code now ;; k) u.
Proof.
  intros Hc -> -> Hk Hu.
  rewrite <-(bind_assoc (conflict_claim erase (cm_id c) now) (λ _, quarantine (ci_checkpoint (cm_identity c)) code now) (λ _, k)).
  revert Hu. apply keeps_at_bind; [by apply keeps_conflict|auto].
Qed.

Lemma keeps_ensure_claim id i now u : keeps_at (ensure_claim sha256 id i now) u.
Proof.
  unfold ensure_claim. keep.
  - apply keeps_insert_claim. split_and!; cbn; [set_solver|done..].
  - match goal with H : List.find _ _ = Some _ |- _ => apply find_some_iff in H as [Hin Hs] end. unfold same_file in Hs. b2p.
    eapply keeps_conflict_then; [exact Hin|done|symmetry; tauto|]. intros. apply keeps_record_upload_event.
Qed.

Lemma keeps_mark_start_ambiguous id now u : keeps_at (mark_start_ambiguous sha256 id now) u.
Proof.
  unfold mark_start_ambiguous. keep; [|apply keeps_quarantine]. apply keeps_update_claims. intros c Hc Ep Hclaim. b2p.
  match goal with H : List.find _ _ = Some _ |- _ => rewrite (read_claim _ _ _ c Hok H Hc Ep) in * end.
  eapply claim_advances; [eassumption|reflexivity|reflexivity|vm_compute; lia|..|set_solver].
  split_and!; cbn; [set_solver|by intros [[=]|[=]]|done|done].
Qed.

Lemma upload_complete_files p u : upload_complete p u = true → pi_files (pb_identity p) ≤ claims_in (pb_id p) UPLOADED u.
Proof.
  unfold upload_complete, claims_in. b2p. intros [[_ H] _]. rewrite <-H. apply inj_le. clear H. induction (up_claims u) as [|c l IH]; cbn; [lia|].
  destruct (_ == pb_id p); cbn; [|done]. destruct (cm_state c == "UPLOADED") eqn:E; [|case_match; cbn; lia].
  apply bool_decide_eq_true in E. rewrite E.
  change (mem "UPLOADED" UPLOADED) with true. cbn. lia.
Qed.

Lemma keeps_complete_claim id n h now u : keeps_at (complete_claim sha256 id n h now) u.
Proof.
  unfold complete_claim. keep.
  - match goal with H : List.find _ _ = Some _ |- _ => apply find_some_iff in H as [Hin Hs] end. b2p.
    eapply keeps_conflict_then; [exact Hin|done|done|]. intros. apply keeps_record_upload_event.
  - advance_claims Hclaim; [|set_solver]. split_and!; cbn; [set_solver|by intros [[=]|[=]]|done|done].
  - apply keeps_update_publications. intros r Hr Ep Hok' Hf Hck. b2p. destruct Ep as [Er Es].
    apply publication_advances; auto; cbn; try lia; [rewrite Es; constructor|]. intros _. cbn.
    rewrite (read_publication _ _ _ _ Hok2 E2 Hr Er). by apply upload_complete_files.
Qed.

Lemma keeps_begin_finalize id v now u : keeps_at (begin_finalize sha256 id v now) u.
Proof.
  unfold begin_finalize. keep.
  - apply keeps_update_publications. intros r Hr Ep (Hv & Hp & _) Hf Hck. b2p. destruct Ep as [Er Es]. rewrite Es in *. split_and!.
    + apply publication_moves_edge; cbn; auto; try lia; [rewrite Es; constructor|by intros ?|]. rewrite Hp by (repeat constructor). by intros ?.
    + split_and!; cbn; [intros _; apply Hv; repeat constructor| |done]. intros Hs. in_list Hs; discriminate.
    + intros _. apply Hf. rewrite Es. repeat constructor.
  - apply keeps_update_publications. intros r Hr Ep (Hv & Hp & _) Hf Hck. b2p. split_and!; [|split_and!; auto|done].
    unfold publication_move, stays. cbn. split_and!; auto; first [lia|reflexivity].
Qed.

Lemma keeps_resolve_dataset id v now u : keeps_at (resolve_dataset sha256 id v now) u.
Proof.
  unfold resolve_dataset. keep.
  - apply keeps_update_publications. intros r Hr Ep (Hv & Hp & _) Hf Hck. b2p. destruct Ep as [Er Es]. rewrite Es in *. split_and!.
    + apply publication_moves_edge; cbn; auto; try lia; [rewrite Es; constructor| |by intros ?]. rewrite Hv by (repeat constructor). by intros ?.
    + split_and!; cbn; [..|done]; intros Hs; in_list Hs; discriminate.
    + intros _. apply Hf. rewrite Es. repeat constructor.
  - advance_claims Hclaim; [|intros _; cbn; repeat constructor]. split_and!; cbn; [set_solver|by intros [[=]|[=]]|done|done].
Qed.

Lemma keeps_start_verification id v now u : keeps_at (start_verification sha256 id v now) u.
Proof.
  unfold start_verification. keep. apply keeps_update_publications. intros r Hr Ep Hok' Hf Hck. b2p. destruct Ep as [[Er Es] _].
  apply publication_advances; auto; cbn; try lia; [rewrite Es; constructor|]. intros _. apply Hf. rewrite Es. repeat constructor.
Qed.

Lemma retry_allowed p code u : retry_denied p code u = false → pi_files (pb_identity p) ≤ claims_in (pb_id p) UPLOADED u.
Proof.
  unfold retry_denied. destruct (List.find _ (l_candidates _)); [|done]. intros H. apply orb_false_iff in H as [_ H]. apply negb_false_iff, bool_decide_eq_true in H. rewrite <-H.
  unfold claims_in. apply inj_le. rewrite <-(map_id (up_claims u)) at 2. apply filter_length_le. intros d _. unfold id. b2p. rewrite !mem_true. set_solver.
Qed.

Lemma reopen_keeps_rows id code u a u' : reopen_candidate id code u = (Ret a, u') → up_publications u' = up_publications u ∧ up_claims u' = up_claims u.
Proof. by intros [= <- <-]. Qed.

Lemma extended_keeps_rows r u a u' : insert_extended r u = (Ret a, u') → up_publications u' = up_publications u ∧ up_claims u' = up_claims u.
Proof. unfold insert_extended. case_match; [|done]. by intros [= <- <-]. Qed.

Lemma keeps_retry_failed_verification id v now u : keeps_at (retry_failed_verification sha256 id v now) u.
Proof.
  unfold retry_failed_verification. keep.
  assert (up_publications u1 = up_publications u ∧ up_claims u1 = up_claims u) as [Ep Ec].
  { apply reopen_keeps_rows in Hrun as [<- <-]. destruct (_ && _) in Hrun0; repeat monad_inv Hrun0; [|done].
    apply raise_if_inv in Hrun as [_ ->]. by apply extended_keeps_rows in Hrun0. }
  apply keeps_update_publications. intros r Hr Es Hok' Hf Hck. clear Hrun0. b2p. destruct Es as [[Er Es] _]. rewrite Ep in Hr.
  apply publication_advances; auto; cbn; [rewrite Es; constructor|repeat case_match; lia..|]. intros _. cbn.
  rewrite (read_publication _ _ _ _ Hok E0 Hr Er). apply retry_allowed in E1. unfold claims_in in *. by rewrite Ec.
Qed.

(** The transitions that [BrokeredCheckpointUploadService] asks for. *)
Definition SERVICE_TRANSITIONS : list (list string * string) :=
  [(["PREPARING"; "UPLOADING"; "READY_TO_FINALIZE"; "FINALIZING"; "DATASET_RESOLVED"; "VERIFYING"; "VERIFIED"], "FAILED");
   (["PREPARING"; "UPLOADING"; "READY_TO_FINALIZE"; "FINALIZING"; "DATASET_RESOLVED"; "VERIFYING"; "VERIFIED"], "QUARANTINED");
   (["DATASET_RESOLVED"], "FAILED"); (["DATASET_RESOLVED"], "VERIFYING"); (["VERIFYING"], "FAILED"); (["VERIFYING"], "VERIFIED");
   (["VERIFIED"], "PROMOTED")].

Definition service_request (q : transition_request) : bool := mem (tq_expected q, tq_state q) SERVICE_TRANSITIONS && (tq_version q == None).

Lemma service_edge q s : service_request q = true → s ∈ tq_expected q →
  publication_edge s (tq_state q) ∧ (tq_state q ∈ IN_FLIGHT → s ∈ IN_FLIGHT).
Proof.
  unfold service_request. intros [H%mem_true _]%andb_true_iff Hs. unfold SERVICE_TRANSITIONS in H.
  in_list H; injection H as H1 H2; rewrite H1 in Hs; rewrite H2; in_list Hs; subst s; (split; [constructor|]); try (intros _; repeat constructor; fail);
    try (intros Hf; unfold IN_FLIGHT in Hf; in_list Hf; discriminate); intros Hf; in_list Hf; discriminate.
Qed.

Lemma keeps_transition id q now u : service_request q = true → keeps_at (transition sha256 id q now) u.
Proof.
  intros Hq. assert (tq_version q = None) as Hv by (unfold service_request in Hq; b2p; tauto). unfold transition. rewrite Hv.
  keep; apply keeps_update_publications; intros r Hr Ep Hok' Hf Hck; b2p; destruct Ep as [Er Es];
    match goal with H : mem (pb_state ?a) _ = true |- _ => apply mem_true in H; rewrite <-Es in H; destruct (service_edge _ _ Hq H) as [He Hi] end;
    (apply publication_advances; auto; cbn; [lia..|]; intros Hs; apply Hf, Hi, Hs).
Qed.
End methods.
