(* ===== verification/UploadRuns.v ===== *)
(** * UploadRuns: what holds along every execution of the upload ledger

    Sequences of calls of the methods that write, at any clock readings, each
    returning or raising, the control ledger's own tables changing in between.
    Requests for a transition are the ones [BrokeredCheckpointUploadService]
    makes. *)

From S2P Require Import Prelude Time Json LedgerState UploadLedger UploadSafety.

(** ** Executions *)

Inductive upload_call :=
| EnsurePublication (checkpoint_id : string) (i : publication_identity)
| EnsureClaim (claim_id : string) (i : claim_identity)
| ClaimStart (claim_id : string)
| MarkReady (claim_id sealed_blob_token sealed_create_url : string)
| MarkStartAmbiguous (claim_id : string)
| CompleteClaim (claim_id : string) (bytes_sent : Z) (content_sha256 : string)
| BeginFinalize (checkpoint_id : string) (expected_provider_version : Z)
| ResolveDataset (checkpoint_id exact_version_ref : string)
| StartVerification (checkpoint_id verifier_revision_sha256 : string)
| RetryFailedVerification (checkpoint_id verifier_revision_sha256 : string)
| Transition (checkpoint_id : string) (q : transition_request).

Inductive upload_answer :=
| APublication (p : publication_row) | AClaim (c : claim_row) | ANewClaim (c : claim_row) (created : bool) | AReopened (p : option publication_row) | ADone.

(** A call, or a change of the control ledger by its other users. *)
Inductive upload_action := Call (c : upload_call) (now : Z) | Elsewhere (l : ledger).

Definition service_action (a : upload_action) : bool :=
  match a with Call (Transition _ q) _ => service_request q | _ => true end.

Section runs.
Context (sha256 : string → string).

Definition run_call (c : upload_call) (now : Z) : M uploads upload_answer :=
  match c with
  | EnsurePublication id i => p ← ensure_publication sha256 id i now; mret (APublication p)
  | EnsureClaim id i => r ← ensure_claim sha256 id i now; mret (ANewClaim r.1 r.2)
  | ClaimStart id => r ← claim_start sha256 id now; mret (AClaim r)
  | MarkReady id t u => r ← mark_ready sha256 id t u now; mret (AClaim r)
  | MarkStartAmbiguous id => mark_start_ambiguous sha256 id now ;; mret ADone
  | CompleteClaim id n h => r ← complete_claim sha256 id n h now; mret (AClaim r)
  | BeginFinalize id v => p ← begin_finalize sha256 id v now; mret (APublication p)
  | ResolveDataset id v => p ← resolve_dataset sha256 id v now; mret (APublication p)
  | StartVerification id v => p ← start_verification sha256 id v now; mret (APublication p)
  | RetryFailedVerification id v => p ← retry_failed_verification sha256 id v now; mret (AReopened p)
  | Transition id q => p ← transition sha256 id q now; mret (APublication p)
  end.

Definition run_action (a : upload_action) : M uploads upload_answer :=
  match a with
  | Call c now => run_call c now
  | Elsewhere l => modify (λ u, mk_uploads l (up_publications u) (up_claims u) (up_events u) (up_extended u)) ;; mret ADone
  end.

Fixpoint upload_run (acts : list upload_action) (u : uploads) : list (upload_action * outcome upload_answer) * uploads :=
  match acts with
  | [] => ([], u)
  | a :: rest => let '(o, u1) := run_action a u in let '(trace, u2) := upload_run rest u1 in ((a, o) :: trace, u2)
  end.

(** ** The invariant along executions *)

Lemma keeps_call_then {A B} (m : M uploads A) (f : A → B) u : keeps_at m u → keeps_at (a ← m; mret (f a)) u.
Proof. intros H. apply keeps_at_bind; [done|]. intros. by apply keeps_at_pure. Qed.

Lemma keeps_run_action a u : service_action a = true → keeps_at (run_action a) u.
Proof.
  destruct a as [c now|l]; intros Ha; [destruct c; cbn -[service_request] in *; apply keeps_call_then|].
  - apply keeps_ensure_publication.
  - apply keeps_ensure_claim.
  - apply keeps_claim_start.
  - apply keeps_mark_ready.
  - apply keeps_mark_start_ambiguous.
  - apply keeps_complete_claim.
  - apply keeps_begin_finalize.
  - apply keeps_resolve_dataset.
  - apply keeps_start_verification.
  - apply keeps_retry_failed_verification.
  - by apply keeps_transition.
  - intros [H1 H2 H3 H4 H5 H6 H7]. split; split; cbn; auto; try apply rows_move_refl; try apply _. exists []. by rewrite app_nil_r.
Qed.

Lemma keeps_run acts u : Forall (λ a, service_action a = true) acts → uploads_ok u →
  uploads_ok (upload_run acts u).2 ∧ uploads_move u (upload_run acts u).2.
Proof.
  intros Ha. revert u. induction Ha as [|a acts Ha _ IH]; intros u Hu; cbn; [by split|].
  destruct (keeps_run_action a u Ha Hu) as [H1 H2]. destruct (run_action a u) as [o u1]. cbn in *. destruct (IH u1 H1) as [H3 H4].
  destruct (upload_run acts u1) as [trace u2]. cbn in *. split; [done|by etransitivity].
Qed.

Lemma no_uploads_ok l : uploads_ok (mk_uploads l [] [] [] []).
Proof. split; cbn; try (by intros ? ?%not_elem_of_nil); constructor. Qed.

(** An amount that each event of a kind uses up and nothing gives back bounds
    how often the event happens. *)
Lemma bounded_events (event : upload_action → outcome upload_answer → bool) (left : uploads → Z) :
  (∀ u, uploads_ok u → 0 ≤ left u) →
  (∀ a u, service_action a = true → uploads_ok u →
     left (run_action a u).2 + (if event a (run_action a u).1 then 1 else 0) ≤ left u) →
  ∀ acts u, Forall (λ a, service_action a = true) acts → uploads_ok u →
    Z.of_nat (length (List.filter (λ e, event e.1 e.2) (upload_run acts u).1)) ≤ left u.
Proof.
  intros H0 H acts u Ha. revert u. induction Ha as [|a acts Ha _ IH]; intros u Hu; cbn; [by apply H0|].
  specialize (H a u Ha Hu). destruct (keeps_run_action a u Ha Hu) as [H1 _]. destruct (run_action a u) as [o u1]. cbn in *. specialize (IH u1 H1).
  destruct (upload_run acts u1) as [trace u2]. cbn in *. destruct (event a o); cbn; lia.
Qed.

(** ** A blob is started once *)

(** The provider's start of a blob follows a [claim_start] that returned. *)
Definition blob_started (claim_id : string) (a : upload_action) (o : outcome upload_answer) : bool :=
  match a, o with Call (ClaimStart id) _, Ret _ => id == claim_id | _, _ => false end.

Definition starts_left (claim_id : string) (u : uploads) : Z :=
  match List.find (λ c, cm_id c == claim_id) (up_claims u) with
  | Some c => if cm_state c == "PREPARING" then 1 else 0
  | None => 1
  end.

Lemma starts_left_move id u u' : uploads_move u u' → starts_left id u' ≤ starts_left id u.
Proof.
  intros [Hm _ _]. unfold starts_left. destruct (List.find _ (up_claims u)) as [c|] eqn:E; [|repeat case_match; lia].
  destruct (rows_move_find claim_move cm_id (up_claims u) (up_claims u') id c) as (c' & -> & (_ & _ & Hs)); [by intros ?? []|done..|].
  destruct (cm_state c == "PREPARING") eqn:E1; [by destruct (cm_state c' == _)|]. rewrite bool_decide_eq_false_2; [done|]. apply bool_decide_eq_false in E1.
  intros E2. rewrite E2 in Hs. destruct Hs as [Hs|Hs]; [congruence|]. change (claim_rank "PREPARING") with 0%nat in Hs. lia.
Qed.

Lemma event_keeps_rows id c ty ev now u a u' : record_upload_event sha256 id c ty ev now u = (Ret a, u') →
  up_publications u' = up_publications u ∧ up_claims u' = up_claims u ∧ up_extended u' = up_extended u.
Proof.
  unfold record_upload_event. py_cbn. destruct (evidence_digest sha256 ev); [|done]. repeat case_match; intros [=]; subst; auto.
Qed.

Lemma claim_start_inv id now u c u' : claim_start sha256 id now u = (Ret c, u') → starts_left id u = 1 ∧ starts_left id u' = 0.
Proof.
  unfold claim_start. intros H. repeat monad_inv H. apply get_claim_inv in Hrun as [E ->]. apply raise_if_inv in Hrun0 as [Es ->].
  apply negb_false_iff in Es. injection Hrun1 as <- <-. apply raise_if_inv in Hrun2 as [_ ->]. apply event_keeps_rows in Hrun3 as (_ & Ec & _). apply get_claim_inv in H as [Hf ->].
  unfold starts_left. rewrite E, Es. split; [done|]. rewrite Ec. cbn. rewrite find_map_update by (intros x; by destruct (_ && _)). rewrite E. cbn.
  apply find_some_iff in E as [_ E]. by rewrite E, Es.
Qed.

(** However the calls interleave and however often a runtime repeats them,
    [claim_start] returns at most once for a claim: the blob upload of a file is
    started at the provider at most once. *)
Theorem blob_started_at_most_once claim_id acts u :
  Forall (λ a, service_action a = true) acts → uploads_ok u →
  (length (List.filter (λ e, blob_started claim_id e.1 e.2) (upload_run acts u).1) ≤ 1)%nat.
Proof.
  intros Ha Hu. assert (starts_left claim_id u ≤ 1) by (unfold starts_left; repeat case_match; lia).
  enough (Z.of_nat (length (List.filter (λ e, blob_started claim_id e.1 e.2) (upload_run acts u).1)) ≤ starts_left claim_id u) by lia.
  revert acts u Ha Hu H. intros acts u Ha Hu _. apply bounded_events; [|intros a v Hs Hv|done..].
  { intros v _. unfold starts_left. repeat case_match; lia. }
  pose proof (starts_left_move claim_id v _ (proj2 (keeps_run_action a v Hs Hv))) as Hm.
  destruct (blob_started claim_id a _) eqn:E; [|lia]. destruct a as [[]|]; cbn in E, Hm |- *; try done.
  unfold mbind, M_bind in *. destruct (claim_start sha256 claim_id0 now v) as [[c|e] v'] eqn:Ec; cbn in *; [|done].
  apply bool_decide_eq_true in E as ->. apply claim_start_inv in Ec as [-> ->]. lia.
Qed.

(** ** Recovery is bounded *)

(** A failed publication was reopened for another verification. *)
Definition verification_reopened (checkpoint_id : string) (a : upload_action) (o : outcome upload_answer) : bool :=
  match a, o with Call (RetryFailedVerification id _) _, Ret (AReopened (Some _)) => id == checkpoint_id | _, _ => false end.

Definition attempts_made (checkpoint_id : string) (u : uploads) : Z :=
  match find_publication checkpoint_id u with Some p => pb_verifier_attempts p + pb_recovery_attempts p | None => 0 end + extended_attempts checkpoint_id u.

Lemma NoDup_length_le {A} (l k : list A) : NoDup l → l ⊆ k → (length l ≤ length k)%nat.
Proof. intros Hl Hs. by apply submseteq_length, NoDup_submseteq. Qed.

Lemma extended_at_most_three id u : uploads_ok u → extended_attempts id u ≤ 3.
Proof.
  intros Hu. unfold extended_attempts. set (mine := List.filter _ _).
  assert (length (map xr_sequence mine) ≤ length [1%Z; 2%Z; 3%Z])%nat as H; [apply NoDup_length_le|rewrite length_map in H; cbn in H; lia].
  - pose proof (NoDup_map_filter _ (λ x, xr_checkpoint x == id) _ (ok_sequences u Hu)) as H. fold mine in H.
    rewrite (map_ext_in (λ x, (xr_checkpoint x, xr_sequence x)) (λ x, (id, xr_sequence x))) in H.
    + rewrite <-(map_map xr_sequence (λ n, (id, n))) in H. by apply NoDup_fmap_1 in H.
    + intros x [_ Hx%bool_decide_eq_true]%list_elem_of_In%filter_elem. by rewrite Hx.
  - intros n (x & -> & [Hx _]%filter_elem)%list_elem_of_fmap. pose proof (ok_extended u Hu x Hx).
    assert (xr_sequence x = 1 ∨ xr_sequence x = 2 ∨ xr_sequence x = 3) as [->|[->| ->]] by lia; set_solver.
Qed.

Lemma attempts_bounded id u : uploads_ok u → 0 ≤ attempts_made id u ≤ 8.
Proof.
  intros Hu. pose proof (extended_at_most_three id u Hu). assert (0 ≤ extended_attempts id u) by (unfold extended_attempts; lia). unfold attempts_made.
  destruct (find_publication id u) as [p|] eqn:E; [|lia]. apply find_some_iff in E as [Hp _].
  destruct (ok_publications u Hu p Hp) as (_ & _ & ?%publication_check_counts). lia.
Qed.

Lemma attempts_move id u u' : uploads_ok u' → uploads_move u u' → attempts_made id u ≤ attempts_made id u'.
Proof.
  intros Hu [_ Hm [new Hx]]. unfold attempts_made.
  assert (extended_attempts id u ≤ extended_attempts id u') by (unfold extended_attempts; rewrite Hx, List.filter_app, length_app; lia).
  destruct (find_publication id u) as [p|] eqn:E.
  - destruct (rows_move_find publication_move pb_id (up_publications u) (up_publications u') id p) as (p' & E' & Hp); [by intros ?? []|done..|].
    unfold find_publication in *. rewrite E'. destruct Hp as (_ & _ & _ & _ & _ & ? & ? & _). lia.
  - destruct (find_publication id u') as [p|] eqn:E'; [|lia]. apply find_some_iff in E' as [Hp _].
    destruct (ok_publications u' Hu p Hp) as (_ & _ & ?%publication_check_counts). lia.
Qed.

Lemma update_publications_inv p f u n u' : update_publications p f u = (Ret n, u') →
  u' = set_publications (map (λ r, if p r then f r else r) (up_publications u)) u.
Proof. unfold update_publications. destruct (forallb _ _); by intros [= _ <-]. Qed.

Lemma insert_extended_inv r u n u' : insert_extended r u = (Ret n, u') →
  up_publications u' = up_publications u ∧ extended_attempts (xr_checkpoint r) u' = extended_attempts (xr_checkpoint r) u + 1.
Proof.
  unfold insert_extended. case_match; intros [=]; subst. split; [done|]. unfold extended_attempts. cbn.
  rewrite List.filter_app, length_app. cbn. rewrite bool_decide_eq_true_2 by done. cbn. lia.
Qed.

(** The failed publication is the one that is reopened. *)
Lemma reopened_row p id f u :
  find_publication id u = Some p → (pb_state p != "FAILED") || negb (mem (default "" (pb_failure p)) RECOVERABLE) = false → (∀ r, pb_id (f r) = pb_id r) →
  find_publication id (set_publications (map (λ r, if (pb_id r == id) && (pb_state r == "FAILED") && (pb_failure r == Some (default "" (pb_failure p)))
                                                  then f r else r) (up_publications u)) u) = Some (f p).
Proof.
  intros E Hg Hf. unfold find_publication in *. cbn. rewrite find_map_update by (intros r; case_match; by rewrite ?Hf). rewrite E. cbn. f_equal.
  apply find_some_iff in E as [_ E]. b2p. destruct Hg as [Hs Hm]. rewrite (bool_decide_eq_true_2 _ E), (bool_decide_eq_true_2 _ Hs). cbn.
  rewrite bool_decide_eq_true_2; [done|]. destruct (pb_failure p); [done|]. by vm_compute in Hm.
Qed.

Lemma retry_makes_attempt id v now u p u' : uploads_ok u →
  retry_failed_verification sha256 id v now u = (Ret (Some p), u') → attempts_made id u + 1 ≤ attempts_made id u'.
Proof.
  intros Hu. unfold retry_failed_verification. intros H. repeat monad_inv H; cbv zeta in *; repeat monad_inv H.
  apply raise_if_inv in Hrun as [_ ->]. apply get_publication_inv in Hrun0 as [E ->]. apply get_inv in Hrun1 as [-> ->].
  apply raise_if_inv in Hrun2 as [_ ->]. injection Hrun3 as _ <-. apply update_publications_inv in Hrun5 as ->.
  apply raise_if_inv in Hrun6 as [_ ->]. apply refreshed_inv in Hrun7 as [Hp ->]. apply event_keeps_rows in Hrun8 as (Ep & _ & Ex).
  set (exhausted := (3 <=? pb_verifier_attempts a0) && (2 <=? pb_recovery_attempts a0)) in *.
  assert (up_publications s4 = up_publications u ∧ extended_attempts id s4 = extended_attempts id u + (if exhausted then 1 else 0)) as [Eu E4].
  { destruct exhausted; repeat monad_inv Hrun4; [|by rewrite Z.add_0_r]. apply raise_if_inv in Hrun as [_ ->]. by apply insert_extended_inv in Hrun4. }
  assert (find_publication id s4 = Some a0) as E' by (unfold find_publication in *; by rewrite Eu).
  assert (find_publication id s8 = Some p) as E8 by (unfold find_publication in *; by rewrite Ep).
  rewrite (reopened_row a0) in Hp by done. injection Hp as <-. unfold attempts_made. rewrite E, E8. cbn.
  assert (extended_attempts id s8 = extended_attempts id s4) as -> by (unfold extended_attempts; by rewrite Ex). rewrite E4.
  clear -exhausted. subst exhausted. repeat case_match; b2p; lia.
Qed.

(** C27: The recovery of a checkpoint's verification ends: whatever revisions of
    the verifier come, a failed publication is reopened at most 8 times (3
    attempts, 2 recoveries and 3 extended recoveries), counting the attempts
    made before. *)
Theorem verification_recovery_ends checkpoint_id acts u :
  Forall (λ a, service_action a = true) acts → uploads_ok u →
  Z.of_nat (length (List.filter (λ e, verification_reopened checkpoint_id e.1 e.2) (upload_run acts u).1)) + attempts_made checkpoint_id u ≤ 8.
Proof.
  intros Ha Hu.
  enough (Z.of_nat (length (List.filter (λ e, verification_reopened checkpoint_id e.1 e.2) (upload_run acts u).1)) ≤ 8 - attempts_made checkpoint_id u) by lia.
  apply (bounded_events (verification_reopened checkpoint_id) (λ u, 8 - attempts_made checkpoint_id u)); [|intros a v Hs Hv|done..].
  { intros v Hv. pose proof (attempts_bounded checkpoint_id v Hv). lia. }
  destruct (keeps_run_action a v Hs Hv) as [Hv' Hm%(attempts_move checkpoint_id)]; [|done].
  destruct (verification_reopened _ a _) eqn:E; [|lia]. destruct a as [[]|]; cbn in E, Hm |- *; try done.
  unfold mbind, M_bind in *. destruct (retry_failed_verification _ _ _ _ _) as [[[p|]|e] v'] eqn:Ec; cbn in *; [|done..].
  apply bool_decide_eq_true in E as ->. apply retry_makes_attempt in Ec; [lia|done].
Qed.

(** ** Publications *)

Lemma final_edge s s' : rtc publication_edge s s' → s ∈ ["PROMOTED"; "QUARANTINED"] → s' = s.
Proof.
  intros H Hs. inversion H as [|? t ? He]; [done|subst]. exfalso. in_list Hs; subst; inversion He; subst; set_solver.
Qed.

(** C26: Along any execution a publication keeps what identifies it, moves only
    along the edges of its state machine, and never changes the version that the
    provider was asked for or the version that it resolved; a promoted or
    quarantined publication stays as it is. *)
Theorem publications_only_advance checkpoint_id acts u p :
  Forall (λ a, service_action a = true) acts → uploads_ok u → find_publication checkpoint_id u = Some p →
  ∃ p', find_publication checkpoint_id (upload_run acts u).2 = Some p' ∧ pb_identity p' = pb_identity p ∧
    rtc publication_edge (pb_state p) (pb_state p') ∧ stays (pb_version p) (pb_version p') ∧ stays (pb_provider_version p) (pb_provider_version p') ∧
    (pb_state p ∈ ["PROMOTED"; "QUARANTINED"] → pb_state p' = pb_state p).
Proof.
  intros Ha Hu E. destruct (keeps_run acts u Ha Hu) as [_ [_ Hm _]].
  destruct (rows_move_find publication_move pb_id _ _ checkpoint_id p (λ a b (H : publication_move a b), proj1 H) Hm E) as (p' & E' & (_ & H1 & H2 & H3 & H4 & _)).
  exists p'. split_and!; auto. by apply final_edge.
Qed.

(** C25: From an empty store on, a publication that is being finalized, verified
    or promoted has every expected file uploaded. *)
Theorem finalized_only_when_uploaded acts l p :
  Forall (λ a, service_action a = true) acts → let u := (upload_run acts (mk_uploads l [] [] [] [])).2 in
  p ∈ up_publications u → pb_state p ∈ IN_FLIGHT → pi_files (pb_identity p) ≤ claims_in (pb_id p) ["UPLOADED"; "CONSUMED"] u.
Proof. intros Ha u Hp. by apply (ok_files u (proj1 (keeps_run acts _ Ha (no_uploads_ok l)))). Qed.

(** The sealed URL is erased when the upload completes, the sealed token
    when the Dataset version is resolved, and neither exists before the provider
    answered. *)
Theorem sealed_grants_are_erased acts l c :
  Forall (λ a, service_action a = true) acts → c ∈ up_claims (upload_run acts (mk_uploads l [] [] [] [])).2 →
  (cm_state c = "PREPARING" ∨ cm_state c = "STARTING" → cm_token c = None ∧ cm_url c = None) ∧ (cm_state c = "UPLOADED" → cm_url c = None) ∧
  (cm_state c = "CONSUMED" → cm_token c = None ∧ cm_url c = None).
Proof. intros Ha Hc. by apply (ok_claims _ (proj1 (keeps_run acts _ Ha (no_uploads_ok l)))). Qed.

(** ** Calls that raise *)

(** A conflict was recorded: the claim is in conflict, and its publication is
    not on its way to promotion. *)
Definition conflict_recorded (u : uploads) : Prop :=
  ∃ c, c ∈ up_claims u ∧ cm_state c = "CONFLICT" ∧ ∀ p, p ∈ up_publications u → pb_id p = ci_checkpoint (cm_identity c) → pb_state p ∉ IN_FLIGHT.

Lemma conflict_records erase c code now ty ev u a u' : uploads_ok u → c ∈ up_claims u →
  (conflict_claim erase (cm_id c) now ;; quarantine (ci_checkpoint (cm_identity c)) code now ;;
   record_upload_event sha256 (ci_checkpoint (cm_identity c)) (Some (cm_id c)) ty ev now) u = (Ret a, u') → conflict_recorded u'.
Proof.
  intros Hu Hc. rewrite <-(bind_assoc (conflict_claim erase (cm_id c) now) (λ _, quarantine (ci_checkpoint (cm_identity c)) code now)).
  intros (x & u2 & H & (Ep & Ec & _)%event_keeps_rows)%bind_ret_inv. rewrite (quarantine_after_conflict _ _ _ _ _ _ Hu) in H.
  apply bind_ret_inv in H as (y & u1 & Hq & [= <- <-]). pose proof (quarantine_claims _ _ _ _ _ _ Hq) as E1. destruct y.
  exists (cm_set_sealed (cm_token c) (if erase then None else cm_url c) (cm_set_state "CONFLICT" now c)). rewrite Ec, Ep. cbn. split_and!; [|done|].
  - apply elem_of_update. exists c. rewrite E1, bool_decide_eq_true_2 by done. done.
  - intros p Hp Eid. exact (quarantined_not_in_flight _ _ _ _ _ p Hu Hq Hp Eid).
Qed.

Lemma bind_exc_inv {A B} (m : M uploads A) (k : A → M uploads B) u e u' : mbind k m u = (Exc e, u') →
  m u = (Exc e, u') ∨ ∃ a u1, m u = (Ret a, u1) ∧ k a u1 = (Exc e, u').
Proof. unfold mbind, M_bind. destruct (m u) as [[a|e1] u1]; [eauto|]. intros [= -> ->]. auto. Qed.

Lemma read_exc {A B} (m : M uploads A) (k : A → M uploads B) u e u' : (m u).2 = u → (∀ a, k a u = (Exc e, u') → u' = u) → mbind k m u = (Exc e, u') → u' = u.
Proof. intros Hm Hk [H|(a & u1 & H & H')]%bind_exc_inv; rewrite H in Hm; cbn in Hm; [done|]. subst u1. eauto. Qed.

Lemma answered_exc {A B} (m : M uploads A) (f : A → B) u e u' : (a ← m; mret (f a)) u = (Exc e, u') → m u = (Exc e, u').
Proof. by intros [H|(a & u1 & H & [=])]%bind_exc_inv. Qed.

(** The claim of a file exists after the insertion. *)
Lemma insert_claim_inv r u created u1 : insert_claim r u = (Ret created, u1) →
  ∃ c, List.find (same_file (cm_identity r)) (up_claims u1) = Some c ∧ (u1 = u ∨ c = r).
Proof.
  unfold insert_claim. destruct (existsb (same_file _) _) eqn:E; [intros [= <- <-]|case_match; intros [=]; subst].
  - apply existsb_exists in E as (c & Hc & Hs). destruct (List.find (same_file (cm_identity r)) (up_claims u)) eqn:Hf; [eauto|].
    eapply find_none in Hf; [|done]. congruence.
  - exists r. split; [|auto]. cbn. rewrite find_app. destruct (List.find _ (up_claims u)) eqn:Hf.
    + apply find_some_iff in Hf as [H1 H2]. rewrite existsb_false_iff in E. by rewrite E in H2.
    + cbn. unfold same_file. by rewrite !bool_decide_eq_true_2 by done.
Qed.

Lemma ensure_claim_exc id i now u e u' : uploads_ok u → ensure_claim sha256 id i now u = (Exc e, u') →
  u' = u ∨ class_name e = "IdempotencyConflict" ∧ conflict_recorded u'.
Proof.
  intros Hu H. unfold ensure_claim in H.
  apply bind_exc_inv in H as [H|(x & u0 & [_ ->]%raise_if_inv & H)]; [left; by destruct (claim_invalid _ _) in H; injection H as _ <-|].
  apply bind_exc_inv in H as [H%atomically_exc|([o created] & u1 & H%atomically_inv & H')]; [auto|]. destruct o; [done|]. injection H' as <- <-.
  apply bind_ret_inv in H as (new & u2 & (c & Hf & Hc)%insert_claim_inv & H). apply bind_ret_inv in H as (row & u3 & [-> ->]%gets_inv & H).
  cbn [cm_identity] in Hf. rewrite Hf in H. destruct (cm_identity c != i) eqn:Hi.
  - destruct Hc as [->| ->]; [|by b2p]. apply bind_ret_inv in H as (y & u4 & H & [_ ->]%mret_inv). destruct (mem (cm_state c) _); [by injection H as _ <-; left|].
    right. split; [done|]. apply find_some_iff in Hf as [Hc Hs]. unfold same_file in Hs. b2p. destruct Hs as [Hs _]. rewrite <-Hs in H.
    by eapply conflict_records in H.
  - apply bind_ret_inv in H as (y & u4 & _ & [[=] _]%mret_inv).
Qed.

Lemma complete_claim_exc id n h now u e u' : uploads_ok u → complete_claim sha256 id n h now u = (Exc e, u') →
  u' = u ∨ class_name e = "IdempotencyConflict" ∧ conflict_recorded u'.
Proof.
  intros Hu H. unfold complete_claim in H.
  apply bind_exc_inv in H as [H%atomically_exc|(o & u1 & H%atomically_inv & H')]; [auto|]. destruct o; [done|]. injection H' as <- <-.
  apply bind_ret_inv in H as (c & u2 & [Hf ->]%get_claim_inv & H). cbv zeta in H. apply bind_ret_inv in H as (same & u3 & Hs & H).
  assert (u3 = u) as -> by (destruct (_ != _) in Hs; [by apply mret_inv in Hs as [_ ->]|by apply lift_inv in Hs as [_ ->]]).
  destruct same; cbn [negb] in H; [exfalso; repeat monad_inv H|].
  apply bind_ret_inv in H as (y & u4 & H & [_ ->]%mret_inv). destruct (mem (cm_state c) _); [by injection H as _ <-; left|].
  right. split; [done|]. apply find_some_iff in Hf as [Hc Hid]. b2p. subst id. by eapply conflict_records in H.
Qed.

(** A call that raises leaves the store as it was, or it is a replay or a
    completion that differs from its claim: then it raises
    [IdempotencyConflict], and leaves the claim in conflict and its publication
    out of the way to promotion. *)
Theorem failed_upload_call_effect c now u e u' :
  uploads_ok u → run_call c now u = (Exc e, u') → u' = u ∨ class_name e = "IdempotencyConflict" ∧ conflict_recorded u'.
Proof.
  intros Hu. destruct c; cbn; intros H%answered_exc.
  all: first [by apply ensure_claim_exc in H | by apply complete_claim_exc in H | left; revert H].
  all: first [apply atomically_exc | apply read_exc; [|intros ?; apply atomically_exc]; try apply state_raise_if].
  destruct (tq_verifier_evidence q); [|done]. unfold mbind, M_bind, lift. by destruct (evidence_digest _ _).
Qed.
End runs.

(** ** One checkpoint, followed through *)

Module UploadScenario.
Definition h (c : Ascii.ascii) : string := Nat.iter 64 (String c) "".
Definition digest (_ : string) : string := h "0".

Definition candidate (status : string) (version failure : option string) : candidate_row :=
  mk_candidate "cp-1" "postgres-master" "op-1" "owner/data" version (h "a") None 0 "master-1" 1 status failure 0 None None None.
Definition control (status : string) (version failure : option string) : ledger :=
  set_rows checkpoint_candidates [candidate status version failure]
    (set_rows operations [mk_operation "op-1" "key-1" "ensure_master" (h "b") "CHECKPOINTING" "{}" 0 0] empty_ledger).
Definition start : uploads := mk_uploads (control "CREATED" None None) [] [] [] [].

Definition identity : publication_identity :=
  mk_publication_identity "op-1" "run-1" "attempt-1" "master-1" "service-1" "owner/kernel" 1 "owner/data" (h "a") 0 1 10 "master" None None.
Definition file (expires : Z) : claim_identity :=
  mk_claim_identity "cp-1" "op-1" 1 "manifest.json" 10 "application/json" (h "c") (h "a") (h "d") expires.

Definition failed (code : string) : transition_request :=
  mk_transition ["PREPARING"; "UPLOADING"; "READY_TO_FINALIZE"; "FINALIZING"; "DATASET_RESOLVED"; "VERIFYING"; "VERIFIED"] "FAILED" "publication.failed"
    [("failure_code", JStr code)] None None None None (Some code).

Definition acts : list upload_action :=
  [Call (EnsurePublication "cp-1" identity) 1; Call (EnsureClaim "claim-1" (file 900)) 2; Call (ClaimStart "claim-1") 3; Call (ClaimStart "claim-1") 4;
   Call (MarkReady "claim-1" "token" "url") 5; Call (CompleteClaim "claim-1" 10 (h "c")) 6; Call (BeginFinalize "cp-1" 1) 7;
   Call (ResolveDataset "cp-1" "owner/data/1") 8; Call (StartVerification "cp-1" (h "1")) 9; Call (Transition "cp-1" (failed "CheckpointRuntimeError")) 10;
   Elsewhere (control "FAILED" (Some "owner/data/1") (Some "CheckpointRuntimeError")); Call (RetryFailedVerification "cp-1" (h "2")) 11].

Lemma acts_service : Forall (λ a, service_action a = true) acts.
Proof. repeat constructor. Qed.
Lemma start_ok : uploads_ok start.
Proof. apply no_uploads_ok. Qed.
End UploadScenario.

Import UploadScenario.

Lemma blob_started_at_most_once_witness :
  (length (List.filter (λ e, blob_started "claim-1" e.1 e.2) (upload_run digest acts start).1) ≤ 1)%nat ∧
  existsb (λ e, blob_started "claim-1" e.1 e.2) (upload_run digest acts start).1 = true.
Proof. split; [exact (blob_started_at_most_once digest "claim-1" acts start acts_service start_ok)|]. vm_compute. reflexivity. Defined.

Lemma verification_recovery_ends_witness :
  Z.of_nat (length (List.filter (λ e, verification_reopened "cp-1" e.1 e.2) (upload_run digest acts start).1)) + attempts_made "cp-1" start ≤ 8 ∧
  existsb (λ e, verification_reopened "cp-1" e.1 e.2) (upload_run digest acts start).1 = true.
Proof. split; [exact (verification_recovery_ends digest "cp-1" acts start acts_service start_ok)|]. vm_compute. reflexivity. Defined.

(** The publication after the first eight calls, and after the others. *)
Definition resolved : uploads := (upload_run digest (firstn 8 acts) start).2.
Definition resolved_row : publication_row := default (mk_publication "" identity "" None None 0 None None None None None 0 0 0 0) (find_publication "cp-1" resolved).

Lemma resolved_ok : uploads_ok resolved.
Proof. apply keeps_run; [repeat constructor|apply start_ok]. Qed.

Lemma publications_only_advance_witness :
  pb_version resolved_row = Some "owner/data/1" ∧
  ∃ p', find_publication "cp-1" (upload_run digest (skipn 8 acts) resolved).2 = Some p' ∧ pb_identity p' = pb_identity resolved_row ∧
    rtc publication_edge (pb_state resolved_row) (pb_state p') ∧ stays (pb_version resolved_row) (pb_version p') ∧
    stays (pb_provider_version resolved_row) (pb_provider_version p') ∧
    (pb_state resolved_row ∈ ["PROMOTED"; "QUARANTINED"] → pb_state p' = pb_state resolved_row).
Proof.
  split; [vm_compute; reflexivity|]. apply (publications_only_advance digest "cp-1" (skipn 8 acts) resolved resolved_row); [repeat constructor|apply resolved_ok|].
  vm_compute. reflexivity.
Defined.

Lemma finalized_only_when_uploaded_witness :
  pi_files (pb_identity resolved_row) ≤ claims_in (pb_id resolved_row) ["UPLOADED"; "CONSUMED"] resolved ∧ pb_state resolved_row = "DATASET_RESOLVED".
Proof.
  split; [|vm_compute; reflexivity]. apply (finalized_only_when_uploaded digest (firstn 8 acts) (control "CREATED" None None) resolved_row); [repeat constructor| |].
  - vm_compute. by left.
  - vm_compute. set_solver.
Defined.

(** The claim when it is uploaded. *)
Definition uploaded : list claim_row := up_claims (upload_run digest (firstn 6 acts) start).2.
Definition uploaded_claim : claim_row := default (mk_claim "" (file 0) "" None None None 0 0) (head uploaded).

Lemma sealed_grants_are_erased_witness :
  cm_state uploaded_claim = "UPLOADED" ∧ cm_token uploaded_claim = Some "token" ∧ cm_url uploaded_claim = None.
Proof.
  split; [vm_compute; reflexivity|]. split; [vm_compute; reflexivity|].
  refine (proj1 (proj2 (sealed_grants_are_erased digest (firstn 6 acts) (control "CREATED" None None) uploaded_claim _ _)) _); [repeat constructor|..].
  - vm_compute. by left.
  - vm_compute. reflexivity.
Defined.

(** A completion with other content. *)
Lemma failed_upload_call_effect_witness :
  ((run_call digest (CompleteClaim "claim-1" 9 (h "c")) 7 resolved).2 = resolved ∨
   class_name (Exn IdempotencyConflict "checkpoint upload completion differs from its claim") = "IdempotencyConflict" ∧
   conflict_recorded (run_call digest (CompleteClaim "claim-1" 9 (h "c")) 7 resolved).2) ∧
  map pb_state (up_publications (run_call digest (CompleteClaim "claim-1" 9 (h "c")) 7 resolved).2) = ["QUARANTINED"].
Proof.
  split; [|vm_compute; reflexivity]. apply (failed_upload_call_effect digest (CompleteClaim "claim-1" 9 (h "c")) 7 resolved); [apply resolved_ok|].
  vm_compute. reflexivity.
Defined.
