(* ===== verification/ManifestPayload.v ===== *)
(** * ManifestPayload: reading a checkpoint manifest

    Models [CheckpointManifest.from_payload] of checkpoints/manifest.py and
    proves that a valid manifest reads back from its [payload]. *)

From S2P Require Import Prelude Time Json Uuid LedgerState Manifest.

Definition MANIFEST_FIELDS : list string :=
  ["contract"; "checkpoint_id"; "master_instance_id"; "epoch"; "parent_checkpoint_id"; "postgres_version"; "pgvector_version"; "schema_version";
   "canonical_revision"; "source_run_id"; "source_identity"; "created_at"; "checkpoint_lsn"; "files"; "restore_probe"; "manifest_sha256"].

(** [value[key]] of a dict, or of another value. *)
Definition item (j : json) (key : string) : outcome json :=
  match j with
  | JObj kvs => match assoc key kvs with Some v => Ret v | None => throw KeyError key end
  | _ => throw TypeError "not subscriptable by a text"
  end.

(** [int(value)] and [UUID(str(value))] *)
Definition int_value (j : json) : outcome Z := match py_int j with Some n => Ret n | None => throw ValueError "invalid literal for int()" end.
Definition uuid_value (j : json) : outcome UUID :=
  match uuid_of_text (py_str j) with Some u => Ret u | None => throw ValueError "badly formed hexadecimal UUID string" end.

(** [except (KeyError, TypeError, ValueError): raise ManifestError(...)] *)
Definition as_manifest_error {A} (o : outcome A) : outcome A :=
  match o with
  | Exc e => if mem (exn_cls e) [KeyError; TypeError; ValueError] then throw ManifestError "manifest shape or value is invalid" else Exc e
  | Ret a => Ret a
  end.

Fixpoint outcomes {A B} (f : A → outcome B) (l : list A) : outcome (list B) :=
  match l with [] => Ret [] | a :: l' => b ← f a; bs ← outcomes f l'; Ret (b :: bs) end.

(** [CheckpointFile( **item)]: exactly the four fields. *)
Definition file_fields (j : json) : outcome (list (string * json)) :=
  match j with
  | JObj kvs => throw_if (negb (same_set (map fst kvs) ["path"; "kind"; "byte_size"; "sha256"])) TypeError "unexpected or missing argument" ;; Ret kvs
  | _ => throw TypeError "argument after ** must be a mapping"
  end.

(** The fields of a file with their types.  The dataclass takes any value; one
    of another type raises in [validate]. *)
Definition typed_file (kvs : list (string * json)) : outcome CheckpointFile :=
  match assoc "path" kvs, assoc "kind" kvs, assoc "byte_size" kvs, assoc "sha256" kvs with
  | Some (JStr path), Some (JStr kind), Some (JInt size), Some (JStr digest) => Ret (mk_CheckpointFile path kind size digest)
  | _, _, _, _ => throw TypeError "unsupported type of a file's field"
  end.

(** [{str(key): int(count) for key, count in value.items()}] *)
Definition row_counts (j : json) : outcome (list (string * Z)) :=
  match j with
  | JObj kvs => outcomes (λ kv, n ← int_value kv.2; Ret (kv.1, n)) kvs
  | _ => throw AttributeError "items"
  end.

Definition probe_of (j : json) : outcome RestoreProbe :=
  schema ← item j "schema_version"; schema ← int_value schema;
  revision ← item j "canonical_revision"; revision ← int_value revision;
  digest ← item j "logical_hash_sha256";
  counts ← item j "row_counts"; counts ← row_counts counts;
  Ret (mk_RestoreProbe schema revision (py_str digest) counts).

Section reader.
Context (sha256 : string → string).
(** [datetime.fromisoformat]; [None] is [ValueError]. *)
Context (fromisoformat : string → option datetime).

Definition time_value (j : json) : outcome datetime :=
  match fromisoformat (replace_z (py_str j)) with Some d => Ret d | None => throw ValueError "Invalid isoformat string" end.

Definition from_payload (kvs : list (string * json)) : outcome CheckpointManifest :=
  let value := JObj kvs in
  throw_if (negb (same_set (map fst kvs) MANIFEST_FIELDS)) ManifestError "manifest fields differ" ;;
  read ← as_manifest_error (
    probe_value ← item value "restore_probe";
    contract ← item value "contract";
    id ← item value "checkpoint_id"; id ← uuid_value id;
    master ← item value "master_instance_id"; master ← uuid_value master;
    epoch ← item value "epoch"; epoch ← int_value epoch;
    parent ← item value "parent_checkpoint_id";
    parent ← (if py_truthy parent then u ← uuid_value parent; Ret (Some u) else Ret None);
    postgres ← item value "postgres_version";
    pgvector ← item value "pgvector_version";
    schema ← item value "schema_version"; schema ← int_value schema;
    revision ← item value "canonical_revision"; revision ← int_value revision;
    run ← item value "source_run_id";
    identity ← item value "source_identity";
    created ← item value "created_at"; created ← time_value created;
    lsn ← item value "checkpoint_lsn";
    files ← item value "files";
    files ← match py_iter files with Some l => outcomes file_fields l | None => throw TypeError "not iterable" end;
    probe ← probe_of probe_value;
    digest ← item value "manifest_sha256";
    Ret (files, λ typed, mk_CheckpointManifest id master epoch parent (py_str postgres) (py_str pgvector) schema revision (py_str run)
                          (py_str identity) created (py_str lsn) typed probe (py_str digest) (py_str contract)));
  typed ← outcomes typed_file read.1;
  let manifest := read.2 typed in
  manifest_validate sha256 manifest ;;
  Ret manifest.

(** ** Round trip *)

Lemma outcomes_map {A B C} (f : A → outcome B) (g : C → A) (h : C → B) l : (∀ c, c ∈ l → f (g c) = Ret (h c)) → outcomes f (map g l) = Ret (map h l).
Proof.
  induction l as [|c l IH]; intros H; [done|]. cbn. rewrite H by left. cbn. rewrite IH; [done|]. intros d Hd. apply H. by right.
Qed.

Lemma same_set_refl l : same_set l l = true.
Proof. unfold same_set. rewrite andb_diag. apply forallb_forall. intros x Hx. apply mem_true. by apply list_elem_of_In. Qed.

Lemma row_counts_payload l : row_counts (JObj (map (λ '(k, n), (k, JInt n)) l)) = Ret l.
Proof.
  cbn. rewrite (outcomes_map _ (λ '(k, n), (k, JInt n)) id).
  - by rewrite map_id.
  - by intros [k n] _.
Qed.

Lemma int_value_int n : int_value (JInt n) = Ret n.
Proof. done. Qed.

Lemma item_here k v kvs : item (JObj ((k, v) :: kvs)) k = Ret v.
Proof. cbn. by rewrite bool_decide_eq_true_2. Qed.
Lemma item_there k k' v kvs : k ≠ k' → item (JObj ((k', v) :: kvs)) k = item (JObj kvs) k.
Proof. intros H. cbn. by rewrite bool_decide_eq_false_2. Qed.
Lemma bind_ret {A B} (a : A) (f : A → outcome B) : (Ret a ≫= f) = f a.
Proof. done. Qed.

(** Read the fields of a literal dict one by one. *)
Ltac read_items := repeat first [rewrite item_here | rewrite item_there by discriminate | rewrite int_value_int | rewrite bind_ret; cbv beta].

Lemma probe_payload_read p : probe_of (probe_payload p) = Ret p.
Proof.
  destruct p as [schema revision digest counts]. unfold probe_of, probe_payload. cbn [rp_schema rp_revision rp_hash rp_counts].
  read_items. rewrite row_counts_payload. by read_items.
Qed.

Lemma files_payload_read fs : outcomes file_fields (map file_payload fs) = Ret (map (λ f, match file_payload f with JObj kvs => kvs | _ => [] end) fs).
Proof. by apply outcomes_map. Qed.

Lemma typed_payload_read fs : outcomes typed_file (map (λ f, match file_payload f with JObj kvs => kvs | _ => [] end) fs) = Ret fs.
Proof. rewrite (outcomes_map _ _ id); [by rewrite map_id|]. by intros [] _. Qed.

Lemma same_set_fields (l : list (string * json)) : map fst l = MANIFEST_FIELDS → same_set (map fst l) MANIFEST_FIELDS = true.
Proof. intros ->. apply same_set_refl. Qed.

Lemma uuid_value_str u : valid_uuid u → uuid_value (JStr (uuid_str u)) = Ret u.
Proof. intros Hu. unfold uuid_value. cbn. by rewrite uuid_roundtrip. Qed.

Lemma parent_read p : (∀ u, p = Some u → valid_uuid u) →
  (if py_truthy (uuid_payload p) then u ← uuid_value (uuid_payload p); Ret (Some u) else Ret None) = Ret p.
Proof.
  intros H. destruct p as [u|]; [|done]. cbn [uuid_payload]. rewrite uuid_value_str by auto. done.
Qed.

(** What a [manifest] of the database looks like once read: the two UUIDs and
    the parent are UUIDs, and the creation time is in UTC. *)
Definition readable (m : CheckpointManifest) : Prop :=
  valid_uuid (m_id m) ∧ valid_uuid (m_master m) ∧ (∀ u, m_parent m = Some u → valid_uuid u) ∧ ∃ t, m_created_at m = utc t ∧ valid_instant t.

(** C39: A valid manifest reads back from its payload as it was, for a
    [fromisoformat] that reads the texts the payload has. *)
Theorem manifest_payload_roundtrip m kvs :
  (∀ t, valid_instant t → fromisoformat (replace_z (time_text t)) = Some (utc t)) →
  readable m → manifest_validate sha256 m = Ret tt → manifest_payload m = Ret kvs → from_payload kvs = Ret m.
Proof.
  intros Hiso (Hid & Hmaster & Hparent & t & Ht & Hvt) Hvalid Hp. unfold manifest_payload, unsigned_payload in Hp. rewrite Ht in Hp. cbn in Hp.
  injection Hp as <-. unfold from_payload. cbv zeta. cbn [app]. rewrite same_set_fields by done. cbn [throw_if negb]. rewrite bind_ret. read_items.
  rewrite uuid_value_str by done. read_items. rewrite uuid_value_str by done. read_items. rewrite parent_read by done. read_items.
  unfold time_value. cbn [py_str]. rewrite Z.sub_0_r, Hiso by done. read_items. cbn [py_iter]. rewrite files_payload_read. read_items.
  rewrite probe_payload_read. read_items. cbn [as_manifest_error]. read_items. cbn [fst snd]. rewrite typed_payload_read. read_items.
  cbn [py_str]. rewrite <-Ht. destruct m as [? ? ? ? ? ? ? ? ? ? ? ? ? ? ? ?]. cbn in *. by rewrite Hvalid.
Qed.
End reader.

(** ** Witness *)

Lemma signed_readable : readable (signed 1 None).
Proof.
  split; [vm_compute; reflexivity|]. split; [vm_compute; reflexivity|]. split; [by intros u|].
  exists 63900000000250000. split; [reflexivity|]. unfold valid_instant, MICRO, DAY. lia.
Qed.

Definition sample_payload : list (string * json) := match manifest_payload (signed 1 None) with Ret kvs => kvs | Exc _ => [] end.

Lemma manifest_payload_roundtrip_witness : from_payload sample_sha256 iso sample_payload = Ret (signed 1 None) ∧ length sample_payload = 16%nat.
Proof.
  split; [|vm_compute; reflexivity]. apply (manifest_payload_roundtrip sample_sha256 iso (signed 1 None) sample_payload).
  - intros t Ht. rewrite replace_z_text. exact (iso_ok t Ht).
  - exact signed_readable.
  - vm_compute. reflexivity.
  - vm_compute. reflexivity.
Defined.
