(* ===== verification/UploadIncarnation.v ===== *)
(** * UploadIncarnation: replacing a checkpoint Dataset that has vanished

    Models the methods of [ControlLedger] on the append-only table of
    sql/034: the intent to recreate an absent Dataset at version 1 from a
    complete child checkpoint, and the release of the old exact versions once
    the replacement is resolved. *)

From S2P Require Import Prelude Time Json LedgerState LedgerCheckpoints UploadLedger.

Record retirement_row := mk_retirement {
  rt_replacement : string; rt_dataset : string; rt_head : string; rt_generation : Z; rt_versions : string; rt_versions_sha256 : string; rt_at : Z;
}.

(** The ledger with the uploads and the retirements. *)
Record checkpoint_store := mk_checkpoint_store { cs_uploads : uploads; cs_retirements : list retirement_row }.

Definition on_uploads {A} (m : M uploads A) : M checkpoint_store A := λ s,
  let '(o, u) := m (cs_uploads s) in (o, mk_checkpoint_store u (cs_retirements s)).

(** A method of [ControlLedger], beside the tables of the uploads. *)
Definition in_ledger {A} (m : M ledger A) : M uploads A := λ u,
  let '(o, l) := m (up_ledger u) in (o, mk_uploads l (up_publications u) (up_claims u) (up_events u) (up_extended u)).

Definition on_ledger {A} (m : M ledger A) : M checkpoint_store A := on_uploads (in_ledger m).

(** [_safe_json] of a list that is not empty. *)
Definition safe_json_list (values : list json) (max_bytes : Z) : outcome string :=
  match inspect (JArr values) with
  | Some key => throw EventRejected ("secret-bearing field is forbidden in the control ledger: " +:+ key)
  | None =>
      let encoded := canonical_json (JArr values) in
      throw_if (max_bytes <? utf8_length encoded) EventRejected "structured control metadata exceeds its bounded size" ;;
      Ret encoded
  end.

Section methods.
Context (sha256 : string → string).

Definition find_retirement (replacement_checkpoint_id : string) (s : checkpoint_store) : option retirement_row :=
  List.find (λ r, rt_replacement r == replacement_checkpoint_id) (cs_retirements s).

Definition checkpoint_dataset_incarnation_retirement (replacement_checkpoint_id : string) : M checkpoint_store (option retirement_row) :=
  gets (find_retirement replacement_checkpoint_id).

Definition candidate_of (checkpoint_id : string) (u : uploads) : option candidate_row :=
  List.find (λ c, cc_id c == checkpoint_id) (l_candidates (up_ledger u)).
Definition master_head (u : uploads) : option head_row := List.find (λ h, hd_service h == "postgres-master") (l_heads (up_ledger u)).

(** HEAD and the replacement are what both steps expect of them. *)
Definition replacement_exact (replacement_checkpoint_id dataset_ref source_head_checkpoint_id : string) (source_head_generation : Z) (u : uploads) : bool :=
  match master_head u, candidate_of replacement_checkpoint_id u with
  | Some h, Some c =>
      (hd_generation h =? source_head_generation) && (hd_current h == Some source_head_checkpoint_id) && (cc_dataset c == dataset_ref)
      && (cc_source c == Some source_head_checkpoint_id) && (cc_generation c =? source_head_generation) && (cc_status c == "CANDIDATE")
  | _, _ => false
  end.

(** The publication before the Dataset is created. *)
Definition reset_ready (replacement_checkpoint_id : string) (u : uploads) : bool :=
  match find_publication replacement_checkpoint_id u with
  | Some p => mem (pb_state p) ["READY_TO_FINALIZE"; "FINALIZING"]
              && match pb_provider_version p with Some v => v =? 1 | None => true end
  | None => false
  end.

(** The exact versions of the Dataset, [ORDER BY checkpoint_id]. *)
Definition bound_versions (dataset_ref : string) (u : uploads) : list (string * string) :=
  omap (λ c, v ← cc_version c; Some (cc_id c, v))
    (order_by (λ a b, String.leb (cc_id a) (cc_id b)) (List.filter (λ c, cc_dataset c == dataset_ref) (l_candidates (up_ledger u)))).

(** [INSERT INTO checkpoint_dataset_incarnation_retirements] *)
Definition insert_retirement (r : retirement_row) : M checkpoint_store unit := λ s,
  if negb (existsb (λ x, rt_replacement x == rt_replacement r) (cs_retirements s)) && (1 <=? rt_generation r) && (slen (rt_versions_sha256 r) =? 64)
     && existsb (λ c, cc_id c == rt_replacement r) (l_candidates (up_ledger (cs_uploads s)))
     && existsb (λ c, cc_id c == rt_head r) (l_candidates (up_ledger (cs_uploads s)))
  then (Ret tt, mk_checkpoint_store (cs_uploads s) (cs_retirements s ++ [r]))
  else (Exc (Exn IntegrityError "constraint failed"), s).

Definition prepare_missing_checkpoint_dataset_incarnation (replacement_checkpoint_id dataset_ref source_head_checkpoint_id : string)
    (source_head_generation now : Z) : M checkpoint_store retirement_row :=
  raise_if (blank_or_longer dataset_ref 300 || (source_head_generation <? 1)) ValueError "checkpoint Dataset incarnation identity is invalid" ;;
  atomically (
    existing ← gets (find_retirement replacement_checkpoint_id);
    match existing with
    | Some r =>
        raise_if ((rt_dataset r != dataset_ref) || (rt_head r != source_head_checkpoint_id) || (rt_generation r != source_head_generation))
          StaleRuntimeEvent "checkpoint Dataset incarnation retirement replay differs" ;;
        mret r
    | None =>
        s ← get;
        let u := cs_uploads s in
        raise_if (negb (replacement_exact replacement_checkpoint_id dataset_ref source_head_checkpoint_id source_head_generation u
                        && reset_ready replacement_checkpoint_id u)) StaleRuntimeEvent "checkpoint Dataset reset intent is not exact" ;;
        let retired := bound_versions dataset_ref u in
        raise_if (negb (existsb (λ r, r.1 == source_head_checkpoint_id) retired)) StaleRuntimeEvent
          "checkpoint Dataset retirement lacks the durable HEAD binding" ;;
        retired_json ← lift (safe_json_list (map (λ r, JObj [("checkpoint_id", JStr r.1); ("version_ref", JStr r.2)]) retired) MAX_METADATA_BYTES);
        insert_retirement (mk_retirement replacement_checkpoint_id dataset_ref source_head_checkpoint_id source_head_generation retired_json
                             (sha256 retired_json) now) ;;
        row ← gets (find_retirement replacement_checkpoint_id);
        assert_some row
    end).

(** The publication once the Dataset is resolved at version 1. *)
Definition reset_resolved (replacement_checkpoint_id dataset_ref : string) (u : uploads) : bool :=
  match find_publication replacement_checkpoint_id u with
  | Some p => (pb_state p == "DATASET_RESOLVED") && (pb_version p == Some (dataset_ref +:+ "/1")) && (default 0 (pb_provider_version p) =? 1)
  | None => false
  end.

(** [UPDATE checkpoint_candidates SET version_ref=NULL WHERE dataset_ref=? AND
    version_ref IS NOT NULL AND checkpoint_id<>?] *)
Definition release_versions (replacement_checkpoint_id dataset_ref : string) : M ledger unit :=
  modify (λ l, set_rows checkpoint_candidates
    (map (λ c, if (cc_dataset c == dataset_ref) && (cc_id c != replacement_checkpoint_id)
               then cc_with c None (cc_status c) (cc_failure c) (cc_verified_at c) (cc_package c) else c) (l_candidates l)) l).

Definition retire_missing_checkpoint_dataset_incarnation (replacement_checkpoint_id dataset_ref source_head_checkpoint_id : string)
    (source_head_generation : Z) : M checkpoint_store retirement_row :=
  atomically (
    s ← get;
    let u := cs_uploads s in
    match find_retirement replacement_checkpoint_id s with
    | Some r =>
        raise_if ((rt_dataset r != dataset_ref) || (rt_head r != source_head_checkpoint_id) || (rt_generation r != source_head_generation)
                  || negb (replacement_exact replacement_checkpoint_id dataset_ref source_head_checkpoint_id source_head_generation u
                           && reset_resolved replacement_checkpoint_id dataset_ref u))
          StaleRuntimeEvent "checkpoint Dataset replacement is not exact and resolved" ;;
        on_ledger (release_versions replacement_checkpoint_id dataset_ref) ;;
        mret r
    | None => raise StaleRuntimeEvent "checkpoint Dataset replacement is not exact and resolved"
    end).
End methods.
