(* ===== verification/UploadService.v ===== *)
(** * UploadService: the broker of checkpoint uploads

    Models [BrokeredCheckpointUploadService] of checkpoints/brokered_upload.py
    for a master's authority: what a runtime may ask for, the start of a blob,
    its completion, and the finalization that creates the Dataset version, has it
    verified and moves HEAD, over any provider adapter and any verifier.  The
    authorities of acceptance runs are not modelled. *)

From S2P Require Import Prelude Time Json Uuid LedgerState LedgerOperations LedgerCheckpoints Manifest ManifestPayload Registry UploadLedger UploadIncarnation.

(** ** Requests *)

Definition CHECKPOINT_MANIFEST_NAME : string := "checkpoint-manifest.json".
Definition MAX_BLOB_BYTES : Z := 10 * 1024 ^ 3.
Definition UPLOAD_GRANT_TTL : Z := 15 * 60 * MICRO.

Definition REQUIRED_FILES : list string :=
  ["physical/base.tar.gz"; "physical/pg_wal.tar.gz"; "physical/backup_manifest"; "logical/hub.dump"; "receipts/verification.json"; CHECKPOINT_MANIFEST_NAME].

Record CheckpointBlobSpec := mk_CheckpointBlobSpec {
  bs_operation : UUID; bs_checkpoint : UUID; bs_run_ref : string; bs_epoch : Z; bs_file : string; bs_length : Z; bs_type : string; bs_content : string;
  bs_manifest : string;
}.

Definition endswith (p s : string) : bool := (slen p <=? slen s) && (String.substring (String.length s - String.length p) (String.length p) s == p).

(** [CheckpointBlobSpec(...)]: the fields and [validate_file]. *)
Definition blob_spec (s : CheckpointBlobSpec) : outcome CheckpointBlobSpec :=
  throw_if ((slen (bs_run_ref s) <? 3) || (300 <? slen (bs_run_ref s)) || (bs_epoch s <? 1) || (slen (bs_file s) <? 1) || (200 <? slen (bs_file s))
            || (bs_length s <? 1) || (MAX_BLOB_BYTES <? bs_length s) || negb (is_sha256 (bs_content s)) || negb (is_sha256 (bs_manifest s)))
    ValidationError "validation error" ;;
  throw_if (negb (mem (bs_file s) REQUIRED_FILES) || is_absolute (bs_file s) || mem ".." (path_parts (bs_file s))
            || negb (mem (bs_type s) ["application/octet-stream"; "application/json"])) ValidationError "checkpoint blob is outside the fixed artifact contract" ;;
  throw_if (bs_type s != (if endswith ".json" (bs_file s) then "application/json" else "application/octet-stream")) ValidationError
    "checkpoint blob content type differs from its fixed artifact" ;;
  Ret s.

(** [model_dump(mode="json")] *)
Definition spec_dump (s : CheckpointBlobSpec) : json :=
  JObj [("operation_id", JStr (uuid_str (bs_operation s))); ("checkpoint_id", JStr (uuid_str (bs_checkpoint s))); ("master_run_ref", JStr (bs_run_ref s));
        ("epoch", JInt (bs_epoch s)); ("file_name", JStr (bs_file s)); ("content_length", JInt (bs_length s)); ("content_type", JStr (bs_type s));
        ("content_sha256", JStr (bs_content s)); ("manifest_sha256", JStr (bs_manifest s))].

Record CheckpointBlobCompletion := mk_CheckpointBlobCompletion {
  bc_claim : UUID; bc_operation : UUID; bc_checkpoint : UUID; bc_epoch : Z; bc_file : string; bc_sent : Z; bc_content : string;
}.

Record CheckpointBlobGrant := mk_CheckpointBlobGrant {
  bg_claim : UUID; bg_checkpoint : UUID; bg_file : string; bg_length : Z; bg_content : string; bg_expires : Z; bg_url : string;
}.

(** The authority of a master; [lease_until] as an instant. *)
Record RuntimeUploadAuthority := mk_RuntimeUploadAuthority {
  ra_operation : string; ra_run : string; ra_attempt : string; ra_master : string; ra_service : string; ra_epoch : Z; ra_run_ref : string; ra_lease : Z;
}.

(** checkpoints/provider_storage.py *)
Definition CHECKPOINT_PROVIDER_FILE_NAMES : list (string * string) :=
  [("checkpoint-manifest.json", "mdh-v1-checkpoint-manifest-json.blob"); ("logical/hub.dump", "mdh-v1-logical-hub-dump.blob");
   ("physical/backup_manifest", "mdh-v1-physical-backup-manifest.blob"); ("physical/base.tar.gz", "mdh-v1-physical-base-tar-gz.blob");
   ("physical/pg_wal.tar.gz", "mdh-v1-physical-pg-wal-tar-gz.blob"); ("receipts/verification.json", "mdh-v1-receipts-verification-json.blob")].

Definition checkpoint_provider_file_name (logical_name : string) : outcome string :=
  match List.find (λ p, p.1 == logical_name) CHECKPOINT_PROVIDER_FILE_NAMES with
  | Some p => Ret p.2
  | None => throw ValueError "checkpoint logical file is outside the fixed provider contract"
  end.

(** ** The provider and the verifier *)

Record BrokeredDatasetFile := mk_BrokeredDatasetFile { df_name : string; df_bytes : Z; df_description : string; df_token : string }.

(** What a verifier says of itself. *)
Record restore_verifier := mk_restore_verifier { rv_revision : option string; rv_type : string }.

(** [BrokeredKaggleAdapter] and the restore verifiers, with the state behind
    them. *)
Class UploadProvider (P : Type) := {
  current_private_dataset_version : string → M P (option Z);
  start_brokered_dataset_blob : string → Z → string → Z → M P (string * string);
  finalize_brokered_checkpoint_dataset : string → string → list BrokeredDatasetFile → string → option Z → M P Z;
  reconcile_brokered_checkpoint_dataset : string → Z → list (string * Z * string) → M P bool;
  restore_verifier_factory : UUID → UUID → M P restore_verifier;
  verify_restore : restore_verifier → string → Z → string → CheckpointManifest → M P (list (string * json));
}.

(** A provider change that was asked for; the service keeps no such list. *)
Inductive provider_change := BlobStart (claim_id : string) | DatasetVersion (checkpoint_id : string).

#[global] Instance provider_change_eq_dec : EqDecision provider_change.
Proof. solve_decision. Defined.

Record upload_service (P : Type) := mk_upload_service {
  us_store : checkpoint_store; us_provider : P; us_reading : nat; us_nonce : nat; us_changes : list provider_change;
}.
Arguments mk_upload_service {P} _ _ _ _ _.
Arguments us_store {P} _.
Arguments us_provider {P} _.
Arguments us_reading {P} _.
Arguments us_nonce {P} _.
Arguments us_changes {P} _.

(** [urlsplit(url)] as far as it is used; [su_port] is [None] when [port] raises. *)
Record split_url := mk_split_url {
  su_scheme : string; su_hostname : option string; su_username : option string; su_password : option string; su_fragment : string;
  su_port : option (option Z);
}.

Section service.
Context {P : Type} `{UploadProvider P}.
Context (sha256 : string → string) (fromisoformat : string → option datetime) (uuid5 : string → UUID) (urlsplit : string → option split_url).
(** AES-GCM and [os.urandom(12)] *)
Context (encrypt : string → string → string → string) (decrypt : string → string → string → option string) (urandom : nat → string).
(** The clock of the control ledger, and the verifiers the service was made with. *)
Context (clock : nat → Z) (own_verifier : option restore_verifier) (has_factory : bool).

Definition read_clock : M (upload_service P) Z := λ w,
  (Ret (clock (us_reading w)), mk_upload_service (us_store w) (us_provider w) (Datatypes.S (us_reading w)) (us_nonce w) (us_changes w)).
Definition random_nonce : M (upload_service P) string := λ w,
  (Ret (urandom (us_nonce w)), mk_upload_service (us_store w) (us_provider w) (us_reading w) (Datatypes.S (us_nonce w)) (us_changes w)).
Definition in_store {A} (m : M checkpoint_store A) : M (upload_service P) A := λ w,
  let '(o, s) := m (us_store w) in (o, mk_upload_service s (us_provider w) (us_reading w) (us_nonce w) (us_changes w)).
Definition on_provider {A} (m : M P A) : M (upload_service P) A := λ w,
  let '(o, p) := m (us_provider w) in (o, mk_upload_service (us_store w) p (us_reading w) (us_nonce w) (us_changes w)).
(** A change is on the list from the moment it is asked for. *)
Definition changing {A} (c : provider_change) (m : M P A) : M (upload_service P) A := λ w,
  let '(o, p) := m (us_provider w) in (o, mk_upload_service (us_store w) p (us_reading w) (us_nonce w) (us_changes w ++ [c])%list).

(** A method of the upload ledger, at its reading of the clock. *)
Definition at_now {A} (m : Z → M uploads A) : M (upload_service P) A := now ← read_clock; in_store (on_uploads (m now)).
Definition from_ledger {A} (m : M ledger A) : M (upload_service P) A := in_store (on_ledger m).

(** [except Exception]: everything but the end of the process. *)
Definition except_exception {S A} (m : M S A) (h : exn → M S A) : M S A :=
  try_except m (λ e, if exn_cls e == ProcessKilled then reraise e else h e).
Definition suppressed {S} (m : M S unit) : M S unit := except_exception m (λ _, mret tt).

Definition is_broker_error (e : exn) : bool := mem (exn_cls e) [BrokeredCheckpointError; BrokeredCheckpointQuarantined].

(** *** Secrets at rest *)

Definition sealed_aad (claim_id : UUID) (kind : string) : string := "my-data-hub:checkpoint-upload:" +:+ uuid_str claim_id +:+ ":" +:+ kind.

Definition seal (value : string) (claim_id : UUID) (kind : string) : M (upload_service P) string :=
  raise_if ((value == "") || negb (mem kind ["blob"; "url"])) ValueError "checkpoint broker secret value is invalid" ;;
  nonce ← random_nonce;
  mret (nonce +:+ encrypt nonce value (sealed_aad claim_id kind)).

Definition open_sealed (value : string) (claim_id : UUID) (kind : string) : outcome string :=
  throw_if ((slen value <? 29) || negb (mem kind ["blob"; "url"])) BrokeredCheckpointError "sealed checkpoint upload authority is invalid" ;;
  match decrypt (String.substring 0 12 value) (String.substring 12 (String.length value - 12) value) (sealed_aad claim_id kind) with
  | Some v => Ret v
  | None => throw BrokeredCheckpointError "sealed checkpoint upload authority cannot be opened"
  end.

(** *** Grants *)

Definition nonempty (o : option string) : bool := match o with Some s => s != "" | None => false end.

Definition url_refused (url : string) (parsed : split_url) : bool :=
  (su_scheme parsed != "https") || negb (nonempty (su_hostname parsed)) || nonempty (su_username parsed) || nonempty (su_password parsed)
  || (su_fragment parsed != "") || match su_port parsed with Some port => negb (mem port [None; Some 443]) | None => true end || (8192 <? slen url).

(** A [ValueError] inside the validator, of [urlsplit] or [port] too, is a
    [ValidationError]. *)
Definition validate_url (url : string) : outcome unit :=
  throw_if (match urlsplit url with Some parsed => url_refused url parsed | None => true end) ValidationError
    "provider upload URL is not a bounded HTTPS capability".

(** [_public_grant] *)
Definition public_grant (spec : CheckpointBlobSpec) (claim_id : UUID) (expires_at : Z) (create_url : string) : outcome CheckpointBlobGrant :=
  validate_url create_url ;;
  Ret (mk_CheckpointBlobGrant claim_id (bs_checkpoint spec) (bs_file spec) (bs_length spec) (bs_content spec) expires_at create_url).

(** *** Validation *)

(** [canonical_json(manifest.payload()) + b"\n"], as text. *)
Definition newline : string := String "010"%char "".
Definition manifest_bytes (m : CheckpointManifest) : outcome string := p ← manifest_payload m; Ret (canonical_json (JObj p) +:+ newline).

(** [expected.get(file_name)]: the size and the digest of a file. *)
Definition expected_file (m : CheckpointManifest) (bytes name : string) : option (Z * string) :=
  if name == CHECKPOINT_MANIFEST_NAME then Some (utf8_length bytes, sha256 bytes)
  else (λ f, (cf_size f, cf_sha256 f)) <$> List.find (λ f, cf_path f == name) (rev (m_files m)).

(** The runtime is fenced or its lease is over. *)
Definition upload_fenced (spec : CheckpointBlobSpec) (a : RuntimeUploadAuthority) : M (upload_service P) bool :=
  if (uuid_str (bs_operation spec) != ra_operation a) || (bs_run_ref spec != ra_run_ref a) || (bs_epoch spec != ra_epoch a) then mret true
  else
    epoch ← from_ledger (current_epoch "postgres-master");
    if epoch != ra_epoch a then mret true
    else
      now ← read_clock;
      if ra_lease a <=? now then mret true
      else
        ok ← at_now (runtime_service_authorized (ra_service a) (ra_run a) (ra_attempt a) (ra_master a) (ra_epoch a));
        mret (negb ok).

Definition recovery_available (spec : CheckpointBlobSpec) (a : RuntimeUploadAuthority) (recovered : option (publication_row * Z)) : bool :=
  match recovered with
  | None => false
  | Some (p, _) =>
      let i := pb_identity p in
      (uuid_str (bs_operation spec) == ra_operation a) && (ra_operation a == pi_operation i) && (ra_run a == pi_run i) && (ra_attempt a == pi_attempt i)
      && (ra_master a == pi_master i) && (ra_service a == pi_service i) && (bs_run_ref spec == ra_run_ref a) && (ra_run_ref a == pi_run_ref i)
      && (bs_epoch spec == ra_epoch a) && (ra_epoch a == pi_epoch i)
  end.

(** The parsed manifest of the candidate is the one the runtime speaks of. *)
Definition manifest_differs (m : CheckpointManifest) (spec : CheckpointBlobSpec) (a : RuntimeUploadAuthority) : outcome bool :=
  if m_sha256 m != bs_manifest spec then Ret true
  else
    master ← uuid_value (JStr (ra_master a));
    Ret ((m_master m != master) || (m_epoch m != ra_epoch a) || (m_source_run m != ra_run a)).

(** [_validate] *)
Definition validate (spec : CheckpointBlobSpec) (a : RuntimeUploadAuthority) (durable_recovery : bool) : M (upload_service P) (candidate_row * CheckpointManifest) :=
  (if durable_recovery then
     recovered ← at_now (publication_runtime_authority (uuid_str (bs_checkpoint spec)));
     raise_if (negb (recovery_available spec a recovered)) LeaseRejected "checkpoint central recovery authority is unavailable"
   else
     fenced ← upload_fenced spec a;
     raise_if fenced LeaseRejected "checkpoint upload authority is fenced or expired") ;;
  operation ← from_ledger (get_operation (ra_operation a));
  raise_if (match operation with
            | Some o => negb (mem (or_state o) (if durable_recovery then ["DRAINING"; "CHECKPOINTING"; "CHECKPOINT_FAILED"; "ACTIVE"]
                                                else ["DRAINING"; "CHECKPOINTING"; "ACTIVE"]))
            | None => true
            end) BrokeredCheckpointError "checkpoint operation is not in an upload-capable phase" ;;
  candidate ← from_ledger (checkpoint_candidate (uuid_str (bs_checkpoint spec)));
  match candidate with
  | None => raise BrokeredCheckpointError "checkpoint candidate does not belong to this operation"
  | Some (c, value) =>
      raise_if (cc_operation c != ra_operation a) BrokeredCheckpointError "checkpoint candidate does not belong to this operation" ;;
      match value with
      | Some (JObj kvs) =>
          manifest ← lift (from_payload sha256 fromisoformat kvs);
          differs ← lift (manifest_differs manifest spec a);
          raise_if differs BrokeredCheckpointError "checkpoint manifest differs from runtime authority" ;;
          bytes ← lift (manifest_bytes manifest);
          raise_if (expected_file manifest bytes (bs_file spec) != Some (bs_length spec, bs_content spec)) BrokeredCheckpointError
            "checkpoint blob metadata differs from its manifest" ;;
          mret (c, manifest)
      | _ => raise BrokeredCheckpointError "checkpoint candidate manifest is unavailable"
      end
  end.

(** [_validate_publication] *)
Definition validate_publication (p : publication_row) (a : RuntimeUploadAuthority) (durable_recovery : bool) :
    M (upload_service P) (candidate_row * CheckpointManifest) :=
  let i := pb_identity p in
  raise_if ((pi_operation i != ra_operation a) || (pi_run i != ra_run a) || (pi_attempt i != ra_attempt a) || (pi_master i != ra_master a)
            || (pi_run_ref i != ra_run_ref a) || (pi_epoch i != ra_epoch a)) LeaseRejected "checkpoint publication authority differs from the exact runtime" ;;
  candidate ← from_ledger (checkpoint_candidate (pb_id p));
  match candidate with
  | Some (_, Some (JObj kvs)) =>
      manifest ← lift (from_payload sha256 fromisoformat kvs);
      bytes ← lift (manifest_bytes manifest);
      operation ← lift (uuid_value (JStr (pi_operation i)));
      checkpoint ← lift (uuid_value (JStr (pb_id p)));
      probe ← lift (blob_spec (mk_CheckpointBlobSpec operation checkpoint (ra_run_ref a) (pi_epoch i) CHECKPOINT_MANIFEST_NAME (utf8_length bytes)
                                 "application/json" (sha256 bytes) (m_sha256 manifest)));
      validate probe a durable_recovery
  | _ => raise BrokeredCheckpointError "checkpoint publication candidate is unavailable"
  end.

(** *** Giving up *)

Definition word_char (c : Ascii.ascii) : bool :=
  in_char_range "A"%char "Z"%char c || in_char_range "a"%char "z"%char c || in_char_range "0"%char "9"%char c || mem c ["_"%char; "."%char; "-"%char].

(** [re.sub(r"[^A-Za-z0-9_.-]", "_", code)[:120] or "BROKER_FAILURE"] *)
Fixpoint replace_chars (s : string) : string :=
  match s with EmptyString => "" | String c s' => String (if word_char c then c else "_"%char) (replace_chars s') end.
Definition error_code (code : string) : string :=
  let cut := String.substring 0 120 (replace_chars code) in if cut == "" then "BROKER_FAILURE" else cut.

Definition UNFINISHED : list string := ["PREPARING"; "UPLOADING"; "READY_TO_FINALIZE"; "FINALIZING"; "DATASET_RESOLVED"; "VERIFYING"; "VERIFIED"].

(** [ControlLedgerCheckpointRegistry(...)] *)
Definition make_registry (p : publication_row) : M (upload_service P) unit :=
  raise_if ((pi_operation (pb_identity p) == "") || (pi_dataset (pb_identity p) == "")) ValueError "durable checkpoint registry identity is incomplete".

(** [_fail] *)
Definition fail_publication (checkpoint_id : UUID) (code : string) (quarantined : bool) : M (upload_service P) unit :=
  let with_error := error_code code in
  p ← in_store (on_uploads (publication (uuid_str checkpoint_id)));
  suppressed (
    match p with
    | None => raise KeyError (uuid_str checkpoint_id)
    | Some p => make_registry p ;; from_ledger (durable_reject checkpoint_id with_error)
    end) ;;
  suppressed (
    at_now (transition sha256 (uuid_str checkpoint_id)
      (mk_transition UNFINISHED (if quarantined then "QUARANTINED" else "FAILED")
         (if quarantined then "publication.quarantined" else "publication.failed") [("failure_code", JStr with_error)] None None None None
         (Some with_error))) ;;
    mret tt).

(** *** The upload of a file *)

Definition claim_name (spec : CheckpointBlobSpec) (intent : string) : string :=
  "checkpoint-blob:" +:+ uuid_str (bs_checkpoint spec) +:+ ":" +:+ bs_file spec +:+ ":" +:+ intent.

(** 1970-01-01 in the calendar of instants, and [int(value.timestamp())]. *)
Definition EPOCH : Z := 62135596800 * MICRO.
Definition unix_seconds (created : datetime) : Z := (wall created - default 0 (utcoffset created) - EPOCH) ÷ MICRO.

Definition publication_of (spec : CheckpointBlobSpec) (a : RuntimeUploadAuthority) (c : candidate_row) (m : CheckpointManifest) (bytes : string)
    (previous : option string) : publication_identity :=
  mk_publication_identity (uuid_str (bs_operation spec)) (ra_run a) (ra_attempt a) (ra_master a) (ra_service a) (ra_run_ref a) (ra_epoch a)
    (cc_dataset c) (m_sha256 m) (cc_generation c) (Z.of_nat (length (m_files m)) + 1) (foldr (λ f n, cf_size f + n) 0 (m_files m) + utf8_length bytes)
    "master" None previous.

(** The provider starts the blob, once the start is claimed. *)
Definition start_blob (spec : CheckpointBlobSpec) (m : CheckpointManifest) (claim : UUID) : M (upload_service P) (string * string) :=
  at_now (claim_start sha256 (uuid_str claim)) ;;
  except_exception (
    name ← lift (checkpoint_provider_file_name (bs_file spec));
    changing (BlobStart (uuid_str claim)) (start_brokered_dataset_blob name (bs_length spec) (bs_type spec) (unix_seconds (m_created_at m))))
    (λ _, at_now (mark_start_ambiguous sha256 (uuid_str claim)) ;;
          raise BrokeredCheckpointQuarantined "provider blob start outcome is ambiguous").

Definition prepare (spec : CheckpointBlobSpec) (a : RuntimeUploadAuthority) : M (upload_service P) CheckpointBlobGrant :=
  '(c, manifest) ← try_except (validate spec a false) (λ e,
    (if is_broker_error e then
       p ← in_store (on_uploads (publication (uuid_str (bs_checkpoint spec))));
       match p with
       | Some p => if pi_operation (pb_identity p) == ra_operation a then fail_publication (bs_checkpoint spec) "BLOB_PREPARE_CONFLICT" true else mret tt
       | None => mret tt
       end
     else mret tt) ;;
    reraise e);
  head ← from_ledger (checkpoint_head "postgres-master");
  bytes ← lift (manifest_bytes manifest);
  at_now (ensure_publication sha256 (uuid_str (bs_checkpoint spec))
    (publication_of spec a c manifest bytes (match head with Some h => hd_previous h | None => None end))) ;;
  now ← read_clock;
  let expires_at := Z.min (ra_lease a) (now + UPLOAD_GRANT_TTL) in
  now ← read_clock;
  raise_if (expires_at <=? now + 30 * MICRO) LeaseRejected "checkpoint upload lease is too short" ;;
  let intent := sha256 (canonical_json (spec_dump spec)) in
  let claim := uuid5 (claim_name spec intent) in
  '(row, _) ← at_now (ensure_claim sha256 (uuid_str claim)
    (mk_claim_identity (uuid_str (bs_checkpoint spec)) (uuid_str (bs_operation spec)) (bs_epoch spec) (bs_file spec) (bs_length spec) (bs_type spec)
       (bs_content spec) (bs_manifest spec) intent expires_at));
  if mem (cm_state row) ["READY"; "UPLOADED"] then
    match cm_url row with
    | Some sealed =>
        raise_if (cm_state row == "UPLOADED") IdempotencyConflict "completed upload claims do not reissue their signed URL" ;;
        url ← lift (open_sealed sealed claim "url");
        lift (public_grant spec claim expires_at url)
    | None => raise IdempotencyConflict "completed upload claims do not reissue their signed URL"
    end
  else if cm_state row == "STARTING" then
    at_now (mark_start_ambiguous sha256 (uuid_str claim)) ;;
    raise BrokeredCheckpointQuarantined "provider blob start was interrupted and is ambiguous"
  else
    raise_if (cm_state row != "PREPARING") BrokeredCheckpointQuarantined "checkpoint blob preparation is not safely retryable" ;;
    grant ← start_blob spec manifest claim;
    sealed_token ← seal grant.1 claim "blob";
    sealed_url ← seal grant.2 claim "url";
    at_now (mark_ready sha256 (uuid_str claim) sealed_token sealed_url) ;;
    lift (public_grant spec claim expires_at grant.2).

(** The row as the answer shows it. *)
Definition complete (completion : CheckpointBlobCompletion) (a : RuntimeUploadAuthority) : M (upload_service P) claim_row :=
  stale ← (if (uuid_str (bc_operation completion) != ra_operation a) || (bc_epoch completion != ra_epoch a) then mret true
           else now ← read_clock; mret (ra_lease a <=? now));
  raise_if stale LeaseRejected "checkpoint upload completion authority is stale" ;;
  row ← in_store (on_uploads (get_claim (uuid_str (bc_claim completion))));
  let i := cm_identity row in
  raise_if ((ci_operation i != uuid_str (bc_operation completion)) || (ci_checkpoint i != uuid_str (bc_checkpoint completion))
            || (ci_epoch i != bc_epoch completion) || (ci_file i != bc_file completion)) IdempotencyConflict
    "checkpoint upload completion identity differs from its claim" ;;
  at_now (complete_claim sha256 (uuid_str (bc_claim completion)) (bc_sent completion) (bc_content completion)).

(** *** Finalization *)

(** The answer about a publication. *)
Record public_status_view := mk_public_status {
  ps_publication : publication_row; ps_completed : list (string * Z * string); ps_evidence : option json;
}.

(** [_public_status] *)
Definition public_status (p : publication_row) : M (upload_service P) public_status_view :=
  rows ← in_store (on_uploads (claims (pb_id p)));
  evidence ← lift (match pb_evidence p with
                   | None => Ret None
                   | Some t => match loads t with Some j => Ret (Some j) | None => throw ValueError "Expecting value" end
                   end);
  mret (mk_public_status p
          (map (λ c, (ci_file (cm_identity c), ci_length (cm_identity c), ci_content (cm_identity c)))
             (List.filter (λ c, mem (cm_state c) ["UPLOADED"; "CONSUMED"]) rows)) evidence).

Definition status (checkpoint_id : UUID) : M (upload_service P) public_status_view :=
  p ← in_store (on_uploads (publication (uuid_str checkpoint_id)));
  match p with Some p => public_status p | None => raise KeyError (uuid_str checkpoint_id) end.

(** The description of a file at the provider. *)
Definition file_description (p : publication_row) (c : claim_row) : string :=
  let i := pb_identity p in
  canonical_json (JObj [("operation_id", JStr (pi_operation i)); ("master_run_ref", JStr (pi_run_ref i)); ("epoch", JInt (pi_epoch i));
                        ("manifest_sha256", JStr (pi_manifest i)); ("file_sha256", JStr (ci_content (cm_identity c)));
                        ("total_bytes", JInt (ci_length (cm_identity c)))]).

(** One row of [_provider_files]: what the provider has to show, and the blob to
    hand over, if it is not consumed. *)
Definition provider_file (p : publication_row) (c : claim_row) : outcome ((string * Z * string) * option BrokeredDatasetFile) :=
  let i := cm_identity c in
  throw_if (negb (mem (cm_state c) ["UPLOADED"; "CONSUMED"])) BrokeredCheckpointError "checkpoint publication contains an incomplete upload" ;;
  let description := file_description p c in
  name ← checkpoint_provider_file_name (ci_file i);
  file ← (if cm_state c == "UPLOADED" then
            match cm_token c with
            | None => throw BrokeredCheckpointError "checkpoint provider blob token is unavailable"
            | Some sealed =>
                claim ← uuid_value (JStr (cm_id c));
                token ← open_sealed sealed claim "blob";
                Ret (Some (mk_BrokeredDatasetFile name (ci_length i) description token))
            end
          else Ret None);
  Ret ((name, ci_length i, description), file).

Definition package_digest (rows : list claim_row) : string :=
  sha256 (canonical_json (JObj [("files", JArr (map (λ c, JObj [("path", JStr (ci_file (cm_identity c))); ("byte_size", JInt (ci_length (cm_identity c)));
                                                                 ("sha256", JStr (ci_content (cm_identity c)))])
    (order_by (λ a b, String.leb (ci_file (cm_identity a)) (ci_file (cm_identity b))) rows)))])).

(** [_provider_files] *)
Definition provider_files (p : publication_row) (m : CheckpointManifest) (rows : list claim_row) :
    outcome (list (string * Z * string) * list BrokeredDatasetFile * string) :=
  throw_if ((length rows != length (m_files m) + 1)%nat || negb (same_set (map (λ c, ci_file (cm_identity c)) rows) REQUIRED_FILES)) BrokeredCheckpointError
    "checkpoint publication is missing exact artifacts" ;;
  files ← outcomes (provider_file p) rows;
  Ret (map fst files, omap snd files, package_digest rows).

(** The version to create: its number, the one it follows, and the HEAD of a
    Dataset that has vanished. *)
Record version_plan := mk_version_plan { vp_expected : Z; vp_previous : option Z; vp_reset : option string }.

(** [s.rsplit("/", 1)]: the texts around the last slash. *)
Fixpoint rsplit_slash (s : string) : option (string * string) :=
  match s with
  | EmptyString => None
  | String c s' =>
      match rsplit_slash s' with
      | Some (a, b) => Some (String c a, b)
      | None => if c == "/"%char then Some ("", s') else None
      end
  end.

(** [s.isdigit()]: decimal digits, and the superscripts of Latin-1. *)
Definition isdigit (s : string) : bool :=
  (s != "") && string_forallb (λ c, in_char_range "0"%char "9"%char c || mem (Ascii.nat_of_ascii c) [178; 179; 185]%nat) s.

Definition plan_version (p : publication_row) : M (upload_service P) version_plan :=
  let dataset := pi_dataset (pb_identity p) in
  reset ← in_store (checkpoint_dataset_incarnation_retirement (pb_id p));
  match reset with
  | Some r => mret (mk_version_plan 1 None (Some (rt_head r)))
  | None =>
      match pb_provider_version p with
      | Some v => mret (mk_version_plan v (if v - 1 == 0 then None else Some (v - 1)) None)
      | None =>
          head ← from_ledger (checkpoint_head "postgres-master");
          current_version ← on_provider (current_private_dataset_version dataset);
          match (h ← head; hd_current h) with
          | None =>
              raise_if (current_version != None) BrokeredCheckpointQuarantined "checkpoint Dataset exists without an exact current HEAD claim" ;;
              mret (mk_version_plan 1 None None)
          | Some head_id =>
              current ← from_ledger (checkpoint_candidate head_id);
              match (c ← current; truthy_text (cc_version c.1)) with
              | None => raise BrokeredCheckpointError "current checkpoint lacks an exact Dataset version"
              | Some version_ref =>
                  match rsplit_slash version_ref with
                  | None => raise ValueError "not enough values to unpack"
                  | Some (current_ref, version_text) =>
                      raise_if ((current_ref != dataset) || negb (isdigit version_text)) BrokeredCheckpointError "current checkpoint Dataset identity is invalid" ;;
                      durable ← lift (int_value (JStr version_text));
                      match current_version with
                      | None =>
                          now ← read_clock;
                          in_store (prepare_missing_checkpoint_dataset_incarnation sha256 (pb_id p) dataset head_id (pi_generation (pb_identity p)) now) ;;
                          mret (mk_version_plan 1 None (Some head_id))
                      | Some v =>
                          raise_if (v != durable) BrokeredCheckpointQuarantined "checkpoint Dataset advanced beyond the exact current HEAD" ;;
                          mret (mk_version_plan (durable + 1) (Some durable) None)
                      end
                  end
              end
          end
      end
  end.

(** [ref.split("/", 1)[1]] *)
Fixpoint after_slash (s : string) : option string :=
  match s with EmptyString => None | String c s' => if c == "/"%char then Some s' else after_slash s' end.

Definition version_notes (p : publication_row) : string :=
  let i := pb_identity p in
  "mdh-checkpoint operation=" +:+ pi_operation i +:+ " epoch=" +:+ str_int (pi_epoch i) +:+ " manifest=" +:+ pi_manifest i.

(** The provider creates the version, or shows that it has. *)
Definition create_version (checkpoint_id : UUID) (p : publication_row) (plan : version_plan) (expected_files : list (string * Z * string))
    (files : list BrokeredDatasetFile) : M (upload_service P) unit :=
  let dataset := pi_dataset (pb_identity p) in
  observed ← except_exception (
    title ← lift (match after_slash dataset with Some t => Ret t | None => throw ValueError "list index out of range" end);
    v ← changing (DatasetVersion (pb_id p)) (finalize_brokered_checkpoint_dataset dataset title files (version_notes p) (vp_previous plan));
    mret (Some v))
    (λ _, shown ← on_provider (reconcile_brokered_checkpoint_dataset dataset (vp_expected plan) expected_files);
          raise_if (negb shown) BrokeredCheckpointError "checkpoint Dataset finalization remains unresolved" ;;
          mret None);
  match observed with
  | Some v =>
      if v != vp_expected plan then
        fail_publication checkpoint_id "DATASET_VERSION_UNEXPECTED" true ;;
        raise BrokeredCheckpointQuarantined "checkpoint Dataset finalization returned an unexpected version"
      else mret tt
  | None => mret tt
  end.

(** An interrupted creation is only looked for. *)
Definition reconcile_version (checkpoint_id : UUID) (p : publication_row) (plan : version_plan) (expected_files : list (string * Z * string)) :
    M (upload_service P) unit :=
  shown ← on_provider (reconcile_brokered_checkpoint_dataset (pi_dataset (pb_identity p)) (vp_expected plan) expected_files);
  if negb shown then
    (if 3 <=? pb_finalize_attempts p then
       fail_publication checkpoint_id "DATASET_VERSION_UNRESOLVED" true ;;
       raise BrokeredCheckpointQuarantined "interrupted checkpoint Dataset finalization exhausted bounded reconciliation"
     else mret tt) ;;
    raise BrokeredCheckpointError "interrupted checkpoint Dataset finalization is not yet reconciled"
  else mret tt.

(** [_restore_verifier_for] and [_verifier_revision] *)
Definition restore_verifier_for (p : publication_row) : M (upload_service P) restore_verifier :=
  match own_verifier with
  | Some v => mret v
  | None =>
      if has_factory then
        operation ← lift (uuid_value (JStr (pi_operation (pb_identity p))));
        run ← lift (uuid_value (JStr (pi_run (pb_identity p))));
        on_provider (restore_verifier_factory operation run)
      else raise BrokeredCheckpointError "independent restore verifier is unavailable"
  end.

Definition verifier_revision (v : restore_verifier) : string :=
  let fallback := sha256 (canonical_json (JObj [("schema_version", JStr "my-data-hub-checkpoint-verifier-revision.v1"); ("verifier_type", JStr (rv_type v))])) in
  match rv_revision v with Some r => if is_sha256 r then r else fallback | None => fallback end.

(** *** Verification and promotion

    Inside the [try] the variable [publication] changes; the handler reads it. *)

Definition in_try {A} (m : M (upload_service P) A) : M (publication_row * upload_service P) A := λ s,
  let '(o, w) := m s.2 in (o, (s.1, w)).
Definition the_row : M (publication_row * upload_service P) publication_row := gets fst.
Definition set_row (p : publication_row) : M (publication_row * upload_service P) unit := modify (λ s, (p, s.2)).

(** [KaggleDatasetIdentity(...)] *)
Definition ref_char (c : Ascii.ascii) : bool := word_char c.
Definition provider_ref_ok (s : string) : bool :=
  match split_slash s with
  | [a; b] => (a != "") && string_forallb ref_char a && (b != "") && string_forallb ref_char b && (slen s <=? 300)
  | _ => false
  end.
Definition dataset_identity (dataset : string) (version : Z) (package : string) : outcome unit :=
  throw_if (negb (provider_ref_ok dataset) || (version <? 1) || negb (is_sha256 package)) ValidationError "validation error".

(** [receipt.get("ok") is True and isinstance(receipt.get("provider_run_ref"), str)] *)
Definition receipt_run (receipt : list (string * json)) : option string :=
  match assoc "ok" receipt, assoc "provider_run_ref" receipt with Some (JBool true), Some (JStr run) => Some run | _, _ => None end.

Definition verify_publication (checkpoint_id : UUID) (exact_ref : string) (version : Z) (package : string) (m : CheckpointManifest)
    (v : restore_verifier) (p : publication_row) : M (upload_service P) publication_row :=
  read_clock ;;
  lift (dataset_identity (pi_dataset (pb_identity p)) version package) ;;
  receipt ← on_provider (verify_restore v exact_ref version package m);
  match receipt_run receipt with
  | None => raise BrokeredCheckpointError "independent restore verifier did not pass"
  | Some run =>
      let receipt_sha256 := sha256 (canonical_json (JObj receipt)) in
      from_ledger (durable_readback_verified checkpoint_id) ;;
      from_ledger (durable_restore_verified checkpoint_id) ;;
      at_now (transition sha256 (uuid_str checkpoint_id)
        (mk_transition ["VERIFYING"] "VERIFIED" "verifier.passed" [("receipt_sha256", JStr receipt_sha256)] None (Some run) (Some receipt_sha256)
           (Some receipt) None))
  end.

Definition promote_publication (checkpoint_id : UUID) (p : publication_row) : M (upload_service P) publication_row :=
  now ← read_clock;
  promoted ← from_ledger (durable_promote "postgres-master" now checkpoint_id (pi_generation (pb_identity p)));
  at_now (transition sha256 (uuid_str checkpoint_id)
    (mk_transition ["VERIFIED"] "PROMOTED" "publication.promoted"
       [("generation", JInt (h_generation promoted)); ("checkpoint_id", JStr (uuid_str checkpoint_id))] None None None None None)).

Definition verify_and_promote (checkpoint_id : UUID) (exact_ref : string) (version : Z) (package : string) (m : CheckpointManifest)
    (durable_recovery : bool) : M (publication_row * upload_service P) unit :=
  in_try (from_ledger (durable_uploaded checkpoint_id exact_ref)) ;;
  in_try (from_ledger (durable_package_uploaded checkpoint_id package)) ;;
  p ← the_row;
  verifier ← (if mem (pb_state p) ["DATASET_RESOLVED"; "VERIFYING"] then v ← in_try (restore_verifier_for p); mret (Some v) else mret None);
  (if pb_state p == "DATASET_RESOLVED" then
     v ← assert_some verifier;
     started ← in_try (at_now (start_verification sha256 (uuid_str checkpoint_id) (verifier_revision v)));
     set_row started
   else mret tt) ;;
  p ← the_row;
  (if pb_state p == "VERIFYING" then
     v ← assert_some verifier;
     verified ← in_try (verify_publication checkpoint_id exact_ref version package m v p);
     set_row verified
   else mret tt) ;;
  p ← the_row;
  refreshed ← in_try (at_now (publication_runtime_authority (uuid_str checkpoint_id)));
  match refreshed with
  | None => raise LeaseRejected "checkpoint runtime authority expired during independent verification"
  | Some (q, lease_until) =>
      let i := pb_identity q in
      in_try (validate_publication p (mk_RuntimeUploadAuthority (pi_operation i) (pi_run i) (pi_attempt i) (pi_master i) (pi_service (pb_identity p))
                                        (pi_epoch i) (pi_run_ref i) lease_until) durable_recovery) ;;
      if pb_state p == "VERIFIED" then promoted ← in_try (promote_publication checkpoint_id p); set_row promoted else mret tt
  end.

Definition FINAL_STATES : list string := ["PROMOTED"; "FAILED"; "QUARANTINED"].

(** The [try] around it. *)
Definition try_verify (checkpoint_id : UUID) (exact_ref : string) (version : Z) (package : string) (m : CheckpointManifest) (durable_recovery : bool)
    (p : publication_row) : M (upload_service P) publication_row := λ w,
  match verify_and_promote checkpoint_id exact_ref version package m durable_recovery (p, w) with
  | (Ret _, (p, w)) => (Ret p, w)
  | (Exc e, (p, w)) =>
      ((if (exn_cls e == ProcessKilled) || mem (pb_state p) FINAL_STATES then mret tt else fail_publication checkpoint_id (class_name e) false) ;; reraise e) w
  end.

(** [_finalize] *)
Definition finalize_publication (checkpoint_id : UUID) (a : RuntimeUploadAuthority) (durable_recovery : bool) : M (upload_service P) public_status_view :=
  p ← in_store (on_uploads (publication (uuid_str checkpoint_id)));
  match p with
  | None => raise BrokeredCheckpointError "checkpoint publication is absent"
  | Some p =>
      '(_, manifest) ← validate_publication p a durable_recovery;
      if pb_state p == "PROMOTED" then public_status p
      else
        rows ← in_store (on_uploads (claims (uuid_str checkpoint_id)));
        '(expected_files, files, package) ← lift (provider_files p manifest rows);
        plan ← plan_version p;
        let original_state := pb_state p in
        p ← at_now (begin_finalize sha256 (uuid_str checkpoint_id) (vp_expected plan));
        let exact_ref := pi_dataset (pb_identity p) +:+ "/" +:+ str_int (vp_expected plan) in
        p ← (if mem (pb_state p) ["DATASET_RESOLVED"; "VERIFYING"; "VERIFIED"; "PROMOTED"] then mret p
             else
               (if original_state == "READY_TO_FINALIZE" then create_version checkpoint_id p plan expected_files files
                else reconcile_version checkpoint_id p plan expected_files) ;;
               at_now (resolve_dataset sha256 (uuid_str checkpoint_id) exact_ref));
        (match vp_reset plan with
         | None => mret tt
         | Some head =>
             in_store (retire_missing_checkpoint_dataset_incarnation (uuid_str checkpoint_id) (pi_dataset (pb_identity p)) head
                         (pi_generation (pb_identity p))) ;; mret tt
         end) ;;
        make_registry p ;;
        p ← try_verify checkpoint_id exact_ref (vp_expected plan) package manifest durable_recovery p;
        public_status p
  end.

Definition finalize (checkpoint_id : UUID) (a : RuntimeUploadAuthority) : M (upload_service P) public_status_view := finalize_publication checkpoint_id a false.

(** *** Recovery *)

(** One failed publication: reopened, if a verifier of a new revision is there. *)
Definition reopen_failed (checkpoint_value : string) : M (upload_service P) unit :=
  p ← in_store (on_uploads (publication checkpoint_value));
  match p with
  | None => mret tt
  | Some p =>
      suppressed (
        v ← restore_verifier_for p;
        at_now (retry_failed_verification sha256 checkpoint_value (verifier_revision v)) ;;
        mret tt)
  end.

(** One pending publication, with its answer. *)
Definition resume_pending (checkpoint_value : string) : M (upload_service P) (option public_status_view) :=
  checkpoint_id ← lift (uuid_value (JStr checkpoint_value));
  raw ← at_now (publication_runtime_authority checkpoint_value);
  match raw with
  | None => fail_publication checkpoint_id "RUNTIME_AUTHORITY_EXPIRED" false ;; mret None
  | Some (q, lease_until) =>
      let i := pb_identity q in
      try_except (
        s ← finalize_publication checkpoint_id (mk_RuntimeUploadAuthority (pi_operation i) (pi_run i) (pi_attempt i) (pi_master i) (pi_service i)
                                                  (pi_epoch i) (pi_run_ref i) lease_until) true;
        mret (Some s))
        (λ e, if is_broker_error e then mret None else reraise e)
  end.

Fixpoint for_each {A B} (f : A → M (upload_service P) B) (l : list A) : M (upload_service P) (list B) :=
  match l with [] => mret [] | a :: l' => b ← f a; bs ← for_each f l'; mret (b :: bs) end.

Definition reconcile_pending_once : M (upload_service P) (list public_status_view) :=
  failed ← in_store (on_uploads (failed_verifier_publications 10));
  for_each reopen_failed failed ;;
  pending ← in_store (on_uploads (pending_publications 10));
  results ← for_each resume_pending pending;
  mret (omap id results).
End service.
