(* ===== verification/UploadServiceSafety.v ===== *)
(** * UploadServiceSafety: the service keeps the rules of its ledger

    Whatever the service is asked, whatever the provider and the verifiers
    answer and wherever the process ends, what happens to the upload ledger is an
    execution of UploadRuns, and every change at the provider is asked for once
    at most. *)

From S2P Require Import Prelude Time Json Uuid LedgerState LedgerOperations LedgerCheckpoints Manifest ManifestPayload Registry.
From S2P Require Import UploadLedger UploadSafety UploadRuns UploadIncarnation UploadService.

(** ** What the ledger goes through *)

Section reaching.
Context (sha256 : string → string).

(** An execution of the upload ledger leads from one store to the other. *)
Definition reaches (u u' : uploads) : Prop := ∃ acts, Forall (λ a, service_action a = true) acts ∧ (upload_run sha256 acts u).2 = u'.

Lemma upload_run_app acts acts' u : (upload_run sha256 (acts ++ acts')%list u).2 = (upload_run sha256 acts' (upload_run sha256 acts u).2).2.
Proof.
  revert u. induction acts as [|a acts IH]; intros u; [done|]. cbn. destruct (run_action sha256 a u) as [o u1]. specialize (IH u1).
  destruct (upload_run sha256 (acts ++ acts')%list u1), (upload_run sha256 acts u1). done.
Qed.

#[global] Instance reaches_preorder : PreOrder reaches.
Proof.
  split.
  - intros u. by exists [].
  - intros a b c (acts & H1 & <-) (acts' & H2 & <-). exists (acts ++ acts')%list. split; [by apply Forall_app|]. apply upload_run_app.
Qed.

Lemma reaches_action a u : service_action a = true → reaches u (run_action sha256 a u).2.
Proof. intros Ha. exists [a]. split; [by constructor|]. cbn. by destruct (run_action sha256 a u). Qed.

Lemma reaches_keeps u u' : reaches u u' → uploads_ok u → uploads_ok u' ∧ uploads_move u u'.
Proof. intros (acts & Ha & <-). by apply keeps_run. Qed.

(** A store-level computation whose uploads go through an execution. *)
Definition store_reaches {A} (m : M checkpoint_store A) : Prop := ∀ s, reaches (cs_uploads s) (cs_uploads (m s).2).

Lemma store_call {A} (m : M uploads A) (f : A → upload_answer) c now :
  run_call sha256 c now = (a ← m; mret (f a)) → service_action (Call c now) = true → store_reaches (on_uploads m).
Proof.
  intros E Hc s. pose proof (reaches_action (Call c now) (cs_uploads s) Hc) as H. cbn [run_action] in H. rewrite E in H. unfold on_uploads.
  unfold mbind, M_bind in H. by destruct (m (cs_uploads s)) as [[a|e] u].
Qed.

Lemma store_pure {A} (m : M checkpoint_store A) : (∀ s, cs_uploads (m s).2 = cs_uploads s) → store_reaches m.
Proof. intros H s. by rewrite H. Qed.

Lemma store_read {A} (m : M uploads A) : (∀ u, (m u).2 = u) → store_reaches (on_uploads m).
Proof. intros H. apply store_pure. intros s. unfold on_uploads. specialize (H (cs_uploads s)). by destruct (m (cs_uploads s)). Qed.

Lemma store_ledger {A} (m : M ledger A) : store_reaches (on_ledger m).
Proof.
  intros s. unfold on_ledger, on_uploads, in_ledger. destruct (m (up_ledger (cs_uploads s))) as [o l]. cbn. exact (reaches_action (Elsewhere l) (cs_uploads s) eq_refl).
Qed.

Lemma store_bind {A B} (m : M checkpoint_store A) (f : A → M checkpoint_store B) : store_reaches m → (∀ a, store_reaches (f a)) → store_reaches (mbind f m).
Proof.
  intros Hm Hf s. specialize (Hm s). unfold mbind, M_bind. destruct (m s) as [[a|e] s1]; [|done]. etransitivity; [exact Hm|apply Hf].
Qed.

Lemma store_atomically {A} (m : M checkpoint_store A) : store_reaches m → store_reaches (atomically m).
Proof. intros Hm s. specialize (Hm s). unfold atomically. by destruct (m s) as [[a|e] s1]. Qed.

Lemma prepare_missing_uploads r d h g now s : cs_uploads (prepare_missing_checkpoint_dataset_incarnation sha256 r d h g now s).2 = cs_uploads s.
Proof.
  unfold prepare_missing_checkpoint_dataset_incarnation. unfold mbind, M_bind, raise_if, atomically, insert_retirement.
  repeat (py_cbn; cbn [cs_uploads]; try case_match; simplify_eq/=; try done).
Qed.

Lemma insert_retirement_keeps x s id r : find_retirement id s = Some r → find_retirement id (insert_retirement x s).2 = Some r.
Proof. intros E. unfold insert_retirement. case_match; [|done]. unfold find_retirement in *. cbn. by rewrite find_app, E. Qed.

Lemma prepare_missing_retirements r d h g now s id x :
  find_retirement id s = Some x → find_retirement id (prepare_missing_checkpoint_dataset_incarnation sha256 r d h g now s).2 = Some x.
Proof.
  intros Hx. unfold prepare_missing_checkpoint_dataset_incarnation. destruct (_ || _); [done|]. unfold mbind, M_bind, raise_if, atomically, gets, get. cbn.
  destruct (find_retirement r s); [by destruct (_ || _)|]. destruct (negb _); [done|]. cbn. destruct (negb _); [done|]. cbn.
  destruct (safe_json_list _ _); [|done]. cbn. match goal with |- context [insert_retirement ?y s] => pose proof (insert_retirement_keeps y s id x Hx) as Hi; destruct (insert_retirement y s) as [[]s1] end;
    [|done]. cbn. by destruct (find_retirement r s1).
Qed.

Lemma store_prepare_missing r d h g now : store_reaches (prepare_missing_checkpoint_dataset_incarnation sha256 r d h g now).
Proof. apply store_pure. intros s. apply prepare_missing_uploads. Qed.

Lemma store_retire_missing r d h g : store_reaches (retire_missing_checkpoint_dataset_incarnation r d h g).
Proof.
  apply store_atomically. intros s. unfold mbind, M_bind, get. destruct (find_retirement r s) as [x|]; [|done].
  destruct (_ || _); [done|]. pose proof (store_ledger (release_versions r d) s) as H. cbn -[on_ledger] in H |- *.
  by destruct (on_ledger (release_versions r d) s) as [[a|e] s1].
Qed.

(** What [begin_finalize] answers is the publication, past the uploads. *)
Lemma begin_finalize_inv id v now u p u' : begin_finalize sha256 id v now u = (Ret p, u') →
  find_publication id u' = Some p ∧ pb_state p ∈ ["FINALIZING"; "DATASET_RESOLVED"; "VERIFYING"; "VERIFIED"; "PROMOTED"].
Proof.
  unfold begin_finalize. intros E. apply bind_ret_inv in E as (x & u0 & [_ ->]%raise_if_inv & E). apply atomically_inv in E.
  apply bind_ret_inv in E as (r & u1 & [Hr ->]%get_publication_inv & E). apply bind_ret_inv in E as (q & u2 & Hq & E).
  apply bind_ret_inv in E as (y & u3 & [Hst ->]%raise_if_inv & [<- ->]%mret_inv). apply orb_false_iff in Hst as [Hst _]. apply negb_false_iff, mem_true in Hst.
  split; [|done]. destruct (pb_state r == "READY_TO_FINALIZE"); [|destruct (_ && _)].
  - apply bind_ret_inv in Hq as (n & u3 & _ & Hq). apply bind_ret_inv in Hq as (z & u4 & _ & Hq). apply bind_ret_inv in Hq as (t & u5 & _ & [Hq ->]%refreshed_inv). done.
  - apply bind_ret_inv in Hq as (n & u3 & _ & Hq). apply bind_ret_inv in Hq as (z & u4 & [Hz ->]%refreshed_inv & Hq).
    apply bind_ret_inv in Hq as (t & u5 & (Ep & _ & _)%event_keeps_rows & [<- ->]%mret_inv). unfold find_publication in *. by rewrite Ep.
  - by apply mret_inv in Hq as [<- ->].
Qed.

(** The methods that write, and the ones that read. *)
Lemma store_ensure_publication id i now : store_reaches (on_uploads (ensure_publication sha256 id i now)).
Proof. by apply (store_call _ APublication (EnsurePublication id i) now). Qed.
Lemma store_ensure_claim id i now : store_reaches (on_uploads (ensure_claim sha256 id i now)).
Proof. by apply (store_call _ (λ r, ANewClaim r.1 r.2) (EnsureClaim id i) now). Qed.
Lemma store_claim_start id now : store_reaches (on_uploads (claim_start sha256 id now)).
Proof. by apply (store_call _ AClaim (ClaimStart id) now). Qed.
Lemma store_mark_ready id t v now : store_reaches (on_uploads (mark_ready sha256 id t v now)).
Proof. by apply (store_call _ AClaim (MarkReady id t v) now). Qed.
Lemma store_mark_start_ambiguous id now : store_reaches (on_uploads (mark_start_ambiguous sha256 id now)).
Proof. by apply (store_call _ (λ _, ADone) (MarkStartAmbiguous id) now). Qed.
Lemma store_complete_claim id n h now : store_reaches (on_uploads (complete_claim sha256 id n h now)).
Proof. by apply (store_call _ AClaim (CompleteClaim id n h) now). Qed.
Lemma store_begin_finalize id v now : store_reaches (on_uploads (begin_finalize sha256 id v now)).
Proof. by apply (store_call _ APublication (BeginFinalize id v) now). Qed.
Lemma store_resolve_dataset id v now : store_reaches (on_uploads (resolve_dataset sha256 id v now)).
Proof. by apply (store_call _ APublication (ResolveDataset id v) now). Qed.
Lemma store_start_verification id v now : store_reaches (on_uploads (start_verification sha256 id v now)).
Proof. by apply (store_call _ APublication (StartVerification id v) now). Qed.
Lemma store_retry id v now : store_reaches (on_uploads (retry_failed_verification sha256 id v now)).
Proof. by apply (store_call _ AReopened (RetryFailedVerification id v) now). Qed.
Lemma store_transition id q now : service_request q = true → store_reaches (on_uploads (transition sha256 id q now)).
Proof. intros Hq. by apply (store_call _ APublication (Transition id q) now). Qed.

Lemma store_publication id : store_reaches (on_uploads (publication id)).
Proof. by apply store_read. Qed.
Lemma store_claims id : store_reaches (on_uploads (claims id)).
Proof. by apply store_read. Qed.
Lemma store_get_claim id : store_reaches (on_uploads (get_claim id)).
Proof. apply store_read, state_get_claim. Qed.
Lemma store_runtime_authority id now : store_reaches (on_uploads (publication_runtime_authority id now)).
Proof. by apply store_read. Qed.
Lemma authorized_reads s r a m e now u : (runtime_service_authorized s r a m e now u).2 = u.
Proof.
  unfold runtime_service_authorized, runtime_service_snapshot. py_cbn. destruct (List.find _ _); [|done]. by destruct (snapshot_ok _ _ _ _ _ _ _).
Qed.
Lemma store_authorized s r a m e now : store_reaches (on_uploads (runtime_service_authorized s r a m e now)).
Proof. apply store_read. intros u. apply authorized_reads. Qed.
Lemma store_pending n : store_reaches (on_uploads (pending_publications n)).
Proof. apply store_read. intros u. unfold pending_publications, scan_publications. py_cbn. by destruct (negb _). Qed.
Lemma store_failed n : store_reaches (on_uploads (failed_verifier_publications n)).
Proof. apply store_read. intros u. unfold failed_verifier_publications, scan_publications. py_cbn. by destruct (negb _). Qed.
Lemma store_retirement id : store_reaches (checkpoint_dataset_incarnation_retirement id).
Proof. by apply store_pure. Qed.
End reaching.

Create HintDb service.
#[export] Hint Resolve store_ensure_publication store_ensure_claim store_claim_start store_mark_ready store_mark_start_ambiguous store_complete_claim
  store_begin_finalize store_resolve_dataset store_start_verification store_retry store_publication store_claims store_get_claim store_runtime_authority
  store_authorized store_pending store_failed store_retirement store_prepare_missing store_retire_missing : service.

(** ** What a call of the service may do *)

Section service.
Context {P : Type} `{UploadProvider P}.
Context (sha256 : string → string) (fromisoformat : string → option datetime) (uuid5 : string → UUID) (urlsplit : string → option split_url).
Context (encrypt : string → string → string → string) (decrypt : string → string → string → option string) (urandom : nat → string).
Context (clock : nat → Z) (own_verifier : option restore_verifier) (has_factory : bool).

Abbreviation ups w := (cs_uploads (us_store w)).

(** How often a change was asked for, and how often the ledger still allows it. *)
Definition asked (c : provider_change) (w : upload_service P) : Z := Z.of_nat (length (List.filter (λ d, d == c) (us_changes w))).

Definition version_left (checkpoint_id : string) (u : uploads) : Z :=
  match find_publication checkpoint_id u with
  | Some p => if mem (pb_state p) ["PREPARING"; "UPLOADING"; "READY_TO_FINALIZE"] then 1 else 0
  | None => 1
  end.

Definition allowed (c : provider_change) (u : uploads) : Z :=
  match c with BlobStart claim_id => starts_left claim_id u | DatasetVersion checkpoint_id => version_left checkpoint_id u end.

(** The ledger goes through an execution, and what was asked for and what is
    allowed grows by [credit] at most. *)
Definition advances (credit : provider_change → Z) (w w' : upload_service P) : Prop :=
  uploads_ok (ups w) → reaches sha256 (ups w) (ups w') ∧ uploads_ok (ups w') ∧ ∀ c, asked c w' + allowed c (ups w') ≤ asked c w + allowed c (ups w) + credit c.

Definition none (c : provider_change) : Z := 0.

Lemma version_left_move id u u' : uploads_move u u' → version_left id u' ≤ version_left id u.
Proof.
  intros [_ Hm _]. unfold version_left. destruct (find_publication id u) as [p|] eqn:E.
  - destruct (rows_move_find publication_move pb_id (up_publications u) (up_publications u') id p) as (p' & E' & (_ & _ & Hs & _)); [by intros ?? []|done..|].
    unfold find_publication in *. rewrite E'. destruct (mem (pb_state p') _) eqn:Hp'; [|by destruct (mem (pb_state p) _)].
    rewrite (proj2 (mem_true _ _)); [done|]. apply mem_true in Hp'. revert Hp'. induction Hs as [|x y z Hxy _ IH]; [done|]. intros Hz. by apply (proj2 (edge_early _ _ Hxy)), IH.
  - destruct (find_publication id u') as [p|]; [|done]. by destruct (mem (pb_state p) _).
Qed.

Lemma allowed_move c u u' : uploads_move u u' → allowed c u' ≤ allowed c u.
Proof. destruct c; [apply starts_left_move|apply version_left_move]. Qed.

Lemma allowed_bounds c u : 0 ≤ allowed c u ≤ 1.
Proof.
  destruct c; cbn; unfold starts_left, version_left; [destruct (List.find _ _) as [c|]; [destruct (cm_state c == _)|]|destruct (find_publication _ _) as [p|]; [destruct (mem (pb_state p) _)|]]; lia.
Qed.

Lemma advances_refl k w : (∀ c, 0 ≤ k c) → advances k w w.
Proof. intros Hk Hw. split_and!; [reflexivity|done|]. intros c. specialize (Hk c). lia. Qed.

Lemma advances_trans k k' w1 w2 w3 : advances k w1 w2 → advances k' w2 w3 → advances (λ c, k c + k' c) w1 w3.
Proof.
  intros H12 H23 Hw. destruct (H12 Hw) as (R1 & O1 & C1). destruct (H23 O1) as (R2 & O2 & C2). split_and!; [by etransitivity|done|].
  intros c. specialize (C1 c). specialize (C2 c). lia.
Qed.

Lemma advances_weaken k k' w w' : (∀ c, k c ≤ k' c) → advances k w w' → advances k' w w'.
Proof. intros Hk Ha Hw. destruct (Ha Hw) as (R & O & C). split_and!; auto. intros c. specialize (C c). specialize (Hk c). lia. Qed.

(** Computations of the service. *)
Definition lawful_at {A} (m : M (upload_service P) A) (w : upload_service P) : Prop := advances none w (m w).2.
Definition lawful {A} (m : M (upload_service P) A) : Prop := ∀ w, lawful_at m w.

Lemma advances_seq w1 w2 w3 : advances none w1 w2 → advances none w2 w3 → advances none w1 w3.
Proof. intros H1 H2. by apply (advances_trans none none w1 w2 w3). Qed.

Lemma lawful_bind {A B} (m : M (upload_service P) A) (f : A → M (upload_service P) B) : lawful m → (∀ a, lawful (f a)) → lawful (mbind f m).
Proof.
  intros Hm Hf w. specialize (Hm w). unfold lawful_at, mbind, M_bind in *. destruct (m w) as [[a|e] w1]; [|done]. eapply advances_seq; [exact Hm|apply Hf].
Qed.

Lemma lawful_pure {A} (m : M (upload_service P) A) : (∀ w, us_store (m w).2 = us_store w ∧ us_changes (m w).2 = us_changes w) → lawful m.
Proof. intros Hm w Hw. destruct (Hm w) as [E1 E2]. unfold asked. rewrite E1, E2. split_and!; [reflexivity|done|]. unfold none. intros c. lia. Qed.

Lemma lawful_in_store {A} (m : M checkpoint_store A) : store_reaches sha256 m → lawful (in_store m).
Proof.
  intros Hm w Hw. specialize (Hm (us_store w)). unfold in_store. destruct (m (us_store w)) as [o s]. cbn in *.
  destruct (reaches_keeps _ _ _ Hm Hw) as [Hok Hmv]. split_and!; [done..|]. intros c. pose proof (allowed_move c _ _ Hmv). unfold asked, none. cbn. lia.
Qed.

Lemma lawful_try {A} (m : M (upload_service P) A) (h : exn → M (upload_service P) A) : lawful m → (∀ e, lawful (h e)) → lawful (try_except m h).
Proof.
  intros Hm Hh w. specialize (Hm w). unfold lawful_at, try_except in *. destruct (m w) as [[a|e] w1]; [done|]. eapply advances_seq; [exact Hm|apply Hh].
Qed.

Lemma lawful_ret {A} (a : A) : lawful (mret a).
Proof. by apply lawful_pure. Qed.
Lemma lawful_raise {A} c msg : lawful (raise (A:=A) c msg).
Proof. by apply lawful_pure. Qed.
Lemma lawful_reraise {A} e : lawful (reraise (A:=A) e).
Proof. by apply lawful_pure. Qed.
Lemma lawful_raise_if b c msg : lawful (raise_if b c msg).
Proof. apply lawful_pure. intros w. by destruct b. Qed.
Lemma lawful_lift {A} (o : outcome A) : lawful (lift o).
Proof. by apply lawful_pure. Qed.
Lemma lawful_read_clock : lawful (read_clock clock).
Proof. by apply lawful_pure. Qed.
Lemma lawful_random : lawful (random_nonce urandom).
Proof. by apply lawful_pure. Qed.
Lemma lawful_on_provider {A} (m : M P A) : lawful (on_provider m).
Proof. apply lawful_pure. intros w. unfold on_provider. by destruct (m (us_provider w)). Qed.
Lemma lawful_from_ledger {A} (m : M ledger A) : lawful (from_ledger m).
Proof. apply lawful_in_store, store_ledger. Qed.
Lemma lawful_at_now {A} (m : Z → M uploads A) : (∀ now, store_reaches sha256 (on_uploads (m now))) → lawful (at_now clock m).
Proof. intros Hm. apply lawful_bind; [apply lawful_read_clock|]. intros now. apply lawful_in_store, Hm. Qed.
Lemma lawful_except {A} (m : M (upload_service P) A) (h : exn → M (upload_service P) A) : lawful m → (∀ e, lawful (h e)) → lawful (except_exception m h).
Proof. intros Hm Hh. apply lawful_try; [done|]. intros e. case_bool_decide; [apply lawful_reraise|apply Hh]. Qed.

(** *** Every method but the two changes *)

Ltac law_step :=
  lazymatch goal with
  | |- lawful (mbind _ _) => apply lawful_bind; [|intros ?]
  | |- lawful (try_except _ _) => apply lawful_try; [|intros ?]
  | |- lawful (except_exception _ _) => apply lawful_except; [|intros ?]
  | |- lawful (suppressed _) => apply lawful_except; [|intros ?]
  | |- lawful (at_now _ _) => apply lawful_at_now; intros ?; eauto with service
  | |- lawful (in_store _) => apply lawful_in_store; eauto with service
  | |- lawful (from_ledger _) => apply lawful_from_ledger
  | |- lawful (on_provider _) => apply lawful_on_provider
  | |- lawful (raise_if _ _ _) => apply lawful_raise_if
  | |- lawful (raise _ _) => apply lawful_raise
  | |- lawful (reraise _) => apply lawful_reraise
  | |- lawful (lift _) => apply lawful_lift
  | |- lawful (mret _) => apply lawful_ret
  | |- lawful (read_clock _) => apply lawful_read_clock
  | |- lawful (random_nonce _) => apply lawful_random
  | |- lawful (match ?x with _ => _ end) => destruct x
  | |- lawful (let '(_, _) := ?x in _) => destruct x
  end.
Ltac law := repeat law_step.

Lemma lawful_make_registry p : lawful (make_registry p).
Proof. unfold make_registry. law. Qed.

Lemma lawful_fail id code q : lawful (fail_publication sha256 clock id code q).
Proof. unfold fail_publication, make_registry. law. apply store_transition. by destruct q. Qed.

Lemma lawful_validate spec a d : lawful (validate sha256 fromisoformat clock spec a d).
Proof. unfold validate, upload_fenced. law. Qed.

Lemma lawful_validate_publication p a d : lawful (validate_publication sha256 fromisoformat clock p a d).
Proof. unfold validate_publication. law; apply lawful_validate. Qed.

Lemma lawful_seal v c k : lawful (seal encrypt urandom v c k).
Proof. unfold seal. law. Qed.

Lemma lawful_public_status p : lawful (public_status p).
Proof. unfold public_status. law. Qed.

Lemma lawful_plan p : lawful (plan_version sha256 clock p).
Proof. unfold plan_version. law. Qed.

Lemma lawful_reconcile id p plan files : lawful (reconcile_version sha256 clock id p plan files).
Proof. unfold reconcile_version. law; apply lawful_fail. Qed.

Lemma lawful_verifier p : lawful (restore_verifier_for own_verifier has_factory p).
Proof. unfold restore_verifier_for. law. Qed.

Lemma lawful_verify id r v k m x p : lawful (verify_publication sha256 clock id r v k m x p).
Proof. unfold verify_publication. law. by apply store_transition. Qed.

Lemma lawful_promote id p : lawful (promote_publication sha256 clock id p).
Proof. unfold promote_publication. law. by apply store_transition. Qed.

(** *** Inside the [try] *)

Definition tried {A} (m : M (publication_row * upload_service P) A) : Prop := ∀ s, advances none s.2 (m s).2.2.

Lemma tried_bind {A B} (m : M (publication_row * upload_service P) A) (f : A → M (publication_row * upload_service P) B) :
  tried m → (∀ a, tried (f a)) → tried (mbind f m).
Proof.
  intros Hm Hf s. specialize (Hm s). unfold mbind, M_bind. destruct (m s) as [[a|e] s1]; [|done]. eapply advances_seq; [exact Hm|apply Hf].
Qed.

Lemma tried_same {A} (m : M (publication_row * upload_service P) A) : (∀ s, (m s).2.2 = s.2) → tried m.
Proof. intros Hm s. rewrite Hm. by apply advances_refl. Qed.

Lemma tried_in {A} (m : M (upload_service P) A) : lawful m → tried (in_try m).
Proof. intros Hm [p w]. specialize (Hm w). unfold in_try. cbn. unfold lawful_at in Hm. by destruct (m w). Qed.

Ltac try_step :=
  lazymatch goal with
  | |- tried (mbind _ _) => apply tried_bind; [|intros ?]
  | |- tried (in_try _) => apply tried_in
  | |- tried (match ?x with _ => _ end) => destruct x
  | |- tried (let '(_, _) := ?x in _) => destruct x
  | |- tried (assert_some ?o) => apply tried_same; intros ?; by destruct o
  | |- tried _ => apply tried_same; intros ?; done
  end.

Lemma lawful_try_verify id r v k m d p : lawful (try_verify sha256 fromisoformat clock own_verifier has_factory id r v k m d p).
Proof.
  intros w. unfold lawful_at, try_verify.
  assert (tried (verify_and_promote sha256 fromisoformat clock own_verifier has_factory id r v k m d)) as Ht.
  { unfold verify_and_promote. repeat try_step; law;
      auto using lawful_verifier, lawful_verify, lawful_promote, lawful_validate_publication. }
  specialize (Ht (p, w)). cbn in Ht. destruct (verify_and_promote _ _ _ _ _ _ _ _ _ _ _ (p, w)) as [[a|e] [q w1]]; [exact Ht|].
  cbn in Ht. refine (advances_seq _ _ _ Ht _). match goal with |- advances _ _ (?m w1).2 => enough (lawful m) as Hl by apply Hl end.
  law; apply lawful_fail.
Qed.

(** *** The two changes *)

(** What is allowed is used before the provider is asked. *)
Definition credit (c d : provider_change) : Z := if c == d then 1 else 0.

Lemma changing_advances {A} c (m : M P A) w : advances (credit c) w (changing c m w).2.
Proof.
  intros Hw. unfold changing. destruct (m (us_provider w)) as [o p]. cbn. split_and!; [reflexivity|done|]. intros d. unfold asked, credit. cbn.
  rewrite List.filter_app, length_app. cbn. case_bool_decide; cbn; lia.
Qed.

Lemma at_now_inv {A} (m : Z → M uploads A) (w : upload_service P) a w1 : at_now clock m w = (Ret a, w1) →
  ∃ now, m now (ups w) = (Ret a, ups w1) ∧ us_changes w1 = us_changes w.
Proof.
  unfold at_now, mbind, M_bind. cbn [read_clock]. unfold in_store, on_uploads. cbn. intros E. exists (clock (us_reading w)). destruct (m _ _) as [o u].
  by injection E as -> <-.
Qed.

(** A call that takes the last allowance of a change. *)
Lemma spends {A} (m : Z → M uploads A) c (w : upload_service P) a w1 :
  (∀ now, store_reaches sha256 (on_uploads (m now))) → at_now clock m w = (Ret a, w1) → allowed c (ups w) = 1 → allowed c (ups w1) = 0 →
  advances (λ d, - credit c d) w w1.
Proof.
  intros Hm E H0 H1 Hw. pose proof (lawful_at_now m Hm w Hw) as (R & O & C). rewrite E in R, O, C. cbn in R, O, C. split_and!; [done..|].
  intros d. specialize (C d). unfold none, credit in *. case_bool_decide as Ec; [subst d|lia]. destruct (at_now_inv _ _ _ _ E) as (now & _ & Ech).
  rewrite H0, H1. unfold asked. rewrite Ech. lia.
Qed.

Lemma spent_start id (w : upload_service P) r w1 : at_now clock (claim_start sha256 id) w = (Ret r, w1) → advances (λ c, - credit (BlobStart id) c) w w1.
Proof.
  intros E. destruct (at_now_inv _ _ _ _ E) as (now & Es & _). apply claim_start_inv in Es as [H0 H1].
  eapply spends; [|exact E|done..]. intros. apply store_claim_start.
Qed.

Lemma advances_spend c w w1 w2 : advances (λ d, - credit c d) w w1 → advances (credit c) w1 w2 → advances none w w2.
Proof. intros H1 H2. eapply advances_weaken; [|by eapply advances_trans]. unfold none. intros d. cbn. lia. Qed.

(** A computation that asks for one change, with credit for it. *)
Definition lawful_with {A} (c : provider_change) (m : M (upload_service P) A) : Prop := ∀ w, advances (credit c) w (m w).2.

Lemma lawful_with_changing {A} c (m : M P A) : lawful_with c (changing c m).
Proof. intros w. apply changing_advances. Qed.

Lemma lawful_with_weaken {A} c (m : M (upload_service P) A) : lawful m → lawful_with c m.
Proof. intros Hm w. eapply advances_weaken; [|apply Hm]. intros d. unfold none, credit. by case_bool_decide. Qed.

Lemma lawful_with_bind {A B} c (m : M (upload_service P) A) (f : A → M (upload_service P) B) :
  lawful_with c m → (∀ a, lawful (f a)) → lawful_with c (mbind f m).
Proof.
  intros Hm Hf w. specialize (Hm w). unfold mbind, M_bind in *. destruct (m w) as [[a|e] w1]; [|done].
  eapply advances_weaken; [|eapply advances_trans; [exact Hm|apply Hf]]. unfold none. intros d. cbn. lia.
Qed.

Lemma lawful_then_with {A B} c (m : M (upload_service P) A) (f : A → M (upload_service P) B) :
  lawful m → (∀ a, lawful_with c (f a)) → lawful_with c (mbind f m).
Proof.
  intros Hm Hf w. pose proof (lawful_with_weaken c m Hm w) as Hw. specialize (Hm w). unfold lawful_at, mbind, M_bind in *. destruct (m w) as [[a|e] w1]; [|done].
  eapply advances_weaken; [|eapply advances_trans; [exact Hm|apply Hf]]. unfold none. intros d. cbn. lia.
Qed.

Lemma lawful_with_except {A} c (m : M (upload_service P) A) (h : exn → M (upload_service P) A) :
  lawful_with c m → (∀ e, lawful (h e)) → lawful_with c (except_exception m h).
Proof.
  intros Hm Hh w. specialize (Hm w). unfold except_exception, try_except. destruct (m w) as [[a|e] w1]; [done|]. case_bool_decide; [done|].
  eapply advances_weaken; [|eapply advances_trans; [exact Hm|apply Hh]]. unfold none. intros d. cbn. lia.
Qed.

Lemma lawful_start_blob spec m claim : lawful (start_blob sha256 clock spec m claim).
Proof.
  intros w. unfold lawful_at, start_blob. pose proof (lawful_at_now (claim_start sha256 (uuid_str claim)) (λ now, store_claim_start _ _ now) w) as Hl. unfold lawful_at in Hl.
  unfold mbind at 1, M_bind at 1. destruct (at_now clock (claim_start sha256 (uuid_str claim)) w) as [[r|e] w1] eqn:E; [|exact Hl].
  eapply advances_spend; [by eapply spent_start|]. apply lawful_with_except; [|intros; law; by eauto with service].
  apply lawful_then_with; [law|]. intros. apply lawful_with_changing.
Qed.

Lemma lawful_prepare spec a : lawful (prepare sha256 fromisoformat uuid5 urlsplit encrypt decrypt urandom clock spec a).
Proof.
  unfold prepare. law; auto using lawful_validate, lawful_fail, lawful_start_blob, lawful_seal.
Qed.

Lemma lawful_complete c a : lawful (complete sha256 clock c a).
Proof. unfold complete. law. Qed.

Lemma spent_version id v (w : upload_service P) p w1 p0 :
  at_now clock (begin_finalize sha256 id v) w = (Ret p, w1) → find_publication id (ups w) = Some p0 → pb_state p0 = "READY_TO_FINALIZE" →
  advances (λ c, - credit (DatasetVersion id) c) w w1.
Proof.
  intros E Hp Hs. destruct (at_now_inv _ _ _ _ E) as (now & Es & _). eapply spends; [|exact E|..]; [intros; apply store_begin_finalize|cbn; unfold version_left; rewrite Hp, Hs; reflexivity|].
  cbn. unfold version_left. apply begin_finalize_inv in Es as (Hf & Hst). rewrite Hf. by in_list Hst; rewrite Hst.
Qed.

Lemma lawful_with_create id p plan files blobs : lawful_with (DatasetVersion (pb_id p)) (create_version sha256 clock id p plan files blobs).
Proof.
  unfold create_version. apply lawful_with_bind; [|intros; law; apply lawful_fail].
  apply lawful_with_except; [|intros; law]. apply lawful_then_with; [law|]. intros. apply lawful_with_bind; [apply lawful_with_changing|intros; law].
Qed.

(** What is left of the finalization once the version is begun. *)
Definition resolved_publication (id : UUID) (original_state : string) (plan : version_plan) (files : list (string * Z * string))
    (blobs : list BrokeredDatasetFile) (p : publication_row) : M (upload_service P) publication_row :=
  let exact_ref := pi_dataset (pb_identity p) +:+ "/" +:+ str_int (vp_expected plan) in
  if mem (pb_state p) ["DATASET_RESOLVED"; "VERIFYING"; "VERIFIED"; "PROMOTED"] then mret p
  else
    (if original_state == "READY_TO_FINALIZE" then create_version sha256 clock id p plan files blobs else reconcile_version sha256 clock id p plan files) ;;
    at_now clock (resolve_dataset sha256 (uuid_str id) exact_ref).

(** The creation is asked for in the call that begins it, and in no other. *)
Lemma lawful_begin id state v plan files blobs (w : upload_service P) p0 {B} (f : publication_row → publication_row → M (upload_service P) B) :
  find_publication (uuid_str id) (ups w) = Some p0 → pb_state p0 = state → (∀ p q, lawful (f p q)) →
  advances none w ((p ← at_now clock (begin_finalize sha256 (uuid_str id) v); q ← resolved_publication id state plan files blobs p; f p q) w).2.
Proof.
  intros Hp Hs Hf. pose proof (lawful_at_now _ (λ now, store_begin_finalize sha256 (uuid_str id) v now) w) as Hl. unfold lawful_at in Hl.
  unfold mbind at 1, M_bind at 1. destruct (at_now clock _ w) as [[p|e] w1] eqn:E; [|exact Hl].
  assert (pb_id p = uuid_str id) as Eid.
  { destruct (at_now_inv _ _ _ _ E) as (now & Es & _). apply begin_finalize_inv in Es as [Hfind _]. by apply find_some_iff in Hfind as [_ Hfind%bool_decide_eq_true]. }
  destruct (decide (state = "READY_TO_FINALIZE")) as [Er|Er].
  - eapply advances_spend; [eapply spent_version; [exact E|exact Hp|congruence]|]. rewrite <-Eid. apply lawful_with_bind; [|intros; apply Hf].
    unfold resolved_publication. case_match; [apply lawful_with_weaken, lawful_ret|]. rewrite bool_decide_eq_true_2 by done.
    apply lawful_with_bind; [apply lawful_with_create|]. intros. law.
  - eapply advances_seq; [exact Hl|]. apply lawful_bind; [|intros; apply Hf]. unfold resolved_publication. rewrite bool_decide_eq_false_2 by done.
    law. apply lawful_reconcile.
Qed.

(** *** What leaves the publications alone *)

Definition still_between (s s' : checkpoint_store) : Prop :=
  up_publications (cs_uploads s') = up_publications (cs_uploads s) ∧ ∀ id r, find_retirement id s = Some r → find_retirement id s' = Some r.
Definition still {A} (m : M (upload_service P) A) : Prop := ∀ w, still_between (us_store w) (us_store (m w).2).

Lemma still_refl s : still_between s s.
Proof. done. Qed.
Lemma still_trans s1 s2 s3 : still_between s1 s2 → still_between s2 s3 → still_between s1 s3.
Proof. intros [E1 H1] [E2 H2]. split; [congruence|auto]. Qed.

Lemma still_bind {A B} (m : M (upload_service P) A) (f : A → M (upload_service P) B) : still m → (∀ a, still (f a)) → still (mbind f m).
Proof.
  intros Hm Hf w. specialize (Hm w). unfold mbind, M_bind. destruct (m w) as [[a|e] w1]; [|done]. eapply still_trans; [exact Hm|apply Hf].
Qed.
Lemma still_same {A} (m : M (upload_service P) A) : (∀ w, us_store (m w).2 = us_store w) → still m.
Proof. intros Hm w. by rewrite Hm. Qed.
Lemma still_from_ledger {A} (m : M ledger A) : still (from_ledger m).
Proof. intros w. unfold from_ledger, in_store, on_ledger, on_uploads, in_ledger. by destruct (m _). Qed.
Lemma still_read {A} (m : M uploads A) : (∀ u, (m u).2 = u) → still (in_store (on_uploads m)).
Proof. intros Hm w. unfold in_store, on_uploads. specialize (Hm (ups w)). destruct (m (ups w)) as [o u]. cbn in *. by subst. Qed.
Lemma still_at_now {A} (m : Z → M uploads A) : (∀ now u, (m now u).2 = u) → still (at_now clock m).
Proof. intros Hm. apply still_bind; [by apply still_same|]. intros now. apply still_read, Hm. Qed.
Lemma still_on_provider {A} (m : M P A) : still (on_provider m).
Proof. apply still_same. intros w. unfold on_provider. by destruct (m _). Qed.
Lemma still_prepare_missing r d h g now : still (in_store (prepare_missing_checkpoint_dataset_incarnation sha256 r d h g now)).
Proof.
  intros w. unfold in_store. pose proof (prepare_missing_uploads sha256 r d h g now (us_store w)) as E.
  pose proof (prepare_missing_retirements sha256 r d h g now (us_store w)) as R.
  destruct (prepare_missing_checkpoint_dataset_incarnation _ _ _ _ _ _ _) as [o s]. cbn in *. split; [by rewrite E|done].
Qed.

Ltac still_step :=
  lazymatch goal with
  | |- still (mbind _ _) => apply still_bind; [|intros ?]
  | |- still (from_ledger _) => apply still_from_ledger
  | |- still (on_provider _) => apply still_on_provider
  | |- still (raise_if ?b _ _) => apply still_same; intros ?; by destruct b
  | |- still (in_store (on_uploads _)) => apply still_read; by eauto with upload
  | |- still (match ?x with _ => _ end) => destruct x
  | |- still (let '(_, _) := ?x in _) => destruct x
  | |- still (at_now _ _) => apply still_at_now
  | |- still _ => apply still_same; done
  end.

Lemma still_validate spec a d : still (validate sha256 fromisoformat clock spec a d).
Proof.
  unfold validate, upload_fenced. repeat still_step; [done..|]. intros. apply authorized_reads.
Qed.

Lemma still_validate_publication p a d : still (validate_publication sha256 fromisoformat clock p a d).
Proof. unfold validate_publication. repeat still_step; apply still_validate. Qed.

Lemma still_plan p : still (plan_version sha256 clock p).
Proof.
  unfold plan_version. repeat still_step; apply still_prepare_missing.
Qed.

(** *** The calls *)

Lemma lawful_at_bind_still {A B} (m : M (upload_service P) A) (f : A → M (upload_service P) B) w :
  lawful m → still m → (∀ a w1, m w = (Ret a, w1) → still_between (us_store w) (us_store w1) → lawful_at (f a) w1) → lawful_at (mbind f m) w.
Proof.
  intros Hm Hs Hf. specialize (Hm w). specialize (Hs w). unfold lawful_at, mbind, M_bind in *. destruct (m w) as [[a|e] w1]; [|done].
  eapply advances_seq; [exact Hm|]. by apply Hf.
Qed.

Lemma lawful_finalize id a d : lawful (finalize_publication sha256 fromisoformat decrypt clock own_verifier has_factory id a d).
Proof.
  intros w. unfold finalize_publication. apply lawful_at_bind_still; [law|repeat still_step|]. intros o w0 [= Eo _] E0.
  destruct o as [p|]; [|apply lawful_raise]. apply lawful_at_bind_still; [apply lawful_validate_publication|apply still_validate_publication|].
  intros [c manifest] w1 _ E1. destruct (pb_state p == "PROMOTED"); [apply lawful_public_status|].
  apply lawful_at_bind_still; [law|repeat still_step|]. intros rows w2 _ E2. apply lawful_at_bind_still; [law|repeat still_step|].
  intros [[efs blobs] package] w3 _ E3. apply lawful_at_bind_still; [apply lawful_plan|apply still_plan|]. intros plan w4 _ E4.
  refine (lawful_begin id (pb_state p) (vp_expected plan) plan efs blobs w4 p _ _ eq_refl _).
  - unfold find_publication in *. by rewrite (proj1 E4), (proj1 E3), (proj1 E2), (proj1 E1), (proj1 E0).
  - intros p' q. cbv zeta. law; [apply lawful_make_registry|apply lawful_try_verify|apply lawful_public_status].
Qed.

Lemma lawful_for_each {A B} (f : A → M (upload_service P) B) l : (∀ a, lawful (f a)) → lawful (for_each f l).
Proof. intros Hf. induction l as [|a l IH]; cbn; law; auto. Qed.

Lemma lawful_reopen c : lawful (reopen_failed sha256 clock own_verifier has_factory c).
Proof. unfold reopen_failed. law. apply lawful_verifier. Qed.

Lemma lawful_resume c : lawful (resume_pending sha256 fromisoformat decrypt clock own_verifier has_factory c).
Proof. unfold resume_pending. law; auto using lawful_fail, lawful_finalize. Qed.

Lemma lawful_reconcile_pending : lawful (reconcile_pending_once sha256 fromisoformat decrypt clock own_verifier has_factory).
Proof.
  unfold reconcile_pending_once. law; apply lawful_for_each; [apply lawful_reopen|apply lawful_resume].
Qed.
End service.
