(* ===== verification/UploadServiceScenario.v ===== *)
(** * UploadServiceScenario: a master uploads its checkpoint

    Concrete parameters for the upload service and the requests of one master,
    from the preparation of the first file to the promotion; the service's
    theorems are applied to it. *)

From S2P Require Import Prelude Time Json Uuid LedgerState LedgerOperations Manifest ManifestPayload UploadLedger UploadIncarnation UploadService.

Module UploadServiceScenario.

(** ** The parameters *)

(** A polynomial over 16 bits in place of the digests. *)
Fixpoint poly (acc : N) (s : string) : N :=
  match s with EmptyString => acc | String c s' => poly (N.land (acc * 5 + Ascii.N_of_ascii c) 65535) s' end.
Definition sha256 (s : string) : string := hex_text 64 (poly 7 s).
Definition uuid5 (s : string) : UUID := poly 7 s.

Definition urlsplit (url : string) : option split_url := Some (mk_split_url "https" (Some "upload.example") None None "" (Some None)).

Definition tag : string := "0123456789abcdef!".
Definition encrypt (_ value _ : string) : string := value +:+ tag.
Definition decrypt (_ value _ : string) : option string :=
  let n := (String.length value - String.length tag)%nat in
  if String.substring n (String.length tag) value == tag then Some (String.substring 0 n value) else None.
Definition urandom (n : nat) : string := digits 12 (Z.of_nat n).

Definition origin : Z := 63900000000000000.
Definition clock (reading : nat) : Z := origin + Z.of_nat reading * MICRO.

(** The Dataset's version, if it exists, and how many verifications end with the
    process. *)
Definition provider : Type := option Z * nat.

Definition verifier : restore_verifier := mk_restore_verifier None "verifier".

#[local] Instance scenario_provider : UploadProvider provider := {|
  current_private_dataset_version := λ _, gets fst;
  start_brokered_dataset_blob := λ _ _ _ _, mret ("token", "https://upload.example/blob");
  finalize_brokered_checkpoint_dataset := λ _ _ _ _ previous, modify (λ p, (Some (default 0 previous + 1), p.2)) ;; mret (default 0 previous + 1);
  reconcile_brokered_checkpoint_dataset := λ _ version _, gets (λ p, p.1 == Some version);
  restore_verifier_factory := λ _ _, mret verifier;
  verify_restore := λ _ _ _ _ _,
    p ← get;
    match p.2 with
    | O => mret [("ok", JBool true); ("provider_run_ref", JStr "owner/restore-run")]
    | Datatypes.S n => put (p.1, n) ;; raise ProcessKilled ""
    end;
|}.

(** ** The checkpoint *)

Definition operation : UUID := 1%N.
Definition master : UUID := 3%N.
Definition checkpoint : UUID := 5%N.
Definition previous : UUID := 4%N.
Definition run_ref : string := "owner/master".
Definition dataset : string := "owner/checkpoints".

Definition file (path kind : string) : CheckpointFile := mk_CheckpointFile path kind 10 (sha256 path).

Definition service : service_row :=
  mk_service "service-1" "postgres-master" "run-1" "attempt-1" (Some (uuid_str master)) 1 "https://master" "v1" None "[]" None None
    (origin + 3600 * MICRO) "ACTIVE" "event-1" origin.
Definition authority : RuntimeUploadAuthority :=
  mk_RuntimeUploadAuthority (uuid_str operation) "run-1" "attempt-1" (uuid_str master) "service-1" 1 run_ref (origin + 3600 * MICRO).

(** The first checkpoint, or the one after [parent], which is HEAD. *)
Section checkpoint.
Context (parent : option UUID).

Definition unsigned (hash : string) : CheckpointManifest :=
  mk_CheckpointManifest checkpoint master 1 parent "18.1" "0.8" 3 5 "run-1" "kernel" (utc origin) "0/1A2B"
    [file "logical/hub.dump" "logical"; file "physical/backup_manifest" "postgres_backup_manifest"; file "physical/base.tar.gz" "physical";
     file "physical/pg_wal.tar.gz" "physical"; file "receipts/verification.json" "verification_receipt"]
    (mk_RestoreProbe 3 5 (sha256 "logical") [("posts", 4)]) hash SCHEMA_VERSION.
Definition manifest : CheckpointManifest :=
  unsigned (match unsigned_payload (unsigned "") with Ret p => digest_payload sha256 (JObj p) | Exc _ => "" end).
Definition manifest_json : string := match manifest_payload manifest with Ret p => canonical_json (JObj p) | Exc _ => "" end.

Definition generation : Z := match parent with Some _ => 1 | None => 0 end.
Definition candidate : candidate_row :=
  mk_candidate (uuid_str checkpoint) "postgres-master" (uuid_str operation) dataset None (m_sha256 manifest) (uuid_str <$> parent) generation
    (uuid_str master) 1 "CANDIDATE" None origin None (Some manifest_json) None.
Definition parent_candidate (id : UUID) : candidate_row :=
  mk_candidate (uuid_str id) "postgres-master" (uuid_str operation) dataset (Some (dataset +:+ "/3")) (sha256 "parent") None 0
    (uuid_str master) 1 "VERIFIED" None origin (Some origin) None None.

(** The control ledger: the master is being checkpointed. *)
Definition control : ledger :=
  set_rows checkpoint_candidates (match parent with Some id => [parent_candidate id; candidate] | None => [candidate] end)
    (set_rows checkpoint_heads (match parent with Some id => [mk_head "postgres-master" 1 (Some (uuid_str id)) None origin] | None => [] end)
      (set_rows services [service] (set_rows service_epochs [mk_epoch "postgres-master" 1 origin]
        (set_rows operations [mk_operation (uuid_str operation) "key-1" "ensure_master" (sha256 "intent") "CHECKPOINTING" "{}" origin origin] empty_ledger)))).

(** The service before any upload; the Dataset is not there. *)
Definition start (crashes : nat) : upload_service provider :=
  mk_upload_service (mk_checkpoint_store (mk_uploads control [] [] [] []) []) (None, crashes) 0 0 [].

(** ** The requests *)

Definition bytes : string := match manifest_bytes manifest with Ret b => b | Exc _ => "" end.
Definition content (name : string) : Z * string := default (0, "") (expected_file sha256 manifest bytes name).
Definition spec (name : string) : CheckpointBlobSpec :=
  mk_CheckpointBlobSpec operation checkpoint run_ref 1 name (content name).1
    (if endswith ".json" name then "application/json" else "application/octet-stream") (content name).2 (m_sha256 manifest).
Definition claim (name : string) : UUID := uuid5 (claim_name (spec name) (sha256 (canonical_json (spec_dump (spec name))))).
Definition completion (name : string) : CheckpointBlobCompletion :=
  mk_CheckpointBlobCompletion (claim name) operation checkpoint 1 name (content name).1 (content name).2.
End checkpoint.
End UploadServiceScenario.
