(* ===== verification/UploadServiceRuns.v ===== *)
(** * UploadServiceRuns: executions of the upload service

    Any requests to the service in any order, the control ledger changing in
    between, over any provider and verifiers, each of whose answers may be an
    exception or the end of the process. *)

From S2P Require Import Prelude Time Json Uuid LedgerState LedgerOperations LedgerCheckpoints Manifest ManifestPayload Registry.
From S2P Require Import UploadLedger UploadSafety UploadRuns UploadIncarnation UploadService UploadServiceSafety UploadServiceScenario.

Inductive service_request_call :=
| Prepare (spec : CheckpointBlobSpec) (a : RuntimeUploadAuthority)
| Complete (completion : CheckpointBlobCompletion) (a : RuntimeUploadAuthority)
| Finalize (checkpoint_id : UUID) (a : RuntimeUploadAuthority)
| Status (checkpoint_id : UUID)
| ReconcilePending
| LedgerChanges (l : ledger).

Section runs.
Context {P : Type} `{UploadProvider P}.
Context (sha256 : string → string) (fromisoformat : string → option datetime) (uuid5 : string → UUID) (urlsplit : string → option split_url).
Context (encrypt : string → string → string → string) (decrypt : string → string → string → option string) (urandom : nat → string).
Context (clock : nat → Z) (own_verifier : option restore_verifier) (has_factory : bool).

Abbreviation ups w := (cs_uploads (us_store w)).

Definition serve (c : service_request_call) : M (upload_service P) unit :=
  match c with
  | Prepare spec a => prepare sha256 fromisoformat uuid5 urlsplit encrypt decrypt urandom clock spec a ;; mret tt
  | Complete completion a => complete sha256 clock completion a ;; mret tt
  | Finalize id a => finalize sha256 fromisoformat decrypt clock own_verifier has_factory id a ;; mret tt
  | Status id => status id ;; mret tt
  | ReconcilePending => reconcile_pending_once sha256 fromisoformat decrypt clock own_verifier has_factory ;; mret tt
  | LedgerChanges l => from_ledger (put l)
  end.

(** The store after the requests, whether they return or raise. *)
Definition service_run (cs : list service_request_call) (w : upload_service P) : upload_service P := foldl (λ w c, (serve c w).2) w cs.

Lemma lawful_serve c : lawful sha256 (serve c).
Proof.
  destruct c; cbn.
  - apply lawful_bind; [apply lawful_prepare|intros; apply lawful_ret].
  - apply lawful_bind; [apply lawful_complete|intros; apply lawful_ret].
  - apply lawful_bind; [apply lawful_finalize|intros; apply lawful_ret].
  - apply lawful_bind; [|intros; apply lawful_ret]. unfold status. apply lawful_bind; [apply lawful_in_store, store_publication|].
    intros [p|]; [apply lawful_public_status|apply lawful_raise].
  - apply lawful_bind; [apply lawful_reconcile_pending|intros; apply lawful_ret].
  - apply lawful_from_ledger.
Qed.

Lemma service_run_advances cs w : advances sha256 none w (service_run cs w).
Proof.
  revert w. induction cs as [|c cs IH]; intros w; [by apply advances_refl|]. cbn. eapply advances_seq; [apply lawful_serve|apply IH].
Qed.

(** C16: Whatever is asked of the service, and whatever the provider and the
    verifiers answer, the upload ledger goes through an execution of the ledger's
    own methods with the transitions the service may ask for; so everything that
    holds along such executions holds under the service. *)
Theorem service_runs_the_upload_ledger cs w :
  uploads_ok (ups w) → ∃ acts, Forall (λ a, service_action a = true) acts ∧ (upload_run sha256 acts (ups w)).2 = ups (service_run cs w).
Proof. intros Hw. exact (proj1 (service_run_advances cs w Hw)). Qed.

Lemma asked_once (l : list provider_change) : (∀ c, (length (List.filter (λ d, d == c) l) ≤ 1)%nat) → NoDup l.
Proof.
  induction l as [|x l IH]; intros Hl; [constructor|]. apply list.NoDup_cons. split.
  - intros Hx. specialize (Hl x). cbn in Hl. rewrite bool_decide_eq_true_2 in Hl by done. cbn in Hl.
    assert (x ∈ List.filter (λ d, d == x) l) as Hin by (apply filter_elem; split; [done|by apply bool_decide_eq_true]).
    destruct (List.filter _ l); [by apply not_elem_of_nil in Hin|cbn in Hl; lia].
  - apply IH. intros c. specialize (Hl c). cbn in Hl. case_bool_decide; cbn in Hl; lia.
Qed.

(** C15: However often runtimes repeat their requests, calls fail, or the process
    ends and starts again, the provider is asked at most once to start a given
    blob and at most once to create the Dataset version of a given checkpoint. *)
Theorem provider_changes_at_most_once cs w : uploads_ok (ups w) → us_changes w = [] → NoDup (us_changes (service_run cs w)).
Proof.
  intros Hw E. apply asked_once. intros c. destruct (service_run_advances cs w Hw) as (_ & _ & Hc). specialize (Hc c).
  pose proof (allowed_bounds c (ups (service_run cs w))). pose proof (allowed_bounds c (ups w)). unfold asked, none in Hc. rewrite E in Hc. cbn in Hc. lia.
Qed.

(** ** Replacing a Dataset that has vanished *)

(** Only a publication whose Dataset version was resolved just now passes the
    retirement of the old versions. *)
Lemma retire_inv r d h g s x s' : retire_missing_checkpoint_dataset_incarnation r d h g s = (Ret x, s') → reset_resolved r d (cs_uploads s) = true.
Proof.
  unfold retire_missing_checkpoint_dataset_incarnation. intros E%atomically_inv. apply bind_ret_inv in E as (s0 & s1 & [-> ->]%get_inv & E). cbv zeta in E.
  destruct (find_retirement r s); [|done]. apply bind_ret_inv in E as (y & s2 & [E _]%raise_if_inv & _). b2p. destruct E as [_ E]. tauto.
Qed.

Lemma begin_finalize_past id v now u p q u' : begin_finalize sha256 id v now u = (Ret q, u') → find_publication id u = Some p →
  pb_state p ∈ ["VERIFYING"; "VERIFIED"] → q = p ∧ u' = u.
Proof.
  intros E Hp Hs. unfold begin_finalize in E. apply bind_ret_inv in E as (x & u0 & [_ ->]%raise_if_inv & E). apply atomically_inv in E.
  apply bind_ret_inv in E as (r & u1 & [Hr ->]%get_publication_inv & E). rewrite Hp in Hr. injection Hr as <-.
  apply bind_ret_inv in E as (q' & u2 & Hq & E). apply bind_ret_inv in E as (y & u3 & [_ ->]%raise_if_inv & [-> ->]%mret_inv).
  rewrite !bool_decide_eq_false_2 in Hq by (intros Es; rewrite Es in Hs; in_list Hs; discriminate). cbn in Hq. by apply mret_inv in Hq as [<- ->].
Qed.

Lemma in_store_inv {A} (m : M checkpoint_store A) (w : upload_service P) a w1 : in_store m w = (Ret a, w1) → m (us_store w) = (Ret a, us_store w1).
Proof. unfold in_store. destruct (m (us_store w)) as [o s]. by intros [= -> <-]. Qed.

Lemma plan_of_retirement p r (w : upload_service P) plan w1 : find_retirement (pb_id p) (us_store w) = Some r → plan_version sha256 clock p w = (Ret plan, w1) →
  vp_reset plan = Some (rt_head r).
Proof.
  intros Hr E. unfold plan_version in E. cbv zeta in E. apply bind_ret_inv in E as (o & w2 & Eo%in_store_inv & E). injection Eo as Eo _.
  rewrite Hr in Eo. subst o. by injection E as <- _.
Qed.

(** C18: A publication that replaces a vanished Dataset and whose verification was
    interrupted is never finalized: with the retirement recorded and the
    publication past DATASET_RESOLVED, every finalization raises. *)
Theorem interrupted_replacement_never_finishes id a d w r p o w' :
  find_retirement (uuid_str id) (us_store w) = Some r → find_publication (uuid_str id) (ups w) = Some p → pb_state p ∈ ["VERIFYING"; "VERIFIED"] →
  finalize_publication sha256 fromisoformat decrypt clock own_verifier has_factory id a d w = (o, w') → ∃ e, o = Exc e.
Proof.
  intros Hr Hp Hs E. destruct o as [v|e]; [|eauto]. exfalso. unfold finalize_publication in E.
  assert (pb_id p = uuid_str id) as Eid by (apply find_some_iff in Hp as [_ Hp]; by b2p).
  apply bind_ret_inv in E as (o & w0 & Eo%in_store_inv & E). injection Eo as Eo Ew. change (find_publication (uuid_str id) (ups w) = o) in Eo. rewrite Hp in Eo. subst o.
  assert (still_between (us_store w) (us_store w0)) as S0 by (rewrite <-Ew; by destruct (us_store w)).
  apply bind_ret_inv in E as ([c m] & w1 & Ev & E). pose proof (still_validate_publication sha256 fromisoformat clock p a d w0) as S1. rewrite Ev in S1. cbn [snd] in S1.
  rewrite bool_decide_eq_false_2 in E by (intros Es; rewrite Es in Hs; in_list Hs; discriminate).
  apply bind_ret_inv in E as (rows & w2 & Er & E). apply bind_ret_inv in E as ([[efs blobs] package] & w3 & [_ ->]%lift_inv & E).
  assert (still_between (us_store w1) (us_store w2)) as S2 by (apply in_store_inv in Er; injection Er as _ <-; by destruct (us_store w1)).
  apply bind_ret_inv in E as (plan & w4 & Ep & E). pose proof (still_plan sha256 clock p w2) as S3. rewrite Ep in S3. cbn [snd] in S3.
  pose proof (still_trans _ _ _ S0 (still_trans _ _ _ S1 S2)) as S. apply plan_of_retirement with (r := r) in Ep; [|rewrite Eid; by apply S].
  cbv zeta in E. apply bind_ret_inv in E as (p' & w5 & Eb & E). destruct (at_now_inv clock _ _ _ _ Eb) as (now & Eb' & _).
  pose proof (still_trans _ _ _ S S3) as S4.
  assert (find_publication (uuid_str id) (ups w4) = Some p) as Hp4 by (unfold find_publication in *; by rewrite (proj1 S4)).
  apply (begin_finalize_past _ _ _ _ p) in Eb' as [-> E5]; [|done..].
  rewrite (proj2 (mem_true (pb_state p) _)) in E by (in_list Hs; rewrite Hs; repeat constructor).
  apply bind_ret_inv in E as (q & w6 & [<- ->]%mret_inv & E). rewrite Ep in E. apply bind_ret_inv in E as (y & w7 & Et & E).
  apply bind_ret_inv in Et as (z & w8 & Et%in_store_inv & _). apply retire_inv in Et. unfold reset_resolved in Et. rewrite E5, Hp4 in Et. b2p.
  destruct Et as [[Et _] _]. rewrite Et in Hs. in_list Hs; discriminate.
Qed.

(** ** Who gets a grant, and for what *)

Lemma from_ledger_read {A} (m : M ledger A) (w : upload_service P) a w1 : (m (up_ledger (ups w))).2 = up_ledger (ups w) → from_ledger m w = (Ret a, w1) →
  m (up_ledger (ups w)) = (Ret a, up_ledger (ups w)) ∧ us_store w1 = us_store w.
Proof.
  unfold from_ledger, in_store, on_ledger, on_uploads, in_ledger. destruct (m _) as [o l] eqn:E. cbn. intros ->. intros [= -> <-]. cbn.
  split; [done|]. by destruct (us_store w) as [[]].
Qed.

Lemma at_now_read {A} (m : Z → M uploads A) (w : upload_service P) a w1 : (∀ now u, (m now u).2 = u) → at_now clock m w = (Ret a, w1) →
  us_store w1 = us_store w ∧ m (clock (us_reading w)) (ups w) = (Ret a, ups w).
Proof.
  intros Hm. unfold at_now, mbind, M_bind. cbn [read_clock]. unfold in_store, on_uploads. cbn. intros E. specialize (Hm (clock (us_reading w)) (ups w)).
  destruct (m (clock (us_reading w)) (ups w)) as [o u] eqn:Eo. cbn in Hm. subst u. injection E as -> <-. cbn. split; [by destruct (us_store w)|done].
Qed.

Lemma from_ledger_reading {A} (m : M ledger A) (w : upload_service P) : us_reading (from_ledger m w).2 = us_reading w.
Proof. unfold from_ledger, in_store. by destruct (on_ledger m (us_store w)). Qed.

(** The runtime is the live service of the current epoch: when the clock was
    read for its lease, and read again for the service's, both were to come (the
    service's as the text it is stored as). *)
Definition runtime_current (a : RuntimeUploadAuthority) (read read_again : Z) (l : ledger) : Prop :=
  epoch_of "postgres-master" l = ra_epoch a ∧ read < ra_lease a ∧
  ∃ s, s ∈ l_services l ∧ sv_kind s = "postgres-master" ∧ sv_id s = ra_service a ∧ sv_run s = ra_run a ∧ sv_attempt s = ra_attempt a ∧
    sv_master s = Some (ra_master a) ∧ sv_epoch s = ra_epoch a ∧ sv_state s ∈ ["ACTIVE"; "DRAINING"] ∧ text_ltb read_again (sv_lease_until s) = true.

(** ... at the next two readings. *)
Abbreviation live a w := (runtime_current a (clock (us_reading w)) (clock (Datatypes.S (us_reading w))) (up_ledger (ups w))).

Lemma not_fenced spec a (w w1 : upload_service P) : upload_fenced clock spec a w = (Ret false, w1) →
  us_store w1 = us_store w ∧ uuid_str (bs_operation spec) = ra_operation a ∧ bs_run_ref spec = ra_run_ref a ∧ bs_epoch spec = ra_epoch a ∧
  live a w.
Proof.
  unfold upload_fenced. destruct (_ || _) eqn:Hs; [done|]. intros E. apply bind_ret_inv in E as (e & w2 & Er & E).
  pose proof (from_ledger_reading (current_epoch "postgres-master") w) as R2. rewrite Er in R2. cbn [snd] in R2.
  apply from_ledger_read in Er as [Ee E2]; [|done]. injection Ee as <-. destruct (epoch_of _ _ != _) eqn:He; [done|].
  apply bind_ret_inv in E as (now & w3 & [= <- <-] & E). rewrite R2 in E. destruct (_ <=? _) eqn:Hl; [done|].
  apply bind_ret_inv in E as (ok & w4 & [E4 Eok]%at_now_read & E); [|intros; apply authorized_reads]. injection E as Eok' <-. destruct ok; [|done].
  cbn in E4, Eok. rewrite E4, E2 in *. split; [done|]. b2p. split_and!; try tauto. split; [done|]. split; [lia|].
  unfold runtime_service_authorized, runtime_service_snapshot in Eok. py_cbn. destruct (List.find _ _) as [s|] eqn:Ef; [|done].
  destruct (snapshot_ok _ _ _ _ _ _ _) eqn:Hok; [|done]. unfold snapshot_ok in Hok. apply find_some_iff in Ef as [Hin Hf]. exists s. b2p.
  split_and!; try tauto. apply mem_true. tauto.
Qed.

Lemma candidate_read id l : (checkpoint_candidate id l).2 = l.
Proof.
  unfold checkpoint_candidate, select_one. py_cbn. destruct (List.find _ _) as [c|]; [|done]. destruct (truthy_text _) as [t|]; [|done]. by destruct (loads t).
Qed.

Lemma operation_read id l : (get_operation id l).2 = l.
Proof.
  unfold get_operation, find_operation, select_one. py_cbn. destruct (List.find _ _) as [o|]; [|done]. by destruct (operation_from_row o).
Qed.

Lemma candidate_payload_found id l c j l' : checkpoint_candidate id l = (Ret (Some (c, j)), l') →
  c ∈ l_candidates l ∧ cc_id c = id ∧ j = (t ← truthy_text (cc_manifest c); loads t).
Proof.
  unfold checkpoint_candidate. intros E. apply bind_ret_inv in E as (row & l1 & [-> ->]%select_one_inv & E). cbn [rows checkpoint_candidates] in E.
  destruct (List.find _ _) as [x|] eqn:Ef; [|done]. apply find_some_iff in Ef as [Hin Hid]. unfold by_cc_id in Hid. b2p.
  apply bind_ret_inv in E as (m & l2 & Em & [[= -> ->] ->]%mret_inv). split_and!; [done..|].
  destruct (truthy_text _) as [t|]; [|by apply mret_inv in Em as [<- _]]. cbn. destruct (loads t); [|done]. by apply mret_inv in Em as [<- _].
Qed.

(** What the ledger says of the file that the runtime asks for. *)
Definition file_of_candidate (spec : CheckpointBlobSpec) (a : RuntimeUploadAuthority) (l : ledger) (m : CheckpointManifest) : Prop :=
  ∃ c t kvs bytes, c ∈ l_candidates l ∧ cc_id c = uuid_str (bs_checkpoint spec) ∧ cc_operation c = ra_operation a ∧
    cc_manifest c = Some t ∧ loads t = Some (JObj kvs) ∧ from_payload sha256 fromisoformat kvs = Ret m ∧
    m_sha256 m = bs_manifest spec ∧ m_epoch m = ra_epoch a ∧ m_source_run m = ra_run a ∧ manifest_bytes m = Ret bytes ∧
    expected_file sha256 m bytes (bs_file spec) = Some (bs_length spec, bs_content spec).

Lemma validated spec a (w : upload_service P) c m w1 : validate sha256 fromisoformat clock spec a false w = (Ret (c, m), w1) →
  uuid_str (bs_operation spec) = ra_operation a ∧ live a w ∧ file_of_candidate spec a (up_ledger (ups w)) m.
Proof.
  unfold validate. intros E. apply bind_ret_inv in E as (x & w2 & E0 & E).
  apply bind_ret_inv in E0 as (fenced & w3 & Ef & [-> ->]%raise_if_inv). apply not_fenced in Ef as (S2 & Ho & _ & _ & Hc).
  apply bind_ret_inv in E as (o & w4 & [_ S4]%from_ledger_read & E); [|apply operation_read].
  apply bind_ret_inv in E as (y & w5 & [_ ->]%raise_if_inv & E). apply bind_ret_inv in E as (cand & w6 & [Ec S6]%from_ledger_read & E); [|apply candidate_read].
  rewrite S4, S2 in Ec. split_and!; [done..|]. destruct cand as [[c' value]|]; [|done]. apply candidate_payload_found in Ec as (Hin & Hid & Hv).
  apply bind_ret_inv in E as (z & w7 & [Hop ->]%raise_if_inv & E). destruct value as [[]|]; try done.
  apply bind_ret_inv in E as (manifest & w8 & [Em ->]%lift_inv & E). apply bind_ret_inv in E as (differs & w9 & [Hd ->]%lift_inv & E).
  apply bind_ret_inv in E as (z1 & w10 & [-> ->]%raise_if_inv & E). apply bind_ret_inv in E as (bytes & w11 & [Hb ->]%lift_inv & E).
  apply bind_ret_inv in E as (z2 & w12 & [He ->]%raise_if_inv & [[= -> ->] ->]%mret_inv).
  unfold manifest_differs in Hd. destruct (m_sha256 m != _) eqn:Hsha; [done|]. destruct (uuid_value _) as [u|]; [|done]. cbn in Hd. injection Hd as Hd.
  destruct (truthy_text (cc_manifest c)) as [t|] eqn:Ht; [|done]. cbn in Hv. b2p. exists c, t, kvs, bytes. destruct Hd as [[_ Hd1] Hd2].
  split_and!; try done. unfold truthy_text in Ht. by repeat case_match; simplify_eq.
Qed.

(** C17: A runtime that gets a grant is the live service of the current epoch, when
    the call reads the clock; its operation owns the checkpoint, and the ledger's manifest of the checkpoint
    has exactly this file; the grant is for that file and ends with the lease. *)
Theorem grant_is_for_the_manifest spec a (w : upload_service P) g w' :
  prepare sha256 fromisoformat uuid5 urlsplit encrypt decrypt urandom clock spec a w = (Ret g, w') →
  uuid_str (bs_operation spec) = ra_operation a ∧ live a w ∧ (∃ m, file_of_candidate spec a (up_ledger (ups w)) m) ∧
  bg_checkpoint g = bs_checkpoint spec ∧ bg_file g = bs_file spec ∧ bg_length g = bs_length spec ∧ bg_content g = bs_content spec ∧
  bg_expires g ≤ ra_lease a.
Proof.
  unfold prepare. intros E. apply bind_ret_inv in E as ([c m] & w1 & Ev & E).
  assert (validate sha256 fromisoformat clock spec a false w = (Ret (c, m), w1)) as Hv.
  { unfold try_except in Ev. destruct (validate _ _ _ _ _ _ w) as [[r|e] w2]; [done|exfalso]. apply bind_ret_inv in Ev as (x & w3 & _ & [=]). }
  apply validated in Hv as (Ho & Hc & Hm). split; [done|]. split; [done|]. split; [eauto|].
  apply bind_ret_inv in E as (head & w2 & _ & E). apply bind_ret_inv in E as (bytes & w3 & _ & E). apply bind_ret_inv in E as (p & w4 & _ & E).
  apply bind_ret_inv in E as (now & w5 & _ & E). cbv zeta in E. apply bind_ret_inv in E as (now' & w6 & _ & E). apply bind_ret_inv in E as (x & w7 & _ & E).
  apply bind_ret_inv in E as ([row created] & w8 & _ & E).
  enough (∃ claim url, public_grant urlsplit spec claim (Z.min (ra_lease a) (now + UPLOAD_GRANT_TTL)) url = Ret g) as (claim & url & Hg).
  { unfold public_grant in Hg. destruct (validate_url _ _) as [[]|]; [|done]. injection Hg as <-. cbn. split_and!; try done. lia. }
  destruct (mem (cm_state row) _); [destruct (cm_url row); [|done]|destruct (_ == "STARTING")].
  - apply bind_ret_inv in E as (y & w9 & _ & E). apply bind_ret_inv in E as (url & w10 & _ & [E _]%lift_inv). eauto.
  - apply bind_ret_inv in E as (y & w9 & _ & [=]).
  - apply bind_ret_inv in E as (y & w9 & _ & E). apply bind_ret_inv in E as (grant & w10 & _ & E). apply bind_ret_inv in E as (t & w11 & _ & E).
    apply bind_ret_inv in E as (v & w12 & _ & E). apply bind_ret_inv in E as (r & w13 & _ & [E _]%lift_inv). eauto.
Qed.
End runs.

(** ** One checkpoint, from its first file to its promotion *)

Import UploadServiceScenario.
#[local] Existing Instance scenario_provider.

Definition all_uploaded (parent : option UUID) : list service_request_call :=
  List.flat_map (λ n, [Prepare (spec parent n) authority; Complete (completion parent n) authority; Complete (completion parent n) authority]) REQUIRED_FILES.

Abbreviation run_ := (service_run sha256 iso uuid5 urlsplit encrypt decrypt urandom clock (Some verifier) false).

(** The process ends while the checkpoint is verified, and the reconciliation
    takes over; the runtime asks again in vain. *)
Definition requests : list service_request_call := all_uploaded None ++ [Finalize checkpoint authority; ReconcilePending; Finalize checkpoint authority].
Definition promoted : upload_service provider := run_ requests (start None 1).

Lemma start_uploads_ok parent crashes : uploads_ok (cs_uploads (us_store (start parent crashes))).
Proof. apply no_uploads_ok. Qed.

Definition promoted_once (w : upload_service provider) : bool :=
  (map pb_state (up_publications (cs_uploads (us_store w))) == ["PROMOTED"]) && (length (us_changes w) == 7%nat).
Lemma promoted_once_inv w : promoted_once w = true → map pb_state (up_publications (cs_uploads (us_store w))) = ["PROMOTED"] ∧ length (us_changes w) = 7%nat.
Proof. unfold promoted_once. intros H. by b2p. Qed.
Lemma promoted_shown : promoted_once promoted = true.
Proof. vm_compute. reflexivity. Qed.

Lemma service_runs_the_upload_ledger_witness :
  map pb_state (up_publications (cs_uploads (us_store promoted))) = ["PROMOTED"] ∧
  ∃ acts, Forall (λ a, service_action a = true) acts ∧ (upload_run sha256 acts (cs_uploads (us_store (start None 1)))).2 = cs_uploads (us_store promoted).
Proof.
  split; [exact (proj1 (promoted_once_inv promoted promoted_shown))|].
  exact (service_runs_the_upload_ledger sha256 iso uuid5 urlsplit encrypt decrypt urandom clock (Some verifier) false requests (start None 1)
           (start_uploads_ok None 1)).
Defined.

Lemma provider_changes_at_most_once_witness : NoDup (us_changes promoted) ∧ length (us_changes promoted) = 7%nat.
Proof.
  split; [|exact (proj2 (promoted_once_inv promoted promoted_shown))].
  exact (provider_changes_at_most_once sha256 iso uuid5 urlsplit encrypt decrypt urandom clock (Some verifier) false requests (start None 1)
           (start_uploads_ok None 1) eq_refl).
Defined.

(** The same with a Dataset that has vanished, up to the interruption. *)
Definition interrupted : upload_service provider := run_ (all_uploaded (Some previous) ++ [Finalize checkpoint authority]) (start (Some previous) 1).

(** Whether the publication is in verification with a retirement recorded. *)
Definition verifying_replacement (w : upload_service provider) : option (retirement_row * publication_row) :=
  r ← find_retirement (uuid_str checkpoint) (us_store w);
  p ← find_publication (uuid_str checkpoint) (cs_uploads (us_store w));
  if pb_state p == "VERIFYING" then Some (r, p) else None.

Definition replaces (head : UUID) (w : upload_service provider) : bool :=
  match verifying_replacement w with Some (r, _) => rt_head r == uuid_str head | None => false end.
Lemma replaces_inv head w : replaces head w = true → ∃ r p,
  find_retirement (uuid_str checkpoint) (us_store w) = Some r ∧ find_publication (uuid_str checkpoint) (cs_uploads (us_store w)) = Some p ∧
  pb_state p = "VERIFYING" ∧ rt_head r = uuid_str head.
Proof.
  unfold replaces, verifying_replacement. destruct (find_retirement _ _) as [r|]; [|done]. cbn. destruct (find_publication _ _) as [p|]; [|done]. cbn.
  intros H. repeat case_match; simplify_eq. b2p. eauto 10.
Qed.
Lemma interrupted_shown : replaces previous interrupted = true.
Proof. vm_compute. reflexivity. Qed.

Lemma interrupted_replacement_never_finishes_witness :
  replaces previous interrupted = true ∧
  ∃ e, (finalize_publication sha256 iso decrypt clock (Some verifier) false checkpoint authority true interrupted).1 = Exc e.
Proof.
  assert (∀ w, replaces previous w = true →
    ∃ e, (finalize_publication sha256 iso decrypt clock (Some verifier) false checkpoint authority true w).1 = Exc e) as H.
  { intros w (r & p & Hr & Hp & Hs & _)%replaces_inv.
    destruct (finalize_publication sha256 iso decrypt clock (Some verifier) false checkpoint authority true w) as [o w'] eqn:E.
    refine (interrupted_replacement_never_finishes sha256 iso uuid5 urlsplit encrypt decrypt clock (Some verifier) false checkpoint authority true w r p o w'
              Hr Hp _ E).
    rewrite Hs. left. }
  exact (conj interrupted_shown (H interrupted interrupted_shown)).
Defined.

(** The grant for a file. *)
Definition granted (w : upload_service provider) : option CheckpointBlobGrant :=
  match (prepare sha256 iso uuid5 urlsplit encrypt decrypt urandom clock (spec None "logical/hub.dump") authority w).1 with Ret g => Some g | Exc _ => None end.
Definition issued (w : upload_service provider) : bool :=
  match granted w with Some g => bg_url g == "https://upload.example/blob" | None => false end.

Lemma issued_shown : issued (start None 0) = true.
Proof. vm_compute. reflexivity. Qed.

Lemma grant_is_for_the_manifest_witness :
  ∃ g, granted (start None 0) = Some g ∧ bg_url g = "https://upload.example/blob" ∧ bg_file g = "logical/hub.dump" ∧
    runtime_current authority (clock 0) (clock 1) (up_ledger (cs_uploads (us_store (start None 0)))) ∧ bg_expires g ≤ ra_lease authority.
Proof.
  assert (∀ w, issued w = true → ∃ g, granted w = Some g ∧ bg_url g = "https://upload.example/blob" ∧ bg_file g = "logical/hub.dump" ∧
    runtime_current authority (clock (us_reading w)) (clock (Datatypes.S (us_reading w))) (up_ledger (cs_uploads (us_store w))) ∧
    bg_expires g ≤ ra_lease authority) as H.
  { intros w. unfold issued, granted.
    destruct (prepare sha256 iso uuid5 urlsplit encrypt decrypt urandom clock (spec None "logical/hub.dump") authority w) as [[g|e] w'] eqn:E; [|done].
    cbn [fst]. intros Hu. b2p. exists g.
    destruct (grant_is_for_the_manifest sha256 iso uuid5 urlsplit encrypt decrypt urandom clock (spec None "logical/hub.dump") authority w g w' E)
      as (_ & Hc & _ & _ & Hf & _ & _ & He).
    exact (conj eq_refl (conj Hu (conj Hf (conj Hc He)))). }
  exact (H (start None 0) issued_shown).
Defined.
