(* ===== verification/ConnectorContracts.v ===== *)
(** * ConnectorContracts: the receipts of the connector plane

    Models the receipts of connectors/contracts.py with their validators: the
    acceptance of an envelope, its way to a verified checkpoint, and the status
    of that checkpoint.  The parser of envelopes, which prints numbers of any
    form, is not modelled: what it returns of an envelope is
    [ValidatedEnvelope]. *)

From S2P Require Import Prelude Time Json Uuid.

(** What the spool and the receipts use of a validated envelope: the identity
    and the hashes of the envelope, and the exact bytes received. *)
Record ValidatedEnvelope := mk_ValidatedEnvelope {
  ve_connector : string; ve_key : string; ve_batch : UUID; ve_payload : string; ve_bytes : string; ve_bytes_sha256 : string; ve_sha256 : string;
}.

Inductive ReceiptStatus := Accepted | Replayed.

Record ConnectorReceipt := mk_ConnectorReceipt {
  cr_id : UUID; cr_status : ReceiptStatus; cr_connector : string; cr_batch : UUID; cr_key : string; cr_payload : string; cr_envelope : string;
  cr_accepted_at : datetime;
}.

Module ConnectorDurabilityState.
Inductive t := ACCEPTED | CANONICAL_COMMITTED | CHECKPOINT_REQUESTED | CHECKPOINTING | DURABLE_COMPLETE | FAILED.
#[global] Instance t_eq_dec : EqDecision t.
Proof. solve_decision. Defined.
Definition text (s : t) : string :=
  match s with
  | ACCEPTED => "ACCEPTED" | CANONICAL_COMMITTED => "CANONICAL_COMMITTED" | CHECKPOINT_REQUESTED => "CHECKPOINT_REQUESTED"
  | CHECKPOINTING => "CHECKPOINTING" | DURABLE_COMPLETE => "DURABLE_COMPLETE" | FAILED => "FAILED"
  end.
End ConnectorDurabilityState.

Record ConnectorDurabilityReceipt := mk_ConnectorDurabilityReceipt {
  cd_state : ConnectorDurabilityState.t; cd_acceptance : ConnectorReceipt; cd_revision : option Z; cd_request : option string;
  cd_operation : option string; cd_receipt : option string; cd_checkpoint : option string; cd_updated_at : datetime;
}.

Module ConnectorCheckpointState.
Inductive t := REQUESTED | RUNNING | DURABLE_COMPLETE | FAILED | FENCED | ORPHANED.
#[global] Instance t_eq_dec : EqDecision t.
Proof. solve_decision. Defined.
Definition text (s : t) : string :=
  match s with
  | REQUESTED => "REQUESTED" | RUNNING => "RUNNING" | DURABLE_COMPLETE => "DURABLE_COMPLETE" | FAILED => "FAILED" | FENCED => "FENCED"
  | ORPHANED => "ORPHANED"
  end.
End ConnectorCheckpointState.

Record ConnectorCheckpointRequest := mk_ConnectorCheckpointRequest {
  kr_id : string; kr_connector : string; kr_batch : UUID; kr_revision : Z; kr_payload : string; kr_envelope : string;
}.

Record ConnectorCheckpointStatusReceipt := mk_ConnectorCheckpointStatusReceipt {
  ks_request : string; ks_operation : string; ks_state : ConnectorCheckpointState.t; ks_revision : Z; ks_checkpoint : option string;
  ks_manifest : option string; ks_verified_at : option datetime; ks_failure : option string;
}.

(** ** The validators *)

Definition aware (d : datetime) : bool := match utcoffset d with Some _ => true | None => false end.
Definition is_some {A} (o : option A) : bool := match o with Some _ => true | None => false end.
Definition option_ok {A} (f : A → bool) (o : option A) : bool := match o with Some a => f a | None => true end.
Definition length_within (lo hi : Z) (s : string) : bool := (lo <=? slen s) && (slen s <=? hi).

Definition connector_receipt (r : ConnectorReceipt) : outcome ConnectorReceipt :=
  throw_if (negb (is_sha256 (cr_payload r)) || negb (is_sha256 (cr_envelope r))) ValidationError "validation error" ;;
  throw_if (negb (aware (cr_accepted_at r))) ValidationError "accepted_at must include a timezone offset" ;;
  Ret r.

Definition checkpoint_started (s : ConnectorDurabilityState.t) : bool :=
  mem s [ConnectorDurabilityState.CHECKPOINT_REQUESTED; ConnectorDurabilityState.CHECKPOINTING; ConnectorDurabilityState.DURABLE_COMPLETE;
         ConnectorDurabilityState.FAILED].

(** [ConnectorDurabilityReceipt(...)]: the fields and [lifecycle_is_complete]. *)
Definition durability_receipt (r : ConnectorDurabilityReceipt) : outcome ConnectorDurabilityReceipt :=
  throw_if (negb (option_ok (Z.leb 1) (cd_revision r)) || negb (option_ok is_sha256 (cd_request r)) || negb (option_ok (length_within 1 300) (cd_operation r))
            || negb (option_ok is_sha256 (cd_receipt r)) || negb (option_ok (length_within 1 300) (cd_checkpoint r))) ValidationError "validation error" ;;
  throw_if (negb (aware (cd_updated_at r))) ValidationError "updated_at must include a timezone offset" ;;
  throw_if (negb (Bool.eqb (cd_state r != ConnectorDurabilityState.ACCEPTED) (is_some (cd_revision r)))) ValidationError
    "post-acceptance durability requires canonical_revision" ;;
  throw_if (negb (Bool.eqb (checkpoint_started (cd_state r)) (is_some (cd_request r) && is_some (cd_operation r)))) ValidationError
    "checkpoint lifecycle requires exact request and operation identities" ;;
  throw_if (negb (Bool.eqb (cd_state r == ConnectorDurabilityState.DURABLE_COMPLETE) (is_some (cd_receipt r) && is_some (cd_checkpoint r)))) ValidationError
    "DURABLE_COMPLETE requires a verified checkpoint receipt" ;;
  Ret r.

Definition checkpoint_request (r : ConnectorCheckpointRequest) : outcome ConnectorCheckpointRequest :=
  throw_if (negb (is_sha256 (kr_id r)) || (kr_revision r <? 1) || negb (is_sha256 (kr_payload r)) || negb (is_sha256 (kr_envelope r))) ValidationError
    "validation error" ;;
  Ret r.

Definition checkpoint_failed (s : ConnectorCheckpointState.t) : bool :=
  mem s [ConnectorCheckpointState.FAILED; ConnectorCheckpointState.FENCED; ConnectorCheckpointState.ORPHANED].

(** [ConnectorCheckpointStatusReceipt(...)]: the fields and
    [terminal_fields_match_state]. *)
Definition status_receipt (r : ConnectorCheckpointStatusReceipt) : outcome ConnectorCheckpointStatusReceipt :=
  throw_if (negb (is_sha256 (ks_request r)) || negb (length_within 1 300 (ks_operation r)) || (ks_revision r <? 1)
            || negb (option_ok (length_within 1 300) (ks_checkpoint r)) || negb (option_ok is_sha256 (ks_manifest r))
            || negb (option_ok (length_within 1 200) (ks_failure r))) ValidationError "validation error" ;;
  throw_if (negb (Bool.eqb (ks_state r == ConnectorCheckpointState.DURABLE_COMPLETE)
                           (is_some (ks_checkpoint r) && is_some (ks_manifest r) && is_some (ks_verified_at r)))) ValidationError
    "DURABLE_COMPLETE checkpoint status requires verified checkpoint evidence" ;;
  throw_if (negb (option_ok aware (ks_verified_at r))) ValidationError "verified_at must include a timezone offset" ;;
  throw_if (negb (Bool.eqb (checkpoint_failed (ks_state r)) (is_some (ks_failure r)))) ValidationError "terminal checkpoint failure requires failure_code" ;;
  Ret r.

(** ** Canonical JSON

    [canonical_json_bytes] of values without fractions: keys sorted (by UTF-16
    code units, which is the order of code points below U+D800), and integers a
    double holds exactly. *)

Definition MAX_SAFE_JSON_INTEGER : Z := 2 ^ 53 - 1.

Fixpoint safe_integers (j : json) : bool :=
  match j with
  | JInt n => (- MAX_SAFE_JSON_INTEGER <=? n) && (n <=? MAX_SAFE_JSON_INTEGER)
  | JArr l => forallb safe_integers l
  | JObj kvs => forallb (λ kv, safe_integers kv.2) kvs
  | _ => true
  end.

Definition canonical_json_bytes (j : json) : outcome string :=
  throw_if (negb (safe_integers j)) ConnectorContractError "integers outside the interoperable IEEE-754 range must be encoded as strings" ;;
  Ret (canonical_json j).

(** ** [model_dump(mode="json")]

    [dump_time] is pydantic's text of a datetime. *)

Section dumps.
Context (dump_time : datetime → string).

Definition status_text (s : ReceiptStatus) : string := match s with Accepted => "accepted" | Replayed => "replayed" end.
Definition of_option {A} (f : A → json) (o : option A) : json := match o with Some a => f a | None => JNull end.

Definition receipt_dump (r : ConnectorReceipt) : json :=
  JObj [("receipt_id", JStr (uuid_str (cr_id r))); ("status", JStr (status_text (cr_status r))); ("connector_id", JStr (cr_connector r));
        ("batch_id", JStr (uuid_str (cr_batch r))); ("idempotency_key", JStr (cr_key r)); ("payload_sha256", JStr (cr_payload r));
        ("envelope_sha256", JStr (cr_envelope r)); ("accepted_at", JStr (dump_time (cr_accepted_at r)))].

Definition durability_dump (r : ConnectorDurabilityReceipt) : json :=
  JObj [("schema_version", JStr "my-data-hub-connector-durability-receipt.v1"); ("state", JStr (ConnectorDurabilityState.text (cd_state r)));
        ("acceptance", receipt_dump (cd_acceptance r)); ("canonical_revision", of_option JInt (cd_revision r));
        ("checkpoint_request_id", of_option JStr (cd_request r)); ("checkpoint_operation_id", of_option JStr (cd_operation r));
        ("checkpoint_receipt_sha256", of_option JStr (cd_receipt r)); ("checkpoint_id", of_option JStr (cd_checkpoint r));
        ("updated_at", JStr (dump_time (cd_updated_at r)))].

(** [exclude_none=True] *)
Definition present {A} (key : string) (f : A → json) (o : option A) : list (string * json) := match o with Some a => [(key, f a)] | None => [] end.

Definition status_dump (r : ConnectorCheckpointStatusReceipt) : json :=
  JObj ([("schema_version", JStr "my-data-hub-connector-checkpoint-status.v1"); ("request_id", JStr (ks_request r)); ("operation_id", JStr (ks_operation r));
         ("state", JStr (ConnectorCheckpointState.text (ks_state r))); ("canonical_revision", JInt (ks_revision r))]
        ++ present "checkpoint_id" JStr (ks_checkpoint r) ++ present "manifest_sha256" JStr (ks_manifest r)
        ++ present "verified_at" (λ d, JStr (dump_time d)) (ks_verified_at r) ++ present "failure_code" JStr (ks_failure r)).

Definition request_identity (r : ConnectorCheckpointRequest) : list (string * json) :=
  [("schema_version", JStr "my-data-hub-connector-checkpoint-request.v1"); ("connector_id", JStr (kr_connector r)); ("batch_id", JStr (uuid_str (kr_batch r)));
   ("canonical_revision", JInt (kr_revision r)); ("payload_sha256", JStr (kr_payload r)); ("envelope_sha256", JStr (kr_envelope r))].
Definition request_dump (r : ConnectorCheckpointRequest) : json := JObj (("request_id", JStr (kr_id r)) :: request_identity r).
End dumps.
