(* ===== verification/ConnectorSpool.v ===== *)
(** * ConnectorSpool: the producer's durable spool

    Models connectors/spool.py: [DurableConnectorSpool], which keeps the exact
    bytes of an envelope until a verified checkpoint has it, and
    [ConnectorDeliveryService], over any transport.  Every access to the file
    system may raise, before or after its effect, and [ProcessKilled] stands for
    a process that dies there.  The six kinds of files are maps from spool ids to
    contents. *)

From S2P Require Import Prelude Time Json Uuid ConnectorContracts.

(** ** Files *)

Record spool := mk_spool {
  (** pending/{id}.json and pending/{id}.state.json *)
  sp_envelopes : gmap string string; sp_states : gmap string string;
  (** receipts/{id}.json and receipts/{id}.accepted.json *)
  sp_receipts : gmap string string; sp_accepted : gmap string string;
  (** quarantine/{id}.json and quarantine/{id}.state.json *)
  sp_quarantined : gmap string string; sp_evidence : gmap string string;
  sp_accesses : nat;
  (** Every envelope ever written to quarantine; the code keeps no such list. *)
  sp_history : list (string * string);
}.

Definition set_envelopes (x : gmap string string) (s : spool) : spool :=
  mk_spool x (sp_states s) (sp_receipts s) (sp_accepted s) (sp_quarantined s) (sp_evidence s) (sp_accesses s) (sp_history s).
Definition set_states (x : gmap string string) (s : spool) : spool :=
  mk_spool (sp_envelopes s) x (sp_receipts s) (sp_accepted s) (sp_quarantined s) (sp_evidence s) (sp_accesses s) (sp_history s).
Definition set_receipts (x : gmap string string) (s : spool) : spool :=
  mk_spool (sp_envelopes s) (sp_states s) x (sp_accepted s) (sp_quarantined s) (sp_evidence s) (sp_accesses s) (sp_history s).
Definition set_accepted (x : gmap string string) (s : spool) : spool :=
  mk_spool (sp_envelopes s) (sp_states s) (sp_receipts s) x (sp_quarantined s) (sp_evidence s) (sp_accesses s) (sp_history s).
Definition put_quarantined (id content : string) (s : spool) : spool :=
  mk_spool (sp_envelopes s) (sp_states s) (sp_receipts s) (sp_accepted s) (<[id := content]> (sp_quarantined s)) (sp_evidence s) (sp_accesses s)
    (sp_history s ++ [(id, content)]).
Definition set_evidence (x : gmap string string) (s : spool) : spool :=
  mk_spool (sp_envelopes s) (sp_states s) (sp_receipts s) (sp_accepted s) (sp_quarantined s) x (sp_accesses s) (sp_history s).
Definition count_access (s : spool) : spool :=
  mk_spool (sp_envelopes s) (sp_states s) (sp_receipts s) (sp_accepted s) (sp_quarantined s) (sp_evidence s) (Datatypes.S (sp_accesses s)) (sp_history s).

(** ** The state of a spooled envelope *)

Record SpoolState := mk_SpoolState {
  ss_queued_at : datetime; ss_attempts : Z; ss_next : option datetime; ss_error : json; ss_acceptance : option ConnectorReceipt;
}.

Record SpoolItem := mk_SpoolItem { it_id : string; it_validated : ValidatedEnvelope; it_state : SpoolState }.

Definition same_instant (a b : datetime) : bool := match stamp a, stamp b with Ret x, Ret y => x =? y | _, _ => false end.
(** [a <= b] of two aware datetimes *)
Definition not_after (a b : datetime) : bool := match stamp a, stamp b with Ret x, Ret y => x <=? y | _, _ => false end.

(** [_format_time] *)
Definition spool_format_time (d : datetime) : outcome string :=
  match stamp d with Ret t => Ret (time_text t) | Exc _ => throw ValueError "spool timestamps must include a timezone offset" end.

(** ** Transport *)

Inductive DeliveryDisposition := ACCEPTED | REPLAYED | RETRY | CONFLICT | REJECTED | AUTH_FAILURE.
Inductive DurabilityDisposition := D_PENDING | D_COMPLETE | D_RETRY | D_CONFLICT | D_REJECTED | D_AUTH_FAILURE.

Definition disposition_text (d : DeliveryDisposition) : string :=
  match d with
  | ACCEPTED => "accepted" | REPLAYED => "replayed" | RETRY => "retry" | CONFLICT => "conflict" | REJECTED => "rejected" | AUTH_FAILURE => "auth_failure"
  end.
Definition durability_text (d : DurabilityDisposition) : string :=
  match d with
  | D_PENDING => "pending" | D_COMPLETE => "complete" | D_RETRY => "retry" | D_CONFLICT => "conflict" | D_REJECTED => "rejected"
  | D_AUTH_FAILURE => "auth_failure"
  end.

(** [retry_after_seconds] as the [timedelta] made of it, in microseconds. *)
Record DeliveryResult := mk_DeliveryResult {
  dr_disposition : DeliveryDisposition; dr_receipt : option ConnectorReceipt; dr_message : string; dr_retry_after : option Z;
}.
Record DurabilityDeliveryResult := mk_DurabilityDeliveryResult {
  du_disposition : DurabilityDisposition; du_receipt : option ConnectorDurabilityReceipt; du_message : string; du_retry_after : option Z;
}.

(** [__post_init__] of both *)
Definition delivery_result (r : DeliveryResult) : outcome DeliveryResult :=
  throw_if (negb (Bool.eqb (match dr_disposition r with ACCEPTED | REPLAYED => true | _ => false end) (is_some (dr_receipt r)))) ValueError
    "only accepted/replayed delivery results carry a receipt" ;;
  Ret r.
Definition durability_result (r : DurabilityDeliveryResult) : outcome DurabilityDeliveryResult :=
  throw_if (negb (Bool.eqb (match du_disposition r with D_PENDING | D_COMPLETE => true | _ => false end) (is_some (du_receipt r)))) ValueError
    "only observed durability results carry a receipt" ;;
  throw_if (match du_disposition r, du_receipt r with
            | D_COMPLETE, Some c => cd_state c != ConnectorDurabilityState.DURABLE_COMPLETE
            | D_COMPLETE, None => true
            | _, _ => false
            end) ValueError "complete delivery requires DURABLE_COMPLETE receipt" ;;
  Ret r.

Class ConnectorTransport (T : Type) := {
  submit : string → M T DeliveryResult;
  durability : ConnectorReceipt → M T DurabilityDeliveryResult;
}.

Record DeliverySummary := mk_DeliverySummary { sm_attempted : Z; sm_delivered : Z; sm_deferred : Z; sm_quarantined : Z }.

Section methods.
Context {T : Type} `{ConnectorTransport T}.
Context (sha256 : string → string) (validate_envelope_bytes : string → outcome ValidatedEnvelope).
(** pydantic's text of a datetime and [ConnectorReceipt.model_validate]; [None]
    is a [ValidationError].  [datetime.fromisoformat]; [None] is a
    [ValueError]. *)
Context (dump_time : datetime → string) (read_receipt : json → option ConnectorReceipt) (fromisoformat : string → option datetime).
(** The modification time of an envelope's file, and [RetryPolicy.delay] in
    microseconds. *)
Context (mtime : nat → datetime) (delay : Z → string → Z).
(** How the n-th access to the file system ends: as it should, or with an
    exception before ([false]) or after ([true]) its effect. *)
Context (fault : nat → option (bool * exn)).

Definition file_access (f : spool → spool) : M spool unit := λ s,
  match fault (sp_accesses s) with
  | None => (Ret tt, count_access (f s))
  | Some (false, e) => (Exc e, count_access s)
  | Some (true, e) => (Exc e, count_access (f s))
  end.

(** [read_bytes], [exists], [stat] and the final [fsync] of a directory. *)
Definition touch : M spool unit := file_access (λ s, s).

(** [_atomic_write] and [unlink(missing_ok=True)] of each kind of file *)
Definition write_envelope (id content : string) : M spool unit := file_access (λ s, set_envelopes (<[id := content]> (sp_envelopes s)) s).
Definition write_state (id content : string) : M spool unit := file_access (λ s, set_states (<[id := content]> (sp_states s)) s).
Definition write_receipt (id content : string) : M spool unit := file_access (λ s, set_receipts (<[id := content]> (sp_receipts s)) s).
Definition write_accepted (id content : string) : M spool unit := file_access (λ s, set_accepted (<[id := content]> (sp_accepted s)) s).
Definition write_quarantined (id content : string) : M spool unit := file_access (put_quarantined id content).
Definition write_evidence (id content : string) : M spool unit := file_access (λ s, set_evidence (<[id := content]> (sp_evidence s)) s).
Definition unlink_envelope (id : string) : M spool unit := file_access (λ s, set_envelopes (delete id (sp_envelopes s)) s).
Definition unlink_state (id : string) : M spool unit := file_access (λ s, set_states (delete id (sp_states s)) s).
Definition unlink_accepted (id : string) : M spool unit := file_access (λ s, set_accepted (delete id (sp_accepted s)) s).

(** *** [SpoolState] *)

Definition option_time (o : option datetime) : outcome json :=
  match o with Some d => t ← spool_format_time d; Ret (JStr t) | None => Ret JNull end.

Definition state_json (st : SpoolState) : outcome json :=
  next ← option_time (ss_next st);
  queued ← spool_format_time (ss_queued_at st);
  Ret (JObj [("attempts", JInt (ss_attempts st)); ("acceptance", of_option (receipt_dump dump_time) (ss_acceptance st)); ("last_error", ss_error st);
             ("next_attempt_at", next); ("queued_at", JStr queued)]).
Definition to_bytes (st : SpoolState) : outcome string := j ← state_json st; canonical_json_bytes j.

(** [_parse_time] *)
Definition spool_parse_time (j : json) : outcome datetime :=
  match j with
  | JStr text =>
      match fromisoformat (replace_z text) with
      | None => throw ValueError "Invalid isoformat string"
      | Some d => throw_if (negb (aware d)) SpoolIntegrityError "spool state contains a naive timestamp" ;; Ret d
      end
  | _ => throw AttributeError "replace"
  end.

(** [value[key]] and [value.get(key)] *)
Definition field (j : json) (key : string) : outcome json :=
  match j with
  | JObj kvs => match assoc key kvs with Some v => Ret v | None => throw KeyError key end
  | _ => throw TypeError "not subscriptable by a text"
  end.
Definition get_field (j : json) (key : string) : json := default JNull (jget key j).

Definition optional {A} (read : json → outcome A) (j : json) : outcome (option A) :=
  match j with JNull => Ret None | _ => a ← read j; Ret (Some a) end.

Definition read_state (raw : string) : outcome SpoolState :=
  match loads raw with
  | None => throw ValueError "invalid JSON"
  | Some value =>
      queued ← field value "queued_at"; queued ← spool_parse_time queued;
      attempts ← field value "attempts";
      attempts ← match py_int attempts with Some n => Ret n | None => throw ValueError "invalid literal for int()" end;
      next ← optional spool_parse_time (get_field value "next_attempt_at");
      acceptance ← optional (λ j, match read_receipt j with Some r => Ret r | None => throw ValidationError "validation error" end)
                            (get_field value "acceptance");
      Ret (mk_SpoolState queued attempts next (get_field value "last_error") acceptance)
  end.

(** [SpoolState.from_bytes] *)
Definition from_bytes (raw : string) : outcome SpoolState :=
  match read_state raw with
  | Ret st => Ret st
  | Exc e => if is_value_error e || mem (exn_cls e) [KeyError; TypeError] then throw SpoolIntegrityError "invalid durable spool state" else Exc e
  end.

(** *** [DurableConnectorSpool] *)

Definition identity_spool_id (v : ValidatedEnvelope) : string :=
  sha256 (canonical_json (JObj [("connector_id", JStr (ve_connector v)); ("idempotency_key", JStr (ve_key v))])).

Definition load_or_recover_state (id : string) : M spool SpoolState :=
  touch ;;
  raw ← gets (λ s, sp_states s !! id);
  match raw with
  | Some raw => lift (from_bytes raw)
  | None =>
      n ← gets sp_accesses;
      let recovered := mk_SpoolState (mtime n) 0 None (JStr "state_recovered_after_interrupted_enqueue") None in
      content ← lift (to_bytes recovered);
      write_state id content ;;
      mret recovered
  end.

Definition enqueue (exact_bytes : string) (queued_at : datetime) : M spool SpoolItem :=
  validated ← lift (validate_envelope_bytes exact_bytes);
  let id := identity_spool_id validated in
  touch ;;
  existing ← gets (λ s, sp_envelopes s !! id);
  match existing with
  | Some raw =>
      existing ← lift (validate_envelope_bytes raw);
      raise_if (ve_sha256 existing != ve_sha256 validated) SpoolConflict "connector/idempotency identity is already spooled with different content" ;;
      st ← load_or_recover_state id;
      mret (mk_SpoolItem id existing st)
  | None =>
      receipt ← gets (λ s, sp_receipts s !! id);
      raise_if (is_some receipt) SpoolConflict "connector/idempotency identity already has a durable receipt" ;;
      let st := mk_SpoolState queued_at 0 None JNull None in
      write_envelope id exact_bytes ;;
      content ← lift (to_bytes st);
      write_state id content ;;
      mret (mk_SpoolItem id validated st)
  end.

(** One file of [pending]. *)
Definition pending_item (ready_at : datetime) (id raw : string) : M spool (option SpoolItem) :=
  validated ← try_except (touch ;; lift (validate_envelope_bytes raw))
    (λ e, if exn_cls e == ProcessKilled then reraise e else raise SpoolIntegrityError "invalid pending envelope");
  raise_if (identity_spool_id validated != id) SpoolIntegrityError "pending envelope identity mismatch" ;;
  st ← load_or_recover_state id;
  mret (if match ss_next st with None => true | Some d => not_after d ready_at end then Some (mk_SpoolItem id validated st) else None).

Fixpoint pending_items (ready_at : datetime) (files : list (string * string)) : M spool (list SpoolItem) :=
  match files with
  | [] => mret []
  | (id, raw) :: files' =>
      item ← pending_item ready_at id raw;
      items ← pending_items ready_at files';
      mret (match item with Some i => i :: items | None => items end)
  end.

(** [key=lambda item: (item.state.queued_at, item.spool_id)] *)
Definition item_le (a b : SpoolItem) : bool :=
  if same_instant (ss_queued_at (it_state a)) (ss_queued_at (it_state b)) then String.leb (it_id a) (it_id b)
  else not_after (ss_queued_at (it_state a)) (ss_queued_at (it_state b)).

(** [glob] gives the files in any order; the items are sorted. *)
Definition pending (ready_at : datetime) : M spool (list SpoolItem) :=
  raise_if (negb (aware ready_at)) ValueError "ready_at must include a timezone offset" ;;
  files ← gets (λ s, map_to_list (sp_envelopes s));
  items ← pending_items ready_at files;
  mret (order_by item_le items).

Definition record_retry (item : SpoolItem) (error : string) (next_attempt_at : datetime) : M spool unit :=
  raise_if (negb (aware next_attempt_at)) ValueError "next_attempt_at must include a timezone offset" ;;
  let st := it_state item in
  content ← lift (to_bytes (mk_SpoolState (ss_queued_at st) (ss_attempts st + 1) (Some next_attempt_at) (JStr (String.substring 0 2000 error)) (ss_acceptance st)));
  write_state (it_id item) content.

(** The receipt names the envelope. *)
Definition attests (r : ConnectorReceipt) (v : ValidatedEnvelope) : bool :=
  (cr_connector r == ve_connector v) && (cr_key r == ve_key v) && (cr_batch r == ve_batch v) && (cr_payload r == ve_payload v)
  && (cr_envelope r == ve_sha256 v).

Definition record_acceptance (item : SpoolItem) (receipt : ConnectorReceipt) : M spool unit :=
  raise_if (negb (attests receipt (it_validated item))) SpoolIntegrityError "receipt does not attest the spooled envelope" ;;
  content ← lift (canonical_json_bytes (receipt_dump dump_time receipt));
  write_accepted (it_id item) content ;;
  let st := it_state item in
  content ← lift (to_bytes (mk_SpoolState (ss_queued_at st) (ss_attempts st) None JNull (Some receipt)));
  write_state (it_id item) content.

Definition acknowledge_durable (item : SpoolItem) (receipt : ConnectorDurabilityReceipt) : M spool unit :=
  raise_if (cd_state receipt != ConnectorDurabilityState.DURABLE_COMPLETE) SpoolIntegrityError "source evidence can be removed only at DURABLE_COMPLETE" ;;
  raise_if (negb (attests (cd_acceptance receipt) (it_validated item))) SpoolIntegrityError "durability receipt does not attest the spooled envelope" ;;
  content ← lift (canonical_json_bytes (durability_dump dump_time receipt));
  write_receipt (it_id item) content ;;
  unlink_envelope (it_id item) ;;
  unlink_state (it_id item) ;;
  unlink_accepted (it_id item) ;;
  touch.

Definition quarantine (item : SpoolItem) (reason message : string) (quarantined_at : datetime) : M spool unit :=
  at_text ← lift (spool_format_time quarantined_at);
  st ← lift (to_bytes (it_state item));
  st ← match loads st with Some j => mret j | None => raise ValueError "invalid JSON" end;
  let v := it_validated item in
  write_quarantined (it_id item) (ve_bytes v) ;;
  content ← lift (canonical_json_bytes (JObj [("details", JObj [("message", JStr message)]); ("envelope_sha256", JStr (ve_sha256 v));
    ("exact_bytes_sha256", JStr (ve_bytes_sha256 v)); ("quarantined_at", JStr at_text); ("reason", JStr reason); ("spool_state", st)]));
  write_evidence (it_id item) content ;;
  unlink_envelope (it_id item) ;;
  unlink_state (it_id item) ;;
  touch.

(** *** [ConnectorDeliveryService] *)

Definition on_spool {A} (m : M spool A) : M (spool * T) A := λ w, let '(o, s) := m w.1 in (o, (s, w.2)).
Definition on_transport {A} (m : M T A) : M (spool * T) A := λ w, let '(o, t) := m w.2 in (o, (w.1, t)).

(** [except Exception]: the answer is a retry. *)
Definition or_retry {A} (m : M (spool * T) A) (retry : string → A) : M (spool * T) A :=
  try_except m (λ e, if exn_cls e == ProcessKilled then reraise e else mret (retry (class_name e +:+ ": " +:+ exn_msg e))).

Definition or_else (s t : string) : string := if s == "" then t else s.

(** [now + retry_delay] *)
Definition later (now : datetime) (item : SpoolItem) (retry_after : option Z) : datetime :=
  Datetime (wall now + match retry_after with Some d => d | None => delay (ss_attempts (it_state item)) (it_id item) end) (utcoffset now).

(** What became of an item. *)
Inductive fate := Delivered | Deferred | Quarantined.

Definition deliver_accepted (now : datetime) (item : SpoolItem) (acceptance : ConnectorReceipt) : M (spool * T) fate :=
  r ← or_retry (on_transport (durability acceptance)) (λ e, mk_DurabilityDeliveryResult D_RETRY None ("durability status exception: " +:+ e) None);
  match du_disposition r with
  | D_COMPLETE =>
      receipt ← assert_some (du_receipt r);
      on_spool (acknowledge_durable item receipt) ;; mret Delivered
  | D_PENDING | D_RETRY =>
      on_spool (record_retry item (or_else (du_message r) "durability not complete") (later now item (du_retry_after r))) ;; mret Deferred
  | d => on_spool (quarantine item ("durability_" +:+ durability_text d) (du_message r) now) ;; mret Quarantined
  end.

Definition deliver_new (now : datetime) (item : SpoolItem) : M (spool * T) fate :=
  r ← or_retry (on_transport (submit (ve_bytes (it_validated item)))) (λ e, mk_DeliveryResult RETRY None ("transport exception: " +:+ e) None);
  match dr_disposition r with
  | ACCEPTED | REPLAYED =>
      receipt ← assert_some (dr_receipt r);
      on_spool (record_acceptance item receipt) ;; mret Deferred
  | RETRY => on_spool (record_retry item (or_else (dr_message r) "retryable delivery failure") (later now item (dr_retry_after r))) ;; mret Deferred
  | d => on_spool (quarantine item (disposition_text d) (dr_message r) now) ;; mret Quarantined
  end.

Definition deliver_item (now : datetime) (item : SpoolItem) : M (spool * T) fate :=
  match ss_acceptance (it_state item) with
  | Some acceptance => deliver_accepted now item acceptance
  | None => deliver_new now item
  end.

Definition add_fate (f : fate) (s : DeliverySummary) : DeliverySummary :=
  match f with
  | Delivered => mk_DeliverySummary (sm_attempted s + 1) (sm_delivered s + 1) (sm_deferred s) (sm_quarantined s)
  | Deferred => mk_DeliverySummary (sm_attempted s + 1) (sm_delivered s) (sm_deferred s + 1) (sm_quarantined s)
  | Quarantined => mk_DeliverySummary (sm_attempted s + 1) (sm_delivered s) (sm_deferred s) (sm_quarantined s + 1)
  end.

Fixpoint deliver_items (now : datetime) (items : list SpoolItem) (summary : DeliverySummary) : M (spool * T) DeliverySummary :=
  match items with
  | [] => mret summary
  | item :: items' => f ← deliver_item now item; deliver_items now items' (add_fate f summary)
  end.

(** [items[:limit]] *)
Definition slice_to {A} (limit : Z) (l : list A) : list A := firstn (Z.to_nat (if limit <? 0 then Z.of_nat (length l) + limit else limit)) l.

Definition deliver_ready (now : datetime) (limit : Z) : M (spool * T) DeliverySummary :=
  items ← on_spool (pending now);
  deliver_items now (slice_to limit items) (mk_DeliverySummary 0 0 0 0).
End methods.
