(* ===== verification/ConnectorSpoolSafety.v ===== *)
(** * ConnectorSpoolSafety: source evidence is never lost

    What one method of the spool may do to the files, however its accesses fail,
    and executions of the spool and the delivery service. *)

From S2P Require Import Prelude Time Json Uuid ConnectorContracts ConnectorSpool.

(** ** What a receipt file proves *)

Definition names (a : json) (v : ValidatedEnvelope) : Prop :=
  jget "connector_id" a = Some (JStr (ve_connector v)) ∧ jget "idempotency_key" a = Some (JStr (ve_key v)) ∧
  jget "batch_id" a = Some (JStr (uuid_str (ve_batch v))) ∧ jget "payload_sha256" a = Some (JStr (ve_payload v)) ∧
  jget "envelope_sha256" a = Some (JStr (ve_sha256 v)).

(** A DURABLE_COMPLETE receipt for the envelope. *)
Definition durable_json (j : json) (v : ValidatedEnvelope) : Prop :=
  jget "state" j = Some (JStr "DURABLE_COMPLETE") ∧ ∃ a, jget "acceptance" j = Some a ∧ names a v.

Definition receipt_for (v : ValidatedEnvelope) (id : string) (s : spool) : Prop :=
  ∃ t j, sp_receipts s !! id = Some t ∧ loads t = Some j ∧ durable_json j v.

Definition no_files : spool := mk_spool ∅ ∅ ∅ ∅ ∅ ∅ 0 [].

Section safety.
Context {T : Type} `{ConnectorTransport T}.
Context (sha256 : string → string) (validate_envelope_bytes : string → outcome ValidatedEnvelope).
Context (dump_time : datetime → string) (read_receipt : json → option ConnectorReceipt) (fromisoformat : string → option datetime).
Context (mtime : nat → datetime) (delay : Z → string → Z) (fault : nat → option (bool * exn)).
(** [ValidatedEnvelope.exact_bytes] are the bytes that were validated. *)
Hypothesis exact_bytes : ∀ b v, validate_envelope_bytes b = Ret v → ve_bytes v = b.

Abbreviation access_ := (file_access fault).

Definition spool_ok (s : spool) : Prop := ∀ id b, sp_envelopes s !! id = Some b →
  ∃ v, validate_envelope_bytes b = Ret v ∧ identity_spool_id sha256 v = id ∧ (is_Some (sp_receipts s !! id) → receipt_for v id s).

(** The evidence of an envelope: it is still there, or a receipt proves that a
    verified checkpoint has it, or it was put in quarantine. *)
Definition secured (id b : string) (v : ValidatedEnvelope) (s : spool) : Prop :=
  sp_envelopes s !! id = Some b ∨ receipt_for v id s ∨ (id, b) ∈ sp_history s.

(** What a step may do. *)
Definition moves (s s' : spool) : Prop := spool_ok s →
  spool_ok s' ∧ ∀ id b v, validate_envelope_bytes b = Ret v → secured id b v s → secured id b v s'.

(** A step on the files of one id. *)
Definition moves_at (id : string) (s s' : spool) : Prop := moves s s' ∧ ∀ i, i ≠ id → sp_envelopes s' !! i = sp_envelopes s !! i.

Lemma moves_trans s1 s2 s3 : moves s1 s2 → moves s2 s3 → moves s1 s3.
Proof. intros H1 H2 H0. destruct (H1 H0) as [H3 H4]. destruct (H2 H3) as [H5 H6]. split; [done|]. eauto. Qed.

Lemma moves_at_trans id s1 s2 s3 : moves_at id s1 s2 → moves_at id s2 s3 → moves_at id s1 s3.
Proof. intros [H1 H2] [H3 H4]. split; [by eapply moves_trans|]. intros i Hi. rewrite H4 by done. auto. Qed.

(** A step that changes neither envelopes nor receipts nor the history. *)
Definition quiet (s s' : spool) : Prop :=
  sp_envelopes s' = sp_envelopes s ∧ sp_receipts s' = sp_receipts s ∧ sp_history s' = sp_history s.

Lemma quiet_refl s : quiet s s.
Proof. done. Qed.
Lemma quiet_trans s1 s2 s3 : quiet s1 s2 → quiet s2 s3 → quiet s1 s3.
Proof. intros (E1 & E2 & E3) (E4 & E5 & E6). split_and!; congruence. Qed.

Lemma quiet_moves id s s' : quiet s s' → moves_at id s s'.
Proof.
  intros (E1 & E2 & E3). split; [|intros; by rewrite E1]. intros Hs. split.
  - intros i b. rewrite E1, E2. intros (v & Hv & Hid & Hr)%Hs. exists v. split_and!; [done..|]. intros Hi. destruct (Hr Hi) as (t & j & Ht & Hj).
    exists t, j. by rewrite E2.
  - intros i b v _. unfold secured, receipt_for. by rewrite E1, E2, E3.
Qed.

(** ** Accesses *)

Lemma access_inv f s u s1 : access_ f s = (Ret u, s1) → s1 = count_access (f s).
Proof. unfold file_access. destruct (fault _) as [[[] e]|]; [done..|]. by intros [= _ <-]. Qed.

Lemma access_runs f s id : moves_at id s (f s) → runs (moves_at id) (access_ f) s.
Proof.
  intros Hf. unfold runs, file_access. assert (∀ s, moves_at id s (count_access s)) as Hc by (intros; by apply quiet_moves).
  destruct (fault _) as [[[] e]|]; cbn; [by eapply moves_at_trans|done|by eapply moves_at_trans].
Qed.

(** A computation that is quiet. *)
Definition silent {A} (m : M spool A) : Prop := ∀ s, quiet s (m s).2.

Lemma silent_ret {A} (a : A) : silent (mret a).
Proof. done. Qed.
Lemma silent_raise_if b c msg : silent (raise_if b c msg).
Proof. by destruct b. Qed.
Lemma silent_lift {A} (o : outcome A) : silent (lift o).
Proof. done. Qed.
Lemma silent_gets {A} (f : spool → A) : silent (gets f).
Proof. done. Qed.
Lemma silent_bind {A B} (m : M spool A) (k : A → M spool B) : silent m → (∀ a, silent (k a)) → silent (mbind k m).
Proof.
  intros Hm Hk s. specialize (Hm s). unfold mbind, M_bind. destruct (m s) as [[a|e] s1]; [|done]. eapply quiet_trans; [done|apply Hk].
Qed.
Lemma silent_access f : (∀ s, quiet s (f s)) → silent (access_ f).
Proof. intros Hf s. unfold file_access. destruct (fault _) as [[[] e]|]; cbn; try done; apply Hf. Qed.
Lemma silent_try {A} (m : M spool A) h : silent m → (∀ e, silent (h e)) → silent (try_except m h).
Proof.
  intros Hm Hh s. specialize (Hm s). unfold try_except. destruct (m s) as [[a|e] s1]; [done|]. eapply quiet_trans; [done|apply Hh].
Qed.

Lemma silent_runs {A} (m : M spool A) id s : silent m → runs (moves_at id) m s.
Proof. intros Hm. apply quiet_moves, Hm. Qed.

Ltac hush := repeat first [apply silent_bind; [|intros ?] | apply silent_access; done | apply silent_ret | apply silent_raise_if | apply silent_lift | apply silent_gets | case_match].

Lemma silent_load id : silent (load_or_recover_state dump_time read_receipt fromisoformat mtime fault id).
Proof. unfold load_or_recover_state, touch, write_state. hush. Qed.

Lemma silent_record_retry item e d : silent (record_retry dump_time fault item e d).
Proof. unfold record_retry, write_state. hush. Qed.

Lemma silent_record_acceptance item r : silent (record_acceptance dump_time fault item r).
Proof. unfold record_acceptance, write_accepted, write_state. hush. Qed.

(** ** The steps that matter *)

Lemma receipt_for_other v id s x : x ≠ id → ∀ t, receipt_for v x s → receipt_for v x (set_receipts (<[id := t]> (sp_receipts s)) s).
Proof. intros Hx t (t' & j & Ht & Hj). exists t', j. cbn. by rewrite lookup_insert_ne. Qed.

(** The envelope file is written only where neither it nor a receipt is. *)
Lemma write_envelope_moves id b v s : validate_envelope_bytes b = Ret v → identity_spool_id sha256 v = id → sp_envelopes s !! id = None →
  sp_receipts s !! id = None → moves_at id s (set_envelopes (<[id := b]> (sp_envelopes s)) s).
Proof.
  intros Hv Hid He Hr. split; [|intros; by apply lookup_insert_ne]. intros Hs. split.
  - intros i b'. cbn. destruct (decide (i = id)) as [->|Hi].
    + rewrite lookup_insert_eq. intros [= <-]. exists v. split_and!; [done..|]. rewrite Hr. by intros [].
    + rewrite lookup_insert_ne by done. apply Hs.
  - intros i b' v' _ [Hs'|Hs']; [|by right]. left. cbn. rewrite lookup_insert_ne; [done|]. intros <-. congruence.
Qed.

(** The item is the file as it is. *)
Definition held (it : SpoolItem) (s : spool) : Prop :=
  sp_envelopes s !! it_id it = Some (ve_bytes (it_validated it)) ∧ validate_envelope_bytes (ve_bytes (it_validated it)) = Ret (it_validated it).

Lemma held_quiet it s s' : quiet s s' → held it s → held it s'.
Proof. intros (E & _) [H1 H2]. split; [by rewrite E|done]. Qed.

Lemma held_elsewhere it id s s' : it_id it ≠ id → moves_at id s s' → held it s → held it s'.
Proof. intros Hi [_ E] [H1 H2]. split; [by rewrite E|done]. Qed.

Lemma dumped_receipt r v t : cd_state r = ConnectorDurabilityState.DURABLE_COMPLETE → attests (cd_acceptance r) v = true →
  canonical_json_bytes (durability_dump dump_time r) = Ret t → ∃ j, loads t = Some j ∧ durable_json j v.
Proof.
  intros Hd Ha Ht. unfold canonical_json_bytes in Ht. destruct (safe_integers _); [|done]. injection Ht as <-.
  eexists. split; [apply loads_print|]. unfold attests in Ha. b2p. destruct Ha as [[[[E1 E2] E3] E4] E5]. unfold durable_json, names.
  rewrite <-E1, <-E2, <-E3, <-E4, <-E5. split.
  { change "DURABLE_COMPLETE" with (ConnectorDurabilityState.text ConnectorDurabilityState.DURABLE_COMPLETE). rewrite <-Hd. reflexivity. }
  eexists. split; [reflexivity|]. by split_and!.
Qed.

(** One receipt file proves the same of every envelope it names. *)
Lemma durable_json_same j j' v v' : durable_json j v → durable_json j v' → durable_json j' v → durable_json j' v'.
Proof.
  intros (_ & a & Ha & A1 & A2 & A3 & A4 & A5) (_ & a' & Ha' & B1 & B2 & B3 & B4 & B5) (Hs & c & Hc & C1 & C2 & C3 & C4 & C5).
  assert (a = a') as <- by congruence. split; [done|]. exists c. split; [done|]. split_and!; congruence.
Qed.

Lemma write_receipt_moves it r t s : held it s → cd_state r = ConnectorDurabilityState.DURABLE_COMPLETE → attests (cd_acceptance r) (it_validated it) = true →
  canonical_json_bytes (durability_dump dump_time r) = Ret t →
  moves_at (it_id it) s (set_receipts (<[it_id it := t]> (sp_receipts s)) s) ∧ receipt_for (it_validated it) (it_id it) (set_receipts (<[it_id it := t]> (sp_receipts s)) s).
Proof.
  intros [He Hv] Hd Ha Ht. destruct (dumped_receipt r _ t Hd Ha Ht) as (j & Hj & Hdj).
  assert (∀ v j', loads t = Some j' → durable_json j' v → receipt_for v (it_id it) (set_receipts (<[it_id it := t]> (sp_receipts s)) s)) as Hnew.
  { intros v j' ? ?. exists t, j'. cbn. by rewrite lookup_insert_eq. }
  split; [|by eapply Hnew]. split; [|done]. intros Hs. split.
  - intros i b Hb. destruct (Hs i b Hb) as (v & Hvb & Hid & Hr). exists v. split_and!; [done..|]. intros Hi. destruct (decide (i = it_id it)) as [->|Hne].
    + change (sp_envelopes s !! it_id it = Some b) in Hb. assert (v = it_validated it) as -> by congruence. by eapply Hnew.
    + apply receipt_for_other; [done|]. apply Hr. cbn in Hi. by rewrite lookup_insert_ne in Hi.
  - intros i b v Hvb [Hs'|[Hs'|Hs']]; [by left| |by right; right]. right. left. destruct (decide (i = it_id it)) as [->|Hne]; [|by apply receipt_for_other].
    destruct (Hs _ _ He) as (v' & Hv' & _ & Hr). assert (v' = it_validated it) as -> by congruence. destruct Hs' as (t0 & j0 & Ht0 & Hj0 & Hd0).
    destruct Hr as (t1 & j1 & Ht1 & Hj1 & Hd1); [by rewrite Ht0|]. simplify_eq. eapply Hnew; [done|]. by eapply durable_json_same.
Qed.

Lemma unlink_moves it s : held it s → receipt_for (it_validated it) (it_id it) s ∨ (it_id it, ve_bytes (it_validated it)) ∈ sp_history s →
  moves_at (it_id it) s (set_envelopes (delete (it_id it) (sp_envelopes s)) s).
Proof.
  intros [He Hv] Hsec. split; [|intros; by apply lookup_delete_ne]. intros Hs. split.
  - intros i b Hb. cbn in Hb. apply lookup_delete_Some in Hb as [_ Hb]. destruct (Hs i b Hb) as (v & ? & ? & ?). exists v. done.
  - intros i b v Hvb [Hs'|Hs']; [|by right]. destruct (decide (i = it_id it)) as [->|Hne].
    + assert (b = ve_bytes (it_validated it)) as -> by congruence. assert (v = it_validated it) as -> by congruence. by right.
    + left. cbn. by rewrite lookup_delete_ne.
Qed.

Lemma put_quarantined_moves it s : moves_at (it_id it) s (put_quarantined (it_id it) (ve_bytes (it_validated it)) s).
Proof.
  split; [|done]. intros Hs. split; [exact Hs|]. intros i b v _ [Hs'|[Hs'|Hs']]; [by left|by right; left|]. right. right. cbn. apply elem_of_app. by left.
Qed.
(** ** The methods *)

Abbreviation moves_item it := (moves_at (it_id it)).

Lemma runs_bind_at {A B} id (m : M spool A) (k : A → M spool B) s : runs (moves_at id) m s →
  (∀ a s1, m s = (Ret a, s1) → runs (moves_at id) (k a) s1) → runs (moves_at id) (mbind k m) s.
Proof. apply runs_bind. intros; by eapply moves_at_trans. Qed.

Lemma moves_refl id s : moves_at id s s.
Proof. by apply quiet_moves. Qed.

Lemma acknowledge_runs it r s : held it s → runs (moves_item it) (acknowledge_durable dump_time fault it r) s.
Proof.
  intros Hheld. unfold acknowledge_durable. apply runs_bind_at; [apply silent_runs, silent_raise_if|]. intros u s0 [Hd ->]%raise_if_inv.
  apply runs_bind_at; [apply silent_runs, silent_raise_if|]. intros u' s0 [Ha ->]%raise_if_inv. apply runs_bind_at; [apply silent_runs, silent_lift|].
  intros t s0 [Ht ->]%lift_inv. b2p. destruct (write_receipt_moves it r t s Hheld Hd Ha Ht) as [Hm Hr].
  apply runs_bind_at; [by apply access_runs|]. intros u'' s1 ->%access_inv. apply runs_bind_at.
  - apply access_runs. apply unlink_moves; [by destruct Hheld|]. by left.
  - intros. apply silent_runs. unfold unlink_state, unlink_accepted, touch. hush.
Qed.

Lemma spool_quarantine_runs it reason message d s : held it s → runs (moves_item it) (quarantine dump_time fault it reason message d) s.
Proof.
  intros Hheld. unfold quarantine. apply runs_bind_at; [apply silent_runs, silent_lift|]. intros t s0 [_ ->]%lift_inv.
  apply runs_bind_at; [apply silent_runs, silent_lift|]. intros st s0 [_ ->]%lift_inv.
  apply runs_bind_at; [apply silent_runs; by case_match|]. intros j s0 Hj. assert (s0 = s) as -> by (case_match; by inversion Hj). cbv zeta.
  apply runs_bind_at; [apply access_runs, put_quarantined_moves|]. intros u s1 ->%access_inv.
  apply runs_bind_at; [apply silent_runs, silent_lift|]. intros c s0 [_ ->]%lift_inv.
  apply runs_bind_at; [apply silent_runs, silent_access; done|]. intros u' s2 ->%access_inv. apply runs_bind_at.
  - apply access_runs, unlink_moves; [by destruct Hheld|]. right. cbn. apply elem_of_app. right. by left.
  - intros. apply silent_runs. unfold unlink_state, touch. hush.
Qed.

Lemma enqueue_runs b d s : ∃ id, runs (moves_at id) (enqueue sha256 validate_envelope_bytes dump_time read_receipt fromisoformat mtime fault b d) s.
Proof.
  unfold enqueue. destruct (validate_envelope_bytes b) as [v|e] eqn:Hv; [|exists ""; apply moves_refl]. exists (identity_spool_id sha256 v).
  apply runs_bind_at; [apply silent_runs, silent_lift|]. intros v' s0 [[= <-] ->]%lift_inv. cbv zeta.
  apply runs_bind_at; [apply silent_runs, silent_access; done|]. intros u s1 ->%access_inv.
  apply runs_bind_at; [apply silent_runs, silent_gets|]. intros o s0 [-> ->]%gets_inv. destruct (sp_envelopes _ !! _) as [raw|] eqn:He.
  - apply silent_runs. hush.
  - apply runs_bind_at; [apply silent_runs, silent_gets|]. intros r s0 [-> ->]%gets_inv.
    apply runs_bind_at; [apply silent_runs, silent_raise_if|]. intros u' s0 [Hr ->]%raise_if_inv. cbv zeta.
    apply runs_bind_at.
    + apply access_runs. apply write_envelope_moves with (v := v); [done..|]. by destruct (sp_receipts _ !! _).
    + intros. apply silent_runs. unfold write_state. hush.
Qed.

(** *** The pending items *)

Abbreviation pending_item_ := (pending_item sha256 validate_envelope_bytes dump_time read_receipt fromisoformat mtime fault).
Abbreviation pending_items_ := (pending_items sha256 validate_envelope_bytes dump_time read_receipt fromisoformat mtime fault).
Abbreviation pending_ := (pending sha256 validate_envelope_bytes dump_time read_receipt fromisoformat mtime fault).

Lemma silent_pending_item d id raw : silent (pending_item_ d id raw).
Proof.
  unfold pending_item, touch. apply silent_bind; [apply silent_try; [hush|intros e; by case_match]|]. intros v. hush.
Qed.

Lemma silent_pending_items d files : silent (pending_items_ d files).
Proof. induction files as [|[id raw] files IH]; [done|]. cbn. apply silent_bind; [apply silent_pending_item|]. intros o. apply silent_bind; [done|]. intros; hush. Qed.

Lemma silent_pending d : silent (pending_ d).
Proof. unfold pending. hush. apply silent_pending_items. Qed.

Lemma pending_item_inv d id raw s it s1 : pending_item_ d id raw s = (Ret (Some it), s1) → it_id it = id ∧ validate_envelope_bytes raw = Ret (it_validated it).
Proof.
  unfold pending_item. intros (v & s2 & Hv & E)%bind_ret_inv. apply bind_ret_inv in E as (u & s3 & [Hid ->]%raise_if_inv & E).
  apply bind_ret_inv in E as (st & s4 & _ & [E _]%mret_inv). assert (mk_SpoolItem id v st = it) as <- by (destruct (ss_next st); [case_match|]; congruence). split; [done|]. cbn.
  unfold try_except in Hv. destruct ((touch fault ;; lift (validate_envelope_bytes raw)) s) as [[v'|e] s5] eqn:E1.
  - apply bind_ret_inv in E1 as (u' & s6 & _ & [E1 ->]%lift_inv). by injection Hv as -> _.
  - destruct (exn_cls e == ProcessKilled); discriminate Hv.
Qed.

Lemma pending_items_inv d files s items s1 : pending_items_ d files s = (Ret items, s1) →
  map it_id items `sublist_of` files.*1 ∧ ∀ it, it ∈ items → ∃ raw, (it_id it, raw) ∈ files ∧ validate_envelope_bytes raw = Ret (it_validated it).
Proof.
  revert s items s1. induction files as [|[id raw] files IH]; intros s items s1.
  - intros [<- ->]%mret_inv. split; [done|]. by intros it ?%not_elem_of_nil.
  - cbn. intros (o & s2 & Ho & E)%bind_ret_inv. apply bind_ret_inv in E as (items' & s3 & Hi & [<- ->]%mret_inv). destruct (IH _ _ _ Hi) as [IH1 IH2].
    destruct o as [i|].
    + apply pending_item_inv in Ho as [<- Hv]. split; [by constructor|]. intros it [->|Hit]%elem_of_cons.
      * exists raw. split; [by left|done].
      * destruct (IH2 it Hit) as (raw' & ? & ?). exists raw'. split; [by right|done].
    + split; [by constructor|]. intros it Hit. destruct (IH2 it Hit) as (raw' & ? & ?). exists raw'. split; [by right|done].
Qed.

Lemma pending_held d s items s1 : pending_ d s = (Ret items, s1) → NoDup (map it_id items) ∧ Forall (λ it, held it s1) items.
Proof.
  intros E. pose proof (silent_pending d s) as Hq. rewrite E in Hq. cbn in Hq. unfold pending in E. apply bind_ret_inv in E as (u & s2 & [_ ->]%raise_if_inv & E).
  apply bind_ret_inv in E as (files & s2 & [-> ->]%gets_inv & E). apply bind_ret_inv in E as (l & s2 & Hl & [<- ->]%mret_inv).
  apply pending_items_inv in Hl as [Hsub Hall]. split.
  - rewrite order_by_perm. exact (sublist_NoDup _ _ (NoDup_fst_map_to_list _) Hsub).
  - apply list.Forall_forall. intros it. rewrite order_by_perm. intros (raw & Hin%elem_of_map_to_list & Hv)%Hall. apply exact_bytes in Hv as Hb. subst raw.
    split; [by rewrite (proj1 Hq)|done].
Qed.
(** *** Deliveries *)

Definition moves_with (id : string) (w w' : spool * T) : Prop := moves_at id w.1 w'.1.

Lemma moves_with_trans id w1 w2 w3 : moves_with id w1 w2 → moves_with id w2 w3 → moves_with id w1 w3.
Proof. apply moves_at_trans. Qed.

Lemma on_spool_runs {A} (m : M spool A) id w : runs (moves_at id) m w.1 → runs (moves_with id) (on_spool m) w.
Proof. unfold runs, on_spool, moves_with. by destruct (m w.1). Qed.

Lemma on_transport_spool {A} (m : M T A) w : (on_transport m w).2.1 = w.1.
Proof. unfold on_transport. by destruct (m w.2). Qed.

Lemma or_retry_spool {A} (m : M (spool * T) A) f w : (m w).2.1 = w.1 → (or_retry m f w).2.1 = w.1.
Proof. unfold or_retry, try_except. destruct (m w) as [[a|e] w']; [done|]. by destruct (exn_cls e == ProcessKilled). Qed.

Lemma asked_runs {A B} id (m : M T A) f (k : A → M (spool * T) B) w :
  (∀ a w1, w1.1 = w.1 → runs (moves_with id) (k a) w1) → runs (moves_with id) (mbind k (or_retry (on_transport m) f)) w.
Proof.
  intros Hk. pose proof (or_retry_spool (on_transport m) f w (on_transport_spool m w)) as E. unfold runs, mbind, M_bind.
  destruct (or_retry _ _ w) as [[a|e] w1]; cbn in E.
  - pose proof (Hk a w1 E) as Hr. unfold runs, moves_with in *. by rewrite E in Hr.
  - unfold moves_with. cbn. rewrite E. apply moves_refl.
Qed.

Lemma and_return {A B} id (m : M (spool * T) A) (b : B) w : runs (moves_with id) m w → runs (moves_with id) (m ;; mret b) w.
Proof. unfold runs, mbind, M_bind. by destruct (m w) as [[a|e] w1]. Qed.

Lemma received_runs {A B} id (o : option A) (k : A → M (spool * T) B) w : (∀ a, o = Some a → runs (moves_with id) (k a) w) →
  runs (moves_with id) (mbind k (assert_some o)) w.
Proof. intros Hk. destruct o; [by apply Hk|]. apply moves_refl. Qed.

Abbreviation deliver_item_ := (deliver_item dump_time delay fault).
Abbreviation deliver_ready_ := (deliver_ready sha256 validate_envelope_bytes dump_time read_receipt fromisoformat mtime delay fault).

Lemma deliver_item_runs now it w : held it w.1 → runs (moves_with (it_id it)) (deliver_item_ now it) w.
Proof.
  intros Hheld. unfold deliver_item, deliver_accepted, deliver_new. destruct (ss_acceptance _) as [acceptance|]; apply asked_runs; intros r w1 E; rewrite <-E in Hheld.
  - destruct (du_disposition r); try apply received_runs; intros; apply and_return, on_spool_runs;
      first [by apply silent_runs, silent_record_retry | by apply acknowledge_runs | by apply spool_quarantine_runs].
  - destruct (dr_disposition r); try apply received_runs; intros; apply and_return, on_spool_runs;
      first [by apply silent_runs, silent_record_retry | by apply silent_runs, silent_record_acceptance | by apply spool_quarantine_runs].
Qed.

Lemma deliver_items_moves now items summary w : NoDup (map it_id items) → Forall (λ it, held it w.1) items →
  moves w.1 (deliver_items dump_time delay fault now items summary w).2.1.
Proof.
  revert summary w. induction items as [|it items IH]; intros summary w; [by intros _ _|]. intros [Hnot Hnd]%list.NoDup_cons [Hit Hheld]%list.Forall_cons.
  cbn. unfold mbind at 1, M_bind. pose proof (deliver_item_runs now it w Hit) as Hr. unfold runs, moves_with in Hr.
  destruct (deliver_item_ now it w) as [[f|e] w1]; cbn in Hr |- *; [|by destruct Hr]. eapply moves_trans; [by destruct Hr|]. apply IH; [done|].
  rewrite list.Forall_forall in *. intros other Hin. eapply held_elsewhere; [|exact Hr|auto]. intros Eid. apply Hnot. rewrite <-Eid. by apply (list_elem_of_fmap_2 it_id).
Qed.

Lemma deliver_ready_moves now limit w : moves w.1 (deliver_ready_ now limit w).2.1.
Proof.
  unfold deliver_ready, mbind, M_bind, on_spool. pose proof (silent_pending now w.1) as Hq. destruct (pending_ now w.1) as [[items|e] s1] eqn:E; cbn in Hq |- *.
  - apply pending_held in E as [Hnd Hheld]. eapply moves_trans; [exact (proj1 (quiet_moves "" _ _ Hq))|]. apply (deliver_items_moves now _ _ (s1, w.2)).
    + unfold slice_to. rewrite <-firstn_map. eapply sublist_NoDup; [exact Hnd|]. apply sublist_take.
    + apply list.Forall_take. exact Hheld.
  - exact (proj1 (quiet_moves "" _ _ Hq)).
Qed.

(** ** Executions *)

Inductive spool_request :=
| Enqueue (exact_bytes : string) (queued_at : datetime)
| DeliverReady (now : datetime) (limit : Z).

Definition serve_spool (c : spool_request) : M (spool * T) unit :=
  match c with
  | Enqueue b d => on_spool (enqueue sha256 validate_envelope_bytes dump_time read_receipt fromisoformat mtime fault b d) ;; mret tt
  | DeliverReady now limit => deliver_ready_ now limit ;; mret tt
  end.

(** The files after the requests, whether they return, raise or die. *)
Definition spool_run (cs : list spool_request) (w : spool * T) : spool * T := foldl (λ w c, (serve_spool c w).2) w cs.

Lemma and_return_state {S A B} (m : M S A) (b : B) (w : S) : ((m ;; mret b) w).2 = (m w).2.
Proof. unfold mbind, M_bind. by destruct (m w) as [[]]. Qed.

Lemma serve_spool_moves c w : moves w.1 (serve_spool c w).2.1.
Proof.
  destruct c as [b d|now limit]; cbn [serve_spool]; rewrite and_return_state; [|apply deliver_ready_moves].
  destruct (enqueue_runs b d w.1) as [id [Hm _]]. unfold on_spool. by destruct (enqueue _ _ _ _ _ _ _ _ _ _).
Qed.

Lemma spool_run_moves cs w : moves w.1 (spool_run cs w).1.
Proof.
  revert w. induction cs as [|c cs IH]; intros w; [exact (proj1 (quiet_moves "" _ _ (quiet_refl _)))|]. cbn. eapply moves_trans; [apply serve_spool_moves|apply IH].
Qed.

Lemma no_files_ok : spool_ok no_files.
Proof. by intros id b. Qed.

(** An item that [enqueue] returns is in its file. *)
Lemma enqueue_held b d s it s1 : enqueue sha256 validate_envelope_bytes dump_time read_receipt fromisoformat mtime fault b d s = (Ret it, s1) → held it s1.
Proof.
  unfold enqueue. intros (v & s2 & [Hv ->]%lift_inv & E)%bind_ret_inv. cbv zeta in E. apply bind_ret_inv in E as (u & s2 & ->%access_inv & E).
  apply bind_ret_inv in E as (o & s2 & [-> ->]%gets_inv & E). destruct (sp_envelopes _ !! _) as [raw|] eqn:He.
  - apply bind_ret_inv in E as (v' & s2 & [Hv' ->]%lift_inv & E). apply bind_ret_inv in E as (u' & s2 & [_ ->]%raise_if_inv & E).
    apply bind_ret_inv in E as (st & s2 & Hst & [<- ->]%mret_inv). apply exact_bytes in Hv' as Hb. subst raw.
    pose proof (silent_load (identity_spool_id sha256 v) (count_access s)) as Hq. rewrite Hst in Hq. cbn in Hq. split; [by rewrite (proj1 Hq)|done].
  - apply bind_ret_inv in E as (r & s2 & [-> ->]%gets_inv & E). apply bind_ret_inv in E as (u' & s2 & [_ ->]%raise_if_inv & E). cbv zeta in E.
    apply bind_ret_inv in E as (u'' & s2 & ->%access_inv & E). apply bind_ret_inv in E as (c & s2 & [_ ->]%lift_inv & E).
    apply bind_ret_inv in E as (x & s2 & ->%access_inv & [<- ->]%mret_inv). apply exact_bytes in Hv as Hb. subst b. split; [|done]. cbn. by rewrite lookup_insert_eq.
Qed.

(** C19: Once [enqueue] returned, the exact bytes of the envelope are still
    pending, or a DURABLE_COMPLETE receipt for it is on disk, or they were put in
    quarantine, whatever is asked later, whatever the transport answers, and
    wherever an access to the file system fails or the process dies. *)
Theorem enqueued_evidence_is_kept cs cs' t b d it s :
  enqueue sha256 validate_envelope_bytes dump_time read_receipt fromisoformat mtime fault b d (spool_run cs (no_files, t)).1 = (Ret it, s) →
  secured (it_id it) (ve_bytes (it_validated it)) (it_validated it) (spool_run cs' (s, (spool_run cs (no_files, t)).2)).1.
Proof.
  intros E. pose proof (spool_run_moves cs (no_files, t) no_files_ok) as [Hok _]. apply enqueue_held in E as Hheld.
  destruct (enqueue_runs b d (spool_run cs (no_files, t)).1) as [id [Hm _]]. rewrite E in Hm. destruct (Hm Hok) as [Hok' _].
  apply (spool_run_moves cs' (s, (spool_run cs (no_files, t)).2) Hok'); [apply Hheld|]. left. apply Hheld.
Qed.
End safety.

(** ** An envelope on its way

    The process dies in its first round; the transport is down, then accepts the
    envelope, reports it pending and at last complete; and the process dies again
    just after it removed the envelope. *)
Module Journey.
Definition noon : datetime := Datetime (63_840_000_000 * 1_000_000) (Some 0).
Definition validate (b : string) : outcome ValidatedEnvelope :=
  if b == "" then throw ValueError "empty" else Ret (mk_ValidatedEnvelope "bot" "day-1" 7%N "p" b "x" "e").
Definition acceptance : ConnectorReceipt := mk_ConnectorReceipt 1%N Accepted "bot" 7%N "day-1" "p" "e" noon.
Definition dump (d : datetime) : string := "noon".
Definition read (j : json) : option ConnectorReceipt := if py_eq (Some j) (receipt_dump dump acceptance) then Some acceptance else None.
Definition durable (s : ConnectorDurabilityState.t) : ConnectorDurabilityReceipt :=
  mk_ConnectorDurabilityReceipt s acceptance (Some 1) (Some "r") (Some "o") (Some "c") (Some "checkpoint") noon.

#[global] Instance answers : ConnectorTransport nat := {
  submit _ n := if bool_decide (n = 0%nat) then (Exc (Exn OSError "down"), 1%nat) else (Ret (mk_DeliveryResult ACCEPTED (Some acceptance) "" None), 2%nat);
  durability _ n := if bool_decide (n = 2%nat) then (Ret (mk_DurabilityDeliveryResult D_PENDING (Some (durable ConnectorDurabilityState.CHECKPOINTING)) "" None), 3%nat)
                    else (Ret (mk_DurabilityDeliveryResult D_COMPLETE (Some (durable ConnectorDurabilityState.DURABLE_COMPLETE)) "" None), 4%nat);
}.

Definition dies (n : nat) : option (bool * exn) := if mem n [4; 18]%nat then Some (true, Exn ProcessKilled "killed") else None.

Abbreviation run := (spool_run (λ _, "id") validate dump read (λ _, Some noon) (λ _, noon) (λ _ _, 0) dies).
Abbreviation put := (enqueue (λ _, "id") validate dump read (λ _, Some noon) (λ _, noon) dies "{}" noon).

Definition start : spool := (run [] (no_files, 0%nat)).1.
Definition enqueued : SpoolItem := mk_SpoolItem "id" (mk_ValidatedEnvelope "bot" "day-1" 7%N "p" "{}" "x" "e") (mk_SpoolState noon 0 None JNull None).
Definition queue : spool := (put start).2.
Definition rounds : list spool_request := [DeliverReady noon 10; DeliverReady noon 10; DeliverReady noon 10; DeliverReady noon 10; DeliverReady noon 10].
Definition finish : spool := (run rounds (queue, (run [] (no_files, 0%nat)).2)).1.

Lemma exact b v : validate b = Ret v → ve_bytes v = b.
Proof. unfold validate. case_bool_decide; [done|]. by intros [= <-]. Qed.

Lemma enqueue_returns : put start = (Ret enqueued, queue).
Proof. vm_compute. reflexivity. Qed.

Lemma removed : bool_decide (sp_envelopes finish !! "id" = None) && is_some (sp_receipts finish !! "id") = true.
Proof. vm_compute. reflexivity. Qed.
End Journey.

Lemma enqueued_evidence_is_kept_witness :
  bool_decide (sp_envelopes Journey.finish !! "id" = None) && is_some (sp_receipts Journey.finish !! "id") = true ∧
  secured (it_id Journey.enqueued) (ve_bytes (it_validated Journey.enqueued)) (it_validated Journey.enqueued) Journey.finish.
Proof.
  exact (conj Journey.removed
    (enqueued_evidence_is_kept (λ _, "id") Journey.validate Journey.dump Journey.read (λ _, Some Journey.noon) (λ _, Journey.noon) (λ _ _, 0) Journey.dies
       Journey.exact [] Journey.rounds 0%nat "{}" Journey.noon Journey.enqueued Journey.queue Journey.enqueue_returns)).
Defined.

(** ** Two texts of one identity, both rejected

    The second takes the first one's place in quarantine. *)
Module Rejected.
Definition noon : datetime := Journey.noon.
(** Every text belongs to one connector's key; its hash is the text. *)
Definition validate (b : string) : outcome ValidatedEnvelope := Ret (mk_ValidatedEnvelope "bot" "day-1" 7%N "p" b b b).

#[global] Instance rejects : ConnectorTransport unit := {
  submit _ u := (Ret (mk_DeliveryResult REJECTED None "contract" None), u);
  durability _ u := (Exc (Exn OSError "down"), u);
}.

Definition finish : spool :=
  (spool_run (λ _, "id") validate Journey.dump Journey.read (λ _, Some noon) (λ _, noon) (λ _ _, 0) (λ _, None)
     [Enqueue "first" noon; DeliverReady noon 10; Enqueue "second" noon; DeliverReady noon 10] (no_files, tt)).1.
End Rejected.

(** A text that was put in quarantine is gone after the next one of its identity
    is put there: neither [enqueue] nor [quarantine] looks at what is there. *)
Lemma quarantine_is_overwritten :
  bool_decide (sp_history Rejected.finish = [("id", "first"); ("id", "second")]) && bool_decide (sp_quarantined Rejected.finish !! "id" = Some "second")
  && bool_decide (map_to_list (sp_quarantined Rejected.finish) = [("id", "second")]) = true.
Proof. vm_compute. reflexivity. Qed.
