(* ===== verification/ConnectorDurability.v ===== *)
(** * ConnectorDurability: from a committed batch to a verified checkpoint

    Models connectors/durability.py over the durability methods of
    [PostgresConnectorRepository] (connectors/postgres.py) on the table
    integration.connector_durability: the request for a checkpoint that holds a
    committed batch, the reading of the coordinator's answers, and what is
    recorded of them.  The coordinator is any implementation of
    [VerifiedCheckpointCoordinator] that answers with JSON values.  The calls run
    one after the other; two that advance one batch at once are not interleaved. *)

From S2P Require Import Prelude Time Json Uuid ConnectorContracts.

Module State := ConnectorDurabilityState.
Module Checkpoint := ConnectorCheckpointState.

(** ** The table *)

(** A row, with the acceptance receipt it references. *)
Record durability_row := mk_durability_row {
  dy_batch : UUID; dy_acceptance : ConnectorReceipt; dy_state : State.t; dy_revision : option Z; dy_request : option string;
  dy_request_sha256 : option string; dy_operation : option string; dy_status : option json; dy_receipt_sha256 : option string;
  dy_checkpoint : option string; dy_updated_at : datetime;
}.

(** The CHECK constraints. *)
Definition durability_check (r : durability_row) : bool :=
  option_ok (Z.leb 1) (dy_revision r) && option_ok is_sha256 (dy_request r) && option_ok is_sha256 (dy_request_sha256 r)
  && option_ok is_sha256 (dy_receipt_sha256 r) && Bool.eqb (dy_state r == State.ACCEPTED) (negb (is_some (dy_revision r)))
  && Bool.eqb (checkpoint_started (dy_state r)) (is_some (dy_request r) && is_some (dy_request_sha256 r) && is_some (dy_operation r))
  && Bool.eqb (dy_state r == State.DURABLE_COMPLETE) (is_some (dy_receipt_sha256 r) && is_some (dy_checkpoint r)).

Definition repository : Type := list durability_row.

Definition find_row (batch : UUID) (rows : repository) : option durability_row := List.find (λ r, dy_batch r == batch) rows.

(** The UNIQUE columns: another row has the value. *)
Definition taken (column : durability_row → option string) (batch : UUID) (value : option string) (rows : repository) : bool :=
  is_some value && existsb (λ r, (dy_batch r != batch) && (column r == value)) rows.

(** [UPDATE integration.connector_durability SET f WHERE batch_id = ...] *)
Definition update_row (batch : UUID) (f : durability_row → durability_row) : M repository unit := λ rows,
  if forallb (λ r, (dy_batch r != batch) || (durability_check (f r) && negb (taken dy_request batch (dy_request (f r)) rows)
                                             && negb (taken dy_operation batch (dy_operation (f r)) rows))) rows
  then (Ret tt, map (λ r, if dy_batch r == batch then f r else r) rows)
  else (Exc (Exn IntegrityError "constraint failed"), rows).

(** [str(value)] of a column *)
Definition column_text (o : option string) : string := default "None" o.

Section durability.
Context (sha256 : string → string) (dump_time : datetime → string) (read_time : string → option datetime).

(** [exact_sha256] of both contracts *)
Definition request_exact_sha256 (r : ConnectorCheckpointRequest) : outcome string := t ← canonical_json_bytes (request_dump r); Ret (sha256 t).
Definition status_exact_sha256 (r : ConnectorCheckpointStatusReceipt) : outcome string := t ← canonical_json_bytes (status_dump dump_time r); Ret (sha256 t).

(** *** The repository *)

Definition receipt_of_row (r : durability_row) : outcome ConnectorDurabilityReceipt :=
  durability_receipt (mk_ConnectorDurabilityReceipt (dy_state r) (dy_acceptance r) (dy_revision r) (dy_request r) (dy_operation r) (dy_receipt_sha256 r)
                        (dy_checkpoint r) (dy_updated_at r)).

Definition get_durability_receipt (batch : UUID) : M repository (option ConnectorDurabilityReceipt) :=
  row ← gets (find_row batch);
  match row with Some r => c ← lift (receipt_of_row r); mret (Some c) | None => mret None end.

Definition found_receipt (batch : UUID) : M repository ConnectorDurabilityReceipt := c ← get_durability_receipt batch; assert_some c.

(** The row of a new batch, and the batch whose canonical commit is done: the
    statements of [accept] and [commit] on this table. *)
Definition insert_durability (acceptance : ConnectorReceipt) (now : datetime) : M repository unit := λ rows,
  if existsb (λ r, (dy_batch r == cr_batch acceptance) || (cr_id (dy_acceptance r) == cr_id acceptance)) rows
  then (Exc (Exn IntegrityError "constraint failed"), rows)
  else (Ret tt, (rows ++ [mk_durability_row (cr_batch acceptance) acceptance State.ACCEPTED None None None None None None None now])%list).

Definition set_committed (revision : Z) (now : datetime) (r : durability_row) : durability_row :=
  mk_durability_row (dy_batch r) (dy_acceptance r) State.CANONICAL_COMMITTED (Some revision) (dy_request r) (dy_request_sha256 r) (dy_operation r)
    (dy_status r) (dy_receipt_sha256 r) (dy_checkpoint r) now.

Definition mark_committed (batch : UUID) (revision : Z) (now : datetime) : M repository unit :=
  atomically (
    row ← gets (find_row batch);
    raise_if (negb (match row with Some r => dy_state r == State.ACCEPTED | None => false end)) RuntimeError
      "connector durability did not advance with canonical commit" ;;
    update_row batch (set_committed revision now)).

(** [ORDER BY updated_at, batch_id LIMIT ...] *)
Definition older (a b : durability_row) : bool :=
  let x := wall (dy_updated_at a) - default 0 (utcoffset (dy_updated_at a)) in
  let y := wall (dy_updated_at b) - default 0 (utcoffset (dy_updated_at b)) in
  (x <? y) || ((x =? y) && N.leb (dy_batch a) (dy_batch b)).

Definition pending_durability_batch_ids (limit : Z) : M repository (list UUID) :=
  raise_if (negb ((1 <=? limit) && (limit <=? 100))) ValueError "connector durability scan limit must be between 1 and 100" ;;
  rows ← get;
  mret (map dy_batch (firstn (Z.to_nat limit) (order_by older
    (List.filter (λ r, mem (dy_state r) [State.CANONICAL_COMMITTED; State.CHECKPOINT_REQUESTED; State.CHECKPOINTING]) rows)))).

Definition requested_state (s : Checkpoint.t) : State.t := if s == Checkpoint.RUNNING then State.CHECKPOINTING else State.CHECKPOINT_REQUESTED.

Definition set_request (request : ConnectorCheckpointRequest) (request_sha256 : string) (operation : ConnectorCheckpointStatusReceipt) (now : datetime)
    (r : durability_row) : durability_row :=
  mk_durability_row (dy_batch r) (dy_acceptance r) (requested_state (ks_state operation)) (dy_revision r) (Some (kr_id request)) (Some request_sha256)
    (Some (ks_operation operation)) (Some (status_dump dump_time operation)) (dy_receipt_sha256 r) (dy_checkpoint r) now.

(** [int(row[1])] *)
Definition revision_of (r : durability_row) : outcome Z :=
  match dy_revision r with Some n => Ret n | None => throw TypeError "int() argument must be a string or a number" end.

Definition record_checkpoint_request (batch : UUID) (request : ConnectorCheckpointRequest) (operation : ConnectorCheckpointStatusReceipt) (now : datetime) :
    M repository ConnectorDurabilityReceipt :=
  request_sha256 ← lift (request_exact_sha256 request);
  replayed ← atomically (
    row ← gets (find_row batch);
    match row with
    | None => raise LookupError "connector batch durability receipt was not found"
    | Some r =>
        if dy_state r != State.CANONICAL_COMMITTED then
          if (column_text (dy_request r) == kr_id request) && (column_text (dy_request_sha256 r) == request_sha256)
             && (column_text (dy_operation r) == ks_operation operation)
          then c ← found_receipt batch; mret (Some c)
          else raise ConnectorDurabilityConflict "checkpoint request conflicts with recorded connector durability state"
        else
          revision ← lift (revision_of r);
          raise_if (revision != kr_revision request) ConnectorDurabilityConflict "checkpoint request canonical revision differs from committed batch" ;;
          update_row batch (set_request request request_sha256 operation now) ;;
          mret None
    end);
  match replayed with Some c => mret c | None => found_receipt batch end.

Definition recorded_state (s : Checkpoint.t) : State.t :=
  match s with
  | Checkpoint.DURABLE_COMPLETE => State.DURABLE_COMPLETE
  | Checkpoint.FAILED | Checkpoint.FENCED | Checkpoint.ORPHANED => State.FAILED
  | Checkpoint.RUNNING => State.CHECKPOINTING
  | Checkpoint.REQUESTED => State.CHECKPOINT_REQUESTED
  end.

Definition set_status (status : ConnectorCheckpointStatusReceipt) (receipt_sha256 : option string) (now : datetime) (r : durability_row) : durability_row :=
  mk_durability_row (dy_batch r) (dy_acceptance r) (recorded_state (ks_state status)) (dy_revision r) (dy_request r) (dy_request_sha256 r)
    (dy_operation r) (Some (status_dump dump_time status)) receipt_sha256 (ks_checkpoint status) now.

Definition record_checkpoint_status (batch : UUID) (status : ConnectorCheckpointStatusReceipt) (now : datetime) : M repository ConnectorDurabilityReceipt :=
  terminal ← atomically (
    row ← gets (find_row batch);
    match row with
    | None => raise LookupError "connector batch durability receipt was not found"
    | Some r =>
        revision ← lift (revision_of r);
        raise_if ((revision != ks_revision status) || (column_text (dy_request r) != ks_request status) || (column_text (dy_operation r) != ks_operation status))
          ConnectorDurabilityConflict "checkpoint status differs from exact recorded request" ;;
        let exact := status_dump dump_time status in
        if mem (dy_state r) [State.DURABLE_COMPLETE; State.FAILED] then
          raise_if (negb (py_eq (dy_status r) exact)) ConnectorDurabilityConflict "terminal checkpoint receipt changed" ;;
          c ← found_receipt batch; mret (Some c)
        else
          receipt_sha256 ← (if ks_state status == Checkpoint.DURABLE_COMPLETE then h ← lift (status_exact_sha256 status); mret (Some h) else mret None);
          update_row batch (set_status status receipt_sha256 now) ;;
          mret None
    end);
  match terminal with Some c => mret c | None => found_receipt batch end.

(** *** The gateway *)

Definition OPERATION_PREFIX : string := "connector-checkpoint:".
Definition operation_id (request_id : string) : string := OPERATION_PREFIX +:+ request_id.

(** [_request_id] *)
Definition request_id_of (operation : string) : outcome string :=
  let request_id := removeprefix OPERATION_PREFIX operation in
  throw_if (negb (startswith OPERATION_PREFIX operation) || negb (is_sha256 request_id)) ConnectorDurabilityConflict "checkpoint operation identity is invalid" ;;
  Ret request_id.

Definition state_map : list (string * Checkpoint.t) :=
  [("REQUESTED", Checkpoint.REQUESTED); ("RUNNING", Checkpoint.RUNNING); ("CHECKPOINTING", Checkpoint.RUNNING); ("FAILED", Checkpoint.FAILED);
   ("FENCED", Checkpoint.FENCED); ("ORPHANED", Checkpoint.ORPHANED); ("DURABLE_COMPLETE", Checkpoint.DURABLE_COMPLETE)].

(** The evidence of a verified checkpoint: its id, manifest hash and time. *)
Definition verified_evidence (value : json) : option (string * string * string) :=
  match jget "checkpoint_id" value, jget "manifest_sha256" value, jget "verified_at" value with
  | Some (JStr id), Some (JStr manifest), Some (JStr verified_at) =>
      if (jget "checkpoint_status" value == Some (JStr "VERIFIED")) && (jget "current_checkpoint_id" value == Some (JStr id)) && (id != "")
      then Some (id, manifest, verified_at) else None
  | _, _, _ => None
  end.

(** [_receipt] *)
Definition gateway_receipt (value : json) (request_id operation : string) : outcome ConnectorCheckpointStatusReceipt :=
  match value with
  | JObj _ =>
      match jget "canonical_revision" value with
      | Some (JInt revision) =>
          throw_if ((jget "operation_id" value != Some (JStr operation)) || (jget "idempotency_key" value != Some (JStr request_id)))
            ConnectorDurabilityConflict "checkpoint coordinator receipt differs from the exact connector request" ;;
          match List.find (λ p, p.1 == py_str (default (JStr "") (jget "state" value))) state_map with
          | None => throw ConnectorCapabilityBlocked "CONNECTOR_CHECKPOINT_COORDINATOR_STATE_INVALID"
          | Some (_, state) =>
              if state == Checkpoint.DURABLE_COMPLETE then
                match verified_evidence value with
                | None => throw ConnectorCapabilityBlocked "CONNECTOR_CHECKPOINT_VERIFIED_RECEIPT_INCOMPLETE"
                | Some (id, manifest, verified_at) =>
                    match read_time verified_at with
                    | None => throw ValidationError "validation error"
                    | Some t => status_receipt (mk_ConnectorCheckpointStatusReceipt request_id operation state revision (Some id) (Some manifest) (Some t) None)
                    end
                end
              else if checkpoint_failed state then
                match jget "failure_code" value with
                | Some (JStr code) =>
                    throw_if (code == "") ConnectorCapabilityBlocked "CONNECTOR_CHECKPOINT_FAILURE_RECEIPT_INCOMPLETE" ;;
                    status_receipt (mk_ConnectorCheckpointStatusReceipt request_id operation state revision None None None (Some code))
                | _ => throw ConnectorCapabilityBlocked "CONNECTOR_CHECKPOINT_FAILURE_RECEIPT_INCOMPLETE"
                end
              else status_receipt (mk_ConnectorCheckpointStatusReceipt request_id operation state revision None None None None)
          end
      | _ => throw ConnectorDurabilityConflict "checkpoint coordinator receipt differs from the exact connector request"
      end
  | _ => throw ConnectorCapabilityBlocked "CONNECTOR_CHECKPOINT_COORDINATOR_RECEIPT_INVALID"
  end.
End durability.

Class VerifiedCheckpointCoordinator (C : Type) := {
  request_verified_checkpoint : string → Z → string → M C json;
  checkpoint_status : string → M C json;
}.

(** The repository, the coordinator, the number of readings of the database's
    clock, and every answer of the coordinator, under the operation it was asked
    about; the code keeps no such list. *)
Record connector_world (C : Type) := mk_world { wo_rows : repository; wo_coordinator : C; wo_reading : nat; wo_answers : list (string * json) }.
Arguments mk_world {C} _ _ _ _.
Arguments wo_rows {C} _.
Arguments wo_coordinator {C} _.
Arguments wo_reading {C} _.
Arguments wo_answers {C} _.

Section service.
Context {C : Type} `{VerifiedCheckpointCoordinator C}.
Context (sha256 : string → string) (dump_time : datetime → string) (read_time : string → option datetime) (clock : nat → datetime).
(** A gateway was configured. *)
Context (has_gateway : bool).

Definition on_rows {A} (m : M repository A) : M (connector_world C) A := λ w,
  let '(o, rows) := m (wo_rows w) in (o, mk_world rows (wo_coordinator w) (wo_reading w) (wo_answers w)).
(** [clock_timestamp()] of a statement *)
Definition at_clock {A} (m : datetime → M repository A) : M (connector_world C) A := λ w,
  let '(o, rows) := m (clock (wo_reading w)) (wo_rows w) in (o, mk_world rows (wo_coordinator w) (Datatypes.S (wo_reading w)) (wo_answers w)).
Definition ask (operation : string) (m : M C json) : M (connector_world C) json := λ w,
  match m (wo_coordinator w) with
  | (Ret value, c) => (Ret value, mk_world (wo_rows w) c (wo_reading w) (wo_answers w ++ [(operation, value)]))
  | (Exc e, c) => (Exc e, mk_world (wo_rows w) c (wo_reading w) (wo_answers w))
  end.

(** [CoordinatedConnectorCheckpointGateway] *)
Definition gateway_request (request : ConnectorCheckpointRequest) : M (connector_world C) ConnectorCheckpointStatusReceipt :=
  let operation := operation_id (kr_id request) in
  value ← ask operation (request_verified_checkpoint operation (kr_revision request) (kr_id request));
  lift (gateway_receipt read_time value (kr_id request) operation).

Definition gateway_status (operation : string) : M (connector_world C) ConnectorCheckpointStatusReceipt :=
  request_id ← lift (request_id_of operation);
  value ← ask operation (checkpoint_status operation);
  lift (gateway_receipt read_time value request_id operation).

Definition checkpoint_request_for (receipt : ConnectorDurabilityReceipt) : outcome ConnectorCheckpointRequest :=
  match cd_revision receipt with
  | None => throw ValueError "connector batch has not reached canonical commit"
  | Some revision =>
      let a := cd_acceptance receipt in
      let request id := mk_ConnectorCheckpointRequest id (cr_connector a) (cr_batch a) revision (cr_payload a) (cr_envelope a) in
      text ← canonical_json_bytes (JObj (request_identity (request "")));
      checkpoint_request (request (sha256 text))
  end.

(** [_validate_operation] *)
Definition validate_operation (request : ConnectorCheckpointRequest) (operation : ConnectorCheckpointStatusReceipt) : outcome unit :=
  throw_if ((ks_request operation != kr_id request) || (ks_revision operation != kr_revision request)) ConnectorDurabilityConflict
    "checkpoint receipt differs from exact connector checkpoint request" ;;
  throw_if ((ks_state operation == Checkpoint.DURABLE_COMPLETE) && negb (is_some (ks_checkpoint operation) && is_some (ks_manifest operation))) AssertionError "".

(** [ConnectorDurabilityService.advance] *)
Definition advance (batch : UUID) : M (connector_world C) ConnectorDurabilityReceipt :=
  current ← on_rows (get_durability_receipt batch);
  match current with
  | None => raise LookupError "connector batch durability receipt was not found"
  | Some current =>
      if mem (cd_state current) [State.ACCEPTED; State.DURABLE_COMPLETE; State.FAILED] then mret current
      else
        raise_if (negb has_gateway) ConnectorCapabilityBlocked "CONNECTOR_CHECKPOINT_GATEWAY_UNAVAILABLE" ;;
        current ← (if cd_state current == State.CANONICAL_COMMITTED then
                     request ← lift (checkpoint_request_for current);
                     operation ← gateway_request request;
                     lift (validate_operation request operation) ;;
                     at_clock (record_checkpoint_request sha256 dump_time batch request operation)
                   else mret current);
        operation ← assert_some (cd_operation current);
        observed ← gateway_status operation;
        expected ← lift (checkpoint_request_for current);
        lift (validate_operation expected observed) ;;
        at_clock (record_checkpoint_status sha256 dump_time batch observed)
  end.

Fixpoint advance_each (batches : list UUID) (completed : Z) : M (connector_world C) Z :=
  match batches with
  | [] => mret completed
  | b :: batches' =>
      receipt ← advance b;
      advance_each batches' (if cd_state receipt == State.DURABLE_COMPLETE then completed + 1 else completed)
  end.

(** [ConnectorDurabilitySupervisor.reconcile_once] *)
Definition reconcile_once (limit : Z) : M (connector_world C) Z :=
  raise_if (negb ((1 <=? limit) && (limit <=? 100))) ValueError "connector durability scan limit must be between 1 and 100" ;;
  batches ← on_rows (pending_durability_batch_ids limit);
  advance_each batches 0.
End service.
