(* ===== verification/ConnectorDurabilitySafety.v ===== *)
(** * ConnectorDurabilitySafety: durability is never inferred

    Executions of the durability service beside acceptances and canonical
    commits: what becomes of a batch's row, and what a DURABLE_COMPLETE row
    rests on. *)

From S2P Require Import Prelude Time Json Uuid ConnectorContracts ConnectorDurability.

(** The receipt of a row, before validation. *)
Definition fields_of_row (r : durability_row) : ConnectorDurabilityReceipt :=
  mk_ConnectorDurabilityReceipt (dy_state r) (dy_acceptance r) (dy_revision r) (dy_request r) (dy_operation r) (dy_receipt_sha256 r) (dy_checkpoint r)
    (dy_updated_at r).

Lemma find_row_update b batch f (rows : repository) : (∀ r, dy_batch (f r) = dy_batch r) →
  find_row b (map (λ r, if dy_batch r == batch then f r else r) rows) =
  (λ r, if dy_batch r == batch then f r else r) <$> find_row b rows.
Proof.
  intros Hf. unfold find_row. induction rows as [|r rows IH]; [done|]. cbn.
  replace (dy_batch (if dy_batch r == batch then f r else r)) with (dy_batch r) by (case_bool_decide; by rewrite ?Hf).
  destruct (dy_batch r == b) eqn:E; [done|exact IH].
Qed.

Lemma find_row_inv b rows r : find_row b rows = Some r → r ∈ rows ∧ dy_batch r = b.
Proof. unfold find_row. intros H. apply find_some in H as [H1 H2]. split; [by apply list_elem_of_In|by b2p]. Qed.

Section safety.
Context {C : Type} `{VerifiedCheckpointCoordinator C}.
Context (sha256 : string → string) (dump_time : datetime → string) (read_time : string → option datetime) (clock : nat → datetime) (has_gateway : bool).

Abbreviation request_for r := (checkpoint_request_for sha256 (fields_of_row r)).

(** The coordinator said, about the checkpoint requested for exactly this row,
    that it is VERIFIED and the current one. *)
Definition verified (answers : list (string * json)) (r : durability_row) : Prop := ∃ request value id,
  request_for r = Ret request ∧ dy_request r = Some (kr_id request) ∧ dy_operation r = Some (operation_id (kr_id request)) ∧
  (operation_id (kr_id request), value) ∈ answers ∧ jget "idempotency_key" value = Some (JStr (kr_id request)) ∧
  jget "canonical_revision" value = Some (JInt (kr_revision request)) ∧ jget "checkpoint_status" value = Some (JStr "VERIFIED") ∧
  jget "current_checkpoint_id" value = Some (JStr id) ∧ dy_checkpoint r = Some id.

(** What may become of a row. *)
Inductive row_step (answers : list (string * json)) (r : durability_row) : durability_row → Prop :=
| row_committed revision now : dy_state r = State.ACCEPTED → row_step answers r (set_committed revision now r)
| row_requested request h operation now : dy_state r = State.CANONICAL_COMMITTED → request_for r = Ret request →
    row_step answers r (set_request dump_time request h operation now r)
| row_recorded status h now : dy_state r ∈ [State.CHECKPOINT_REQUESTED; State.CHECKPOINTING] →
    (ks_state status = Checkpoint.DURABLE_COMPLETE → verified answers (set_status dump_time status h now r)) →
    row_step answers r (set_status dump_time status h now r).

Definition checked (rows : repository) : Prop := ∀ b r, find_row b rows = Some r → durability_check r = true.

(** Every row goes through such steps, and new rows start as ACCEPTED. *)
Definition evolves (answers : list (string * json)) (rows rows' : repository) : Prop :=
  (∀ b r, find_row b rows = Some r → ∃ r', find_row b rows' = Some r' ∧ rtc (row_step answers) r r') ∧
  (∀ b r', find_row b rows = None → find_row b rows' = Some r' → ∃ r, dy_state r = State.ACCEPTED ∧ rtc (row_step answers) r r').

Lemma verified_mono answers answers' r : answers ⊆ answers' → verified answers r → verified answers' r.
Proof. intros Hsub (q & value & id & ? & ? & ? & Hin & ?). exists q, value, id. split_and!; try tauto. by apply Hsub. Qed.

Lemma row_step_mono answers answers' r r' : answers ⊆ answers' → row_step answers r r' → row_step answers' r r'.
Proof. intros Hsub []; [by constructor|by constructor|]. constructor; [done|]. intros. by eapply verified_mono; [|auto]. Qed.

Lemma row_steps_mono answers answers' r r' : answers ⊆ answers' → rtc (row_step answers) r r' → rtc (row_step answers') r r'.
Proof. intros Hsub. apply rtc_subrel. intros. by eapply row_step_mono. Qed.

Lemma evolves_refl answers rows : evolves answers rows rows.
Proof. split; [intros b r Hr; exists r; split; [done|apply rtc_refl]|congruence]. Qed.

Lemma evolves_trans answers rows1 rows2 rows3 : evolves answers rows1 rows2 → evolves answers rows2 rows3 → evolves answers rows1 rows3.
Proof.
  intros [H1 N1] [H2 N2]. split.
  - intros b r Hr. destruct (H1 b r Hr) as (r2 & Hr2 & ?). destruct (H2 b r2 Hr2) as (r3 & ? & ?). exists r3. split; [done|by etrans].
  - intros b r3 Hn Hr3. destruct (find_row b rows2) as [r2|] eqn:E; [|by eapply N2]. destruct (N1 b r2 Hn E) as (r & Ha & ?).
    destruct (H2 b r2 E) as (r3' & ? & ?). simplify_eq. exists r. split; [done|by etrans].
Qed.

Lemma evolves_mono answers answers' rows rows' : answers ⊆ answers' → evolves answers rows rows' → evolves answers' rows rows'.
Proof.
  intros Hsub [H1 N1]. split.
  - intros b r Hr. destruct (H1 b r Hr) as (r' & ? & ?). exists r'. split; [done|by eapply row_steps_mono].
  - intros b r' Hn Hr. destruct (N1 b r' Hn Hr) as (r & ? & ?). exists r. split; [done|by eapply row_steps_mono].
Qed.

(** One update of the row of a batch. *)
Lemma update_row_inv batch f rows o rows' : (∀ r, dy_batch (f r) = dy_batch r) → update_row batch f rows = (o, rows') →
  rows' = rows ∨ (∀ r, find_row batch rows = Some r → durability_check (f r) = true ∧ find_row batch rows' = Some (f r)) ∧
                 (∀ b, b ≠ batch ∨ find_row batch rows = None → find_row b rows' = find_row b rows).
Proof.
  intros Hf. unfold update_row. destruct (forallb _ _) eqn:E; intros [= _ <-]; [|by left]. right. rewrite forallb_forall in E. split.
  - intros r Hr. rewrite find_row_update, Hr by done. cbn. apply find_row_inv in Hr as [Hin%list_elem_of_In Hb]. specialize (E r Hin). b2p.
    rewrite bool_decide_eq_true_2 by done. split; [|done]. destruct E as [E|[[E _] _]]; [done|exact E].
  - intros b Hb. rewrite find_row_update by done. destruct (find_row b rows) as [r|] eqn:Hr; [|done]. cbn. apply find_row_inv in Hr as Hrb.
    rewrite bool_decide_eq_false_2; [done|]. intros Eb. destruct Hrb as [_ Hrb]. destruct Hb as [Hb|Hb]; [congruence|]. rewrite <-Eb, Hrb in Hb. congruence.
Qed.

Lemma update_evolves answers batch f rows o rows' : (∀ r, dy_batch (f r) = dy_batch r) →
  (∀ r, find_row batch rows = Some r → durability_check (f r) = true → row_step answers r (f r)) →
  checked rows → update_row batch f rows = (o, rows') → checked rows' ∧ evolves answers rows rows'.
Proof.
  intros Hf Hstep Hc E. destruct (update_row_inv _ _ _ _ _ Hf E) as [->|[Hu Ho]]; [split; [done|apply evolves_refl]|]. split; [|split].
  - intros b r Hr. destruct (decide (b = batch)) as [->|Hb]; [|apply (Hc b); by rewrite <-Ho; [|left]].
    destruct (find_row batch rows) as [r0|] eqn:E0; [destruct (Hu r0 eq_refl) as [? ?]; congruence|]. rewrite Ho in Hr by auto. congruence.
  - intros b r Hr. destruct (decide (b = batch)) as [->|Hb].
    + destruct (Hu r Hr) as [? ?]. exists (f r). split; [done|]. apply rtc_once. auto.
    + exists r. split; [by rewrite Ho by auto|apply rtc_refl].
  - intros b r' Hn Hr'. exfalso. destruct (decide (b = batch)) as [->|Hb]; rewrite Ho in Hr' by auto; congruence.
Qed.
(** ** The methods of the repository *)

Lemma get_receipt_reads b rows : (get_durability_receipt b rows).2 = rows.
Proof. unfold get_durability_receipt. py_cbn. destruct (find_row b rows) as [r|]; [|done]. by destruct (receipt_of_row r). Qed.

Lemma found_receipt_reads b rows : (found_receipt b rows).2 = rows.
Proof.
  unfold found_receipt. pose proof (get_receipt_reads b rows) as E. unfold mbind, M_bind. destruct (get_durability_receipt b rows) as [[[c|]|e] rows']; exact E.
Qed.

(** A receipt that was read has the fields of its row. *)
Lemma receipt_of_row_inv r c : receipt_of_row r = Ret c → c = fields_of_row r.
Proof. unfold receipt_of_row, durability_receipt. fold (fields_of_row r). py_cbn. repeat case_match; congruence. Qed.

(** What the validator of receipts says of a row. *)
Definition readable_row (r : durability_row) : Prop := receipt_of_row r = Ret (fields_of_row r).

Lemma readable_started r : readable_row r → checkpoint_started (dy_state r) = is_some (dy_request r) && is_some (dy_operation r).
Proof.
  unfold readable_row, receipt_of_row, durability_receipt. py_cbn. intros E. apply eqb_prop. cbn in E. destruct (Bool.eqb (checkpoint_started _) _); [done|].
  exfalso. repeat case_match; simplify_eq/=.
Qed.

Lemma get_receipt_inv b rows c rows' : get_durability_receipt b rows = (Ret (Some c), rows') →
  rows' = rows ∧ ∃ r, find_row b rows = Some r ∧ c = fields_of_row r ∧ readable_row r.
Proof.
  intros E. split; [by rewrite <-(get_receipt_reads b rows), E|]. unfold get_durability_receipt in E. apply bind_ret_inv in E as (o & rows1 & [-> ->]%gets_inv & E).
  destruct (find_row b rows) as [r|]; [|done]. apply bind_ret_inv in E as (c' & rows1 & [Hc ->]%lift_inv & [[= ->] ->]%mret_inv). exists r.
  apply receipt_of_row_inv in Hc as Ec. by subst.
Qed.

Lemma found_receipt_inv b rows c rows' : found_receipt b rows = (Ret c, rows') →
  rows' = rows ∧ ∃ r, find_row b rows = Some r ∧ c = fields_of_row r ∧ readable_row r.
Proof.
  unfold found_receipt. intros ([c'|] & rows1 & E & E')%bind_ret_inv; [|done]. apply mret_inv in E' as [-> ->]. by apply get_receipt_inv.
Qed.

(** [found_receipt] after a transaction that answers with a receipt or not. *)
Lemma answered_state (m : M repository (option ConnectorDurabilityReceipt)) b rows :
  ((o ← m; match o with Some c => mret c | None => found_receipt b end) rows).2 = (m rows).2.
Proof.
  unfold mbind, M_bind. destruct (m rows) as [[[c|]|e] rows']; [done| |done]. apply found_receipt_reads.
Qed.

Lemma lifted_state {A B} (o : outcome A) (k : A → M repository B) rows : (mbind k (lift o) rows).2 = match o with Ret a => (k a rows).2 | Exc _ => rows end.
Proof. by destruct o. Qed.

Lemma record_request_effect batch request operation now rows :
  let rows' := (record_checkpoint_request sha256 dump_time batch request operation now rows).2 in
  rows' = rows ∨ ∃ r h, find_row batch rows = Some r ∧ dy_state r = State.CANONICAL_COMMITTED ∧
    update_row batch (set_request dump_time request h operation now) rows = (Ret tt, rows').
Proof.
  cbv zeta. unfold record_checkpoint_request. rewrite lifted_state. destruct (request_exact_sha256 sha256 request) as [h|e]; [|by left]. rewrite answered_state.
  match goal with |- context[atomically ?m rows] => set (body := m) end. destruct (body rows) as [[o|e] rows'] eqn:E; unfold atomically; rewrite E; cbn [snd]; [|by left].
  subst body. apply bind_ret_inv in E as (row & rows1 & [-> ->]%gets_inv & E). destruct (find_row batch rows) as [r|] eqn:Hr; [|done].
  destruct (dy_state r != State.CANONICAL_COMMITTED) eqn:Hs.
  - destruct (_ && _ && _); [|done]. left. apply bind_ret_inv in E as (c & rows1 & [-> _]%found_receipt_inv & [_ ->]%mret_inv). done.
  - right. apply bind_ret_inv in E as (n & rows1 & [_ ->]%lift_inv & E). apply bind_ret_inv in E as (u & rows1 & [_ ->]%raise_if_inv & E).
    apply bind_ret_inv in E as ([] & rows1 & E & [_ ->]%mret_inv). exists r, h. b2p. done.
Qed.

Lemma record_status_effect batch status now rows :
  let rows' := (record_checkpoint_status sha256 dump_time batch status now rows).2 in
  rows' = rows ∨ ∃ r h, find_row batch rows = Some r ∧ dy_revision r = Some (ks_revision status) ∧ column_text (dy_request r) = ks_request status ∧
    column_text (dy_operation r) = ks_operation status ∧ dy_state r ∉ [State.DURABLE_COMPLETE; State.FAILED] ∧
    update_row batch (set_status dump_time status h now) rows = (Ret tt, rows').
Proof.
  cbv zeta. unfold record_checkpoint_status. rewrite answered_state.
  match goal with |- context[atomically ?m rows] => set (body := m) end. destruct (body rows) as [[o|e] rows'] eqn:E; unfold atomically; rewrite E; cbn [snd]; [|by left].
  subst body. apply bind_ret_inv in E as (row & rows1 & [-> ->]%gets_inv & E). destruct (find_row batch rows) as [r|] eqn:Hr; [|done].
  apply bind_ret_inv in E as (n & rows1 & [Hn ->]%lift_inv & E). apply bind_ret_inv in E as (u & rows1 & [Hm ->]%raise_if_inv & E). cbv zeta in E.
  destruct (mem (dy_state r) _) eqn:Hs.
  - left. apply bind_ret_inv in E as (u' & rows1 & [_ ->]%raise_if_inv & E). apply bind_ret_inv in E as (c & rows1 & [-> _]%found_receipt_inv & [_ ->]%mret_inv). done.
  - right. apply bind_ret_inv in E as (h & rows1 & Hh & E).
    assert (rows1 = rows) as -> by (destruct (ks_state status == _); [apply bind_ret_inv in Hh as (x & rows2 & [_ ->]%lift_inv & [_ ->]%mret_inv)|apply mret_inv in Hh as [_ ->]]; done).
    apply bind_ret_inv in E as ([] & rows2 & E & [_ ->]%mret_inv). exists r, h. apply mem_false in Hs. b2p. destruct Hm as [[H1 H2] H3].
    unfold revision_of in Hn. destruct (dy_revision r); [|done]. injection Hn as ->. split_and!; try done. congruence.
Qed.

(** A recorded receipt is that of the batch's row. *)
Lemma answered_inv (m : M repository (option ConnectorDurabilityReceipt)) b rows c rows' :
  (∀ c rows1, m rows = (Ret (Some c), rows1) → found_receipt b rows = (Ret c, rows1)) →
  (o ← m; match o with Some c => mret c | None => found_receipt b end) rows = (Ret c, rows') →
  ∃ r, find_row b rows' = Some r ∧ c = fields_of_row r ∧ readable_row r.
Proof.
  intros Hm ([c'|] & rows1 & E1 & E2)%bind_ret_inv.
  - apply mret_inv in E2 as [<- ->]. by apply Hm, found_receipt_inv in E1 as [-> ?].
  - by apply found_receipt_inv in E2 as [-> ?].
Qed.

Lemma record_request_answer batch request operation now rows c rows' :
  record_checkpoint_request sha256 dump_time batch request operation now rows = (Ret c, rows') →
  ∃ r, find_row batch rows' = Some r ∧ c = fields_of_row r ∧ readable_row r.
Proof.
  unfold record_checkpoint_request. intros (h & rows1 & [_ ->]%lift_inv & E)%bind_ret_inv. apply answered_inv in E; [exact E|]. clear E. intros c' rows2 E.
  unfold atomically in E. match type of E with context[match ?m rows with _ => _ end] => destruct (m rows) as [[o|e] rows3] eqn:Eb end; [|done].
  injection E as -> ->. apply bind_ret_inv in Eb as (row & rows1 & [-> ->]%gets_inv & E). destruct (find_row batch rows) as [r|]; [|done].
  destruct (dy_state r != State.CANONICAL_COMMITTED).
  - destruct (_ && _ && _); [|done]. apply bind_ret_inv in E as (c2 & rows1 & Hc & [[= ->] ->]%mret_inv). done.
  - apply bind_ret_inv in E as (n & rows1 & [_ ->]%lift_inv & E). apply bind_ret_inv in E as (u & rows1 & [_ ->]%raise_if_inv & E).
    by apply bind_ret_inv in E as (u' & rows1 & _ & [E _]%mret_inv).
Qed.

(** ** The answers of the coordinator *)

Lemma request_id_inv operation q : request_id_of operation = Ret q → operation = operation_id q.
Proof.
  unfold request_id_of, operation_id. intros (u & Hb & [= <-])%obind_inv. apply throw_if_inv in Hb. b2p. destruct Hb as [Hb _]. by apply startswith_split.
Qed.

Lemma status_receipt_inv r r' : status_receipt r = Ret r' → r' = r.
Proof. unfold status_receipt. py_cbn. repeat case_match; congruence. Qed.

Lemma gateway_receipt_inv value q operation status : gateway_receipt read_time value q operation = Ret status →
  ks_request status = q ∧ ks_operation status = operation ∧ jget "idempotency_key" value = Some (JStr q) ∧
  jget "canonical_revision" value = Some (JInt (ks_revision status)) ∧
  (ks_state status = Checkpoint.DURABLE_COMPLETE → ∃ id, jget "checkpoint_status" value = Some (JStr "VERIFIED") ∧
     jget "current_checkpoint_id" value = Some (JStr id) ∧ ks_checkpoint status = Some id).
Proof.
  unfold gateway_receipt. destruct value as [| | | | |kvs]; try done. set (value := JObj kvs).
  destruct (jget "canonical_revision" value) as [[| |revision| | |]|]; try done. intros (u & Hb%throw_if_inv & E)%obind_inv. b2p. destruct Hb as [Hop Hk].
  destruct (List.find _ state_map) as [[text state]|]; [|done]. destruct (state == Checkpoint.DURABLE_COMPLETE) eqn:Hs.
  - destruct (verified_evidence value) as [[[id manifest] at_]|] eqn:Hv; [|done]. destruct (read_time at_) as [t|]; [|done]. apply status_receipt_inv in E as ->.
    split_and!; try done. intros _. exists id. unfold verified_evidence in Hv. repeat case_match; simplify_eq. b2p. naive_solver.
  - assert (state ≠ Checkpoint.DURABLE_COMPLETE) as Hne by (by intros ->).
    destruct (checkpoint_failed state); [|apply status_receipt_inv in E as ->; by split_and!].
    destruct (jget "failure_code" value) as [[| | |code| |]|]; try done. apply obind_inv in E as (u' & _ & ->%status_receipt_inv). by split_and!.
Qed.

Lemma validate_operation_inv request operation u : validate_operation request operation = Ret u →
  ks_request operation = kr_id request ∧ ks_revision operation = kr_revision request.
Proof. unfold validate_operation. intros (v & Hb%throw_if_inv & _)%obind_inv. by b2p. Qed.

(** ** The service *)

(** What a call may do: the answers are only added to, and every row goes its
    way. *)
Definition progress (w w' : connector_world C) : Prop := wo_answers w ⊆ wo_answers w' ∧
  (checked (wo_rows w) → checked (wo_rows w') ∧ evolves (wo_answers w') (wo_rows w) (wo_rows w')).

Lemma progress_trans w1 w2 w3 : progress w1 w2 → progress w2 w3 → progress w1 w3.
Proof.
  intros [A1 R1] [A2 R2]. split; [set_solver|]. intros Hc. destruct (R1 Hc) as [Hc2 E1]. destruct (R2 Hc2) as [Hc3 E2]. split; [done|].
  eapply evolves_trans; [|done]. by eapply evolves_mono.
Qed.

Lemma progress_same_rows w w' : wo_answers w ⊆ wo_answers w' → wo_rows w' = wo_rows w → progress w w'.
Proof. intros Ha E. split; [done|]. rewrite E. intros Hc. split; [done|apply evolves_refl]. Qed.

Lemma progress_refl w : progress w w.
Proof. by apply progress_same_rows. Qed.

Abbreviation makes_progress m w := (runs progress m w).

Lemma progress_bind {A B} (m : M (connector_world C) A) (k : A → M (connector_world C) B) w :
  makes_progress m w → (∀ a w1, m w = (Ret a, w1) → makes_progress (k a) w1) → makes_progress (mbind k m) w.
Proof. apply runs_bind. exact progress_trans. Qed.

Lemma progress_ret {A} (a : A) (w : connector_world C) : makes_progress (mret a) w.
Proof. apply progress_refl. Qed.
Lemma progress_lift {A} (o : outcome A) (w : connector_world C) : makes_progress (lift o) w.
Proof. apply progress_refl. Qed.
Lemma progress_raise_if b c msg (w : connector_world C) : makes_progress (raise_if b c msg) w.
Proof. destruct b; apply progress_refl. Qed.

Lemma progress_on_rows {A} (m : M repository A) (w : connector_world C) :
  (checked (wo_rows w) → checked (m (wo_rows w)).2 ∧ evolves (wo_answers w) (wo_rows w) (m (wo_rows w)).2) → makes_progress (on_rows m) w.
Proof. intros Hm. unfold runs, progress, on_rows. by destruct (m (wo_rows w)). Qed.

Lemma progress_at_clock {A} (m : datetime → M repository A) (w : connector_world C) :
  (∀ now, checked (wo_rows w) → checked (m now (wo_rows w)).2 ∧ evolves (wo_answers w) (wo_rows w) (m now (wo_rows w)).2) → makes_progress (at_clock clock m) w.
Proof. intros Hm. specialize (Hm (clock (wo_reading w))). unfold runs, progress, at_clock. by destruct (m _ (wo_rows w)). Qed.

Lemma at_clock_inv {A} (m : datetime → M repository A) (w : connector_world C) a w' : at_clock clock m w = (Ret a, w') →
  wo_answers w' = wo_answers w ∧ ∃ now, m now (wo_rows w) = (Ret a, wo_rows w').
Proof. unfold at_clock. destruct (m _ (wo_rows w)) as [o rows] eqn:E. intros [= -> <-]. split; [done|]. by exists (clock (wo_reading w)). Qed.

Lemma on_rows_inv {A} (m : M repository A) (w : connector_world C) a w' : on_rows m w = (Ret a, w') → wo_answers w' = wo_answers w ∧ m (wo_rows w) = (Ret a, wo_rows w').
Proof. unfold on_rows. destruct (m (wo_rows w)) as [o rows] eqn:E. by intros [= -> <-]. Qed.

Lemma ask_effect operation m (w : connector_world C) : wo_rows (ask operation m w).2 = wo_rows w ∧ wo_answers w ⊆ wo_answers (ask operation m w).2.
Proof. unfold ask. destruct (m _) as [[v|e] c]; [|done]. split; [done|]. cbn. set_solver. Qed.

Lemma ask_inv operation m (w : connector_world C) v w' : ask operation m w = (Ret v, w') → wo_rows w' = wo_rows w ∧ (operation, v) ∈ wo_answers w'.
Proof. unfold ask. destruct (m _) as [[v'|e] c]; [|done]. intros [= -> <-]. split; [done|]. cbn. set_solver. Qed.

Lemma progress_ask operation m (w : connector_world C) : makes_progress (ask operation m) w.
Proof. destruct (ask_effect operation m w). by apply progress_same_rows. Qed.

Lemma gateway_request_rows request w : makes_progress (gateway_request read_time request) w.
Proof. unfold gateway_request. apply progress_bind; [apply progress_ask|]. intros. apply progress_lift. Qed.

Lemma gateway_request_inv request w operation w' : gateway_request read_time request w = (Ret operation, w') → wo_rows w' = wo_rows w.
Proof. unfold gateway_request. by intros (v & w1 & [E _]%ask_inv & [_ ->]%lift_inv)%bind_ret_inv. Qed.

Lemma gateway_status_rows operation w : makes_progress (gateway_status read_time operation) w.
Proof. unfold gateway_status. apply progress_bind; [apply progress_lift|]. intros. apply progress_bind; [apply progress_ask|]. intros. apply progress_lift. Qed.

Lemma gateway_status_inv operation w status w' : gateway_status read_time operation w = (Ret status, w') →
  wo_rows w' = wo_rows w ∧ ∃ q value, operation = operation_id q ∧ (operation, value) ∈ wo_answers w' ∧ gateway_receipt read_time value q operation = Ret status.
Proof.
  unfold gateway_status. intros (q & w1 & [Hq ->]%lift_inv & E)%bind_ret_inv. apply bind_ret_inv in E as (v & w1 & [E1 E2]%ask_inv & [Hv ->]%lift_inv).
  split; [done|]. exists q, v. split_and!; [by apply request_id_inv|done|done].
Qed.

(** Recording a request for the batch's row. *)
Lemma request_step answers batch request operation now r rows : find_row batch rows = Some r → request_for r = Ret request →
  let rows' := (record_checkpoint_request sha256 dump_time batch request operation now rows).2 in
  checked rows → checked rows' ∧ evolves answers rows rows'.
Proof.
  intros Hr Hq rows' Hc. destruct (record_request_effect batch request operation now rows) as [E|(r' & h & Hr' & Hs & E)]; fold rows' in E.
  - rewrite E. split; [done|apply evolves_refl].
  - apply (update_evolves _ _ _ _ _ _) with (4 := E); [done| |exact Hc]. intros r1 Hr1 _. simplify_eq. by constructor.
Qed.

Lemma checked_started r : durability_check r = true →
  checkpoint_started (dy_state r) = is_some (dy_request r) && is_some (dy_request_sha256 r) && is_some (dy_operation r).
Proof. unfold durability_check. rewrite !andb_true_iff. intros [[_ H1%eqb_prop] _]. exact H1. Qed.

Lemma recorded_started s : checkpoint_started (recorded_state s) = true.
Proof. by destruct s. Qed.

(** Recording a status that was observed for the batch's row. *)
Lemma status_step answers batch status value q operation request now r rows : find_row batch rows = Some r → request_for r = Ret request →
  ks_request status = kr_id request → ks_revision status = kr_revision request → operation = operation_id q → (operation, value) ∈ answers →
  gateway_receipt read_time value q operation = Ret status →
  let rows' := (record_checkpoint_status sha256 dump_time batch status now rows).2 in
  checked rows → checked rows' ∧ evolves answers rows rows'.
Proof.
  intros Hr Hq Hid Hrev Hop Hin Hv rows' Hc. destruct (record_status_effect batch status now rows) as [E|(r' & h & Hr' & Hn & Hrq & Hro & Hs & E)]; fold rows' in E.
  - rewrite E. split; [done|apply evolves_refl].
  - assert (r' = r) as -> by congruence. apply gateway_receipt_inv in Hv as (V1 & V2 & V3 & V4 & V5).
    apply (update_evolves _ _ _ _ _ _) with (4 := E); [done| |exact Hc]. intros r1 Hr1 Hck. assert (r1 = r) as -> by congruence.
    apply checked_started in Hck. cbn in Hck. rewrite recorded_started in Hck. symmetry in Hck. rewrite !andb_true_iff in Hck. destruct Hck as [[H1 H2] H3].
    destruct (dy_request r) as [rq|] eqn:Erq; [|done]. destruct (dy_operation r) as [ro|] eqn:Ero; [|done]. cbn in Hrq, Hro. subst rq ro.
    constructor.
    + specialize (Hc _ _ Hr). apply checked_started in Hc. rewrite Erq, Ero in Hc. destruct (dy_request_sha256 r); [|done]. cbn in Hc.
      destruct (dy_state r); try discriminate Hc; set_solver.
    + intros Hd. destruct (V5 Hd) as (id & W1 & W2 & W3). exists request, value, id. cbn. rewrite Erq, Ero. split_and!; try congruence; try exact Hq.
Qed.

Abbreviation advance_ := (advance sha256 dump_time read_time clock has_gateway).
Abbreviation advance_each_ := (advance_each sha256 dump_time read_time clock has_gateway).
Abbreviation reconcile_once_ := (reconcile_once sha256 dump_time read_time clock has_gateway).

(** The part of [advance] from the observation of the operation on. *)
Lemma observe_progress batch r w : find_row batch (wo_rows w) = Some r →
  makes_progress (operation ← assert_some (cd_operation (fields_of_row r)); observed ← gateway_status read_time operation;
                  expected ← lift (request_for r); lift (validate_operation expected observed) ;;
                  at_clock clock (record_checkpoint_status sha256 dump_time batch observed)) w.
Proof.
  intros Hr. apply progress_bind; [by destruct (cd_operation _); apply progress_refl|]. intros operation w0 [_ ->]%assert_some_inv.
  apply progress_bind; [apply gateway_status_rows|]. intros observed w1 (Ew & q & value & Hop & Hin & Hv)%gateway_status_inv. rewrite <-Ew in Hr.
  apply progress_bind; [apply progress_lift|]. intros expected w0 [Hq ->]%lift_inv.
  apply progress_bind; [apply progress_lift|]. intros u w0 [[Hid Hrev]%validate_operation_inv ->]%lift_inv.
  apply progress_at_clock. intros now. by apply (status_step _ _ _ value q operation expected now r).
Qed.

Lemma advance_progress batch w : makes_progress (advance_ batch) w.
Proof.
  unfold advance. apply progress_bind.
  { apply progress_on_rows. rewrite get_receipt_reads. intros Hc. split; [done|apply evolves_refl]. }
  intros [current|] w1 [_ E]%on_rows_inv; [|apply progress_refl]. apply get_receipt_inv in E as (Ew & r & Hr & -> & _). rewrite <-Ew in Hr. clear Ew w.
  destruct (mem _ _); [apply progress_refl|]. apply progress_bind; [apply progress_raise_if|]. intros u w0 [_ ->]%raise_if_inv.
  apply progress_bind.
  - destruct (_ == State.CANONICAL_COMMITTED); [|apply progress_refl]. apply progress_bind; [apply progress_lift|]. intros request w0 [Hq ->]%lift_inv.
    apply progress_bind; [apply gateway_request_rows|]. intros operation w2 E%gateway_request_inv. rewrite <-E in Hr.
    apply progress_bind; [apply progress_lift|]. intros u' w0 [_ ->]%lift_inv. apply progress_at_clock. intros now. by apply (request_step _ _ _ _ _ r).
  - intros current w2 E. assert (∃ r', find_row batch (wo_rows w2) = Some r' ∧ current = fields_of_row r') as (r' & Hr' & ->).
    { destruct (_ == State.CANONICAL_COMMITTED); [|by apply mret_inv in E as [<- ->]; eauto]. apply bind_ret_inv in E as (request & w0 & [_ ->]%lift_inv & E).
      apply bind_ret_inv in E as (operation & w3 & _ & E). apply bind_ret_inv in E as (u' & w0 & [_ ->]%lift_inv & E).
      apply at_clock_inv in E as (_ & now & E). apply record_request_answer in E as (r' & ? & ? & _). eauto. }
    by apply observe_progress.
Qed.

Lemma advance_each_progress batches n w : makes_progress (advance_each_ batches n) w.
Proof.
  revert n w. induction batches as [|b batches IH]; intros n w; [apply progress_refl|]. cbn. apply progress_bind; [apply advance_progress|]. intros. apply IH.
Qed.

Lemma pending_ids_reads limit rows : (pending_durability_batch_ids limit rows).2 = rows.
Proof. unfold pending_durability_batch_ids. py_cbn. by destruct (negb _). Qed.

Lemma reconcile_progress limit w : makes_progress (reconcile_once_ limit) w.
Proof.
  unfold reconcile_once. apply progress_bind; [apply progress_raise_if|]. intros u w0 [_ ->]%raise_if_inv. apply progress_bind; [|intros; apply advance_each_progress].
  apply progress_on_rows. rewrite pending_ids_reads. intros Hc. split; [done|apply evolves_refl].
Qed.

(** ** Acceptances and canonical commits *)

Lemma find_row_snoc b rows r : find_row b (rows ++ [r])%list = match find_row b rows with Some x => Some x | None => if dy_batch r == b then Some r else None end.
Proof. unfold find_row. induction rows as [|x rows IH]; [done|]. cbn. by destruct (dy_batch x == b). Qed.

Lemma insert_step answers acceptance now rows : checked rows →
  checked (insert_durability acceptance now rows).2 ∧ evolves answers rows (insert_durability acceptance now rows).2.
Proof.
  intros Hc. unfold insert_durability. destruct (existsb _ rows) eqn:E; cbn; [split; [done|apply evolves_refl]|].
  set (r0 := mk_durability_row _ _ _ _ _ _ _ _ _ _ _). split; [|split].
  - intros b r. rewrite find_row_snoc. destruct (find_row b rows) eqn:Hr; [intros [= <-]; by eapply Hc|]. destruct (_ == b); [|done]. by intros [= <-].
  - intros b r Hr. exists r. rewrite find_row_snoc, Hr. split; [done|apply rtc_refl].
  - intros b r Hn. rewrite find_row_snoc, Hn. destruct (_ == b); [|done]. intros [= <-]. exists r0. split; [done|apply rtc_refl].
Qed.

Lemma commit_step answers batch revision now rows : checked rows →
  checked (mark_committed batch revision now rows).2 ∧ evolves answers rows (mark_committed batch revision now rows).2.
Proof.
  intros Hc. destruct (mark_committed batch revision now rows) as [[u|e] rows'] eqn:E; cbn [snd].
  2: { apply atomically_exc in E as ->. split; [done|apply evolves_refl]. }
  unfold mark_committed in E. apply atomically_inv in E.
  apply bind_ret_inv in E as (row & rows1 & [-> ->]%gets_inv & E). apply bind_ret_inv in E as (u' & rows1 & [Hs ->]%raise_if_inv & E).
  apply (update_evolves _ _ _ _ _ _) with (4 := E); [done| |exact Hc]. intros r Hr _. rewrite Hr in Hs. b2p. by constructor.
Qed.

(** ** Executions *)

Inductive connector_event :=
| Accept (acceptance : ConnectorReceipt)
| Commit (batch : UUID) (revision : Z)
| Advance (batch : UUID)
| Reconcile (limit : Z).

Definition serve_connector (e : connector_event) : M (connector_world C) unit :=
  match e with
  | Accept acceptance => at_clock clock (insert_durability acceptance)
  | Commit batch revision => at_clock clock (mark_committed batch revision)
  | Advance batch => advance_ batch ;; mret tt
  | Reconcile limit => reconcile_once_ limit ;; mret tt
  end.

Definition connector_run (es : list connector_event) (w : connector_world C) : connector_world C := foldl (λ w e, (serve_connector e w).2) w es.

Lemma serve_connector_progress e w : makes_progress (serve_connector e) w.
Proof.
  destruct e; cbn [serve_connector].
  - apply progress_at_clock. intros. by apply insert_step.
  - apply progress_at_clock. intros. by apply commit_step.
  - apply progress_bind; [apply advance_progress|]. intros. apply progress_ret.
  - apply progress_bind; [apply reconcile_progress|]. intros. apply progress_ret.
Qed.

Lemma connector_run_progress es w : progress w (connector_run es w).
Proof.
  revert w. induction es as [|e es IH]; intros w; [apply progress_refl|]. cbn. eapply progress_trans; [apply serve_connector_progress|apply IH].
Qed.

(** A row that came to be DURABLE_COMPLETE was verified. *)
Lemma complete_is_verified answers r r' : rtc (row_step answers) r r' → dy_state r = State.ACCEPTED → dy_state r' = State.DURABLE_COMPLETE → verified answers r'.
Proof.
  intros Hs Ha Hd. apply rtc_inv_r in Hs as [->|(r1 & _ & Hs)]; [congruence|]. destruct Hs as [| |status h now _ Hv]; [done| |].
  - cbn in Hd. unfold requested_state in Hd. by destruct (_ == Checkpoint.RUNNING).
  - apply Hv. cbn in Hd. by destruct (ks_state status).
Qed.

(** A row that is DURABLE_COMPLETE or FAILED stays as it is. *)
Lemma terminal_row answers r r' : rtc (row_step answers) r r' → dy_state r ∈ [State.DURABLE_COMPLETE; State.FAILED] → r' = r.
Proof.
  intros Hs Ht. apply rtc_inv in Hs as [->|(r1 & Hs & _)]; [done|]. exfalso. destruct Hs as [? ? E|? ? ? ? E|? ? ? E]; clear -E Ht; destruct (dy_state r); try discriminate E; set_solver.
Qed.

(** The table before the first batch. *)
Definition no_batches (c : C) : connector_world C := mk_world [] c 0 [].

(** C20: Whatever batches are accepted, committed, advanced and reconciled, and
    whatever the coordinator answers or raises: a batch is DURABLE_COMPLETE only
    if the coordinator said of the checkpoint requested for exactly this batch,
    its revision and its hashes, that it is VERIFIED and the current one; and
    from then on its row never changes. *)
Theorem durability_is_never_inferred es es' c b r :
  find_row b (wo_rows (connector_run es (no_batches c))) = Some r → dy_state r = State.DURABLE_COMPLETE →
  verified (wo_answers (connector_run es (no_batches c))) r ∧
  find_row b (wo_rows (connector_run es' (connector_run es (no_batches c)))) = Some r.
Proof.
  intros Hr Hd. destruct (connector_run_progress es (no_batches c)) as [_ H1]. destruct H1 as [Hc [_ Hnew]]; [done|].
  destruct (Hnew b r eq_refl Hr) as (r0 & Ha & Hs). split; [by eapply complete_is_verified|].
  destruct (connector_run_progress es' (connector_run es (no_batches c))) as [_ H2]. destruct (H2 Hc) as [_ [Hold _]].
  destruct (Hold b r Hr) as (r' & Hr' & Hs'). apply terminal_row in Hs' as ->; [done|]. rewrite Hd. by left.
Qed.
End safety.

(** ** A batch on its way

    It is accepted, committed at revision 7 and advanced; the coordinator is
    still at work, then has the checkpoint verified and current. *)
Module Journey.
Definition noon : datetime := Datetime (63_840_000_000 * 1_000_000) (Some 0).
Definition hash (t : string) : string := "0123456789abcdef0123456789abcdef0123456789abcdef0123456789abcdef".
Definition acceptance : ConnectorReceipt := mk_ConnectorReceipt 1%N Accepted "bot" 7%N "day-1" (hash "payload") (hash "envelope") noon.

Definition answer (operation : string) (fields : list (string * json)) : outcome json :=
  Ret (JObj ([("operation_id", JStr operation); ("idempotency_key", JStr (removeprefix OPERATION_PREFIX operation)); ("canonical_revision", JInt 7)] ++ fields)).

#[global] Instance coordinator : VerifiedCheckpointCoordinator nat := {
  request_verified_checkpoint operation _ _ n := (answer operation [("state", JStr "REQUESTED")], n);
  checkpoint_status operation n :=
    (if bool_decide (n = 0%nat) then answer operation [("state", JStr "CHECKPOINTING")]
     else answer operation [("state", JStr "DURABLE_COMPLETE"); ("checkpoint_id", JStr "checkpoint-9"); ("current_checkpoint_id", JStr "checkpoint-9");
                            ("checkpoint_status", JStr "VERIFIED"); ("manifest_sha256", JStr (hash "manifest")); ("verified_at", JStr "noon")],
     Datatypes.S n);
}.

Abbreviation run := (connector_run hash (λ _, "noon") (λ _, Some noon) (λ _, noon) true).
Definition events : list connector_event := [Accept acceptance; Commit 7%N 7; Advance 7%N; Reconcile 25].
Definition later_events : list connector_event := [Commit 7%N 8; Advance 7%N; Reconcile 25].

Definition row : option durability_row := find_row 7%N (wo_rows (run events (no_batches 0%nat))).

Lemma complete : match row with Some r => bool_decide (dy_state r = State.DURABLE_COMPLETE) && bool_decide (dy_checkpoint r = Some "checkpoint-9") | None => false end = true.
Proof. vm_compute. reflexivity. Qed.

Lemma found_complete (o : option durability_row) : match o with Some r => bool_decide (dy_state r = State.DURABLE_COMPLETE) && bool_decide (dy_checkpoint r = Some "checkpoint-9") | None => false end = true →
  ∃ r, o = Some r ∧ dy_state r = State.DURABLE_COMPLETE.
Proof. destruct o as [r|]; [|done]. intros H. b2p. exists r. naive_solver. Qed.
End Journey.

Lemma durability_is_never_inferred_witness :
  ∃ r, Journey.row = Some r ∧ verified Journey.hash (wo_answers (Journey.run Journey.events (no_batches 0%nat))) r ∧
    find_row 7%N (wo_rows (Journey.run Journey.later_events (Journey.run Journey.events (no_batches 0%nat)))) = Some r.
Proof.
  destruct (Journey.found_complete Journey.row Journey.complete) as (r & Hr & Hd). exists r. split; [exact Hr|].
  exact (durability_is_never_inferred Journey.hash (λ _, "noon") (λ _, Some Journey.noon) (λ _, Journey.noon) true Journey.events Journey.later_events 0%nat 7%N r Hr Hd).
Defined.
