(* ===== verification/ConnectorIntake.v ===== *)
(** * ConnectorIntake: one acceptance per connector identity

    Models connectors/service.py, the decisions of connectors/repository.py and
    [PostgresConnectorAcceptanceRepository.accept] and [get_receipt]
    (connectors/postgres.py) on the tables of the schema integration. *)

From S2P Require Import Prelude Time Json Uuid ConnectorContracts ConnectorDurability.

(** ** Submissions *)

(** What intake stores of the envelope beside its identity and hashes; the three
    values are their [model_dump(mode="json")]. *)
Record ConnectorEnvelope := mk_ConnectorEnvelope {
  en_product : string; en_contract : string; en_schema : string; en_mode : string; en_count : Z; en_cursor : option json; en_partition : option string;
  en_start : datetime; en_end : datetime; en_correction : option (UUID * string); en_inline : option json; en_artifact : option json;
}.

Definition AcceptanceIdentity : Type := string * string.

Record AcceptanceSubmission := mk_AcceptanceSubmission {
  as_identity : AcceptanceIdentity; as_batch : UUID; as_payload : string; as_envelope_sha256 : string; as_bytes_sha256 : string; as_bytes : string;
  as_envelope : ConnectorEnvelope; as_principal : string; as_correlation : string;
}.

(** [given or default] *)
Definition or_default (o : option string) (d : string) : string := match o with Some s => if s == "" then d else s | None => d end.

Definition from_validated (v : ValidatedEnvelope) (e : ConnectorEnvelope) (principal correlation : option string) : AcceptanceSubmission :=
  mk_AcceptanceSubmission (ve_connector v, ve_key v) (ve_batch v) (ve_payload v) (ve_sha256 v) (ve_bytes_sha256 v) (ve_bytes v) e
    (or_default principal ("service:" +:+ ve_connector v)) (or_default correlation (String.substring 0 32 (ve_bytes_sha256 v))).

Record ExistingAcceptance := mk_ExistingAcceptance {
  ex_identity : AcceptanceIdentity; ex_batch : UUID; ex_payload : string; ex_envelope : string; ex_receipt : ConnectorReceipt;
}.

Inductive ReplayDisposition := EXACT_REPLAY | CONFLICTING_REPLAY.

Definition classify_replay (existing : ExistingAcceptance) (incoming : AcceptanceSubmission) : ReplayDisposition :=
  if (ex_identity existing == as_identity incoming) && (ex_batch existing == as_batch incoming) && (ex_payload existing == as_payload incoming)
     && (ex_envelope existing == as_envelope_sha256 incoming)
  then EXACT_REPLAY else CONFLICTING_REPLAY.

Record QuarantineEvidence := mk_QuarantineEvidence {
  qe_id : UUID; qe_reason : string; qe_identity : AcceptanceIdentity; qe_incoming_batch : UUID; qe_existing_batch : option UUID;
  qe_incoming_payload : string; qe_existing_payload : option string; qe_incoming_envelope : string; qe_existing_envelope : option string;
}.

Inductive AcceptanceDisposition := A_ACCEPTED | A_REPLAYED | A_QUARANTINED.

Record RepositoryDecision := mk_RepositoryDecision {
  rd_disposition : AcceptanceDisposition; rd_receipt : option ConnectorReceipt; rd_quarantine : option QuarantineEvidence;
}.

(** [__post_init__] *)
Definition repository_decision (d : RepositoryDecision) : outcome RepositoryDecision :=
  match rd_disposition d with
  | A_QUARANTINED =>
      throw_if (is_some (rd_receipt d) || negb (is_some (rd_quarantine d))) ValueError "quarantined decision requires only quarantine evidence" ;; Ret d
  | _ => throw_if (negb (is_some (rd_receipt d)) || is_some (rd_quarantine d)) ValueError "accepted/replayed decision requires only a receipt" ;; Ret d
  end.

(** ** Tables *)

(** integration.connector joined with integration.data_product *)
Record registration := mk_registration {
  rg_connector : string; rg_product : string; rg_principal : string; rg_status : string; rg_enabled : bool; rg_schema : string; rg_mode : string;
  rg_policy : json;
}.

Record batch_row := mk_batch_row {
  ba_id : UUID; ba_identity : AcceptanceIdentity; ba_payload : string; ba_envelope : string; ba_data : ConnectorEnvelope; ba_principal : string;
  ba_correlation : string; ba_accepted_at : datetime;
}.
(** integration.batch_payload: the envelope as it came *)
Record payload_row := mk_payload_row { pa_batch : UUID; pa_bytes : string; pa_inline : option json; pa_artifact : option json; pa_size : Z }.
Record batch_event_row := mk_batch_event_row { be_batch : UUID; be_type : string; be_principal : string; be_correlation : string; be_details : json }.
(** integration.receipt; its type is 'accepted' in every row that is written. *)
Record receipt_row := mk_receipt_row { rc_id : UUID; rc_batch : UUID; rc_identity : AcceptanceIdentity; rc_receipt : json; rc_created_at : datetime }.
Record quarantine_row := mk_quarantine_row {
  qu_id : UUID; qu_batch : UUID; qu_identity : AcceptanceIdentity; qu_reason : string; qu_expected : string; qu_observed : string; qu_bytes : string;
}.

Record intake := mk_intake {
  in_registry : list registration; in_batches : list batch_row; in_payloads : list payload_row; in_events : list batch_event_row;
  in_receipts : list receipt_row; in_quarantine : list quarantine_row; in_durability : repository;
  (** drawn UUIDs and readings of the clock *)
  in_draws : nat;
}.

Definition set_batches (x : list batch_row) (s : intake) : intake :=
  mk_intake (in_registry s) x (in_payloads s) (in_events s) (in_receipts s) (in_quarantine s) (in_durability s) (in_draws s).
Definition set_payloads (x : list payload_row) (s : intake) : intake :=
  mk_intake (in_registry s) (in_batches s) x (in_events s) (in_receipts s) (in_quarantine s) (in_durability s) (in_draws s).
Definition set_events (x : list batch_event_row) (s : intake) : intake :=
  mk_intake (in_registry s) (in_batches s) (in_payloads s) x (in_receipts s) (in_quarantine s) (in_durability s) (in_draws s).
Definition set_receipt_rows (x : list receipt_row) (s : intake) : intake :=
  mk_intake (in_registry s) (in_batches s) (in_payloads s) (in_events s) x (in_quarantine s) (in_durability s) (in_draws s).
Definition set_quarantine (x : list quarantine_row) (s : intake) : intake :=
  mk_intake (in_registry s) (in_batches s) (in_payloads s) (in_events s) (in_receipts s) x (in_durability s) (in_draws s).
Definition set_durability (x : repository) (s : intake) : intake :=
  mk_intake (in_registry s) (in_batches s) (in_payloads s) (in_events s) (in_receipts s) (in_quarantine s) x (in_draws s).

Definition instant_of (d : datetime) : Z := wall d - default 0 (utcoffset d).

(** The constraints of the tables, and the trigger that keeps a correction in
    the stream of what it corrects. *)
Definition batch_ok (b : batch_row) (batches : list batch_row) : bool :=
  negb (existsb (λ x, (ba_id x == ba_id b) || (ba_identity x == ba_identity b)) batches)
  && is_sha256 (ba_payload b) && is_sha256 (ba_envelope b) && (0 <=? en_count (ba_data b))
  && mem (en_mode (ba_data b)) ["push"; "pull"; "artifact_handoff"; "trusted_database_landing"]
  && (instant_of (en_start (ba_data b)) <? instant_of (en_end (ba_data b)))
  && match en_correction (ba_data b) with
     | None => true
     | Some (prior, _) => existsb (λ x, (ba_id x == prior) && (fst (ba_identity x) == fst (ba_identity b)) && (en_product (ba_data x) == en_product (ba_data b))) batches
     end.

Definition insert_into {A} (ok : A → intake → bool) (add : A → intake → intake) (row : A) : M intake unit :=
  s ← get;
  if ok row s then put (add row s) else raise IntegrityError "constraint failed".

Definition insert_batch : batch_row → M intake unit := insert_into (λ b s, batch_ok b (in_batches s)) (λ b s, set_batches (in_batches s ++ [b])%list s).
Definition insert_payload : payload_row → M intake unit :=
  insert_into (λ p s, negb (existsb (λ x, pa_batch x == pa_batch p) (in_payloads s)) && xorb (is_some (pa_inline p)) (is_some (pa_artifact p)))
    (λ p s, set_payloads (in_payloads s ++ [p])%list s).
Definition insert_batch_event : batch_event_row → M intake unit := insert_into (λ _ _, true) (λ e s, set_events (in_events s ++ [e])%list s).
Definition insert_receipt : receipt_row → M intake unit :=
  insert_into (λ r s, negb (existsb (λ x, rc_id x == rc_id r) (in_receipts s))) (λ r s, set_receipt_rows (in_receipts s ++ [r])%list s).
Definition insert_quarantine : quarantine_row → M intake unit :=
  insert_into (λ q s, negb (existsb (λ x, qu_id x == qu_id q) (in_quarantine s)) && is_sha256 (qu_expected q) && is_sha256 (qu_observed q))
    (λ q s, set_quarantine (in_quarantine s ++ [q])%list s).
Definition on_durability {A} (m : M repository A) : M intake A := λ s, let '(o, rows) := m (in_durability s) in (o, set_durability rows s).

Section intake.
Context (dump_time : datetime → string) (read_receipt : json → option ConnectorReceipt) (uuid4 : nat → UUID) (clock : nat → datetime).
(** [validate_envelope_bytes] with the limit of the service and the record count
    of an artifact. *)
Context (validate_envelope_bytes : Z → option Z → string → outcome (ValidatedEnvelope * ConnectorEnvelope)).

Definition take_draw {A} (f : nat → A) : M intake A :=
  s ← get;
  put (mk_intake (in_registry s) (in_batches s) (in_payloads s) (in_events s) (in_receipts s) (in_quarantine s) (in_durability s) (Datatypes.S (in_draws s))) ;;
  mret (f (in_draws s)).

Definition is_text (j : json) : bool := match j with JStr _ => true | _ => false end.

Definition allowed_modes (r : registration) : json :=
  match rg_policy r with JObj _ => default (JArr [JStr (rg_mode r)]) (jget "allowed_delivery_modes" (rg_policy r)) | _ => JArr [JStr (rg_mode r)] end.
Definition mode_allowed (mode : string) (modes : json) : bool := match modes with JArr l => forallb is_text l && mem (JStr mode) l | _ => false end.

(** The checks of the registration. *)
Definition check_registration (sub : AcceptanceSubmission) (row : option registration) : outcome unit :=
  match row with
  | None => throw PermissionError "connector or data product is not registered"
  | Some r =>
      let mode := en_mode (as_envelope sub) in
      throw_if (rg_principal r != as_principal sub) PermissionError "authenticated service principal is not bound to connector" ;;
      throw_if ((rg_status r != "active") || negb (rg_enabled r)) PermissionError "connector or data product is disabled" ;;
      throw_if (rg_schema r != en_schema (as_envelope sub)) ValueError "data product schema version is not registered" ;;
      throw_if (rg_mode r != mode) PermissionError "delivery_mode is not authorized by connector registry policy" ;;
      throw_if (negb (mode_allowed mode (allowed_modes r))) PermissionError "delivery_mode is not authorized by connector registry policy"
  end.

Definition find_registration (connector product : string) (s : intake) : option registration :=
  List.find (λ r, (rg_connector r == connector) && (rg_product r == product)) (in_registry s).
Definition find_batch (identity : AcceptanceIdentity) (s : intake) : option batch_row := List.find (λ b, ba_identity b == identity) (in_batches s).
(** [ORDER BY created_at LIMIT 1] *)
Definition first_receipt (batch : UUID) (s : intake) : option json :=
  match order_by (λ a b, instant_of (rc_created_at a) <=? instant_of (rc_created_at b)) (List.filter (λ r, rc_batch r == batch) (in_receipts s)) with
  | r :: _ => Some (rc_receipt r)
  | [] => None
  end.

(** [ConnectorReceipt.model_validate] *)
Definition model_validate (j : option json) : outcome ConnectorReceipt :=
  match read_receipt (default JNull j) with Some r => Ret r | None => throw ValidationError "validation error" end.

(** The identity is known: a replay, or a conflict that is put in quarantine. *)
Definition answer_known (sub : AcceptanceSubmission) (row : batch_row) : M intake RepositoryDecision :=
  raw ← gets (first_receipt (ba_id row));
  receipt ← lift (model_validate raw);
  let existing := mk_ExistingAcceptance (as_identity sub) (ba_id row) (ba_payload row) (ba_envelope row) receipt in
  match classify_replay existing sub with
  | EXACT_REPLAY => lift (repository_decision (mk_RepositoryDecision A_REPLAYED (Some receipt) None))
  | CONFLICTING_REPLAY =>
      id ← take_draw uuid4;
      insert_quarantine (mk_quarantine_row id (ex_batch existing) (as_identity sub) "conflicting_replay" (ex_payload existing) (as_payload sub) (as_bytes sub)) ;;
      insert_batch_event (mk_batch_event_row (ex_batch existing) "conflicting_replay" (as_principal sub) (as_correlation sub)
        (JObj [("quarantine_id", JStr (uuid_str id)); ("incoming_batch_id", JStr (uuid_str (as_batch sub)));
               ("incoming_envelope_sha256", JStr (as_envelope_sha256 sub))])) ;;
      lift (repository_decision (mk_RepositoryDecision A_QUARANTINED None (Some (mk_QuarantineEvidence id "conflicting_replay" (as_identity sub) (as_batch sub)
        (Some (ex_batch existing)) (as_payload sub) (Some (ex_payload existing)) (as_envelope_sha256 sub) (Some (ex_envelope existing))))))
  end.

(** The first acceptance of the identity. *)
Definition accept_new (sub : AcceptanceSubmission) : M intake RepositoryDecision :=
  accepted_at ← take_draw clock;
  id ← take_draw uuid4;
  receipt ← lift (connector_receipt (mk_ConnectorReceipt id Accepted (fst (as_identity sub)) (as_batch sub) (snd (as_identity sub)) (as_payload sub)
                                       (as_envelope_sha256 sub) accepted_at));
  let e := as_envelope sub in
  insert_batch (mk_batch_row (as_batch sub) (as_identity sub) (as_payload sub) (as_envelope_sha256 sub) e (as_principal sub) (as_correlation sub) accepted_at) ;;
  insert_payload (mk_payload_row (as_batch sub) (as_bytes sub) (en_inline e) (en_artifact e) (slen (as_bytes sub))) ;;
  insert_batch_event (mk_batch_event_row (as_batch sub) "accepted" (as_principal sub) (as_correlation sub)
    (JObj [("payload_sha256", JStr (as_payload sub)); ("envelope_sha256", JStr (as_envelope_sha256 sub)); ("exact_bytes_sha256", JStr (as_bytes_sha256 sub))])) ;;
  insert_receipt (mk_receipt_row id (as_batch sub) (as_identity sub) (receipt_dump dump_time receipt) accepted_at) ;;
  now ← take_draw clock;
  on_durability (insert_durability receipt now) ;;
  lift (repository_decision (mk_RepositoryDecision A_ACCEPTED (Some receipt) None)).

Definition accept (sub : AcceptanceSubmission) : M intake RepositoryDecision :=
  atomically (
    row ← gets (find_registration (fst (as_identity sub)) (en_product (as_envelope sub)));
    lift (check_registration sub row) ;;
    known ← gets (find_batch (as_identity sub));
    match known with Some row => answer_known sub row | None => accept_new sub end).

Definition get_receipt (batch : UUID) : M intake (option ConnectorReceipt) :=
  raw ← gets (first_receipt batch);
  match raw with Some j => r ← lift (model_validate (Some j)); mret (Some r) | None => mret None end.

(** [ConnectorIntakeService.submit] *)
Definition submit_envelope (max_bytes : Z) (exact_bytes connector : string) (principal correlation : option string) (artifact_records : option Z) :
    M intake RepositoryDecision :=
  validated ← lift (validate_envelope_bytes max_bytes artifact_records exact_bytes);
  raise_if (ve_connector validated.1 != connector) ConnectorAuthorizationError "authenticated principal is not bound to the submitted connector_id" ;;
  accept (from_validated validated.1 validated.2 principal correlation).
End intake.
