(* ===== verification/ConnectorIntakeSafety.v ===== *)
(** * ConnectorIntakeSafety: an acceptance is final

    What one call of [accept] may do, and executions of intake under any changes
    of the registry. *)

From S2P Require Import Prelude Time Json Uuid ConnectorContracts ConnectorDurability ConnectorIntake.

(** Two texts of one envelope: the same batch, payload and attested metadata. *)
Definition same_content (b : batch_row) (sub : AcceptanceSubmission) : bool :=
  (ba_id b == as_batch sub) && (ba_payload b == as_payload sub) && (ba_envelope b == as_envelope_sha256 sub).

Definition no_intake (registry : list registration) : intake := mk_intake registry [] [] [] [] [] [] 0.

Section safety.
Context (dump_time : datetime → string) (read_receipt : json → option ConnectorReceipt) (uuid4 : nat → UUID) (clock : nat → datetime).
Context (validate_envelope_bytes : Z → option Z → string → outcome (ValidatedEnvelope * ConnectorEnvelope)).
(** UUIDs have 128 bits. *)
Hypothesis uuid4_valid : ∀ n, valid_uuid (uuid4 n).
Hypothesis batch_valid : ∀ m n b v, validate_envelope_bytes m n b = Ret v → valid_uuid (ve_batch v.1).

Definition valid_receipt (r : ConnectorReceipt) : Prop := connector_receipt r = Ret r ∧ valid_uuid (cr_id r) ∧ valid_uuid (cr_batch r).

(** A receipt reads back from its dump. *)
Hypothesis read_dump : ∀ r, valid_receipt r → read_receipt (receipt_dump dump_time r) = Some r.

Abbreviation accept_ := (accept dump_time read_receipt uuid4 clock).

(** The receipt of the batch's acceptance. *)
Definition receipt_of (b : batch_row) (r : ConnectorReceipt) : Prop :=
  valid_receipt r ∧ (cr_connector r, cr_key r) = ba_identity b ∧ cr_batch r = ba_id b ∧ cr_payload r = ba_payload b ∧ cr_envelope r = ba_envelope b.

(** The batch is accepted, with the receipt and the bytes. *)
Definition accepted (b : batch_row) (r : ConnectorReceipt) (bytes : string) (s : intake) : Prop :=
  find_batch (ba_identity b) s = Some b ∧ receipt_of b r ∧ first_receipt (ba_id b) s = Some (receipt_dump dump_time r) ∧
  (∃ p, p ∈ in_payloads s ∧ pa_batch p = ba_id b ∧ pa_bytes p = bytes).

Definition intake_ok (s : intake) : Prop :=
  (∀ x, x ∈ in_receipts s → ∃ b, b ∈ in_batches s ∧ ba_id b = rc_batch x) ∧
  (∀ identity b, find_batch identity s = Some b → ∃ r bytes, accepted b r bytes s).

Lemma find_batch_inv identity s b : find_batch identity s = Some b → b ∈ in_batches s ∧ ba_identity b = identity.
Proof. unfold find_batch. intros [H1 H2]%find_some. split; [by apply list_elem_of_In|by b2p]. Qed.

(** Inserting, and drawing, when they return. *)
Lemma insert_into_inv {A} ok (add : A → intake → intake) row s u s' : insert_into ok add row s = (Ret u, s') → ok row s = true ∧ s' = add row s.
Proof. unfold insert_into. py_cbn. destruct (ok row s); [|done]. by intros [= _ <-]. Qed.

Definition drawn (s : intake) : intake :=
  mk_intake (in_registry s) (in_batches s) (in_payloads s) (in_events s) (in_receipts s) (in_quarantine s) (in_durability s) (Datatypes.S (in_draws s)).

Lemma draw_inv {A} (f : nat → A) s a s' : take_draw f s = (Ret a, s') → a = f (in_draws s) ∧ s' = drawn s.
Proof. unfold take_draw. py_cbn. by intros [= <- <-]. Qed.

(** ** The branches of [accept] *)

(** The tables that acceptances live in. *)
Definition same_acceptances (s s' : intake) : Prop :=
  in_batches s' = in_batches s ∧ in_payloads s' = in_payloads s ∧ in_receipts s' = in_receipts s ∧ in_durability s' = in_durability s.

Lemma accepted_same s s' b r bytes : same_acceptances s s' → accepted b r bytes s → accepted b r bytes s'.
Proof. intros (E1 & E2 & E3 & _). unfold accepted, find_batch, first_receipt. by rewrite E1, E2, E3. Qed.

Lemma intake_ok_same s s' : same_acceptances s s' → intake_ok s → intake_ok s'.
Proof.
  intros E [H1 H2]. pose proof E as (E1 & E2 & E3 & _). split; [by rewrite E1, E3|]. intros i b. unfold find_batch. rewrite E1. intros (r & bytes & Ha)%H2.
  exists r, bytes. by eapply accepted_same.
Qed.

Lemma replay_inv sub b s d s' : answer_known read_receipt uuid4 sub b s = (Ret d, s') →
  ∃ r, model_validate read_receipt (first_receipt (ba_id b) s) = Ret r ∧
    if same_content b sub then d = mk_RepositoryDecision A_REPLAYED (Some r) None ∧ s' = s
    else rd_receipt d = None ∧ same_acceptances s s' ∧
         ∃ q, in_quarantine s' = (in_quarantine s ++ [q])%list ∧ qu_batch q = ba_id b ∧ qu_identity q = as_identity sub ∧ qu_bytes q = as_bytes sub.
Proof.
  unfold answer_known. intros (raw & s1 & [-> ->]%gets_inv & E)%bind_ret_inv. apply bind_ret_inv in E as (r & s1 & [Hr ->]%lift_inv & E). exists r. split; [done|].
  cbv zeta in E. unfold classify_replay in E. cbn in E. rewrite bool_decide_eq_true_2 in E by done. cbn in E. fold (same_content b sub) in E. destruct (same_content b sub).
  - by apply lift_inv in E as [[= <-] ->].
  - apply bind_ret_inv in E as (id & s1 & [-> ->]%draw_inv & E). apply bind_ret_inv in E as (u & s1 & [_ ->]%insert_into_inv & E).
    apply bind_ret_inv in E as (u' & s1 & [_ ->]%insert_into_inv & [[= <-] ->]%lift_inv). split_and!; [done..|]. eexists. by split_and!.
Qed.

(** A new batch: what [accept_new] wrote. *)
Lemma accept_new_inv sub s d s' : valid_uuid (as_batch sub) → accept_new dump_time uuid4 clock sub s = (Ret d, s') → find_batch (as_identity sub) s = None →
  ∃ b r p x y, d = mk_RepositoryDecision A_ACCEPTED (Some r) None ∧ receipt_of b r ∧ ba_identity b = as_identity sub ∧ same_content b sub = true ∧
    batch_ok b (in_batches s) = true ∧ in_batches s' = (in_batches s ++ [b])%list ∧
    in_payloads s' = (in_payloads s ++ [p])%list ∧ pa_batch p = ba_id b ∧ pa_bytes p = as_bytes sub ∧
    in_receipts s' = (in_receipts s ++ [x])%list ∧ rc_batch x = ba_id b ∧ rc_receipt x = receipt_dump dump_time r ∧
    in_durability s' = (in_durability s ++ [y])%list ∧ dy_batch y = ba_id b ∧ dy_acceptance y = r ∧ dy_state y = State.ACCEPTED ∧
    in_quarantine s' = in_quarantine s.
Proof.
  intros Hu E Hn. unfold accept_new in E. apply bind_ret_inv in E as (t & s1 & [-> ->]%draw_inv & E). apply bind_ret_inv in E as (id & s1 & [-> ->]%draw_inv & E).
  apply bind_ret_inv in E as (r & s1 & [Hr ->]%lift_inv & E). cbv zeta in E.
  assert (r = mk_ConnectorReceipt (uuid4 (in_draws (drawn s))) Accepted (fst (as_identity sub)) (as_batch sub) (snd (as_identity sub)) (as_payload sub)
                (as_envelope_sha256 sub) (clock (in_draws s))) as -> by (apply obind_inv in Hr as (u & _ & Hr); apply obind_inv in Hr as (u' & _ & [= <-]); done).
  apply bind_ret_inv in E as (u1 & s1 & [Hok ->]%insert_into_inv & E). apply bind_ret_inv in E as (u2 & s1 & [_ ->]%insert_into_inv & E).
  apply bind_ret_inv in E as (u3 & s1 & [_ ->]%insert_into_inv & E). apply bind_ret_inv in E as (u4 & s1 & [_ ->]%insert_into_inv & E).
  apply bind_ret_inv in E as (now & s1 & [-> ->]%draw_inv & E). apply bind_ret_inv in E as (u5 & s1 & Hd & [[= <-] ->]%lift_inv).
  unfold on_durability, insert_durability in Hd. cbn in Hd. destruct (existsb _ (in_durability s)); [discriminate Hd|]. injection Hd as _ <-.
  do 5 eexists. cbn. split_and!; try reflexivity; [|done| |exact Hok].
  - split; [split; [exact Hr|]; split; [apply uuid4_valid|done]|]. by destruct (as_identity sub).
  - unfold same_content. cbn. by rewrite !bool_decide_eq_true_2.
Qed.

(** ** What a call keeps *)

Definition grows (s s' : intake) : Prop := intake_ok s →
  intake_ok s' ∧ (∀ b r bytes, accepted b r bytes s → accepted b r bytes s') ∧ in_quarantine s ⊆ in_quarantine s'.

Lemma grows_trans s1 s2 s3 : grows s1 s2 → grows s2 s3 → grows s1 s3.
Proof. intros H1 H2 H0. destruct (H1 H0) as (Hok & K1 & Q1). destruct (H2 Hok) as (Hok' & K2 & Q2). split_and!; [done|auto|set_solver]. Qed.

Lemma grows_same s s' : same_acceptances s s' → in_quarantine s ⊆ in_quarantine s' → grows s s'.
Proof. intros E Q H. split_and!; [by eapply intake_ok_same|intros; by eapply accepted_same|done]. Qed.

Lemma find_batch_snoc identity batches b s : in_batches s = (batches ++ [b])%list →
  find_batch identity s = match List.find (λ x, ba_identity x == identity) batches with Some x => Some x | None => if ba_identity b == identity then Some b else None end.
Proof. unfold find_batch. intros ->. induction batches as [|x l IH]; [done|]. cbn. by destruct (ba_identity x == identity). Qed.

Lemma filter_app_receipts (f : receipt_row → bool) l x : List.filter f (l ++ [x])%list = (List.filter f l ++ if f x then [x] else [])%list.
Proof. rewrite filter_app. cbn. by destruct (f x). Qed.

(** The tables after a first acceptance. *)
Lemma accepted_new s s' b r p x : intake_ok s → batch_ok b (in_batches s) = true → find_batch (ba_identity b) s = None → receipt_of b r →
  in_batches s' = (in_batches s ++ [b])%list → in_payloads s' = (in_payloads s ++ [p])%list → in_receipts s' = (in_receipts s ++ [x])%list →
  pa_batch p = ba_id b → rc_batch x = ba_id b → rc_receipt x = receipt_dump dump_time r →
  intake_ok s' ∧ (∀ b' r' bytes, accepted b' r' bytes s → accepted b' r' bytes s') ∧ accepted b r (pa_bytes p) s'.
Proof.
  intros [Hrec Hall] Hok Hn Hr Eb Ep Ex Hp Hx Hj.
  assert (∀ b', b' ∈ in_batches s → ba_id b' ≠ ba_id b) as Hid.
  { intros b' Hin E. unfold batch_ok in Hok. rewrite !andb_true_iff in Hok. destruct Hok as [[[[[[Hok _] _] _] _] _] _]. apply negb_true_iff in Hok.
    assert (existsb (λ y, (ba_id y == ba_id b) || (ba_identity y == ba_identity b)) (in_batches s) = true); [|congruence].
    apply existsb_exists. exists b'. split; [by apply list_elem_of_In|]. by rewrite E, bool_decide_eq_true_2. }
  assert (∀ b' r' bytes, accepted b' r' bytes s → accepted b' r' bytes s') as Hold.
  { intros b' r' bytes (H1 & H2 & H3 & q & Hq & H4). split_and!; [|done| |exists q; split; [rewrite Ep; set_solver|done]].
    - rewrite (find_batch_snoc _ (in_batches s) b) by done. unfold find_batch in H1. by rewrite H1.
    - unfold first_receipt. rewrite Ex, filter_app_receipts, bool_decide_eq_false_2, app_nil_r; [done|]. rewrite Hx. intros E. apply find_batch_inv in H1 as [H1 _].
      by apply (Hid b'). }
  assert (accepted b r (pa_bytes p) s') as Hnew.
  { split_and!; [|done| |exists p; split; [rewrite Ep; set_solver|done]].
    - rewrite (find_batch_snoc _ (in_batches s) b) by done. unfold find_batch in Hn. by rewrite Hn, bool_decide_eq_true_2.
    - unfold first_receipt. rewrite Ex, filter_app_receipts, bool_decide_eq_true_2 by done. destruct (List.filter _ _) as [|y l] eqn:E; [cbn; by rewrite Hj|].
      exfalso. assert (In y (List.filter (λ y, rc_batch y == ba_id b) (in_receipts s))) as Hy by (rewrite E; by left). apply filter_In in Hy as [Hy Hyb]. b2p.
      destruct (Hrec y) as (b' & Hb' & Hy'); [by apply list_elem_of_In|]. apply (Hid b'); congruence. }
  split_and!; [|done|done]. split.
  - intros y. rewrite Ex, Eb. intros [Hy| ->%list_elem_of_singleton]%elem_of_app; [|exists b; set_solver]. destruct (Hrec y Hy) as (b' & ? & ?). exists b'. set_solver.
  - intros i b'. rewrite (find_batch_snoc _ (in_batches s) b) by done. destruct (List.find _ (in_batches s)) as [b0|] eqn:E.
    + intros [= <-]. destruct (Hall i b0 E) as (r' & bytes & Ha). exists r', bytes. auto.
    + destruct (_ == i); [|done]. intros [= <-]. eauto.
Qed.

(** What a call of [accept] that returned did. *)
Lemma accept_inv sub s d s' : valid_uuid (as_batch sub) → intake_ok s → accept_ sub s = (Ret d, s') →
  grows s s' ∧ ∃ b r bytes, accepted b r bytes s' ∧ ba_identity b = as_identity sub ∧
    ((find_batch (as_identity sub) s = None ∧ d = mk_RepositoryDecision A_ACCEPTED (Some r) None ∧ same_content b sub = true ∧ bytes = as_bytes sub ∧
      ∃ y, in_durability s' = (in_durability s ++ [y])%list ∧ dy_batch y = ba_id b ∧ dy_acceptance y = r ∧ dy_state y = State.ACCEPTED) ∨
     (accepted b r bytes s ∧
      if same_content b sub then d = mk_RepositoryDecision A_REPLAYED (Some r) None ∧ s' = s
      else rd_receipt d = None ∧ ∃ q, in_quarantine s' = (in_quarantine s ++ [q])%list ∧ qu_batch q = ba_id b ∧ qu_identity q = as_identity sub ∧
             qu_bytes q = as_bytes sub)).
Proof.
  intros Hu Hok E. unfold accept in E. apply atomically_inv in E. apply bind_ret_inv in E as (g & s1 & [-> ->]%gets_inv & E).
  apply bind_ret_inv in E as (u & s1 & [_ ->]%lift_inv & E). apply bind_ret_inv in E as (known & s1 & [-> ->]%gets_inv & E).
  destruct (find_batch (as_identity sub) s) as [b|] eqn:Hb.
  - destruct (proj2 Hok _ _ Hb) as (r & bytes & Ha). pose proof (find_batch_inv _ _ _ Hb) as [_ Hi]. apply replay_inv in E as (r' & Hr' & E).
    assert (r' = r) as ->. { destruct Ha as (_ & [Hv _] & Hf & _). rewrite Hf in Hr'. unfold model_validate in Hr'. change (default JNull (Some (receipt_dump dump_time r))) with (receipt_dump dump_time r) in Hr'. rewrite (read_dump r Hv) in Hr'. congruence. }
    destruct (same_content b sub) eqn:Hs.
    + destruct E as [-> ->]. split; [by apply grows_same|]. exists b, r, bytes. split_and!; [done..|]. right. by rewrite Hs.
    + destruct E as (Hd & Hsame & q & Hq & Hq'). split; [apply grows_same; [done|rewrite Hq; set_solver]|]. exists b, r, bytes.
      split_and!; [by eapply accepted_same|done|]. right. rewrite Hs. split; [done|]. split; [done|]. by exists q.
  - apply accept_new_inv in E as (b & r & p & x & y & -> & Hr & Hi & Hs & Hbk & Eb & Ep & Hp & Hpb & Ex & Hx & Hj & Ed & Hy1 & Hy2 & Hy3 & Eq); [|done..].
    rewrite <-Hi in Hb. destruct (accepted_new s s' b r p x) as (Hok' & Hold & Hnew); [done..|].
    split; [|exists b, r, (pa_bytes p); split_and!; [done..|]; left; split_and!; [done..|by exists y]].
    intros _. split_and!; [done|done|by rewrite Eq].
Qed.

(** ** Executions *)

Inductive intake_event :=
| Submit (max_bytes : Z) (exact_bytes connector : string) (principal correlation : option string) (artifact_records : option Z)
| Register (registry : list registration).

Definition serve_intake (e : intake_event) : M intake unit :=
  match e with
  | Submit max_bytes b connector principal correlation n =>
      submit_envelope dump_time read_receipt uuid4 clock validate_envelope_bytes max_bytes b connector principal correlation n ;; mret tt
  | Register registry => λ s, (Ret tt, mk_intake registry (in_batches s) (in_payloads s) (in_events s) (in_receipts s) (in_quarantine s) (in_durability s) (in_draws s))
  end.

Definition intake_run (es : list intake_event) (s : intake) : intake := foldl (λ s e, (serve_intake e s).2) s es.

Lemma accept_grows sub s : valid_uuid (as_batch sub) → grows s (accept_ sub s).2.
Proof.
  intros Hu Hok. destruct (accept_ sub s) as [[d|e] s'] eqn:E; cbn [snd].
  - apply accept_inv in E as [Hg _]; [by apply Hg|done..].
  - unfold accept in E. apply atomically_exc in E as ->. by apply grows_same.
Qed.

Lemma serve_intake_grows e s : grows s (serve_intake e s).2.
Proof.
  destruct e as [max_bytes b connector principal correlation n|registry]; [|by apply grows_same]. cbn [serve_intake]. unfold submit_envelope, mbind, M_bind, lift.
  destruct (validate_envelope_bytes max_bytes n b) as [v|e] eqn:Hv; [|by apply grows_same]. destruct (ve_connector v.1 != connector); [by apply grows_same|].
  pose proof (accept_grows (from_validated v.1 v.2 principal correlation) s (batch_valid _ _ _ _ Hv)) as Hg. unfold raise_if, mret, M_ret. by destruct (accept_ _ s) as [[d|e] s'].
Qed.

Lemma intake_run_grows es s : grows s (intake_run es s).
Proof. revert s. induction es as [|e es IH]; intros s; [by apply grows_same|]. cbn. eapply grows_trans; [apply serve_intake_grows|apply IH]. Qed.

Lemma no_intake_ok registry : intake_ok (no_intake registry).
Proof. split; [by intros x ?%not_elem_of_nil|done]. Qed.

(** C21: Once intake answered with a receipt for a connector's idempotency key,
    every later submission under that key, whoever changes the registry, is
    refused by an exception, answered with the very same receipt if its batch
    and hashes are the same, or else put in quarantine with its exact bytes;
    no second acceptance is ever made, and the receipt, the batch and the exact
    bytes first accepted stay. *)
Theorem acceptance_is_final registry es es' sub sub' d r d' s1 s2 : valid_uuid (as_batch sub) → valid_uuid (as_batch sub') →
  accept_ sub (intake_run es (no_intake registry)) = (Ret d, s1) → rd_receipt d = Some r →
  accept_ sub' (intake_run es' s1) = (Ret d', s2) → as_identity sub' = as_identity sub →
  ∃ b bytes, accepted b r bytes s1 ∧ accepted b r bytes s2 ∧ same_content b sub = true ∧ find_batch (as_identity sub) s2 = Some b ∧
    if same_content b sub' then d' = mk_RepositoryDecision A_REPLAYED (Some r) None ∧ s2 = intake_run es' s1
    else rd_receipt d' = None ∧ ∃ q, q ∈ in_quarantine s2 ∧ qu_identity q = as_identity sub' ∧ qu_bytes q = as_bytes sub'.
Proof.
  intros U1 U2 E1 Hr E2 Hid. destruct (intake_run_grows es _ (no_intake_ok registry)) as [Hok0 _]. apply accept_inv in E1 as [Hg1 (b & r1 & bytes & Ha & Hi & Hd)]; [|done..].
  destruct (Hg1 Hok0) as [Hok1 _]. destruct (intake_run_grows es' _ Hok1) as (Hok2 & Hk & _). apply Hk in Ha as Ha2. apply accept_inv in E2 as [Hg2 H2]; [|done..].
  destruct (Hg2 Hok2) as (_ & Hk2 & _).
  assert (r1 = r ∧ same_content b sub = true) as [-> Hs].
  { destruct Hd as [(_ & -> & Hs & _)|(_ & Hd)]; [cbn in Hr; naive_solver|]. destruct (same_content b sub); [destruct Hd as [-> _]; cbn in Hr; naive_solver|].
    destruct Hd as [Hd _]. congruence. }
  exists b, bytes. split_and!; [done|auto|done|rewrite <-Hi; by destruct (Hk2 _ _ _ Ha2)|].
  destruct Ha2 as (Hf2 & (Hv & Hx) & Hfr & Hp). rewrite Hi, <-Hid in Hf2. destruct H2 as (b' & r' & bytes' & Ha' & Hi' & [(Hn & _)|(Hb' & Hd')]); [congruence|].
  assert (b' = b) as ->. { destruct Hb' as [Hb' _]. rewrite Hi' in Hb'. congruence. }
  destruct (same_content b sub').
  - destruct Hd' as [-> ->]. split; [|done]. do 2 f_equal. destruct Hb' as (_ & [Hv' _] & Hfr' & _). assert (receipt_dump dump_time r = receipt_dump dump_time r') as E by congruence.
    apply read_dump in Hv, Hv'. congruence.
  - destruct Hd' as (? & q & Hq & _ & ? & ?). split; [done|]. exists q. split_and!; [rewrite Hq; set_solver|done|done].
Qed.
End safety.

(** ** A producer that changes its mind

    The first text is accepted; the producer's retry is answered with the same
    receipt, and another text under the same key ends in quarantine. *)
Module Journey.
Definition hash (t : string) : string := if t == "a" then "0123456789abcdef0123456789abcdef0123456789abcdef0123456789abcdef"
                                         else "fedcba9876543210fedcba9876543210fedcba9876543210fedcba9876543210".
Definition noon : datetime := Datetime (63_840_000_000 * 1_000_000) (Some 0).

(** A time as the instant and the offset. *)
Definition dump (d : datetime) : string := print (JArr [JInt (wall d); match utcoffset d with Some o => JInt o | None => JNull end]).
Definition read_time (j : json) : option datetime :=
  match j with
  | JStr t => match loads t with Some (JArr [JInt w; JInt o]) => Some (Datetime w (Some o)) | _ => None end
  | _ => None
  end.
Definition read (j : json) : option ConnectorReceipt :=
  match j with
  | JObj [(_, JStr id); (_, JStr status); (_, JStr connector); (_, JStr batch); (_, JStr key); (_, JStr payload); (_, JStr envelope); (_, at_)] =>
      match uuid_of_text id, uuid_of_text batch, read_time at_ with
      | Some id, Some batch, Some t => Some (mk_ConnectorReceipt id (if status == "accepted" then Accepted else Replayed) connector batch key payload envelope t)
      | _, _, _ => None
      end
  | _ => None
  end.

Lemma read_time_dump d o : utcoffset d = Some o → read_time (JStr (dump d)) = Some d.
Proof. destruct d as [w off]. cbn [utcoffset]. intros ->. unfold read_time, dump. by rewrite loads_print. Qed.

Lemma read_dumped r : valid_receipt r → read (receipt_dump dump r) = Some r.
Proof.
  intros (Hv & Hi & Hb). assert (∃ o, utcoffset (cr_accepted_at r) = Some o) as [o Ho].
  { unfold connector_receipt in Hv. apply obind_inv in Hv as (u & _ & Hv). apply obind_inv in Hv as (u' & Ha%throw_if_inv & _). unfold aware in Ha.
    destruct (utcoffset (cr_accepted_at r)); [eauto|done]. }
  unfold read, receipt_dump. cbv beta iota. rewrite !uuid_of_uuid_str, (read_time_dump _ o) by done. by destruct r as [? [] ? ? ? ? ? ?].
Qed.

Definition draws (n : nat) : UUID := (N.of_nat n mod 2 ^ 128)%N.
Lemma draws_valid n : valid_uuid (draws n).
Proof. unfold valid_uuid, draws. by apply N.mod_lt. Qed.

Definition envelope : ConnectorEnvelope :=
  mk_ConnectorEnvelope "stats" "my-data-hub-data-connector.v1" "v1" "push" 0 None None noon (Datetime (wall noon + 1) (Some 0)) None (Some (JArr [])) None.
Definition validate (max_bytes : Z) (records : option Z) (b : string) : outcome (ValidatedEnvelope * ConnectorEnvelope) :=
  if max_bytes <? slen b then throw ConnectorContractError "connector envelope exceeds its byte limit"
  else Ret (mk_ValidatedEnvelope "bot" "day-1-key" 7%N (hash b) b (hash b) (hash b), envelope).
Lemma validate_valid m n b v : validate m n b = Ret v → valid_uuid (ve_batch v.1).
Proof. unfold validate. destruct (m <? slen b); [done|]. by intros [= <-]. Qed.

Definition registry : list registration := [mk_registration "bot" "stats" "service:bot" "active" true "v1" "push" (JObj [("allowed_delivery_modes", JArr [JStr "push"])])].
Definition text (b : string) : AcceptanceSubmission :=
  from_validated (mk_ValidatedEnvelope "bot" "day-1-key" 7%N (hash b) b (hash b) (hash b)) envelope None None.
Definition receipt : ConnectorReceipt := mk_ConnectorReceipt 1%N Accepted "bot" 7%N "day-1-key" (hash "a") (hash "a") noon.

Abbreviation run := (intake_run dump read draws (λ _, noon) validate).
Abbreviation put := (accept dump read draws (λ _, noon)).
Definition before : list intake_event := [Submit 10 "too long a text" "bot" None None None; Submit 10 "a" "someone" None None None].
Definition between : list intake_event := [Submit 10 "a" "bot" None None None; Register []; Submit 10 "a" "bot" None None None; Register registry].
Definition decided : RepositoryDecision := mk_RepositoryDecision A_ACCEPTED (Some receipt) None.
Definition once : intake := (put (text "a") (run before (no_intake registry))).2.
Definition evidence : QuarantineEvidence :=
  mk_QuarantineEvidence 3%N "conflicting_replay" ("bot", "day-1-key") 7%N (Some 7%N) (hash "b") (Some (hash "a")) (hash "b") (Some (hash "a")).
Definition refused : RepositoryDecision := mk_RepositoryDecision A_QUARANTINED None (Some evidence).
Definition twice : intake := (put (text "b") (run between once)).2.

Lemma first_accepted : put (text "a") (run before (no_intake registry)) = (Ret decided, once).
Proof. vm_compute. reflexivity. Qed.
Lemma then_refused : put (text "b") (run between once) = (Ret refused, twice).
Proof. vm_compute. reflexivity. Qed.
Lemma batch_of b : valid_uuid (as_batch (text b)).
Proof. done. Qed.
Lemma same_key : as_identity (text "b") = as_identity (text "a").
Proof. done. Qed.
End Journey.

Lemma acceptance_is_final_witness :
  ∃ b bytes, accepted Journey.dump b Journey.receipt bytes Journey.once ∧ accepted Journey.dump b Journey.receipt bytes Journey.twice ∧
    same_content b (Journey.text "a") = true ∧ find_batch (as_identity (Journey.text "a")) Journey.twice = Some b ∧
    if same_content b (Journey.text "b")
    then Journey.refused = mk_RepositoryDecision A_REPLAYED (Some Journey.receipt) None ∧ Journey.twice = Journey.run Journey.between Journey.once
    else rd_receipt Journey.refused = None ∧
      ∃ q, q ∈ in_quarantine Journey.twice ∧ qu_identity q = as_identity (Journey.text "b") ∧ qu_bytes q = as_bytes (Journey.text "b").
Proof.
  exact (acceptance_is_final Journey.dump Journey.read Journey.draws (λ _, Journey.noon) Journey.validate Journey.draws_valid Journey.validate_valid
    Journey.read_dumped Journey.registry Journey.before Journey.between (Journey.text "a") (Journey.text "b") Journey.decided Journey.receipt Journey.refused
    Journey.once Journey.twice (Journey.batch_of "a") (Journey.batch_of "b") Journey.first_accepted eq_refl Journey.then_refused Journey.same_key).
Defined.
