(* ===== verification/RateLimiter.v ===== *)
(** * RateLimiter: the sliding window of the admission boundary

    Models [SlidingWindowRateLimiter] of mcp/admission.py.  Times are integers of
    the clock's tick; the rounding of [now - window_seconds] is not modelled. *)

From Stdlib Require Import Sorted.
From S2P Require Import Prelude.

Section dict.
Context {A : Type}.

(** A Python dict in the order of its keys. *)
Fixpoint dict_get (key : string) (d : list (string * A)) : option A :=
  match d with [] => None | (k, v) :: d' => if key == k then Some v else dict_get key d' end.

Fixpoint dict_set (key : string) (v : A) (d : list (string * A)) : list (string * A) :=
  match d with
  | [] => [(key, v)]
  | (k, x) :: d' => if key == k then (k, v) :: d' else (k, x) :: dict_set key v d'
  end.

(** [for name in names: d.pop(name, None)] *)
Definition dict_pop (names : list string) (d : list (string * A)) : list (string * A) := List.filter (λ e, negb (mem e.1 names)) d.
End dict.

(** [self._events] *)
Definition rate_table : Type := list (string * list Z).

(** [while queue and queue[0] <= cutoff: queue.popleft()] *)
Fixpoint drop_old (cutoff : Z) (queue : list Z) : list Z :=
  match queue with t :: queue' => if t <=? cutoff then drop_old cutoff queue' else queue | [] => [] end.

(** [self._events[key]] of a [defaultdict] *)
Definition queue_of (key : string) (events : rate_table) : list Z := default [] (dict_get key events).

(** The order of [(last[-1] if last else -inf, name)] *)
Definition staler (a b : string * list Z) : bool :=
  match hd_error (rev a.2), hd_error (rev b.2) with
  | None, None => String.leb a.1 b.1
  | None, Some _ => true
  | Some _, None => false
  | Some x, Some y => (x <? y) || ((x =? y) && String.leb a.1 b.1)
  end.

Definition forget_stale (max_keys : nat) (key : string) (events : rate_table) : rate_table :=
  dict_pop (map fst (firstn (length events - max_keys) (order_by staler (List.filter (λ e, e.1 != key) events)))) events.

Definition allow (max_keys : nat) (key : string) (limit : nat) (window now : Z) (events : rate_table) : bool * rate_table :=
  let queue := drop_old (now - window) (queue_of key events) in
  if (limit <=? length queue)%nat then (false, dict_set key queue events)
  else
    let events := dict_set key (queue ++ [now])%list events in
    (true, if (max_keys <? length events)%nat then forget_stale max_keys key events else events).

(** ** Lemmas on dicts *)

Section dict_lemmas.
Context {A : Type}.
Implicit Types d : list (string * A).

Lemma dict_get_set key k v d : dict_get k (dict_set key v d) = if k == key then Some v else dict_get k d.
Proof.
  induction d as [|[k' x] d IH]; cbn; [done|]. destruct (decide (key = k')) as [<-|Hne].
  - rewrite bool_decide_eq_true_2 by done. cbn. by destruct (k == key).
  - rewrite bool_decide_eq_false_2 by done. cbn. rewrite IH. destruct (decide (k = k')) as [->|]; [|by rewrite (bool_decide_eq_false_2 (k = k'))].
    rewrite !bool_decide_eq_true_2 by done. by rewrite bool_decide_eq_false_2.
Qed.

Lemma mem_cons {B} `{EqDecision B} (x y : B) l : mem x (y :: l) = (x == y) || mem x l.
Proof. done. Qed.

Lemma dict_set_keys key v d : map fst (dict_set key v d) = if mem key (map fst d) then map fst d else (map fst d ++ [key])%list.
Proof.
  induction d as [|[k x] d IH]; [done|]. cbn [dict_set map fst]. rewrite mem_cons. destruct (decide (key = k)) as [->|Hne].
  - by rewrite bool_decide_eq_true_2.
  - rewrite bool_decide_eq_false_2 by done. cbn [map fst orb]. rewrite IH. by destruct (mem key (map fst d)).
Qed.

Lemma dict_get_key k d : is_Some (dict_get k d) → mem k (map fst d) = true.
Proof.
  induction d as [|[k' x] d IH]; [by intros []|]. cbn [dict_get map fst]. rewrite mem_cons. destruct (decide (k = k')) as [->|Hne]; [by rewrite bool_decide_eq_true_2|].
  rewrite bool_decide_eq_false_2 by done. exact IH.
Qed.

Lemma dict_pop_shorter k v names d : (k, v) ∈ d → k ∈ names → (length (dict_pop names d) < length d)%nat.
Proof.
  intros Hin Hn. unfold dict_pop. induction d as [|e d IH]; [by apply not_elem_of_nil in Hin|]. cbn. apply elem_of_cons in Hin as [<-|Hin].
  - assert (mem k names = true) as E by (by apply mem_true). cbn. rewrite E. cbn. pose proof (filter_length_le (λ e, negb (mem e.1 names)) d). lia.
  - specialize (IH Hin). destruct (negb _); cbn; lia.
Qed.

Lemma dict_get_pop key names d : key ∉ names → dict_get key (dict_pop names d) = dict_get key d.
Proof.
  intros Hk. unfold dict_pop. induction d as [|[k x] d IH]; [done|]. cbn [List.filter fst]. destruct (decide (key = k)) as [<-|Hne].
  - rewrite (proj2 (mem_false key names) Hk). cbn. by rewrite bool_decide_eq_true_2.
  - destruct (negb _); cbn; rewrite bool_decide_eq_false_2 by done; exact IH.
Qed.
End dict_lemmas.

(** ** Sequences of calls *)

(** Every call that was allowed; the code keeps no such list. *)
Definition grants : Type := list (string * Z).

(** The granted calls of the key after an instant, and those within a span. *)
Definition times (key : string) (cutoff : Z) (g : grants) : list Z := map snd (List.filter (λ p, (p.1 == key) && (cutoff <? p.2)) g).
Definition granted_within (key : string) (from to : Z) (g : grants) : nat := length (List.filter (λ p, (p.1 == key) && (from <? p.2) && (p.2 <=? to)) g).

Section calls.
Context (max_keys limit : nat) (window : Z).

Definition rate_step (s : rate_table * grants) (c : string * Z) : rate_table * grants :=
  let '(ok, events) := allow max_keys c.1 limit window c.2 s.1 in (events, if ok then s.2 ++ [c] else s.2)%list.
Definition rate_run (calls : list (string * Z)) : rate_table * grants := foldl rate_step ([], []) calls.

Hypothesis limit_positive : (0 < limit)%nat.
Hypothesis max_keys_positive : (0 < max_keys)%nat.

(** *** The table is bounded *)

Lemma queue_of_absent key (events : rate_table) : mem key (map fst events) = false → queue_of key events = [].
Proof.
  unfold queue_of. intros Hm. destruct (dict_get key events) as [q|] eqn:E; [|done]. rewrite (dict_get_key key events) in Hm by (by eexists). done.
Qed.

Lemma dict_set_length {A} key (v : A) d : length (dict_set key v d) = if mem key (map fst d) then length d else S (length d).
Proof. rewrite <-(length_map fst (dict_set key v d)), dict_set_keys. destruct (mem _ _); [by rewrite length_map|]. rewrite length_app, length_map. cbn. lia. Qed.

Lemma forget_stale_bounded key (events : rate_table) : length events = S max_keys → mem key (map fst events) = true → NoDup (map fst events) →
  (length (forget_stale max_keys key events) ≤ max_keys)%nat.
Proof.
  intros Hl Hk Hnd. unfold forget_stale. rewrite Hl. replace (S max_keys - max_keys)%nat with 1%nat by lia.
  destruct (order_by staler (List.filter (λ e, e.1 != key) events)) as [|[k q] l] eqn:E.
  - exfalso. assert (List.filter (λ e, e.1 != key) events = []) as E0 by (apply Permutation_nil; by rewrite <-E, order_by_perm).
    assert (∀ e, e ∈ events → e.1 = key) as Hall.
    { intros e He. destruct (decide (e.1 = key)); [done|]. exfalso. assert (In e (List.filter (λ e, e.1 != key) events)); [|by rewrite E0 in *].
      apply filter_In. split; [by apply list_elem_of_In|]. by rewrite bool_decide_eq_false_2. }
    destruct events as [|a [|b events]]; cbn in Hl; [lia|lia|]. cbn in Hnd. apply list.NoDup_cons in Hnd as [Hnd _]. apply Hnd.
    rewrite (Hall a), (Hall b) by set_solver. by left.
  - change (map fst (take 1 ((k, q) :: l))) with [k]. assert ((k, q) ∈ events) as Hin.
    { assert (In (k, q) (List.filter (λ e, e.1 != key) events)) as Hf by (apply list_elem_of_In; rewrite <-(order_by_perm staler), E; by left).
      apply filter_In in Hf as [Hf _]. by apply list_elem_of_In. }
    assert (length (dict_pop [k] events) < length events)%nat by (apply (dict_pop_shorter k q); [done|by left]). lia.
Qed.

Lemma dict_set_nodup {A} key (v : A) d : NoDup (map fst d) → NoDup (map fst (dict_set key v d)).
Proof.
  intros Hnd. rewrite dict_set_keys. destruct (mem key (map fst d)) eqn:E; [done|]. apply mem_false in E. apply list.NoDup_app. split; [done|].
  split; [|apply NoDup_singleton]. by intros x Hx ->%list_elem_of_singleton.
Qed.

Lemma dict_pop_nodup {A} names (d : list (string * A)) : NoDup (map fst d) → NoDup (map fst (dict_pop names d)).
Proof.
  intros Hnd. eapply sublist_NoDup; [exact Hnd|]. unfold dict_pop. clear Hnd. induction d as [|e d IH]; [done|]. cbn. destruct (negb _); cbn; by constructor.
Qed.

Lemma allow_bounded key now (events : rate_table) : (length events ≤ max_keys)%nat → NoDup (map fst events) →
  (length (allow max_keys key limit window now events).2 ≤ max_keys)%nat ∧ NoDup (map fst (allow max_keys key limit window now events).2).
Proof.
  intros Hl Hnd. unfold allow. set (queue := drop_old _ _). destruct (limit <=? length queue)%nat eqn:E; cbn [snd].
  - split; [|by apply dict_set_nodup]. rewrite dict_set_length. destruct (mem key (map fst events)) eqn:Hm; [done|].
    subst queue. rewrite (queue_of_absent _ _ Hm) in E. cbn in E. apply Nat.leb_le in E. lia.
  - cbv zeta. pose proof (dict_set_nodup key (queue ++ [now])%list events Hnd) as Hnd'. destruct (max_keys <? _)%nat eqn:Hb; [|apply Nat.ltb_ge in Hb; done].
    apply Nat.ltb_lt in Hb. split; [|by apply dict_pop_nodup]. apply forget_stale_bounded; [|rewrite dict_set_keys|done].
    + rewrite dict_set_length in Hb. rewrite dict_set_length. destruct (mem key (map fst events)); lia.
    + destruct (mem key (map fst events)) eqn:Hm; [done|]. apply mem_true. set_solver.
Qed.

Lemma rate_run_bounded calls : (length (rate_run calls).1 ≤ max_keys)%nat ∧ NoDup (map fst (rate_run calls).1).
Proof.
  unfold rate_run. assert (∀ s : rate_table * grants, (length s.1 ≤ max_keys)%nat ∧ NoDup (map fst s.1) →
    (length (foldl rate_step s calls).1 ≤ max_keys)%nat ∧ NoDup (map fst (foldl rate_step s calls).1)) as H; [|apply H; cbn; split; [lia|apply NoDup_nil_2]].
  induction calls as [|c calls IH]; intros s [Hl Hn]; [done|]. cbn. apply IH. unfold rate_step. pose proof (allow_bounded c.1 c.2 s.1 Hl Hn) as Ha.
  by destruct (allow max_keys c.1 limit window c.2 s.1).
Qed.

(** The key that was just allowed is not the one that is forgotten. *)
Lemma forget_stale_keeps key (events : rate_table) : queue_of key (forget_stale max_keys key events) = queue_of key events.
Proof.
  unfold queue_of, forget_stale. rewrite dict_get_pop; [done|]. intros Hk. apply list_elem_of_In, in_map_iff in Hk as (e & Ee & He).
  assert (In e (order_by staler (List.filter (λ e, e.1 != key) events))) as Hin
    by (rewrite <-(firstn_skipn (length events - max_keys)); apply in_or_app; by left).
  apply list_elem_of_In in Hin. rewrite order_by_perm in Hin. apply list_elem_of_In, filter_In in Hin as [_ Hin]. b2p. done.
Qed.

Lemma allow_records key now (events events' : rate_table) : allow max_keys key limit window now events = (true, events') →
  hd_error (rev (queue_of key events')) = Some now.
Proof.
  unfold allow. set (queue := drop_old _ _). destruct (limit <=? length queue)%nat; [done|]. cbv zeta. intros [= <-].
  assert (hd_error (rev (queue_of key (dict_set key (queue ++ [now])%list events))) = Some now) as Hl.
  { unfold queue_of. rewrite dict_get_set, bool_decide_eq_true_2 by done. cbn. by rewrite rev_unit. }
  destruct (max_keys <? _)%nat; [by rewrite forget_stale_keeps|done].
Qed.

(** *** The answers are exact *)

Definition in_order (g : grants) : Prop := StronglySorted Z.le (map snd g).

Lemma times_cons key cutoff p g : times key cutoff (p :: g) = if (p.1 == key) && (cutoff <? p.2) then p.2 :: times key cutoff g else times key cutoff g.
Proof. unfold times. cbn. by destruct (_ && _). Qed.

Lemma times_app key cutoff g g' : times key cutoff (g ++ g')%list = (times key cutoff g ++ times key cutoff g')%list.
Proof. unfold times. by rewrite filter_app, map_app. Qed.

Lemma times_later key c t g : t > c → (∀ p, p ∈ g → t ≤ p.2) → ∀ cut, cut ≤ c → times key cut g = times key c g.
Proof.
  intros Ht Hall cut Hc. unfold times. f_equal. apply filter_ext_in. intros p Hp. apply list_elem_of_In, Hall in Hp. f_equal.
  destruct (cut <? p.2) eqn:E1, (c <? p.2) eqn:E2; try done; lia.
Qed.

Lemma drop_old_times key cut c g : in_order g → cut ≤ c → drop_old c (times key cut g) = times key c g.
Proof.
  intros Ho Hc. induction g as [|p g IH]; [done|]. unfold in_order in Ho. cbn [map] in Ho. apply StronglySorted_inv in Ho as [Ho Hp]. rewrite !times_cons.
  destruct (p.1 == key) eqn:Hk; cbn [andb]; [|auto]. destruct (cut <? p.2) eqn:E1.
  - cbn [drop_old]. destruct (p.2 <=? c) eqn:E2.
    + rewrite IH by done. by destruct (c <? p.2) eqn:E3; [lia|].
    + destruct (c <? p.2) eqn:E3; [|lia]. f_equal. apply (times_later key c p.2); [lia| |done]. intros x Hx.
      rewrite Forall_forall in Hp. apply Hp. apply in_map. by apply list_elem_of_In.
  - destruct (c <? p.2) eqn:E2; [lia|auto].
Qed.

Lemma times_within key now g : (∀ p, p ∈ g → p.2 ≤ now) → length (times key (now - window) g) = granted_within key (now - window) now g.
Proof.
  intros Hall. unfold times, granted_within. rewrite length_map. f_equal. apply filter_ext_in. intros p Hp. apply list_elem_of_In, Hall in Hp.
  destruct (p.2 <=? now) eqn:E; [|lia]. by rewrite andb_true_r.
Qed.

Lemma granted_within_snoc key from to g c : granted_within key from to (g ++ [c])%list =
  (granted_within key from to g + if ((c.1 == key) && (from <? c.2) && (c.2 <=? to))%Z then 1 else 0)%nat.
Proof. unfold granted_within. rewrite filter_app, length_app. cbn. by destruct (_ && _ && _). Qed.

Lemma granted_within_times key from to g now : now - window ≤ from → (granted_within key from to g ≤ length (times key (now - window) g))%nat.
Proof.
  intros Hf. unfold granted_within, times. rewrite length_map. induction g as [|p g IH]; [done|]. cbn [List.filter].
  destruct ((p.1 == key) && (from <? p.2) && (p.2 <=? to)) eqn:E.
  - rewrite !andb_true_iff in E. destruct E as [[E1 E2] _]. rewrite E1. cbn [andb]. destruct (now - window <? p.2) eqn:E3; [cbn [length]; lia|lia].
  - destruct ((p.1 == key) && (now - window <? p.2)); cbn [length]; lia.
Qed.

(** What holds after calls up to the instant [t]. *)
Definition exact (t : Z) (s : rate_table * grants) : Prop :=
  in_order s.2 ∧ (∀ p, p ∈ s.2 → p.2 ≤ t) ∧ (∀ key, ∃ cut, cut ≤ t - window ∧ queue_of key s.1 = times key cut s.2) ∧
  (∀ key from, (granted_within key from (from + window) s.2 ≤ limit)%nat).

Hypothesis window_positive : 0 < window.

Lemma exact_queue t s key now : exact t s → t ≤ now → drop_old (now - window) (queue_of key s.1) = times key (now - window) s.2.
Proof. intros (Ho & _ & Hq & _) Ht. destruct (Hq key) as (cut & Hc & ->). apply drop_old_times; [done|lia]. Qed.

Lemma exact_allow t s key now : exact t s → t ≤ now →
  (allow max_keys key limit window now s.1).1 = (granted_within key (now - window) now s.2 <? limit)%nat.
Proof.
  intros He Ht. pose proof (exact_queue t s key now He Ht) as Hq. destruct He as (_ & Hall & _). unfold allow. rewrite Hq, times_within.
  - destruct (limit <=? _)%nat eqn:E1, (_ <? limit)%nat eqn:E2; try done; apply Nat.leb_le in E1 || apply Nat.leb_gt in E1; apply Nat.ltb_lt in E2 || apply Nat.ltb_ge in E2; lia.
  - intros p Hp. apply Hall in Hp. lia.
Qed.

Lemma in_order_snoc g c t : in_order g → (∀ p, p ∈ g → p.2 ≤ t) → t ≤ c.2 → in_order (g ++ [c])%list.
Proof.
  unfold in_order. intros Ho Hall Ht. induction g as [|p g IH]; cbn; [by repeat constructor|]. cbn in Ho. apply StronglySorted_inv in Ho as [Ho Hp]. constructor.
  - apply IH; [done|]. intros x Hx. apply Hall. by right.
  - rewrite map_app. apply Forall_app. split; [done|]. constructor; [|done]. etrans; [|exact Ht]. apply Hall. by left.
Qed.

(** One call, when the table does not overflow. *)
Lemma exact_step t s c : exact t s → t ≤ c.2 → (length (dict_set c.1 ([] : list Z) s.1) ≤ max_keys)%nat → exact c.2 (rate_step s c).
Proof.
  intros He Ht Hl. pose proof (exact_queue t s c.1 c.2 He Ht) as Hq. destruct s as [events g], c as [key now]. destruct He as (Ho & Hall & Hqs & Hg). cbn [fst snd] in *.
  unfold rate_step, allow. cbn [fst snd]. rewrite Hq. destruct (limit <=? length _)%nat eqn:E; unfold exact; cbn [fst snd].
  - split_and!; [done|intros p Hp; apply Hall in Hp; lia| |done]. intros k. unfold queue_of. rewrite dict_get_set. destruct (decide (k = key)) as [->|Hne].
    + rewrite bool_decide_eq_true_2 by done. exists (now - window). split; [lia|done].
    + rewrite bool_decide_eq_false_2 by done. destruct (Hqs k) as (cut & ? & ?). exists cut. split; [lia|done].
  - apply Nat.leb_gt in E. rewrite dict_set_length in Hl |- *.
    destruct (max_keys <? if mem key (map fst events) then length events else S (length events))%nat eqn:Hb; [apply Nat.ltb_lt in Hb; destruct (mem key (map fst events)); lia|].
    cbn [fst snd]. split_and!.
    + by apply (in_order_snoc g (key, now) t).
    + intros p [Hp| ->%list_elem_of_singleton]%elem_of_app; [apply Hall in Hp; lia|done].
    + intros k. unfold queue_of. rewrite dict_get_set. destruct (decide (k = key)) as [->|Hne].
      * rewrite bool_decide_eq_true_2 by done. exists (now - window). split; [lia|]. cbn. rewrite times_app. f_equal. rewrite times_cons. cbn.
        rewrite bool_decide_eq_true_2 by done. by destruct (now - window <? now) eqn:E'; [|lia].
      * rewrite bool_decide_eq_false_2 by done. destruct (Hqs k) as (cut & ? & Hk). exists cut. split; [lia|]. rewrite times_app, times_cons. cbn.
        rewrite bool_decide_eq_false_2 by congruence. cbn. by rewrite app_nil_r.
    + intros k from. rewrite granted_within_snoc. cbn. destruct ((key == k) && (from <? now) && (now <=? from + window)) eqn:E'; [|specialize (Hg k from); lia].
      rewrite !andb_true_iff in E'. destruct E' as [[E1 E2] E3]. b2p. subst k. pose proof (granted_within_times key from (from + window) g now). lia.
Qed.

(** The keys are no more than the table may have. *)
Lemma few_keys (X : gset string) key (events : rate_table) : (size X ≤ max_keys)%nat → key ∈ X → (∀ k, k ∈ map fst events → k ∈ X) → NoDup (map fst events) →
  (length (dict_set key ([] : list Z) events) ≤ max_keys)%nat.
Proof.
  intros HX Hk Hall Hnd. rewrite <-(length_map fst). etrans; [|exact HX]. rewrite <-(size_list_to_set (C := gset string)) by (by apply dict_set_nodup).
  apply subseteq_size. intros k Hk'. apply elem_of_list_to_set in Hk'. rewrite dict_set_keys in Hk'. destruct (mem key _); [auto|].
  apply elem_of_app in Hk' as [?| ->%list_elem_of_singleton]; auto.
Qed.

Lemma exact_later t t' s : exact t s → t ≤ t' → exact t' s.
Proof.
  intros (Ho & Hall & Hq & Hg) Ht. split_and!; [done|intros p Hp; apply Hall in Hp; lia| |done]. intros k. destruct (Hq k) as (cut & ? & ?).
  exists cut. split; [lia|done].
Qed.

Lemma step_keys s c k : k ∈ map fst (rate_step s c).1 → k = c.1 ∨ k ∈ map fst s.1.
Proof.
  assert (∀ (v : list Z), k ∈ map fst (dict_set c.1 v s.1) → k = c.1 ∨ k ∈ map fst s.1) as Hd.
  { intros v. rewrite dict_set_keys. destruct (mem _ _); set_solver. }
  unfold rate_step, allow. destruct (limit <=? _)%nat; cbn [fst snd]; [apply Hd|]. destruct (max_keys <? _)%nat; [|apply Hd].
  intros Hk. apply (Hd (drop_old (c.2 - window) (queue_of c.1 s.1) ++ [c.2])%list). unfold forget_stale, dict_pop in Hk.
  apply list_elem_of_In, in_map_iff in Hk as (e & <- & He). apply filter_In in He as [He _]. apply list_elem_of_In. by apply in_map.
Qed.

Lemma exact_run (X : gset string) calls s t : (size X ≤ max_keys)%nat → (∀ c, c ∈ calls → c.1 ∈ X ∧ t ≤ c.2) → StronglySorted Z.le (map snd calls) →
  exact t s → (∀ k, k ∈ map fst s.1 → k ∈ X) → (length s.1 ≤ max_keys)%nat → NoDup (map fst s.1) →
  ∀ now, t ≤ now → (∀ c, c ∈ calls → c.2 ≤ now) → exact now (foldl rate_step s calls).
Proof.
  intros HX. revert s t. induction calls as [|c calls IH]; intros s t Hc Hs He Hk Hl Hn now Ht Hnow; [by eapply exact_later|]. cbn [foldl].
  cbn [map] in Hs. apply StronglySorted_inv in Hs as [Hs Hcs]. destruct (Hc c) as [Hcx Hct]; [by left|].
  apply (IH _ c.2); [|done| | | | |by apply Hnow; left|intros; apply Hnow; by right].
  - intros c' Hc'. split; [apply Hc; by right|]. rewrite Forall_forall in Hcs. apply Hcs, in_map. by apply list_elem_of_In.
  - apply (exact_step t); [done|done|]. by apply (few_keys X).
  - intros k [->|Hk']%step_keys; auto.
  - pose proof (allow_bounded c.1 c.2 s.1 Hl Hn) as [Ha _]. unfold rate_step. by destruct (allow _ _ _ _ _ _).
  - pose proof (allow_bounded c.1 c.2 s.1 Hl Hn) as [_ Ha]. unfold rate_step. by destruct (allow _ _ _ _ _ _).
Qed.
End calls.

Lemma granted_within_sublist key from to g g' : g `sublist_of` g' → (granted_within key from to g ≤ granted_within key from to g')%nat.
Proof. unfold granted_within. induction 1 as [|p g g' _ IH|p g g' _ IH]; cbn; [done| |]; destruct (_ && _ && _); cbn; lia. Qed.

(** In an orderly sequence of calls no window has too many grants. *)
Lemma granted_bounded max_keys limit window : (0 < limit)%nat → (0 < max_keys)%nat → 0 < window → ∀ (X : gset string) calls,
  (size X ≤ max_keys)%nat → (∀ c, c ∈ calls → c.1 ∈ X) → StronglySorted Z.le (map snd calls) →
  ∀ key from, (granted_within key from (from + window) (rate_run max_keys limit window calls).2 ≤ limit)%nat.
Proof.
  intros Hl Hm Hw X calls HX Hk Hs. destruct calls as [|c0 calls]; [intros; cbn; lia|].
  assert (exact limit window (foldr Z.max c0.2 (map snd (c0 :: calls))) (rate_run max_keys limit window (c0 :: calls))) as (_ & _ & _ & He); [|exact He].
  apply (exact_run max_keys limit window Hl Hm Hw X (c0 :: calls) _ c0.2); [done| |done| |by intros k ?%not_elem_of_nil|cbn; lia|apply NoDup_nil_2| |].
  - intros c Hc. split; [auto|]. cbn in Hs. apply StronglySorted_inv in Hs as [_ Hc0]. apply elem_of_cons in Hc as [->|Hc]; [done|].
    rewrite Forall_forall in Hc0. apply Hc0, in_map. by apply list_elem_of_In.
  - split_and!; [constructor|by intros p ?%not_elem_of_nil| |intros; cbn; lia]. intros k. exists (c0.2 - window). split; [lia|done].
  - cbn. lia.
  - clear. intros c Hc. induction (c0 :: calls) as [|x l IH]; [by apply not_elem_of_nil in Hc|]. cbn. apply elem_of_cons in Hc as [->|Hc]; [lia|]. specialize (IH Hc). lia.
Qed.

(** C24: The limiter's table never has more than max_keys keys, whoever calls and
    whenever: when there is no room for the key of a call that is allowed, another
    one is forgotten, and the call is on record.  As long as no more keys than
    that call, and the clock does not go back, a call is allowed exactly when
    fewer than [limit] calls of its key were allowed in the window that ends with
    it, so no window of that length ever has more than [limit]. *)
Theorem rate_limiter_is_exact max_keys limit window calls : (0 < limit)%nat → (0 < max_keys)%nat →
  let s := rate_run max_keys limit window calls in
  (length s.1 ≤ max_keys)%nat ∧
  (∀ key now ok events, allow max_keys key limit window now s.1 = (ok, events) →
    (length events ≤ max_keys)%nat ∧ (ok = true → hd_error (rev (queue_of key events)) = Some now)) ∧
  ∀ (X : gset string) key now, 0 < window → (size X ≤ max_keys)%nat → (∀ c, c ∈ (calls ++ [(key, now)])%list → c.1 ∈ X) →
    StronglySorted Z.le (map snd (calls ++ [(key, now)])%list) →
    (allow max_keys key limit window now s.1).1 = (granted_within key (now - window) now s.2 <? limit)%nat ∧
    ∀ k from, (granted_within k from (from + window) s.2 ≤ limit)%nat.
Proof.
  intros Hl Hm s. destruct (rate_run_bounded max_keys limit window Hl Hm calls) as [Hb Hnd]. split; [exact Hb|]. split.
  { intros key now ok events Ha. pose proof (allow_bounded max_keys limit window Hl Hm key now s.1 Hb Hnd) as [Hb' _]. rewrite Ha in Hb'.
    split; [exact Hb'|]. intros ->. by eapply allow_records. }
  intros X key now Hw HX Hk Hs.
  assert (StronglySorted Z.le (map snd calls) ∧ ∀ c, c ∈ calls → c.2 ≤ now) as [Hs' Hnow].
  { clear -Hs. induction calls as [|c calls IH]; [split; [constructor|]; by intros c ?%not_elem_of_nil|]. cbn in Hs. apply StronglySorted_inv in Hs as [Hs Hc].
    destruct (IH Hs) as [H1 H2]. rewrite map_app, Forall_app in Hc. destruct Hc as [Hc1 Hc2]. split; [by constructor|].
    intros c' [->|Hc']%elem_of_cons; [|auto]. by inversion Hc2. }
  destruct calls as [|c0 calls].
  - cbn in s. subst s. assert (exact limit window now ([], [])) as He.
    { split_and!; [constructor|by intros p ?%not_elem_of_nil| |intros; cbn; lia]. intros k. exists (now - window). split; [lia|done]. }
    split; [by apply exact_allow with (t := now)|]. intros. cbn. lia.
  - assert (exact limit window now s) as He.
    { apply (exact_run max_keys limit window Hl Hm Hw X (c0 :: calls) _ c0.2); [done| |done| |by intros k ?%not_elem_of_nil|cbn; lia|apply NoDup_nil_2|apply Hnow; by left|done].
      - intros c Hc. split; [apply Hk; set_solver|]. cbn in Hs'. apply StronglySorted_inv in Hs' as [_ Hc0]. apply elem_of_cons in Hc as [->|Hc]; [done|].
        rewrite Forall_forall in Hc0. apply Hc0, in_map. by apply list_elem_of_In.
      - split_and!; [constructor|by intros p ?%not_elem_of_nil| |intros; cbn; lia]. intros k. exists (c0.2 - window). split; [lia|done]. }
    split; [by apply exact_allow with (t := now)|apply He].
Qed.

(** Two callers; the second call of the first one within a minute is the last
    that two per minute allow. *)
Definition two_callers : list (string * Z) := [("a", 0); ("b", 10); ("a", 20); ("a", 30); ("b", 65)].

(** Three callers and room for two: [a] is forgotten when [c] calls. *)
Definition three_callers : list (string * Z) := [("a", 0); ("b", 10); ("c", 20)].

Lemma rate_limiter_is_exact_witness :
  (length (rate_run 2 2 60 three_callers).1 ≤ 2)%nat ∧ map fst (rate_run 2 2 60 three_callers).1 = ["b"; "c"] ∧
  (allow 16 "a" 2 60 70 (rate_run 16 2 60 two_callers).1).1 = true ∧
  (allow 16 "a" 2 60 70 (rate_run 16 2 60 two_callers).1).1 = (granted_within "a" (70 - 60) 70 (rate_run 16 2 60 two_callers).2 <? 2)%nat ∧
  ∀ k from, (granted_within k from (from + 60) (rate_run 16 2 60 two_callers).2 ≤ 2)%nat.
Proof.
  split; [apply (rate_limiter_is_exact 2 2 60 three_callers); lia|]. split; [vm_compute; reflexivity|]. split; [vm_compute; reflexivity|].
  destruct (rate_limiter_is_exact 16 2 60 two_callers) as (_ & _ & H); [lia|lia|].
  apply (H {["a"; "b"]} "a" 70); [lia|vm_compute; lia| |].
  - intros c Hc. unfold two_callers in Hc. set_solver.
  - unfold two_callers. cbn. repeat constructor; lia.
Defined.
