(* ===== verification/Admission.v ===== *)
(** * Admission: the transport boundary of the MCP server

    Models [HTTPAdmissionSecurity] of mcp/admission.py: the checks of the
    transport, of the caller and of the rate, the bounded body, the application
    behind it and the bounded answer.  The application is a tree of what it
    receives and sends; it and the authenticator share a world of any type.
    Requests are handled one at a time; another request that waits for its turn
    is one that comes later.  [send] does not fail: in the source an exception of
    [send] within the buffered answer would be answered with a refusal.  A body
    nested so deeply that json.loads raises RecursionError, which the source
    does not catch, is not told apart from one that is parsed. *)

From S2P Require Import Prelude Json RateLimiter OAuthValidator.

(** ** ASGI *)

Definition header_list : Type := list (string * string).

(** A scope of type http (the application gets others as they are). *)
Record scope := mk_scope {
  sc_method : string; sc_path : string; sc_query : string; sc_headers : header_list; sc_client : string;
}.

(** What a request's stream yields; the chunk is [None] where it is no bytes. *)
Inductive request_message := Request (body : option string) (more : bool) | Disconnect | OtherRequest.
Inductive response_message := ResponseStart (status : Z) (headers : header_list) | ResponseBody (body : option string) (more : bool) | OtherResponse.

(** What the boundary raises and catches. *)
Inductive failure :=
| TimedOut
| ResponseTooLarge
(** [AdmissionError] *)
| Refused (status : Z) (code : string) (authenticate : bool)
| Failed (e : exn).

Inductive result (A : Type) := Ok (a : A) | Error (f : failure).
Arguments Ok {A} a.
Arguments Error {A} f.

#[global] Instance result_ret : MRet result := λ A a, Ok a.
#[global] Instance result_bind : MBind result := λ A B k m, match m with Ok a => k a | Error f => Error f end.

Definition refuse_if (b : bool) (status : Z) (code : string) : result unit := if b then Error (Refused status code false) else Ok tt.

(** The application: what it waits for and sends, with the world at that time. *)
Inductive app_run (W : Type) :=
| AppDone (o : result unit) (w : W)
| AppReceive (w : W) (k : request_message → app_run W)
| AppSend (w : W) (m : response_message) (k : result unit → app_run W).
Arguments AppDone {W} o w.
Arguments AppReceive {W} w k.
Arguments AppSend {W} w m k.

(** What the application gets beside the body. *)
Record downstream := mk_downstream {
  ds_scope : scope; ds_correlation : string; ds_client_ip : string; ds_principal : option AccessIdentity;
}.

(** ** Configuration *)

Record AdmissionLimits := mk_AdmissionLimits {
  max_header_bytes : Z; max_request_bytes : Z; max_response_bytes : Z; max_concurrency : Z; requests_per_window : nat; rate_window : Z; max_rate_keys : nat;
}.

(** [__post_init__]; the times in microseconds.  The two timeouts of a request
    are in the [cut] below. *)
Definition admission_limits (l : AdmissionLimits) : outcome AdmissionLimits :=
  throw_if (negb ((1024 <=? max_header_bytes l) && (max_header_bytes l <=? 1024 * 1024))) ValueError "maximum header size must be between 1 KiB and 1 MiB" ;;
  throw_if (negb ((1 <=? max_request_bytes l) && (max_request_bytes l <=? 64 * 1024 * 1024))) ValueError
    "maximum request size must be between 1 byte and 64 MiB" ;;
  throw_if (negb ((1 <=? max_response_bytes l) && (max_response_bytes l <=? 64 * 1024 * 1024))) ValueError
    "maximum response size must be between 1 byte and 64 MiB" ;;
  throw_if (negb ((1 <=? max_concurrency l) && (max_concurrency l <=? 1024))) ValueError "maximum concurrency must be between 1 and 1024" ;;
  throw_if (negb ((1 <=? Z.of_nat (requests_per_window l)) && (Z.of_nat (requests_per_window l) <=? 1000000))) ValueError
    "request rate must be positive and bounded" ;;
  throw_if (negb ((100000 <=? rate_window l) && (rate_window l <=? 86400 * 1000000))) ValueError "rate window must be between 0.1 seconds and one day" ;;
  throw_if (negb ((16 <=? Z.of_nat (max_rate_keys l)) && (Z.of_nat (max_rate_keys l) <=? 1000000))) ValueError
    "rate-key capacity must be between 16 and 1,000,000" ;;
  Ret l.

Definition authority : Type := string * option Z.

Record boundary := mk_boundary {
  bo_limits : AdmissionLimits; bo_hosts : list authority; bo_origins : list string; bo_proxies : list string; bo_public : list string;
  bo_metadata_url : option string; bo_referrer : string; bo_authenticates : bool;
}.

Definition SINGLETON_HEADERS : list string :=
  ["authorization"; "content-length"; "host"; "origin"; "forwarded"; "x-forwarded-for"; "x-forwarded-host"; "x-forwarded-proto"].
Definition FORWARDED_HEADERS : list string := ["forwarded"; "x-forwarded-for"; "x-forwarded-host"; "x-forwarded-proto"].
Definition SECURITY_RESPONSE_HEADERS : header_list :=
  [("cache-control", "no-store"); ("pragma", "no-cache"); ("x-content-type-options", "nosniff"); ("x-frame-options", "DENY")].

(** ** Texts *)

Definition ascii_ok (s : string) : bool := string_forallb (λ c, (Ascii.nat_of_ascii c <? 128)%nat) s.

(** The characters of a token. *)
Definition token_char (c : Ascii.ascii) : bool :=
  is_lower_letter c || is_digit c || mem c ["!"; "#"; "$"; "%"; "&"; "'"; "*"; "+"; "-"; "."; "^"; "_"; "`"; "|"; "~"]%char.

Definition control_char (c : Ascii.ascii) : bool := mem (Ascii.nat_of_ascii c) [0; 10; 13]%nat.

Definition string_existsb (f : Ascii.ascii → bool) (s : string) : bool := negb (string_forallb (λ c, negb (f c)) s).

(** [value.find(c)], the texts before and after it. *)
Fixpoint cut_at (c : Ascii.ascii) (s : string) : option (string * string) :=
  match s with
  | EmptyString => None
  | String d s' => if d == c then Some ("", s') else match cut_at c s' with Some (a, b) => Some (String d a, b) | None => None end
  end.

(** [value.split(c)] *)
Fixpoint split_on (c : Ascii.ascii) (s : string) : list string :=
  match s with
  | EmptyString => [""]
  | String d s' => if d == c then "" :: split_on c s' else match split_on c s' with w :: ws => String d w :: ws | [] => [String d ""] end
  end.

Definition digits (s : string) : bool := (s != "") && string_forallb is_digit s.

(** [label.startswith("-")] and [endswith] *)
Definition ends_with (c : Ascii.ascii) (s : string) : bool := match String.get (String.length s - 1) s with Some d => d == c | None => false end.
Definition starts_with (c : Ascii.ascii) (s : string) : bool := match s with String d _ => d == c | EmptyString => false end.

Definition host_label (s : string) : bool :=
  (s != "") && (slen s <=? 63) && negb (starts_with "-"%char s) && negb (ends_with "-"%char s) && string_forallb (λ c, is_alnum c || (c == "-"%char)) s.

(** [urlsplit] of an Origin; the port is [None] where reading it raises. *)
Record origin_url := mk_origin_url {
  ou_scheme : string; ou_netloc : string; ou_username : option string; ou_password : option string; ou_path : string; ou_query : string;
  ou_fragment : string; ou_hostname : option string; ou_port : option (option Z);
}.

(** [message.get("more_body", False)] and the like are read as they are. *)
Definition header_bytes (h : header_list) : Z := foldr (λ e n, slen e.1 + slen e.2 + n) 0 h.

Section boundary.
(** [ipaddress.IPv6Address(s).compressed], [ip_address(s).compressed], the IDNA
    encoding folded, [urlsplit]: [None] is a [ValueError].  The names of
    [parse_qsl], folded. *)
Context (ipv6 ip_address idna : string → option string) (urlsplit : string → option origin_url) (query_names : string → list string).

Definition int_of_digits (s : string) : Z := default 0 (int_of_text s).

Definition valid_port (port : option Z) : bool := match port with Some p => (1 <=? p) && (p <=? 65535) | None => true end.

(** A bracketed IPv6 authority. *)
Definition parse_bracketed (value : string) : option authority :=
  '(bracketed, remainder) ← cut_at "]"%char value;
  let address := String.substring 1 (String.length bracketed - 1) bracketed in
  if (address == "") || string_existsb (λ c, c == "%"%char) address then None
  else
    host ← ipv6 address;
    match remainder with
    | EmptyString => Some (host, None)
    | String c port => if (c == ":"%char) && digits port then Some (host, Some (int_of_digits port)) else None
    end.

(** The host of a name or an IPv4 address. *)
Definition host_name (host : string) : option string :=
  let host := if ends_with "."%char host then String.substring 0 (String.length host - 1) host else host in
  match ip_address host with
  | Some ip => Some ip
  | None =>
      if (host == "") || (253 <? slen host) then None
      else host ← idna host; if forallb host_label (split_on "."%char host) then Some host else None
  end.

Definition parse_named (value : string) : option authority :=
  match split_on ":"%char value with
  | [host] => host ← host_name host; Some (host, None)
  | [host; port] => if (host == "") || negb (digits port) then None else host ← host_name host; Some (host, Some (int_of_digits port))
  | _ => None
  end.

(** [parse_host_header]; [None] is a [ValueError]. *)
Definition parse_host_header (value : string) : option authority :=
  let value := strip value in
  if (value == "") || string_existsb (λ c, is_space c || (Ascii.nat_of_ascii c <? 33)%nat) value then None
  else
    '(host, port) ← (if starts_with "["%char value then parse_bracketed value else parse_named value);
    if valid_port port then Some (lower host, port) else None.

Definition bracket (host : string) : string := if string_existsb (λ c, c == ":"%char) host then "[" +:+ host +:+ "]" else host.

(** [_format_authority] *)
Definition format_authority (a : authority) : string :=
  bracket a.1 +:+ match a.2 with Some port => ":" +:+ str_int port | None => "" end.

Definition falsy (o : option string) : bool := match o with None => true | Some _ => false end.

Definition normalize_origin (value : string) : option string :=
  if value == "null" then None
  else
    parsed ← urlsplit value;
    let scheme := lower (ou_scheme parsed) in
    if negb (mem scheme ["http"; "https"]) || (ou_netloc parsed == "") || negb (falsy (ou_username parsed)) || negb (falsy (ou_password parsed))
       || negb (mem (ou_path parsed) [""; "/"]) || (ou_query parsed != "") || (ou_fragment parsed != "") then None
    else
      host ← ou_hostname parsed;
      port ← ou_port parsed;
      '(normalized, _) ← parse_host_header (bracket host);
      let default_port := if scheme == "http" then 80 else 443 in
      Some (scheme +:+ "://" +:+ format_authority (normalized, if bool_decide (port = Some default_port) then None else port)).

(** ** The checks of the transport *)

(** [_header_multimap] *)
Fixpoint collect_headers (raw : header_list) (d : list (string * list string)) : result (list (string * list string)) :=
  match raw with
  | [] => Ok d
  | (raw_name, value) :: raw' =>
      refuse_if (negb (ascii_ok raw_name)) 400 "invalid_headers" ;;
      let name := lower raw_name in
      refuse_if ((name == "") || negb (string_forallb token_char name)) 400 "invalid_headers" ;;
      refuse_if (string_existsb control_char value) 400 "invalid_headers" ;;
      collect_headers raw' (dict_set name (default [] (dict_get name d) ++ [value])%list d)
  end.

Definition header_multimap (raw : header_list) : result (list (string * list string)) :=
  d ← collect_headers raw [];
  refuse_if (existsb (λ name, (1 <? length (default [] (dict_get name d)))%nat) SINGLETON_HEADERS) 400 "duplicate_security_header" ;;
  Ok d.

(** [headers.get(name, [None])[0]] *)
Definition header (name : string) (d : list (string * list string)) : option string := vs ← dict_get name d; head vs.

Definition host_allowed (host allowed : authority) : bool :=
  (host.1 == allowed.1) && match allowed.2 with Some _ => host.2 == allowed.2 | None => mem host.2 [None; Some 443] end.

(** [[f(x) for x in l]], where [None] is a [ValueError]. *)
Fixpoint all_values {A} (f : string → option A) (l : list string) : outcome (list A) :=
  match l with
  | [] => Ret []
  | x :: l' => match f x with Some a => rest ← all_values f l'; Ret (a :: rest) | None => throw ValueError x end
  end.

(** [HTTPAdmissionSecurity(...)] *)
Definition make_boundary (hosts origins : list string) (limits : AdmissionLimits) (authenticates : bool) (proxies public : list string)
    (metadata_url : option string) (referrer : string) : outcome boundary :=
  throw_if (bool_decide (hosts = [])) ValueError "at least one exact allowed Host is required" ;;
  allowed_hosts ← all_values parse_host_header hosts;
  allowed_origins ← all_values normalize_origin origins;
  trusted ← all_values ip_address proxies;
  throw_if (negb (forallb (startswith "/") public)) ValueError "unauthenticated paths must be exact absolute paths" ;;
  throw_if (match metadata_url with Some url => negb (startswith "https://" url) | None => false end) ValueError "OAuth resource metadata URL must use HTTPS" ;;
  throw_if (negb (mem referrer ["no-referrer"; "origin"])) ValueError "referrer policy must be exactly no-referrer or origin" ;;
  Ret (mk_boundary limits allowed_hosts allowed_origins trusted public metadata_url referrer authenticates).

Context (bo : boundary).

(** [_peer_ip] *)
Definition peer_ip (sc : scope) : string := default "unknown" (ip_address (sc_client sc)).

(** The client and the host behind a trusted proxy. *)
Definition forwarded_client (d : list (string * list string)) (peer : string) : result string :=
  match header "x-forwarded-for" d with
  | None => Ok peer
  | Some value =>
      let value := strip value in
      refuse_if (string_existsb (λ c, c == ","%char) value) 400 "forwarded_header_rejected" ;;
      match ip_address value with Some ip => Ok ip | None => Error (Refused 400 "forwarded_header_rejected" false) end
  end.

Definition forwarded_proto_ok (d : list (string * list string)) : bool :=
  match header "x-forwarded-proto" d with Some proto => lower (strip proto) == "https" | None => true end.

Definition check_origin (d : list (string * list string)) : result unit :=
  match header "origin" d with
  | None => Ok tt
  | Some origin =>
      refuse_if (match normalize_origin (strip origin) with Some o => negb (mem o (bo_origins bo)) | None => true end) 403 "origin_not_allowed"
  end.

(** [_transport]: the headers, the client's address and the host. *)
Definition transport (sc : scope) : result (list (string * list string) * string * string) :=
  refuse_if (max_header_bytes (bo_limits bo) <? header_bytes (sc_headers sc)) 431 "request_headers_too_large" ;;
  d ← header_multimap (sc_headers sc);
  let forwarded := existsb (λ name, mem name (map fst d)) FORWARDED_HEADERS in
  let peer := peer_ip sc in
  refuse_if (mem "forwarded" (map fst d) || existsb (λ name, startswith "x-forwarded-" name && negb (mem name FORWARDED_HEADERS)) (map fst d)) 400
    "forwarded_header_rejected" ;;
  refuse_if (forwarded && negb (mem peer (bo_proxies bo))) 400 "forwarded_header_rejected" ;;
  let effective_host := match header "x-forwarded-host" d with Some h => strip h | None => default "" (header "host" d) end in
  refuse_if (negb (forwarded_proto_ok d)) 400 "forwarded_header_rejected" ;;
  client_ip ← forwarded_client d peer;
  match parse_host_header effective_host with
  | None => Error (Refused 400 "invalid_host" false)
  | Some parsed =>
      refuse_if (negb (existsb (host_allowed parsed) (bo_hosts bo))) 403 "host_not_allowed" ;;
      check_origin d ;;
      Ok (d, client_ip, format_authority parsed)
  end.

(** ** A request *)

(** [_read_body]: [cut n] says that the deadline passes at the n-th await. *)
Fixpoint read_chunks (cut : nat → bool) (messages : list request_message) (body : string) (n : nat) : result string * nat :=
  match messages with
  | [] => (Error TimedOut, n)
  | m :: messages' =>
      if cut n then (Error TimedOut, S n)
      else
        match m with
        | Disconnect => (Error (Refused 400 "client_disconnected" false), S n)
        | Request (Some chunk) more =>
            let body := body +:+ chunk in
            if max_request_bytes (bo_limits bo) <? slen body then (Error (Refused 413 "request_too_large" false), S n)
            else if more then read_chunks cut messages' body (S n) else (Ok body, S n)
        | _ => (Error (Refused 400 "invalid_request_stream" false), S n)
        end
  end.

Definition read_body (cut : nat → bool) (messages : list request_message) (content_length : option string) (n : nat) : result string * nat :=
  match content_length with
  | None => read_chunks cut messages "" n
  | Some text =>
      match int_of_text text with
      | None => (Error (Refused 400 "invalid_content_length" false), n)
      | Some declared =>
          if declared <? 0 then (Error (Refused 400 "invalid_content_length" false), n)
          else if max_request_bytes (bo_limits bo) <? declared then (Error (Refused 413 "request_too_large" false), n)
          else
            match read_chunks cut messages "" n with
            | (Ok body, n) => (if slen body != declared then Error (Refused 400 "content_length_mismatch" false) else Ok body, n)
            | r => r
            end
      end
  end.

(** What the application has sent so far. *)
Record answer_state := mk_answer { an_messages : list response_message; an_bytes : Z; an_started : bool; an_complete : bool }.

(** [bounded_send] *)
Definition bounded_send (m : response_message) (a : answer_state) : result unit * answer_state :=
  match m with
  | ResponseStart _ headers =>
      if an_started a || an_complete a then (Error (Failed (Exn RuntimeError "invalid ASGI response sequence")), a)
      else if max_header_bytes (bo_limits bo) <? header_bytes headers then (Error ResponseTooLarge, a)
      else (Ok tt, mk_answer (an_messages a ++ [m])%list (an_bytes a) true (an_complete a))
  | ResponseBody body more =>
      if negb (an_started a) || an_complete a then (Error (Failed (Exn RuntimeError "invalid ASGI response sequence")), a)
      else
        match body with
        | None => (Error (Failed (Exn RuntimeError "invalid ASGI response body")), a)
        | Some chunk =>
            let bytes := an_bytes a + slen chunk in
            if max_response_bytes (bo_limits bo) <? bytes then (Error ResponseTooLarge, mk_answer (an_messages a) bytes (an_started a) (an_complete a))
            else (Ok tt, mk_answer (an_messages a ++ [m])%list bytes (an_started a) (negb more))
        end
  | OtherResponse => (Error (Failed (Exn RuntimeError "unsupported ASGI response message")), a)
  end.

(** [_run_app]: the messages, the world and the awaits. *)
Fixpoint run_app {W} (cut : nat → bool) (body : string) (app : app_run W) (delivered : bool) (a : answer_state) (n : nat) :
    result (list response_message) * W * nat :=
  match app with
  | AppDone (Ok _) w =>
      (if an_started a && an_complete a then Ok (an_messages a) else Error (Failed (Exn RuntimeError "incomplete ASGI response")), w, n)
  | AppDone (Error f) w => (Error f, w, n)
  | AppReceive w k => if cut n then (Error TimedOut, w, S n) else run_app cut body (k (if delivered then Disconnect else Request (Some body) false)) true a (S n)
  | AppSend w m k => if cut n then (Error TimedOut, w, S n) else let '(o, a) := bounded_send m a in run_app cut body (k o) delivered a (S n)
  end.

(** [_downstream_scope] *)
Definition downstream_scope (sc : scope) (d : list (string * list string)) (host : string) : scope :=
  mk_scope (sc_method sc) (sc_path sc) (sc_query sc)
    (concat (map (λ e, map (λ v, (e.1, v)) e.2)
       (List.filter (λ e, negb (mem e.1 FORWARDED_HEADERS || (e.1 == "x-correlation-id") || (e.1 == "host"))) d)) ++ [("host", host)])%list
    (sc_client sc).

(** [_secure_headers] *)
Definition replaced_headers : list string :=
  ["cache-control"; "pragma"; "x-content-type-options"; "referrer-policy"; "x-frame-options"; "x-correlation-id"].
Definition secure_headers (existing : header_list) (correlation : string) : header_list :=
  (List.filter (λ e, negb (mem (lower e.1) replaced_headers)) existing ++ SECURITY_RESPONSE_HEADERS
   ++ [("referrer-policy", bo_referrer bo); ("x-correlation-id", correlation)])%list.

(** [_send_buffered] *)
Definition secure_message (correlation : string) (m : response_message) : response_message :=
  match m with ResponseStart status headers => ResponseStart status (secure_headers headers correlation) | _ => m end.

Definition quoted (s : string) : string := String "034"%char s +:+ String "034"%char "".

Definition challenge (code : string) : string :=
  "Bearer realm=" +:+ quoted "my-data-hub"
  +:+ match bo_metadata_url bo with Some url => if url == "" then "" else ", resource_metadata=" +:+ quoted url | None => "" end
  +:+ (if mem code ["invalid_token"; "insufficient_scope"] then ", error=" +:+ quoted code else "").

(** [_reject] *)
Definition reject (status : Z) (code correlation : string) (authenticate retry_after : bool) : list response_message :=
  [ResponseStart status (secure_headers [("content-type", "application/json")] correlation
     ++ (if authenticate then [("www-authenticate", challenge code)] else []) ++ (if retry_after then [("retry-after", "1")] else []))%list;
   ResponseBody (Some (print (JObj [("error", JStr code)]))) false].

(** What the client gets. *)
Definition respond (r : result (list response_message)) (correlation : string) : list response_message :=
  match r with
  | Ok messages => map (secure_message correlation) messages
  | Error TimedOut => reject 504 "request_timeout" correlation false false
  | Error ResponseTooLarge => reject 502 "response_too_large" correlation false false
  | Error (Refused status code authenticate) => reject status code correlation authenticate (mem status [429; 503])
  | Error (Failed _) => reject 500 "internal_error" correlation false false
  end.

Section requests.
Context {W : Type}.
Context (authenticator : string → M W (option AccessIdentity)) (app : downstream → W → app_run W).
(** The monotonic clock, [uuid4().hex], and the deadline of the n-th await, a
    longer one for the calls of [long_budget]. *)
Context (clock : nat → Z) (uuid4_hex : nat → string) (cut : bool → nat → bool).
(** [json.loads] of a body; [None] is a [ValueError]. *)
Context (read_document : string → option json).

Record gateway := mk_gateway {
  gw_world : W; gw_rate : rate_table; gw_permits : Z; gw_awaits : nat; gw_requests : nat;
  (** Every call of the rate limiter, and every request the application was
      given, with its body and time; the code keeps no such lists. *)
  gw_calls : list (string * Z); gw_log : list (downstream * string * Z);
}.

Definition G (A : Type) : Type := gateway → result A * gateway.
#[global] Instance G_ret : MRet G := λ A a g, (Ok a, g).
#[global] Instance G_bind : MBind G := λ A B k m g, match m g with (Ok a, g') => k a g' | (Error f, g') => (Error f, g') end.

Definition lift_result {A} (r : result A) : G A := λ g, (r, g).

(** The identity of the caller. *)
Definition authenticate (authorization : string) : G (option AccessIdentity) := λ g,
  let keep w := mk_gateway w (gw_rate g) (gw_permits g) (gw_awaits g) (gw_requests g) (gw_calls g) (gw_log g) in
  if authorization == "" then (Error (Refused 401 "authentication_required" true), g)
  else
    match authenticator authorization (gw_world g) with
    | (Ret (Some identity), w) => (Ok (Some identity), keep w)
    | (Ret None, w) => (Error (Refused 401 "invalid_token" true), keep w)
    | (Exc e, w) =>
        if exn_cls e == TokenValidationError
        then (Error (Refused (if exn_msg e == "insufficient_scope" then 403 else 401) (exn_msg e) true), keep w)
        else (Error (Refused 401 "invalid_token" true), keep w)
    end.

Definition rate_key (identity : option AccessIdentity) (client_ip : string) : string :=
  match identity with
  | Some i => "principal:" +:+ ai_issuer i +:+ ":" +:+ ai_client i +:+ ":" +:+ ai_subject i
  | None => "peer:" +:+ client_ip
  end.

Definition check_rate (key : string) : G unit := λ g,
  let '(ok, rate) := allow (max_rate_keys (bo_limits bo)) key (requests_per_window (bo_limits bo)) (rate_window (bo_limits bo)) (clock (gw_requests g)) (gw_rate g) in
  (if ok then Ok tt else Error (Refused 429 "rate_limited" false),
   mk_gateway (gw_world g) rate (gw_permits g) (gw_awaits g) (gw_requests g) (gw_calls g ++ [(key, clock (gw_requests g))])%list (gw_log g)).

Definition set_permits (x : Z) (g : gateway) : gateway := mk_gateway (gw_world g) (gw_rate g) x (gw_awaits g) (gw_requests g) (gw_calls g) (gw_log g).

(** [try: ... finally: self._semaphore.release()] *)
Definition with_permit {A} (m : G A) : G A := λ g,
  if gw_permits g <=? 0 then (Error (Refused 503 "server_busy" false), g)
  else let '(r, g') := m (set_permits (gw_permits g - 1) g) in (r, set_permits (gw_permits g' + 1) g').

Definition long_calls : list string :=
  ["showcase.apply"; "showcase.create_view"; "showcase.rebuild"; "showcase.rotate_link"; "showcase.get_source"].

Definition long_budget (identity : option AccessIdentity) (method body : string) : bool :=
  match identity, read_document body with
  | Some i, Some (JObj kvs) =>
      match default (JObj []) (jget "params" (JObj kvs)) with
      | JObj params =>
          match jget "name" (JObj params) with
          | Some (JStr name) =>
              (method == "POST") && (jget "method" (JObj kvs) == Some (JStr "tools/call")) && mem name long_calls
              && mem (if name == "showcase.get_source" then "showcase:read" else "showcase:write") (ai_scopes i)
          | _ => false
          end
      | _ => false
      end
  | _, _ => false
  end.

(** The body and the application, within the deadline. *)
Definition serve_admitted (sc : scope) (messages : list request_message) (d : list (string * list string)) (client_ip host correlation : string)
    (identity : option AccessIdentity) : G (list response_message) := λ g,
  match read_body (cut false) messages (header "content-length" d) (gw_awaits g) with
  | (Error f, n) => (Error f, mk_gateway (gw_world g) (gw_rate g) (gw_permits g) n (gw_requests g) (gw_calls g) (gw_log g))
  | (Ok body, n) =>
      let ds := mk_downstream (downstream_scope sc d host) correlation client_ip identity in
      let '(r, w, n) := run_app (cut (long_budget identity (sc_method sc) body)) body (app ds (gw_world g)) false (mk_answer [] 0 false false) n in
      (r, mk_gateway w (gw_rate g) (gw_permits g) n (gw_requests g) (gw_calls g) (gw_log g ++ [(ds, body, clock (gw_requests g))])%list)
  end.

Definition public_metadata (sc : scope) : bool := (sc_method sc == "GET") && mem (sc_path sc) (bo_public bo).

(** The caller of the request, if one is asked for. *)
Definition caller (sc : scope) (d : list (string * list string)) : G (option AccessIdentity) :=
  if bo_authenticates bo && negb (public_metadata sc) then authenticate (default "" (header "authorization" d)) else mret None.

Definition serve (sc : scope) (messages : list request_message) (correlation : string) : G (list response_message) :=
  '(d, client_ip, host) ← lift_result (transport sc);
  lift_result (refuse_if ((sc_query sc != "") && mem "access_token" (query_names (sc_query sc))) 400 "query_bearer_forbidden") ;;
  identity ← caller sc d;
  check_rate (rate_key identity client_ip) ;;
  with_permit (serve_admitted sc messages d client_ip host correlation identity).

Definition count_request (g : gateway) : gateway := mk_gateway (gw_world g) (gw_rate g) (gw_permits g) (gw_awaits g) (S (gw_requests g)) (gw_calls g) (gw_log g).

(** [__call__]: what the client gets. *)
Definition handle (sc : scope) (messages : list request_message) (g : gateway) : list response_message * gateway :=
  let correlation := uuid4_hex (gw_requests g) in
  let '(r, g') := serve sc messages correlation g in
  (respond r correlation, count_request g').

(** The gateway as it starts. *)
Definition new_gateway (w : W) : gateway := mk_gateway w [] (max_concurrency (bo_limits bo)) 0 0 [] [].
End requests.
End boundary.

(** The authenticator of [OAuthAdmissionSecurity]. *)
Definition oauth_authenticator {W} `{ValidationAuthority W} (decoder : string → M W json) (clock : M W Z) (ledger : bool) (policy : OAuthValidationPolicy)
    (required_scopes : list string) (header : string) : M W (option AccessIdentity) :=
  identity ← validate_authorization_header decoder clock ledger policy header required_scopes (Some (vp_resource policy));
  mret (Some identity).
