(* ===== verification/AdmissionSafety.v ===== *)
(** * AdmissionSafety: what reaches the application

    Executions of the boundary: what every request that reached the application
    had passed, what the client gets, and how often one caller is let through. *)

From Stdlib Require Import Sorted.
From S2P Require Import Prelude Json RateLimiter OAuthValidator Admission.

(** ** Results that are fine *)

Lemma result_bind_inv {A B} (m : result A) (k : A → result B) b : mbind k m = Ok b → ∃ a, m = Ok a ∧ k a = Ok b.
Proof. destruct m as [a|f]; [|done]. by exists a. Qed.

Lemma refuse_if_inv b status code u : refuse_if b status code = Ok u → b = false.
Proof. by destruct b. Qed.

(** ** Headers *)

(** All values of a header. *)
Definition values (name : string) (h : header_list) : list string := map snd (List.filter (λ e, e.1 == name) h).

Lemma values_app name h h' : values name (h ++ h')%list = (values name h ++ values name h')%list.
Proof. unfold values. by rewrite filter_app, map_app. Qed.

Definition flat (d : list (string * list string)) : header_list := concat (map (λ e, map (λ v, (e.1, v)) e.2) d).

Lemma values_one name k vs : values name (map (λ v, (k, v)) vs) = if k == name then vs else [].
Proof.
  unfold values. induction vs as [|v vs IH]; [by destruct (k == name)|]. cbn. destruct (k == name) eqn:E; cbn; [by rewrite IH|exact IH].
Qed.

Lemma dict_get_absent {A} k (d : list (string * A)) : k ∉ map fst d → dict_get k d = None.
Proof. intros H. destruct (dict_get k d) eqn:E; [|done]. exfalso. apply H, mem_true, dict_get_key. by eexists. Qed.

Lemma values_flat name d : NoDup (map fst d) → values name (flat d) = default [] (dict_get name d).
Proof.
  induction d as [|[k vs] d IH]; [done|]. cbn [map fst]. intros [Hk Hnd]%list.NoDup_cons. unfold flat. cbn [map concat fst snd]. fold (flat d).
  rewrite values_app, values_one, IH by done. cbn [dict_get]. destruct (decide (k = name)) as [->|Hne].
  - rewrite !bool_decide_eq_true_2 by done. rewrite (dict_get_absent name d) by done. cbn. by rewrite app_nil_r.
  - by rewrite !bool_decide_eq_false_2 by congruence.
Qed.

Lemma values_absent name d : name ∉ map fst d → values name (flat d) = [].
Proof.
  induction d as [|[k vs] d IH]; [done|]. cbn [map fst]. intros Hn. unfold flat. cbn [map concat fst snd]. fold (flat d). rewrite values_app, values_one, IH by set_solver.
  rewrite bool_decide_eq_false_2 by set_solver. done.
Qed.

Lemma dict_get_filter {A} (f : string → bool) name (d : list (string * A)) : f name = true → dict_get name (List.filter (λ e, f e.1) d) = dict_get name d.
Proof.
  intros Hf. induction d as [|[k v] d IH]; [done|]. cbn. destruct (decide (name = k)) as [->|Hne].
  - rewrite Hf, bool_decide_eq_true_2 by done. cbn. by rewrite bool_decide_eq_true_2.
  - rewrite bool_decide_eq_false_2 by done. destruct (f k); cbn; [by rewrite bool_decide_eq_false_2|exact IH].
Qed.

Lemma filter_keys_nodup {A} (f : string → bool) (d : list (string * A)) : NoDup (map fst d) → NoDup (map fst (List.filter (λ e, f e.1) d)).
Proof.
  intros Hnd. eapply sublist_NoDup; [exact Hnd|]. clear Hnd. induction d as [|e d IH]; [done|]. cbn. destruct (f e.1); cbn; by constructor.
Qed.

Lemma filter_keys_in {A} (f : string → bool) (d : list (string * A)) name : name ∈ map fst (List.filter (λ e, f e.1) d) → f name = true.
Proof. intros Hin. apply list_elem_of_In, in_map_iff in Hin as (e & <- & He). by apply filter_In in He as [_ He]. Qed.

Lemma collect_keys raw d d' : collect_headers raw d = Ok d' → NoDup (map fst d) → NoDup (map fst d').
Proof.
  revert d. induction raw as [|[n v] raw IH]; intros d; [by intros [= <-]|]. cbn. intros (u1 & _ & E)%result_bind_inv. apply result_bind_inv in E as (u2 & _ & E).
  apply result_bind_inv in E as (u3 & _ & E). intros Hnd. apply (IH _ E). by apply dict_set_nodup.
Qed.

Section safety.
Context (ipv6 ip_address idna : string → option string) (urlsplit : string → option origin_url) (query_names : string → list string) (bo : boundary).
Context {W : Type} (authenticator : string → M W (option AccessIdentity)) (app : downstream → W → app_run W).
Context (clock : nat → Z) (uuid4_hex : nat → string) (cut : bool → nat → bool) (read_document : string → option json).

Abbreviation transport_ := (transport ipv6 ip_address idna urlsplit bo).
Abbreviation serve_ := (serve ipv6 ip_address idna urlsplit query_names bo authenticator app clock cut read_document).
Abbreviation handle_ := (handle ipv6 ip_address idna urlsplit query_names bo authenticator app clock uuid4_hex cut read_document).
Abbreviation normalize := (normalize_origin ipv6 ip_address idna urlsplit).

(** ** The transport *)

(** The header names that the application gets as they came. *)
Definition kept (name : string) : bool := negb (mem name FORWARDED_HEADERS || (name == "x-correlation-id") || (name == "host")).

Lemma downstream_values name sc d host : NoDup (map fst d) →
  values name (sc_headers (downstream_scope sc d host)) = if kept name then default [] (dict_get name d) else if name == "host" then [host] else [].
Proof.
  intros Hnd. cbn [sc_headers downstream_scope]. fold (flat (List.filter (λ e, negb (mem e.1 FORWARDED_HEADERS || (e.1 == "x-correlation-id") || (e.1 == "host"))) d)).
  change (λ e : string * list string, negb (mem e.1 FORWARDED_HEADERS || (e.1 == "x-correlation-id") || (e.1 == "host"))) with (λ e : string * list string, kept e.1).
  rewrite values_app. destruct (kept name) eqn:Hk.
  - rewrite values_flat by (by apply filter_keys_nodup). rewrite dict_get_filter by done. unfold values. cbn. rewrite bool_decide_eq_false_2; [by rewrite app_nil_r|].
    intros <-. discriminate Hk.
  - rewrite values_absent by (intros Hin%filter_keys_in; congruence). unfold values. cbn. destruct (decide (name = "host")) as [->|Hne]; [done|].
    by rewrite !bool_decide_eq_false_2 by congruence.
Qed.

(** What [transport] checked. *)
Definition transport_ok (d : list (string * list string)) (host : string) : Prop :=
  NoDup (map fst d) ∧ (∀ name, name ∈ SINGLETON_HEADERS → (length (default [] (dict_get name d)) ≤ 1)%nat) ∧
  (∃ a, existsb (host_allowed a) (bo_hosts bo) = true ∧ host = format_authority a) ∧
  (∀ o, header "origin" d = Some o → ∃ n, normalize (strip o) = Some n ∧ n ∈ bo_origins bo).

Lemma transport_inv sc d ip host : transport_ sc = Ok (d, ip, host) → transport_ok d host.
Proof.
  unfold transport. intros (u & _ & E)%result_bind_inv. apply result_bind_inv in E as (d' & Hd & E). cbv zeta in E.
  apply result_bind_inv in E as (u2 & _ & E). apply result_bind_inv in E as (u3 & _ & E). apply result_bind_inv in E as (u4 & _ & E).
  apply result_bind_inv in E as (ip' & _ & E). destruct (parse_host_header _ _ _ _) as [a|]; [|done].
  apply result_bind_inv in E as (u5 & Ha%refuse_if_inv & E). apply result_bind_inv in E as (u6 & Ho & [= <- <- <-]).
  unfold header_multimap in Hd. apply result_bind_inv in Hd as (d2 & Hc & Hd). apply result_bind_inv in Hd as (u7 & Hs%refuse_if_inv & [= <-]).
  split_and!.
  - apply (collect_keys _ _ _ Hc). by apply NoDup_nil_2.
  - intros name Hn. destruct (decide (1 < length (default [] (dict_get name d2)))%nat) as [Hl|]; [|lia].
    assert (existsb (λ name, (1 <? length (default [] (dict_get name d2)))%nat) SINGLETON_HEADERS = true); [|congruence].
    apply existsb_exists. exists name. split; [by apply list_elem_of_In|by apply Nat.ltb_lt].
  - exists a. split; [by apply negb_false_iff in Ha|done].
  - intros o Hh. unfold check_origin in Ho. rewrite Hh in Ho. apply refuse_if_inv in Ho. destruct (normalize (strip o)) as [n|]; [|done]. exists n. split; [done|].
    apply negb_false_iff in Ho. by apply mem_true.
Qed.

(** The only value of a header that may come once. *)
Lemma single_value name d v : (length (default [] (dict_get name d)) ≤ 1)%nat → v ∈ default [] (dict_get name d) → header name d = Some v.
Proof.
  unfold header. destruct (dict_get name d) as [[|x [|y vs]]|]; cbn; [by intros _ ?%not_elem_of_nil| |lia|by intros _ ?%not_elem_of_nil].
  by intros _ ->%list_elem_of_singleton.
Qed.

(** ** The body *)

Lemma read_chunks_bounded c messages body n b n' : read_chunks bo c messages body n = (Ok b, n') → slen b ≤ max_request_bytes (bo_limits bo).
Proof.
  revert body n. induction messages as [|m messages IH]; intros body n; [done|]. cbn. destruct (c n); [done|]. destruct m as [[chunk|] more| |]; try done.
  destruct (_ <? _) eqn:E; [done|]. destruct more; [apply IH|]. intros [= <- _]. lia.
Qed.

Lemma read_body_inv c messages cl n b n' : read_body bo c messages cl n = (Ok b, n') →
  slen b ≤ max_request_bytes (bo_limits bo) ∧ ∀ text, cl = Some text → int_of_text text = Some (slen b).
Proof.
  unfold read_body. destruct cl as [text|]; [|intros E; split; [by eapply read_chunks_bounded|done]]. destruct (int_of_text text) as [declared|] eqn:Ht; [|done].
  destruct (declared <? 0); [done|]. destruct (_ <? declared); [done|]. destruct (read_chunks _ _ _ _ _) as [[b'|f] m] eqn:E; [|done].
  destruct (slen b' != declared) eqn:Hn; [done|]. intros [= <- _]. b2p. split; [by eapply read_chunks_bounded|]. intros ? [= <-]. congruence.
Qed.

(** ** The caller *)

(** The tables that identifying the caller leaves alone. *)
Definition same_tables (g g' : gateway (W := W)) : Prop :=
  gw_rate g' = gw_rate g ∧ gw_permits g' = gw_permits g ∧ gw_requests g' = gw_requests g ∧ gw_calls g' = gw_calls g ∧ gw_log g' = gw_log g.

(** Who the caller is, if one is asked for. *)
Definition identified (sc : scope) (d : list (string * list string)) (i : option AccessIdentity) : Prop :=
  if bo_authenticates bo && negb (public_metadata bo sc)
  then ∃ x w w', i = Some x ∧ authenticator (default "" (header "authorization" d)) w = (Ret (Some x), w') ∧ default "" (header "authorization" d) ≠ ""
  else i = None.

Lemma caller_keeps sc d g : same_tables g (caller bo authenticator sc d g).2.
Proof.
  unfold caller. destruct (_ && _); [|done]. unfold authenticate. destruct (_ == ""); [done|].
  destruct (authenticator _ (gw_world g)) as [[[x|]|e] w]; [done|done|by destruct (exn_cls e == TokenValidationError)].
Qed.

Lemma caller_inv sc d g i g' : caller bo authenticator sc d g = (Ok i, g') → identified sc d i.
Proof.
  unfold caller, identified. destruct (_ && _); [|by intros [= <- _]]. unfold authenticate. destruct (_ == "") eqn:Hh; [done|].
  destruct (authenticator _ (gw_world g)) as [[[x|]|e] w] eqn:E; [|by intros|destruct (exn_cls e == TokenValidationError); by intros].
  intros [= <- _]. b2p. by exists x, (gw_world g), w.
Qed.

(** ** The answer *)

Definition body_of (b : string * bool) : response_message := ResponseBody (Some b.1) b.2.
Definition total (bodies : list (string * bool)) : Z := foldr (λ b n, slen b.1 + n) 0 bodies.

Lemma slen_nonneg s : 0 ≤ slen s.
Proof. unfold slen. lia. Qed.

Lemma total_app l l' : total (l ++ l')%list = total l + total l'.
Proof. induction l as [|b l IH]; [done|]. cbn. unfold total in *. lia. Qed.

(** The chunks so far; nothing comes after the last. *)
Definition chunks_ok (complete : bool) (bodies : list (string * bool)) : Prop :=
  if complete then ∃ bodies' chunk, bodies = (bodies' ++ [(chunk, false)])%list ∧ Forall (λ b, b.2 = true) bodies' else Forall (λ b, b.2 = true) bodies.

Definition answer_inv (a : answer_state) : Prop :=
  if an_started a
  then ∃ status h bodies, an_messages a = ResponseStart status h :: map body_of bodies ∧ header_bytes h ≤ max_header_bytes (bo_limits bo) ∧
         total bodies ≤ max_response_bytes (bo_limits bo) ∧ total bodies ≤ an_bytes a ∧ chunks_ok (an_complete a) bodies
  else an_messages a = [] ∧ an_complete a = false ∧ 0 ≤ an_bytes a.

Lemma bounded_send_inv m a : 0 ≤ max_response_bytes (bo_limits bo) → answer_inv a → answer_inv (bounded_send bo m a).2.
Proof.
  intros Hmax Ha. destruct a as [messages bytes started complete]. unfold answer_inv in Ha. cbn in Ha. destruct m as [status h|body more|]; cbn; [| |done].
  - destruct started; [done|]. cbn. destruct Ha as (-> & -> & Hb). destruct (_ <? header_bytes h) eqn:E; [done|]. unfold answer_inv. cbn.
    exists status, h, []. split_and!; [done|lia|done|cbn; lia|constructor].
  - destruct started, complete; cbn; try done. destruct Ha as (status & h & bodies & Hm & Hh & Ht & Htb & Hc). destruct body as [chunk|]; [|by exists status, h, bodies].
    pose proof (slen_nonneg chunk). destruct (_ <? bytes + slen chunk) eqn:E; unfold answer_inv; cbn.
    + exists status, h, bodies. split_and!; [done..|lia|done].
    + exists status, h, (bodies ++ [(chunk, more)])%list. rewrite total_app. cbn. split_and!; [by rewrite Hm, map_app|done|lia|lia|]. unfold chunks_ok in *.
      destruct more; cbn; [by apply Forall_app; split; [|constructor]|by exists bodies, chunk].
Qed.

(** A complete answer of the application. *)
Definition answer_ok (messages : list response_message) : Prop := ∃ status h bodies, messages = ResponseStart status h :: map body_of bodies ∧
  header_bytes h ≤ max_header_bytes (bo_limits bo) ∧ total bodies ≤ max_response_bytes (bo_limits bo) ∧ chunks_ok true bodies.

Lemma run_app_inv c body (a : app_run W) delivered st n messages w n' : 0 ≤ max_response_bytes (bo_limits bo) → answer_inv st →
  run_app bo c body a delivered st n = (Ok messages, w, n') → answer_ok messages.
Proof.
  intros Hmax. revert delivered st n. induction a as [o w0|w0 k IH|w0 m k IH]; intros delivered st n Hst.
  - cbn. destruct o as [u|f]; [|done]. destruct (an_started st && an_complete st) eqn:E; [|done]. intros [= <- _ _]. apply andb_true_iff in E as [E1 E2].
    unfold answer_inv in Hst. rewrite E1, E2 in Hst. destruct Hst as (status & h & bodies & ? & ? & ? & ? & ?). exists status, h, bodies. done.
  - cbn. destruct (c n); [done|]. by apply IH.
  - cbn. destruct (c n); [done|]. pose proof (bounded_send_inv m st Hmax Hst) as Hs. destruct (bounded_send bo m st) as [o st']. by apply IH.
Qed.

(** ** What reaches the application *)

(** The caller was authenticated, unless the page is public. *)
Definition known_caller (ds : downstream) : Prop :=
  if bo_authenticates bo && negb (public_metadata bo (ds_scope ds))
  then ∃ i h w w', ds_principal ds = Some i ∧ h ∈ values "authorization" (sc_headers (ds_scope ds)) ∧ authenticator h w = (Ret (Some i), w')
  else ds_principal ds = None.

(** A request that passed every check. *)
Definition fit (ds : downstream) (body : string) : Prop :=
  let values_of name := values name (sc_headers (ds_scope ds)) in
  slen body ≤ max_request_bytes (bo_limits bo) ∧
  (∀ text, text ∈ values_of "content-length" → int_of_text text = Some (slen body)) ∧
  (∀ name, name ∈ FORWARDED_HEADERS → values_of name = []) ∧
  (∃ a, existsb (host_allowed a) (bo_hosts bo) = true ∧ values_of "host" = [format_authority a]) ∧
  (∀ o, o ∈ values_of "origin" → ∃ n, normalize (strip o) = Some n ∧ n ∈ bo_origins bo) ∧
  known_caller ds.

Lemma fit_downstream sc d host body correlation ip i : transport_ok d host → slen body ≤ max_request_bytes (bo_limits bo) →
  (∀ text, header "content-length" d = Some text → int_of_text text = Some (slen body)) →
  identified sc d i →
  fit (mk_downstream (downstream_scope sc d host) correlation ip i) body.
Proof.
  intros (Hnd & Hone & (a & Ha & ->) & Ho) Hb Hcl Hi. unfold fit. cbn [ds_scope]. split_and!.
  - done.
  - intros text. rewrite downstream_values by done. intros Ht%single_value; [auto|apply Hone; set_solver].
  - intros name Hn. rewrite downstream_values by done. unfold kept. rewrite (proj2 (mem_true name FORWARDED_HEADERS)) by done. cbn.
    destruct (decide (name = "host")) as [->|]; [set_solver|by rewrite bool_decide_eq_false_2].
  - exists a. by rewrite downstream_values by done.
  - intros o. rewrite downstream_values by done. intros Hv%single_value; [auto|apply Hone; set_solver].
  - unfold known_caller. cbn [ds_scope ds_principal]. change (public_metadata bo (downstream_scope sc d (format_authority a))) with (public_metadata bo sc).
    unfold identified in Hi. destruct (_ && _); [|done]. destruct Hi as (x & w & w' & -> & Hw & Hne). exists x, (default "" (header "authorization" d)), w, w'. split_and!; [done| |done].
    rewrite downstream_values by done. change (kept "authorization") with true. cbn iota. unfold header in *. destruct (dict_get "authorization" d) as [[|v vs]|]; [done|by left|done].
Qed.

(** ** One request *)

Abbreviation allow_ := (allow (max_rate_keys (bo_limits bo))).
Abbreviation entry_key e := (rate_key (ds_principal e.1.1) (ds_client_ip e.1.1)).

(** What a request did to the limiter and the log. *)
Definition request_effect (g g' : gateway (W := W)) : Prop :=
  (gw_rate g' = gw_rate g ∧ gw_calls g' = gw_calls g ∧ gw_log g' = gw_log g) ∨
  (∃ key ok, allow_ key (requests_per_window (bo_limits bo)) (rate_window (bo_limits bo)) (clock (gw_requests g)) (gw_rate g) = (ok, gw_rate g') ∧
     gw_calls g' = (gw_calls g ++ [(key, clock (gw_requests g))])%list ∧
     (gw_log g' = gw_log g ∨ ok = true ∧ ∃ ds body, gw_log g' = (gw_log g ++ [(ds, body, clock (gw_requests g))])%list ∧ fit ds body ∧
        entry_key ((ds, body), clock (gw_requests g)) = key)).

Lemma serve_admitted_inv sc messages d ip host correlation i g r g' : 0 ≤ max_response_bytes (bo_limits bo) → transport_ok d host →
  identified sc d i →
  serve_admitted bo app clock cut read_document sc messages d ip host correlation i g = (r, g') →
  gw_rate g' = gw_rate g ∧ gw_permits g' = gw_permits g ∧ gw_requests g' = gw_requests g ∧ gw_calls g' = gw_calls g ∧
  (gw_log g' = gw_log g ∨ ∃ ds body, gw_log g' = (gw_log g ++ [(ds, body, clock (gw_requests g))])%list ∧ fit ds body ∧ rate_key (ds_principal ds) (ds_client_ip ds) = rate_key i ip) ∧
  ∀ ms, r = Ok ms → answer_ok ms.
Proof.
  intros Hmax Ht Hi. unfold serve_admitted. destruct (read_body _ _ _ _ _) as [[body|f] n] eqn:Eb; [|intros [= <- <-]; split_and!; auto; discriminate].
  cbv zeta. destruct (run_app _ _ _ _ _ _ _) as [[r' w] n'] eqn:Er. intros [= <- <-]. cbn. apply read_body_inv in Eb as [Hb Hcl]. split_and!; try done.
  - right. eexists _, body. split_and!; [done| |done]. by apply fit_downstream.
  - intros ms ->. eapply run_app_inv; [done| |exact Er]. by split_and!.
Qed.

Lemma serve_inv sc messages correlation g r g' : 0 ≤ max_response_bytes (bo_limits bo) → serve_ sc messages correlation g = (r, g') →
  gw_permits g' = gw_permits g ∧ gw_requests g' = gw_requests g ∧ request_effect g g' ∧ ∀ ms, r = Ok ms → answer_ok ms.
Proof.
  intros Hmax. unfold serve, mbind, G_bind, lift_result. destruct (transport_ sc) as [[[d ip] host]|f] eqn:Et; [|intros [= <- <-]; split_and!; [done..|by left|done]].
  apply transport_inv in Et. destruct (refuse_if _ _ "query_bearer_forbidden") as [u|f]; [|intros [= <- <-]; split_and!; [done..|by left|done]].
  pose proof (caller_keeps sc d g) as (Er1 & Ep1 & En1 & Ec1 & El1). destruct (caller _ _ _ _ _) as [[i|f] g1] eqn:Ea; cbn [snd] in Er1, Ep1, En1, Ec1, El1.
  2: { intros [= <- <-]. split_and!; [done..|by left|done]. }
  apply caller_inv in Ea.
  unfold check_rate. destruct (allow_ _ _ _ _ _) as [ok table] eqn:Eal. rewrite En1, Er1 in Eal. destruct ok.
  2: { intros [= <- <-]. cbn. split_and!; [done..| |done]. right. exists (rate_key i ip), false. cbn. rewrite Ec1, En1. split_and!; [done..|by left]. }
  unfold with_permit. cbn [gw_permits]. destruct (gw_permits g1 <=? 0).
  { intros [= <- <-]. cbn. split_and!; [done..| |done]. right. exists (rate_key i ip), true. cbn. rewrite Ec1, En1. split_and!; [done..|by left]. }
  destruct (serve_admitted _ _ _ _ _ _ _ _ _ _ _ _ _) as [r2 g2] eqn:Es.
  apply serve_admitted_inv in Es as (S1 & S2 & S3 & S4 & S5 & S6); [|done..]. cbn in S1, S2, S3, S4, S5. intros [= <- <-]. cbn. split_and!; [lia|congruence| |done].
  right. exists (rate_key i ip), true. rewrite En1 in *. cbn. rewrite S1, S4, Ec1. split_and!; [done..|]. rewrite El1 in S5. destruct S5 as [->|(ds & body & Hl & Hf & Hk)]; [by left|].
  right. split; [done|]. by exists ds, body.
Qed.

(** ** Executions *)

Definition gateway_run (requests : list (scope * list request_message)) (g : gateway (W := W)) : gateway (W := W) :=
  foldl (λ g q, (handle_ q.1 q.2 g).2) g requests.

Abbreviation rate_run_ := (rate_run (max_rate_keys (bo_limits bo)) (requests_per_window (bo_limits bo)) (rate_window (bo_limits bo))).

Definition gateway_inv (g : gateway (W := W)) : Prop :=
  gw_permits g = max_concurrency (bo_limits bo) ∧ (∀ e, e ∈ gw_log g → fit e.1.1 e.1.2) ∧
  gw_rate g = (rate_run_ (gw_calls g)).1 ∧ map (λ e, (entry_key e, e.2)) (gw_log g) `sublist_of` (rate_run_ (gw_calls g)).2 ∧
  (∀ c, c ∈ gw_calls g → ∃ n, (n < gw_requests g)%nat ∧ c.2 = clock n) ∧
  ((∀ m n, (m ≤ n)%nat → clock m ≤ clock n) → StronglySorted Z.le (map snd (gw_calls g))).

Lemma sorted_snoc l (x : Z) : StronglySorted Z.le l → (∀ y, y ∈ l → y ≤ x) → StronglySorted Z.le (l ++ [x])%list.
Proof.
  intros Hs Hall. induction l as [|y l IH]; cbn; [by repeat constructor|]. apply StronglySorted_inv in Hs as [Hs Hy]. constructor.
  - apply IH; [done|]. intros z Hz. apply Hall. by right.
  - apply Forall_app. split; [done|]. constructor; [|done]. apply Hall. by left.
Qed.

Lemma rate_run_snoc calls c : rate_run_ (calls ++ [c])%list = rate_step (max_rate_keys (bo_limits bo)) (requests_per_window (bo_limits bo)) (rate_window (bo_limits bo)) (rate_run_ calls) c.
Proof. unfold rate_run. by rewrite foldl_app. Qed.

Lemma effect_inv g g' : gateway_inv g → gw_permits g' = gw_permits g → gw_requests g' = gw_requests g → request_effect g g' → gateway_inv (count_request g').
Proof.
  intros (I1 & I2 & I3 & I4 & I5 & I6) Ep En He. unfold gateway_inv. cbn [gw_permits gw_log gw_rate gw_calls gw_requests count_request].
  rewrite En. destruct He as [(Er & Ec & El)|(key & ok & Ea & Ec & Hl)].
  - rewrite Er, Ec, El. split_and!; [congruence|done..| |done]. intros c (n & ? & ?)%I5. exists n. split; [lia|done].
  - assert (rate_run_ (gw_calls g') = (gw_rate g', if ok then (rate_run_ (gw_calls g)).2 ++ [(key, clock (gw_requests g))] else (rate_run_ (gw_calls g)).2)%list) as Hrun.
    { rewrite Ec, rate_run_snoc. unfold rate_step. cbn [fst snd]. by rewrite <-I3, Ea. }
    rewrite Hrun. cbn [fst snd]. split_and!.
    + congruence.
    + intros e He. destruct Hl as [E|(_ & ds & body & E & Hf & _)]; rewrite E in He; [auto|]. apply elem_of_app in He as [He| ->%list_elem_of_singleton]; auto.
    + done.
    + destruct Hl as [->|(-> & ds & body & -> & _ & Hk)]; [destruct ok; [by apply sublist_inserts_r|done]|]. rewrite map_app. apply sublist_app; [done|]. cbn in Hk |- *. by rewrite Hk.
    + intros c. rewrite Ec. intros [(n & ? & ?)%I5| ->%list_elem_of_singleton]%elem_of_app; [exists n; split; [lia|done]|exists (gw_requests g); split; [lia|done]].
    + intros Hmono. rewrite Ec, map_app. apply sorted_snoc; [by apply I6|]. intros y Hy. apply list_elem_of_In, in_map_iff in Hy as (c & <- & Hc).
      apply list_elem_of_In, I5 in Hc as (n & Hn & ->). apply Hmono. lia.
Qed.

Hypothesis limits_valid : admission_limits (bo_limits bo) = Ret (bo_limits bo).

Lemma limits_positive : 0 ≤ max_response_bytes (bo_limits bo) ∧ 0 < max_concurrency (bo_limits bo) ∧ (0 < requests_per_window (bo_limits bo))%nat ∧
  0 < rate_window (bo_limits bo) ∧ (0 < max_rate_keys (bo_limits bo))%nat.
Proof.
  pose proof limits_valid as E. unfold admission_limits in E. apply obind_inv in E as (u1 & _ & E). apply obind_inv in E as (u2 & _ & E).
  apply obind_inv in E as (u3 & H3%throw_if_inv & E). apply obind_inv in E as (u4 & H4%throw_if_inv & E). apply obind_inv in E as (u5 & H5%throw_if_inv & E).
  apply obind_inv in E as (u6 & H6%throw_if_inv & E). apply obind_inv in E as (u7 & H7%throw_if_inv & _).
  rewrite negb_false_iff, andb_true_iff in H3, H4, H5, H6, H7. lia.
Qed.

Lemma handle_inv q g : gateway_inv g → gateway_inv (handle_ q.1 q.2 g).2.
Proof.
  intros Hg. destruct limits_positive as (H1 & H2 & _). unfold handle. destruct (serve_ _ _ _ g) as [r g'] eqn:E. cbn [snd].
  apply serve_inv in E as (Hp & Hn & He & _); [|done]. by apply (effect_inv g).
Qed.

Lemma gateway_run_inv requests w : gateway_inv (gateway_run requests (new_gateway bo w)).
Proof.
  unfold gateway_run. assert (gateway_inv (new_gateway bo w)) as H0.
  { split_and!; [done|by intros e ?%not_elem_of_nil|done|done|by intros c ?%not_elem_of_nil|constructor]. }
  revert H0. generalize (new_gateway bo w). induction requests as [|q requests IH]; intros g Hg; [done|]. cbn. apply IH. by apply handle_inv.
Qed.

(** C22: Whatever is requested, and whatever the application and the
    authenticator do: every request that reached the application had a body
    within its bound and as long as announced, no forwarded header, exactly one
    Host, which is an allowed one, an allowed Origin if any, and a caller whom
    the authenticator knew by the Authorization header that the application
    sees, unless the page is public; and every permit has been given back. *)
Theorem only_admitted_requests_reach_the_application requests w :
  let g := gateway_run requests (new_gateway bo w) in
  gw_permits g = max_concurrency (bo_limits bo) ∧ ∀ ds body t, (ds, body, t) ∈ gw_log g → fit ds body.
Proof. intros g. destruct (gateway_run_inv requests w) as (Hp & Hf & _). split; [done|]. intros ds body t He. exact (Hf _ He). Qed.

(** With a clock that does not go back and no more callers than the limiter
    has room for, the application gets at most [requests_per_window] requests of
    one caller in any window. *)
Theorem callers_are_rate_limited (X : gset string) requests w : (∀ m n, (m ≤ n)%nat → clock m ≤ clock n) →
  (∀ c, c ∈ gw_calls (gateway_run requests (new_gateway bo w)) → c.1 ∈ X) → (size X ≤ max_rate_keys (bo_limits bo))%nat →
  ∀ key from, (granted_within key from (from + rate_window (bo_limits bo))
                 (map (λ e, (rate_key (ds_principal e.1.1) (ds_client_ip e.1.1), e.2)) (gw_log (gateway_run requests (new_gateway bo w))))
               ≤ requests_per_window (bo_limits bo))%nat.
Proof.
  intros Hmono HX Hsize key from. destruct (gateway_run_inv requests w) as (_ & _ & _ & Hsub & _ & Hsort). specialize (Hsort Hmono).
  destruct limits_positive as (_ & _ & Hl & Hw & Hm). etrans; [apply (granted_within_sublist _ _ _ _ _ Hsub)|]. by apply (granted_bounded _ _ _ Hl Hm Hw X).
Qed.

(** ** What the client gets *)

Definition security_headers (correlation : string) : header_list :=
  (SECURITY_RESPONSE_HEADERS ++ [("referrer-policy", bo_referrer bo); ("x-correlation-id", correlation)])%list.

(** The security headers are there, and nothing else under their names. *)
Definition secured (correlation : string) (h : header_list) : Prop :=
  ∀ p, p ∈ security_headers correlation → p ∈ h ∧ ∀ e, e ∈ h → lower e.1 = p.1 → e = p.

Lemma security_names correlation p : p ∈ security_headers correlation → mem p.1 replaced_headers = true ∧ lower p.1 = p.1.
Proof.
  intros Hp. assert (Forall (λ p, mem p.1 replaced_headers = true ∧ lower p.1 = p.1) (security_headers correlation)) as H; [by repeat constructor|].
  by apply (proj1 (list.Forall_forall _ _) H).
Qed.

Lemma security_names_nodup correlation : NoDup (map fst (security_headers correlation)).
Proof. by apply (bool_decide_unpack _). Qed.

Lemma nodup_fst {A B} (l : list (A * B)) x y : NoDup (map fst l) → x ∈ l → y ∈ l → x.1 = y.1 → x = y.
Proof.
  induction l as [|z l IH]; [by intros _ ?%not_elem_of_nil|]. cbn. intros [Hz Hn]%list.NoDup_cons [->|Hx]%elem_of_cons [->|Hy]%elem_of_cons E; [done| | |auto].
  - exfalso. apply Hz. rewrite E. by apply (list_elem_of_fmap_2 fst).
  - exfalso. apply Hz. rewrite <-E. by apply (list_elem_of_fmap_2 fst).
Qed.

Lemma secure_headers_secured existing correlation extra : (∀ e, e ∈ extra → mem (lower e.1) replaced_headers = false) →
  secured correlation (secure_headers bo existing correlation ++ extra)%list.
Proof.
  intros Hextra p Hp. pose proof (security_names _ _ Hp) as [Hm _]. unfold secure_headers. fold (security_headers correlation). split; [set_solver|].
  intros e. rewrite !elem_of_app. intros [[He|He]|He] El.
  - exfalso. apply list_elem_of_In, filter_In in He as [_ He]. rewrite El, Hm in He. done.
  - pose proof (security_names _ _ He) as [_ Hl]. apply (nodup_fst (security_headers correlation)); [apply security_names_nodup|done|done|congruence].
  - exfalso. apply Hextra in He. rewrite El, Hm in He. done.
Qed.

(** An answer: one start with the security headers, then the chunks. *)
Definition answered (correlation : string) (out : list response_message) : Prop := ∃ status h bodies,
  out = ResponseStart status h :: map body_of bodies ∧ secured correlation h ∧ chunks_ok true bodies ∧
  ((∃ code, bodies = [(print (JObj [("error", JStr code)]), false)]) ∨ total bodies ≤ max_response_bytes (bo_limits bo)).

Lemma reject_answered status code correlation authenticate retry_after : answered correlation (reject bo status code correlation authenticate retry_after).
Proof.
  unfold reject, answered. eexists status, _, [(_, false)]. split_and!; [reflexivity| | |left; by exists code].
  - apply secure_headers_secured. intros e. destruct authenticate, retry_after; set_solver.
  - exists [], (print (JObj [("error", JStr code)])). done.
Qed.

(** C23: Whatever the application does, the client gets one start of a response
    with the security headers, no others under their names, and the chunks up
    to the last one, within the bound; or else a refusal whose body is only an
    error code. *)
Theorem answers_are_bounded_and_secured sc messages g :
  answered (uuid4_hex (gw_requests g)) (handle_ sc messages g).1.
Proof.
  unfold handle. destruct (serve_ _ _ _ g) as [r g'] eqn:E. cbn [fst]. destruct limits_positive as [Hmax _]. apply serve_inv in E as (_ & _ & _ & Ha); [|done].
  destruct r as [ms|[| |status code a|e]]; cbn [respond]; [|apply reject_answered..]. destruct (Ha ms eq_refl) as (status & h & bodies & -> & _ & Ht & Hc).
  exists status, (secure_headers bo h (uuid4_hex (gw_requests g))), bodies. split_and!; [|rewrite <-(app_nil_r (secure_headers _ _ _))|done|by right].
  - cbn. f_equal. rewrite map_map. by apply map_ext.
  - apply secure_headers_secured. by intros e ?%not_elem_of_nil.
Qed.
End safety.

(** ** A morning at the boundary *)
Module Boundary.
Definition limits : AdmissionLimits := mk_AdmissionLimits 32768 64 64 16 2 60000000 4096.
Definition config : boundary :=
  mk_boundary limits [("hub.example", None)] ["https://app.example"] ["10.0.0.1"] ["/.well-known/oauth-protected-resource"]
    (Some "https://hub.example/.well-known/oauth-protected-resource") "no-referrer" true.
Definition known_address (s : string) : option string := if mem s ["10.0.0.1"; "192.0.2.7"; "198.51.100.3"] then Some s else None.
Definition split (s : string) : option origin_url :=
  if s == "https://app.example" then Some (mk_origin_url "https" "app.example" None None "" "" "" (Some "app.example") (Some None)) else None.
Definition names (q : string) : list string := if startswith "access_token=" q then ["access_token"] else [].
Definition alice : AccessIdentity := mk_AccessIdentity "alice" "client" ["mcp:read"] "aud" "t1" 2000 "https://auth.example" 1000 "https://hub.example/mcp".
Definition knows (h : string) : M nat (option AccessIdentity) := λ n,
  if h == "Bearer good" then (Ret (Some alice), S n) else (Exc (Exn TokenValidationError "invalid_token"), S n).
(** It reads the body and sends it back; a body "leak" makes it raise, and a
    long one makes it send too much. *)
Definition echo (ds : downstream) (n : nat) : app_run nat :=
  AppReceive n (λ m, match m with
                     | Request (Some "leak") _ => AppDone (Error (Failed (Exn RuntimeError "password=hunter2"))) n
                     | Request (Some b) _ => AppSend n (ResponseStart 200 [("X-Frame-Options", "ALLOW")]) (λ _,
                                               AppSend n (ResponseBody (Some (b +:+ b)) false) (λ o, AppDone o n))
                     | _ => AppDone (Ok tt) n
                     end).
Definition post (client : string) (headers : header_list) (body : string) : scope * list request_message :=
  (mk_scope "POST" "/mcp" "" headers client, [Request (Some body) false]).
Definition good : header_list := [("Host", "hub.example"); ("Authorization", "Bearer good")].
Definition requests : list (scope * list request_message) :=
  [post "198.51.100.3" good "hello";
   post "198.51.100.3" (good ++ [("X-Forwarded-For", "192.0.2.7")])%list "forged";
   post "10.0.0.1" [("X-Forwarded-Host", "hub.example:443"); ("X-Forwarded-Proto", "https"); ("X-Forwarded-For", "192.0.2.7");
                    ("Authorization", "Bearer good"); ("Origin", "https://app.example"); ("Content-Length", "4")] "leak";
   post "198.51.100.3" [("Host", "evil.example"); ("Authorization", "Bearer good")] "rebinding";
   post "198.51.100.3" [("Host", "hub.example"); ("Authorization", "Bearer bad")] "unknown";
   post "198.51.100.3" good "a third one within the minute"].

Abbreviation run := (gateway_run (λ _, None) known_address Some split names config knows echo (λ n, Z.of_nat n * 1000000) (λ _, "corr") (λ _ _, false) loads).
Abbreviation answer := (handle (λ _, None) known_address Some split names config knows echo (λ n, Z.of_nat n * 1000000) (λ _, "corr") (λ _ _, false) loads).

Lemma limits_ok : admission_limits limits = Ret limits.
Proof. vm_compute. reflexivity. Qed.

(** The first and the third request reached the application. *)
Definition seen : list (string * string) := map (λ e, (e.1.2, ds_client_ip e.1.1)) (gw_log (run requests (new_gateway config 0%nat))).
Lemma seen_check : seen = [("hello", "198.51.100.3"); ("leak", "192.0.2.7")].
Proof. vm_compute. reflexivity. Qed.

Definition callers : gset string := {["principal:https://auth.example:client:alice"]}.
Lemma callers_check : forallb (λ c, bool_decide (c.1 ∈ callers)) (gw_calls (run requests (new_gateway config 0%nat))) && (size callers <=? 4096)%nat = true.
Proof. vm_compute. reflexivity. Qed.

Lemma few (X : gset string) (calls : list (string * Z)) (n : nat) : forallb (λ c, bool_decide (c.1 ∈ X)) calls && (size X <=? n)%nat = true →
  (∀ c, c ∈ calls → c.1 ∈ X) ∧ (size X ≤ n)%nat.
Proof.
  intros [H1 H2]%andb_true_iff. split; [|by apply Nat.leb_le]. intros c Hc%list_elem_of_In. rewrite forallb_forall in H1. by apply H1, bool_decide_eq_true in Hc.
Qed.

Lemma clock_ok m n : (m ≤ n)%nat → Z.of_nat m * 1000000 ≤ Z.of_nat n * 1000000.
Proof. lia. Qed.

(** What the client gets where the application raised: no text of it. *)
Definition failed_body : option response_message := nth_error (answer (nth 2 requests (post "" [] "")).1 (nth 2 requests (post "" [] "")).2 (new_gateway config 0%nat)).1 1.
Lemma failed_check : failed_body = Some (ResponseBody (Some (print (JObj [("error", JStr "internal_error")]))) false).
Proof. vm_compute. reflexivity. Qed.
End Boundary.

Lemma only_admitted_requests_reach_the_application_witness :
  Boundary.seen = [("hello", "198.51.100.3"); ("leak", "192.0.2.7")] ∧
  gw_permits (Boundary.run Boundary.requests (new_gateway Boundary.config 0%nat)) = 16 ∧
  ∀ ds body t, (ds, body, t) ∈ gw_log (Boundary.run Boundary.requests (new_gateway Boundary.config 0%nat)) →
    fit (λ _, None) Boundary.known_address Some Boundary.split Boundary.config Boundary.knows ds body.
Proof.
  exact (conj Boundary.seen_check
    (only_admitted_requests_reach_the_application (λ _, None) Boundary.known_address Some Boundary.split Boundary.names Boundary.config Boundary.knows Boundary.echo
       (λ n, Z.of_nat n * 1000000) (λ _, "corr") (λ _ _, false) loads Boundary.limits_ok Boundary.requests 0%nat)).
Defined.

Lemma callers_are_rate_limited_witness :
  forallb (λ c, bool_decide (c.1 ∈ Boundary.callers)) (gw_calls (Boundary.run Boundary.requests (new_gateway Boundary.config 0%nat))) && (size Boundary.callers <=? 4096)%nat = true ∧
  ∀ key from, (granted_within key from (from + 60000000)
                 (map (λ e, (rate_key (ds_principal e.1.1) (ds_client_ip e.1.1), e.2)) (gw_log (Boundary.run Boundary.requests (new_gateway Boundary.config 0%nat)))) ≤ 2)%nat.
Proof.
  exact (conj Boundary.callers_check
    (callers_are_rate_limited (λ _, None) Boundary.known_address Some Boundary.split Boundary.names Boundary.config Boundary.knows Boundary.echo
       (λ n, Z.of_nat n * 1000000) (λ _, "corr") (λ _ _, false) loads Boundary.limits_ok Boundary.callers Boundary.requests 0%nat Boundary.clock_ok
       (proj1 (Boundary.few _ _ _ Boundary.callers_check)) (proj2 (Boundary.few _ _ _ Boundary.callers_check)))).
Defined.

Lemma answers_are_bounded_and_secured_witness :
  Boundary.failed_body = Some (ResponseBody (Some (print (JObj [("error", JStr "internal_error")]))) false) ∧
  answered Boundary.config "corr" (Boundary.answer (nth 2 Boundary.requests (Boundary.post "" [] "")).1 (nth 2 Boundary.requests (Boundary.post "" [] "")).2
                                     (new_gateway Boundary.config 0%nat)).1.
Proof.
  exact (conj Boundary.failed_check
    (answers_are_bounded_and_secured (λ _, None) Boundary.known_address Some Boundary.split Boundary.names Boundary.config Boundary.knows Boundary.echo
       (λ n, Z.of_nat n * 1000000) (λ _, "corr") (λ _ _, false) loads Boundary.limits_ok (nth 2 Boundary.requests (Boundary.post "" [] "")).1
       (nth 2 Boundary.requests (Boundary.post "" [] "")).2 (new_gateway Boundary.config 0%nat))).
Defined.
